(** * gps-admin: event classifier and event-list exporter

    A shallow embedding of the classification heuristics of [EventProcessor]
    (as exercised by [tests/analytics-filtering.test.js]) and of the
    [EventListExporter] class of [js/event-list-export.js], together with the
    properties stated about them.  Part III adds the code around them:
    [Utils.escapeHtml], the template store of [js/templates.js] with its
    multi-day bookings, and the store of export presets.

    Conventions of the embedding:
    - a JavaScript string is the list of its UTF-16 code units;
    - a regular expression literal is a value of [regex] run by a
      backtracking matcher with the priorities of the ECMAScript matcher
      (leftmost start, first alternative first, greedy repetition);
    - a [Date] is its time value in milliseconds; local time is UTC shifted by
      the offset [LocalTZA] of the platform's time zone, which may change
      with time (daylight saving); the events of [Event] carry valid dates,
      and where an invalid date matters ([Exporter.Incoming]) a [Date] is
      the option of its time value;
    - a title is a string or is missing; where the type of the argument
      matters ([Exporter.extractClientNameOf]) it is a [Value];
    - numbers that the code manipulates are integers of moderate size, so
      they are modelled by [Z];
    - built-ins whose result depends on Unicode tables, on the locale or on
      the implementation ([toLowerCase], [localeCompare], [Date] parsing of
      free text, [Number] of free text) are fields of the [Platform] class. *)

From Stdlib Require Import String Ascii.
From Stdlib Require Import ZArith NArith List Bool Lia.
From Stdlib Require Import Permutation Sorted.
Import ListNotations.

Set Implicit Arguments.

(* ===================================================================== *)
(** * Part I: definitions                                                 *)
(* ===================================================================== *)

(** ** JavaScript strings *)

Module Str.

Abbreviation char := N (only parsing).
Abbreviation jsstring := (list N) (only parsing).

(** An ASCII literal as a JavaScript string. *)
Definition lit (s : string) : jsstring :=
  map N_of_ascii (list_ascii_of_string s).

Definition ceqb (a b : char) : bool := N.eqb a b.

Fixpoint eqb (a b : jsstring) : bool :=
  match a, b with
  | [], [] => true
  | x :: a', y :: b' => ceqb x y && eqb a' b'
  | _, _ => false
  end.

(** [WhiteSpace] and [LineTerminator] code points: the characters removed
    by [String.prototype.trim] and matched by the class escape [\s]. *)
Definition isWhiteSpace (c : char) : bool :=
  ((9 <=? c) && (c <=? 13) || (c =? 32) || (c =? 160) || (c =? 5760)
   || (8192 <=? c) && (c <=? 8202) || (c =? 8232) || (c =? 8233)
   || (c =? 8239) || (c =? 8287) || (c =? 12288) || (c =? 65279))%N.

(** The class escape [\w], which also defines the assertion [\b]. *)
Definition isWordChar (c : char) : bool :=
  ((48 <=? c) && (c <=? 57) || (65 <=? c) && (c <=? 90)
   || (97 <=? c) && (c <=? 122) || (c =? 95))%N.

(** [Canonicalize] of the ECMAScript matcher under the [i] flag without the
    [u] flag.  A character outside ASCII is never mapped into ASCII, so for
    the comparison with the ASCII letters of a pattern only the ASCII
    letters fold; the other pattern characters of this code base (digits,
    punctuation, dashes, U+2728) have no case. *)
Definition canonicalize (c : char) : char :=
  if ((97 <=? c) && (c <=? 122))%N then (c - 32)%N else c.

Fixpoint trimStart (s : jsstring) : jsstring :=
  match s with
  | c :: s' => if isWhiteSpace c then trimStart s' else s
  | [] => []
  end.

Definition trimEnd (s : jsstring) : jsstring := rev (trimStart (rev s)).

Definition trim (s : jsstring) : jsstring := trimEnd (trimStart s).

Fixpoint startsWith (p s : jsstring) : bool :=
  match p, s with
  | [], _ => true
  | x :: p', y :: s' => ceqb x y && startsWith p' s'
  | _ :: _, [] => false
  end.

(** [s.includes(sub)] *)
Fixpoint includes (s sub : jsstring) : bool :=
  startsWith sub s ||
  match s with
  | _ :: s' => includes s' sub
  | [] => false
  end.

(** [s.includes(c)] for a one-character string [c]. *)
Definition includesChar (s : jsstring) (c : char) : bool :=
  existsb (ceqb c) s.

Definition repeat_str (s : jsstring) (n : nat) : jsstring :=
  concat (repeat s n).

(** [s.padStart(n, "0")] *)
Definition padStart0 (n : nat) (s : jsstring) : jsstring :=
  repeat 48%N (n - length s) ++ s.

(** Decimal digits of a natural number, most significant first. *)
Fixpoint digitsFuel (fuel : nat) (n : N) (acc : jsstring) : jsstring :=
  match fuel with
  | O => acc
  | S f =>
      let acc' := (48 + n mod 10)%N :: acc in
      if (n <? 10)%N then acc' else digitsFuel f (n / 10)%N acc'
  end.

Definition digits (n : N) : jsstring :=
  digitsFuel (S (N.to_nat (N.log2 n))) n [].

(** [String(z)] for an integer. *)
Definition ofZ (z : Z) : jsstring :=
  if (z <? 0)%Z then 45%N :: digits (Z.to_N (- z)) else digits (Z.to_N z).

End Str.

Import Str.

(** ** Regular expressions *)

Module Regex.

(** The fragment of the pattern language that the sources use.  Repetition
    ([*], [+]) is only ever applied to a single-character class there, hence
    [Star] carries a class. *)
Inductive regex : Type :=
| Void                         (* never matches *)
| Eps                          (* the empty pattern *)
| Chr (c : char)               (* a pattern character *)
| Cls (p : char -> bool)       (* one character of a class *)
| Seq (r1 r2 : regex)
| Alt (r1 r2 : regex)
| Star (p : char -> bool)      (* greedy [p*] *)
| Bol                          (* ^ *)
| Eol                          (* $ *)
| WordB.                       (* \b *)

Definition Plus (p : char -> bool) : regex := Seq (Cls p) (Star p).
Definition Opt (r : regex) : regex := Alt r Eps.
Definition Word (w : jsstring) : regex := fold_right (fun c r => Seq (Chr c) r) Eps w.
Definition W (s : string) : regex := Word (lit s).
Definition seqs (l : list regex) : regex := fold_right Seq Eps l.
Definition alts (l : list regex) : regex := fold_right Alt Void l.

(** A regular expression literal: pattern and [i] flag. *)
Record pattern := Pattern { pat : regex; ignoreCase : bool }.

(** Continuations receive the character before the current position
    ([None] at the start of the input) and the rest of the input. *)
Definition cont := option char -> jsstring -> option jsstring.

Definition chrMatch (i : bool) (c x : char) : bool :=
  if i then ceqb (canonicalize c) (canonicalize x) else ceqb c x.

Definition isWordOpt (o : option char) : bool :=
  match o with Some c => isWordChar c | None => false end.

Definition atWordBoundary (prev : option char) (s : jsstring) : bool :=
  xorb (isWordOpt prev) (isWordOpt (hd_error s)).

Fixpoint starK (p : char -> bool) (k : cont) (prev : option char) (s : jsstring)
  : option jsstring :=
  match s with
  | x :: s' =>
      if p x then
        match starK p k (Some x) s' with
        | Some r => Some r
        | None => k prev s
        end
      else k prev s
  | [] => k prev s
  end.

(** The backtracking matcher: [m i r k prev s] matches [r] at the front of
    [s] and hands the rest to [k]; the result is what [k] returns for the
    first way of matching that [k] accepts. *)
Fixpoint m (i : bool) (r : regex) (k : cont) (prev : option char) (s : jsstring)
  : option jsstring :=
  match r with
  | Void => None
  | Eps => k prev s
  | Chr c =>
      match s with
      | x :: s' => if chrMatch i c x then k (Some x) s' else None
      | [] => None
      end
  | Cls p =>
      match s with
      | x :: s' => if p x then k (Some x) s' else None
      | [] => None
      end
  | Seq r1 r2 => m i r1 (m i r2 k) prev s
  | Alt r1 r2 =>
      match m i r1 k prev s with
      | Some res => Some res
      | None => m i r2 k prev s
      end
  | Star p => starK p k prev s
  | Bol => match prev with None => k prev s | Some _ => None end
  | Eol => match s with [] => k prev s | _ :: _ => None end
  | WordB => if atWordBoundary prev s then k prev s else None
  end.

Definition accept : cont := fun _ rest => Some rest.

(** A match attempt at the current position: the input left after it. *)
Definition matchHere (p : pattern) (prev : option char) (s : jsstring)
  : option jsstring :=
  m (ignoreCase p) (pat p) accept prev s.

(** [RegExp.prototype.exec] on a pattern without the [g] flag: the leftmost
    position with a match; the result is (text before, matched text, text
    after). *)
Fixpoint execFrom (p : pattern) (prev : option char) (s : jsstring)
  : option (jsstring * jsstring * jsstring) :=
  match matchHere p prev s with
  | Some rest => Some ([], firstn (length s - length rest) s, rest)
  | None =>
      match s with
      | x :: s' =>
          match execFrom p (Some x) s' with
          | Some (pre, mid, post) => Some (x :: pre, mid, post)
          | None => None
          end
      | [] => None
      end
  end.

Definition exec (p : pattern) (s : jsstring) := execFrom p None s.

(** [p.test(s)] *)
Definition test (p : pattern) (s : jsstring) : bool :=
  match exec p s with Some _ => true | None => false end.

(** [s.match(p)[0]] for a pattern without the [g] flag. *)
Definition match0 (p : pattern) (s : jsstring) : option jsstring :=
  match exec p s with Some (_, mid, _) => Some mid | None => None end.

(** [s.replace(p, repl)] for a pattern without the [g] flag. *)
Definition replace (p : pattern) (repl s : jsstring) : jsstring :=
  match exec p s with
  | Some (pre, _, post) => pre ++ repl ++ post
  | None => s
  end.

(** [s.replace(p, repl)] for a pattern with the [g] flag.  [skip] counts the
    characters of the current match still to be dropped; after an empty
    match the scan moves on by one character. *)
Fixpoint replaceAllFrom (p : pattern) (repl : jsstring) (skip : nat)
  (prev : option char) (s : jsstring) {struct s} : jsstring :=
  match skip, s with
  | S n, x :: s' => replaceAllFrom p repl n (Some x) s'
  | S _, [] => []
  | O, _ =>
      match matchHere p prev s with
      | Some rest =>
          match (length s - length rest)%nat, s with
          | O, x :: s' => repl ++ x :: replaceAllFrom p repl 0 (Some x) s'
          | S n, x :: s' => repl ++ replaceAllFrom p repl n (Some x) s'
          | _, [] => repl
          end
      | None =>
          match s with
          | x :: s' => x :: replaceAllFrom p repl 0 (Some x) s'
          | [] => []
          end
      end
  end.

Definition replaceAll (p : pattern) (repl s : jsstring) : jsstring :=
  replaceAllFrom p repl 0 None s.

End Regex.

Import Regex.

(** ** Dates

    The time-value functions of the ECMAScript specification (section
    "Date objects"), on integers.  A [Date] object is modelled by its time
    value; the data model of events gives every event valid timestamps, so
    invalid dates only arise from parsing free text. *)

Module DateTime.

Local Open Scope Z_scope.

Definition msPerDay : Z := 86400000.
Definition msPerHour : Z := 3600000.
Definition msPerMinute : Z := 60000.

Definition Day (t : Z) : Z := t / msPerDay.
Definition TimeWithinDay (t : Z) : Z := t mod msPerDay.

Definition DaysInYear (y : Z) : Z :=
  if negb (y mod 4 =? 0) then 365
  else if negb (y mod 100 =? 0) then 366
  else if negb (y mod 400 =? 0) then 365
  else 366.

Definition DayFromYear (y : Z) : Z :=
  365 * (y - 1970) + (y - 1969) / 4 - (y - 1901) / 100 + (y - 1601) / 400.

(** The largest year [y] with [DayFromYear y <= d]: an estimate from the
    mean length of a Gregorian year, corrected by at most one. *)
Definition YearFromDay (d : Z) : Z :=
  let e := 1970 + (400 * d) / 146097 in
  if DayFromYear (e + 1) <=? d then e + 1
  else if DayFromYear e <=? d then e
  else e - 1.

Definition YearFromTime (t : Z) : Z := YearFromDay (Day t).

Definition InLeapYear (t : Z) : Z :=
  if DaysInYear (YearFromTime t) =? 366 then 1 else 0.

Definition DayWithinYear (t : Z) : Z := Day t - DayFromYear (YearFromTime t).

(** Number of days of the year before month [mn] (0 = January). *)
Definition monthStart (leap mn : Z) : Z :=
  match mn with
  | 0 => 0
  | 1 => 31
  | 2 => 59 + leap
  | 3 => 90 + leap
  | 4 => 120 + leap
  | 5 => 151 + leap
  | 6 => 181 + leap
  | 7 => 212 + leap
  | 8 => 243 + leap
  | 9 => 273 + leap
  | 10 => 304 + leap
  | _ => 334 + leap
  end.

Definition MonthFromTime (t : Z) : Z :=
  let d := DayWithinYear t in
  let l := InLeapYear t in
  if d <? 31 then 0
  else if d <? 59 + l then 1
  else if d <? 90 + l then 2
  else if d <? 120 + l then 3
  else if d <? 151 + l then 4
  else if d <? 181 + l then 5
  else if d <? 212 + l then 6
  else if d <? 243 + l then 7
  else if d <? 273 + l then 8
  else if d <? 304 + l then 9
  else if d <? 334 + l then 10
  else 11.

Definition DateFromTime (t : Z) : Z :=
  DayWithinYear t - monthStart (InLeapYear t) (MonthFromTime t) + 1.

Definition WeekDay (t : Z) : Z := (Day t + 4) mod 7.
Definition HourFromTime (t : Z) : Z := (t / msPerHour) mod 24.
Definition MinFromTime (t : Z) : Z := (t / msPerMinute) mod 60.

Definition MakeDay (year month date : Z) : Z :=
  let ym := year + month / 12 in
  let mn := month mod 12 in
  let leap := if DaysInYear ym =? 366 then 1 else 0 in
  DayFromYear ym + monthStart leap mn + date - 1.

Definition MakeDate (day time : Z) : Z := day * msPerDay + time.

End DateTime.

Import DateTime.

(** ** The platform *)

Class Platform := {
  (** [LocalTZA(t, isUTC)]: the offset of local time from UTC in
      milliseconds, at the UTC time value [t] when [isUTC] holds and at the
      local time value [t] otherwise *)
  LocalTZA : Z -> bool -> Z;
  (** [String.prototype.toLowerCase] *)
  toLowerCase : jsstring -> jsstring;
  (** [String.prototype.localeCompare] *)
  localeCompare : jsstring -> jsstring -> Z;
  (** the time value of [new Date(text)]; [None] for an invalid date *)
  parseDate : jsstring -> option Z
}.

Section LocalDates.

Context `{Platform}.
Local Open Scope Z_scope.

Definition LocalTime (t : Z) : Z := t + LocalTZA t true.
Definition UTC (t : Z) : Z := t - LocalTZA t false.

Definition getFullYear (t : Z) : Z := YearFromTime (LocalTime t).
Definition getMonth (t : Z) : Z := MonthFromTime (LocalTime t).
Definition getDate (t : Z) : Z := DateFromTime (LocalTime t).
Definition getDay (t : Z) : Z := WeekDay (LocalTime t).
Definition getHours (t : Z) : Z := HourFromTime (LocalTime t).
Definition getMinutes (t : Z) : Z := MinFromTime (LocalTime t).

(** [new Date(year, month, date)]: local midnight of that day; a year in
    [0..99] stands for [1900 + year]. *)
Definition newDate (year month date : Z) : Z :=
  let yr := if (0 <=? year) && (year <=? 99) then 1900 + year else year in
  UTC (MakeDate (MakeDay yr month date) 0).

(** [d.setDate(date)] *)
Definition setDate (t date : Z) : Z :=
  let lt := LocalTime t in
  UTC (MakeDate (MakeDay (YearFromTime lt) (MonthFromTime lt) date)
                (TimeWithinDay lt)).

(** [d.setHours(0, 0, 0, 0)] *)
Definition setHours0 (t : Z) : Z :=
  UTC (MakeDate (Day (LocalTime t)) 0).

(** The calendar day of a time value in local time, as a day number. *)
Definition localDay (t : Z) : Z := Day (LocalTime t).

(** Local midnight at the start of the calendar day of a time value. *)
Definition localMidnight (t : Z) : Z := UTC (localDay t * msPerDay).

(** A year that the [Date] constructor takes as it is (not in [0..99]). *)
Definition plainYear (t : Z) : Prop := getFullYear t < 0 \/ 99 < getFullYear t.

(** The offset in force at local midnight of the calendar day of [t]. *)
Definition midnightOffset (t : Z) : Z := LocalTZA (localDay t * msPerDay) false.

(** The offsets of the zone differ by less than a day. *)
Definition steadyOffsets : Prop :=
  forall s t, Z.abs (LocalTZA s false - LocalTZA t false) < msPerDay.

End LocalDates.

(** ** Events *)

(** An event whose start and end are valid dates: [start] and [end_] are
    the time values of [new Date(event.start)] and [new Date(event.end)]. *)
Record Event := {
  title : option jsstring;      (* [None]: the property is missing *)
  start : Z;
  end_ : Z;
  location : option jsstring;
  type : option jsstring
}.

(** [x || ''] for an optional string. *)
Definition orEmpty (o : option jsstring) : jsstring :=
  match o with Some s => s | None => [] end.

Definition orEmptyList (A : Type) (o : option (list A)) : list A :=
  match o with Some l => l | None => [] end.

(** ** The event classifier ([tests/analytics-filtering.test.js]) *)

Module EventProcessor.

Definition dash : char := 45%N.       (* - *)
Definition enDash : char := 8211%N.   (* U+2013 *)
Definition emDash : char := 8212%N.   (* U+2014 *)
Definition sparkles : char := 10024%N. (* U+2728 *)

Definition ws : char -> bool := isWhiteSpace.
Definition hyphenOrEnDash (c : char) : bool := ceqb c dash || ceqb c enDash.

(** [(?:\s*[-–]?\s*(Start|1st|2nd|3rd|Last))?] *)
Definition sequenceSuffix : regex :=
  Opt (seqs [Star ws; Opt (Cls hyphenOrEnDash); Star ws;
             alts [W "Start"; W "1st"; W "2nd"; W "3rd"; W "Last"]]).

(** [/\b(MG|M&G|Meet\s*&\s*Greet)\b/i] *)
Definition meetAndGreet : pattern :=
  Pattern
    (seqs [WordB;
           alts [W "MG"; W "M&G";
                 seqs [W "Meet"; Star ws; W "&"; Star ws; W "Greet"]];
           WordB])
    true.

(** [/\b(15|20|30|45|60)\b(?:\s*[-–]?\s*(Start|1st|2nd|3rd|Last))?$/i] *)
Definition minutesSuffix : pattern :=
  Pattern
    (seqs [WordB; alts [W "15"; W "20"; W "30"; W "45"; W "60"]; WordB;
           sequenceSuffix; Eol])
    true.

(** [/\b(HS|Housesit)\b(?:\s*[-–]?\s*(Start|1st|2nd|3rd|Last))?$/i] *)
Definition houseSitSuffix : pattern :=
  Pattern
    (seqs [WordB; alts [W "HS"; W "Housesit"]; WordB; sequenceSuffix; Eol])
    true.

(** [/\b(nail\s*trim)\b/i] *)
Definition nailTrim : pattern :=
  Pattern (seqs [WordB; W "nail"; Star ws; W "trim"; WordB]) true.

(** [/^\s*✨\s*off\s*✨|^\s*off\s*[-–]/i] *)
Definition offDay : pattern :=
  Pattern
    (Alt (seqs [Bol; Star ws; Chr sparkles; Star ws; W "off"; Star ws;
                Chr sparkles])
         (seqs [Bol; Star ws; W "off"; Star ws; Cls hyphenOrEnDash]))
    true.

(** [/\b(lunch|appointment with|therapy|birthday|anniversary|shower)\b/i] *)
Definition personalKeywords : pattern :=
  Pattern
    (seqs [WordB;
           alts [W "lunch"; W "appointment with"; W "therapy"; W "birthday";
                 W "anniversary"; W "shower"];
           WordB])
    true.

(** [/\b(doctor|dentist|massage|nails|haircut|tattoo|yoga|acupuncture)\b/i] *)
Definition medicalPersonal : pattern :=
  Pattern
    (seqs [WordB;
           alts [W "doctor"; W "dentist"; W "massage"; W "nails"; W "haircut";
                 W "tattoo"; W "yoga"; W "acupuncture"];
           WordB])
    true.

(** [/\b(house clean|kroger|grocery)\b/i] *)
Definition household : pattern :=
  Pattern
    (seqs [WordB; alts [W "house clean"; W "kroger"; W "grocery"]; WordB])
    true.

(** [/\b(momentum|meeting with|webinar)\b/i] *)
Definition socialBusiness : pattern :=
  Pattern
    (seqs [WordB; alts [W "momentum"; W "meeting with"; W "webinar"]; WordB])
    true.

(** [Object.values(this.personalEventPatterns)], in insertion order. *)
Definition personalEventPatterns : list pattern :=
  [offDay; personalKeywords; medicalPersonal; household; socialBusiness].

Definition notParen (c : char) : bool := negb (ceqb c 41%N).

(** [/\([^)]*\)/g] *)
Definition parenthetical : pattern :=
  Pattern (seqs [Chr 40%N; Star notParen; Chr 41%N]) false.

(** The argument of the classifier functions: a string, or anything else
    ([null], [undefined], a missing property), for which [!title ||
    typeof title !== 'string'] holds. *)
Definition isBlank (o : option jsstring) : bool :=
  match o with Some (_ :: _) => false | _ => true end.

Definition cleanTitle (title : option jsstring) : jsstring :=
  if isBlank title then []
  else trim (replaceAll parenthetical [] (orEmpty title)).

Definition isDefinitelyPersonal (title : option jsstring) : bool :=
  if isBlank title then false
  else
    let trimmedTitle := trim (orEmpty title) in
    existsb (fun p => test p trimmedTitle) personalEventPatterns.

(** What [isWorkEvent] may be handed. *)
Inductive TitleOrEvent :=
| OfTitle (s : jsstring)
| OfEvent (e : Event)
| Nullish.

Definition titleOf (x : TitleOrEvent) : option jsstring :=
  match x with
  | OfTitle s => Some s
  | OfEvent e => title e
  | Nullish => None
  end.

Definition isWorkEvent (titleOrEvent : TitleOrEvent) : bool :=
  let title := titleOf titleOrEvent in
  if isBlank title then false
  else
    let trimmedTitle := trim (orEmpty title) in
    if isDefinitelyPersonal (Some trimmedTitle) then false
    else
      let cleanedTitle := cleanTitle (Some trimmedTitle) in
      if test meetAndGreet cleanedTitle then true
      else if test minutesSuffix cleanedTitle then true
      else if test houseSitSuffix cleanedTitle then true
      else if test nailTrim cleanedTitle then true
      else false.

End EventProcessor.

(** ** The processor double of [tests/event-filtering.test.js]

    A second statement of the classifier, with a list of personal patterns
    of its own; it takes a title only and replaces a parenthetical note,
    with the white space around it, by one space. *)

Module FilteringProcessor.

Definition ws : char -> bool := isWhiteSpace.
Definition sparkles : regex := Chr 10024%N.                 (* U+2728 *)
Definition glowingStar : regex := Word [55356%N; 57119%N].  (* U+1F31F *)

Definition meetAndGreet : pattern := EventProcessor.meetAndGreet.
Definition minutesSuffix : pattern := EventProcessor.minutesSuffix.
Definition houseSitSuffix : pattern := EventProcessor.houseSitSuffix.

(** [/^lunch$/i], [/^(✨|🌟)?\s*off\s*(✨|🌟)?$/i], [/\bappointment\b/i],
    [/\btherapy\b/i], [/\bhouse\s*clean/i], [/\bmomentum\b/i],
    [/\bmeeting\s+with\b/i], [/\btattoo\b/i], [/\bmassage\b/i],
    [/\byoga\b/i] *)
Definition personalEventPatterns : list pattern :=
  [Pattern (seqs [Bol; W "lunch"; Eol]) true;
   Pattern (seqs [Bol; Opt (Alt sparkles glowingStar); Star ws; W "off";
                  Star ws; Opt (Alt sparkles glowingStar); Eol]) true;
   Pattern (seqs [WordB; W "appointment"; WordB]) true;
   Pattern (seqs [WordB; W "therapy"; WordB]) true;
   Pattern (seqs [WordB; W "house"; Star ws; W "clean"]) true;
   Pattern (seqs [WordB; W "momentum"; WordB]) true;
   Pattern (seqs [WordB; W "meeting"; Plus ws; W "with"; WordB]) true;
   Pattern (seqs [WordB; W "tattoo"; WordB]) true;
   Pattern (seqs [WordB; W "massage"; WordB]) true;
   Pattern (seqs [WordB; W "yoga"; WordB]) true].

(** [/\s*\([^)]*\)\s*/g] *)
Definition spacedParenthetical : pattern :=
  Pattern
    (seqs [Star ws; Chr 40%N; Star EventProcessor.notParen; Chr 41%N; Star ws])
    false.

Definition isPersonalEvent (title : option jsstring) : bool :=
  if EventProcessor.isBlank title then false
  else existsb (fun p => test p (orEmpty title)) personalEventPatterns.

Definition isWorkEvent (title : option jsstring) : bool :=
  if EventProcessor.isBlank title then false
  else if isPersonalEvent title then false
  else
    let cleanTitle :=
      trim (replaceAll spacedParenthetical (lit " ") (orEmpty title)) in
    test meetAndGreet cleanTitle
    || test minutesSuffix cleanTitle
    || test houseSitSuffix cleanTitle.

End FilteringProcessor.

(** ** Arrays and insertion-ordered maps *)

Module Arr.

(** [Array.prototype.sort(cmp)]: a stable sort; [x] is placed before [y]
    when [cmp x y <= 0] and [x] came first.  (For a comparator that is not a
    consistent ordering, ECMAScript leaves the order to the implementation;
    the properties below are stated for consistent comparators.) *)
Fixpoint insertBy (A : Type) (cmp : A -> A -> Z) (x : A) (l : list A) : list A :=
  match l with
  | [] => [x]
  | y :: l' => if (cmp x y <=? 0)%Z then x :: l else y :: insertBy cmp x l'
  end.

Definition sort (A : Type) (cmp : A -> A -> Z) (l : list A) : list A :=
  fold_right (insertBy cmp) [] l.

(** A JavaScript [Map] with string keys: entries in insertion order. *)
Definition jsmap (V : Type) := list (jsstring * V).

Fixpoint mapGet (V : Type) (k : jsstring) (mp : jsmap V) : option V :=
  match mp with
  | [] => None
  | (k', v) :: mp' => if Str.eqb k k' then Some v else mapGet k mp'
  end.

Definition mapHas (V : Type) (k : jsstring) (mp : jsmap V) : bool :=
  match mapGet k mp with Some _ => true | None => false end.

(** [mp.set(k, v)]: an existing key keeps its position. *)
Fixpoint mapSet (V : Type) (k : jsstring) (v : V) (mp : jsmap V) : jsmap V :=
  match mp with
  | [] => [(k, v)]
  | (k', v') :: mp' =>
      if Str.eqb k k' then (k', v) :: mp' else (k', v') :: mapSet k v mp'
  end.

Definition mapKeys (V : Type) (mp : jsmap V) : list jsstring := map fst mp.

(** [s.split(c)] for a one-character separator. *)
Fixpoint split (c : char) (s : jsstring) : list jsstring :=
  match s with
  | [] => [[]]
  | x :: s' =>
      if ceqb x c then [] :: split c s'
      else match split c s' with
           | w :: ws => (x :: w) :: ws
           | [] => [[x]]
           end
  end.

End Arr.

Import Arr.

(** ** The exporter ([js/event-list-export.js]) *)

(** What [EventListExporter] uses of the event processor handed to its
    constructor. *)
Class Processor := {
  isWorkEvent : Event -> bool;
  isOvernightEvent : Event -> bool;
  (** [workEventPatterns.meetAndGreet] *)
  meetAndGreet : pattern
}.

Module Exporter.

Local Open Scope Z_scope.

Definition dash : char := 45%N.
Definition enDash : char := 8211%N.
Definition emDash : char := 8212%N.
Definition ws : char -> bool := isWhiteSpace.

(** [/\b(end\s*(overnight|hs|housesit))\b/i] *)
Definition endOvernight : pattern :=
  Pattern
    (seqs [WordB; W "end"; Star ws;
           alts [W "overnight"; W "hs"; W "housesit"]; WordB])
    true.

(** [/\b(15|20|30|45|60)\b/i] *)
Definition durationToken : pattern :=
  Pattern
    (seqs [WordB; alts [W "15"; W "20"; W "30"; W "45"; W "60"]; WordB])
    true.

(** [/\([^)]*\)/g] *)
Definition notParen (c : char) : bool := negb (ceqb c 41%N).
Definition parenthetical : pattern :=
  Pattern (seqs [Chr 40%N; Star notParen; Chr 41%N]) false.

(** [/^([^-–—]+)/] *)
Definition notDash (c : char) : bool :=
  negb (ceqb c dash || ceqb c enDash || ceqb c emDash).
Definition beforeDash : pattern := Pattern (seqs [Bol; Plus notDash]) false.

(** [/\b(15|20|30|45|60)\s*$/i] *)
Definition trailingDuration : pattern :=
  Pattern
    (seqs [WordB; alts [W "15"; W "20"; W "30"; W "45"; W "60"]; Star ws; Eol])
    true.

(** [/\b(MG|M&G|HS|Housesit)\s*$/i] *)
Definition trailingMarker : pattern :=
  Pattern
    (seqs [WordB; alts [W "MG"; W "M&G"; W "HS"; W "Housesit"]; Star ws; Eol])
    true.

(** The global pattern of one double-quote character (code unit 34). *)
Definition quote : char := 34%N.
Definition quotePattern : pattern := Pattern (Chr quote) false.

(** [/Week of (.+)/]: [.] is any character but a line terminator. *)
Definition notLineTerminator (c : char) : bool :=
  negb ((c =? 10) || (c =? 13) || (c =? 8232) || (c =? 8233))%N.
Definition weekOf : pattern :=
  Pattern (seqs [W "Week of "; Plus notLineTerminator]) false.

(** [Math.ceil(a / b)] for integers [a] and [b > 0]. *)
Definition ceilDiv (a b : Z) : Z := - ((- a) / b).

(** One level of a sort specification. *)
Record SortLevel := { sortBy : jsstring; sortOrder : jsstring }.

(** The [sortLevels] argument: an array of levels or a single level. *)
Inductive SortLevels :=
| LevelArray (levels : list SortLevel)
| SingleLevel (level : SortLevel).

(** The nested structure built by [buildNestedGroups]: an array of events, or
    a [Map] from group key to nested structure. *)
#[local] Set Warnings "-register-all".
Inductive Groups :=
| EventArray (events : list Event)
| GroupMap (entries : list (jsstring * Groups)).

(** *** The inclusion test, for dates that may be invalid

    [shouldIncludeEventOnDate] reads of its event the title, the start and
    the answer of the event processor; it is written here over any type of
    events that gives these three.  A [Date] object is the option of its
    time value: [None] is an invalid date, whose time value and fields are
    [NaN], and [NaN === NaN] is false. *)

Module Incoming.

Section AnyEvent.

Context `{Platform}.

Variable E : Type.
(** [event.title] *)
Variable titleOf : E -> option jsstring.
(** [new Date(event.start)] *)
Variable dateOf : E -> option Z.
(** [this.eventProcessor.isOvernightEvent(event)] *)
Variable overnightOf : E -> bool.

Definition isEndOvernightMarker (event : E) : bool :=
  let title := orEmpty (titleOf event) in
  let titleLower := toLowerCase title in
  test endOvernight titleLower.

(** [new Date(d.getFullYear(), d.getMonth(), d.getDate())] *)
Definition dayOf (d : option Z) : option Z :=
  match d with
  | Some t => Some (newDate (getFullYear t) (getMonth t) (getDate t))
  | None => None
  end.

(** [a.getTime() === b.getTime()] *)
Definition sameTime (a b : option Z) : bool :=
  match a, b with
  | Some x, Some y => x =? y
  | _, _ => false
  end.

(** [checkDate] is [None] for [null] and a [Date] object otherwise; an
    object is truthy also when the date is invalid. *)
Definition shouldIncludeEventOnDate (event : E)
  (checkDate : option (option Z)) : bool :=
  if isEndOvernightMarker event then false
  else if negb (overnightOf event) then true
  else
    match checkDate with
    | None => true
    | Some checkDate =>
        let eventStart := dateOf event in
        let eventStartDay := dayOf eventStart in
        let checkDay := dayOf checkDate in
        sameTime eventStartDay checkDay
    end.

(** The second filter of [generateTextList]. *)
Definition overnightFilter (events : list E) : list E :=
  filter (fun event =>
            let eventDate := dateOf event in
            shouldIncludeEventOnDate event (Some eventDate))
    events.

(** The test at the head of the row loop of [generateCSV]: the row of the
    event is skipped. *)
Definition rowSkipped (event : E) : bool :=
  let eventDate := dateOf event in
  negb (shouldIncludeEventOnDate event (Some eventDate)).

End AnyEvent.

End Incoming.

Section WithProcessor.

Context `{Platform} `{Processor}.

Definition calculateOvernightNights (event : Event) : Z :=
  if negb (isOvernightEvent event) then 0
  else
    let start := start event in
    let end_ := end_ event in
    let startDay := newDate (getFullYear start) (getMonth start) (getDate start) in
    let endDay := newDate (getFullYear end_) (getMonth end_) (getDate end_) in
    let diffTime := endDay - startDay in
    let diffDays := ceilDiv diffTime (1000 * 60 * 60 * 24) in
    Z.max 1 diffDays.

Definition isEndOvernightMarker (event : Event) : bool :=
  let title := orEmpty (title event) in
  let titleLower := toLowerCase title in
  test endOvernight titleLower.

(** [shouldIncludeEventOnDate] on events and check dates that are valid;
    [checkDate] is [None] for [null]. *)
Definition shouldIncludeEventOnDate (event : Event) (checkDate : option Z) : bool :=
  Incoming.shouldIncludeEventOnDate title (fun event => Some (start event))
    isOvernightEvent event (option_map Some checkDate).

Definition formatServiceType (event : Event) : jsstring :=
  let title := orEmpty (title event) in
  let titleLower := toLowerCase title in
  if isOvernightEvent event then
    let nights := calculateOvernightNights event in
    let nightLabel :=
      if nights =? 1 then lit "1 night" else ofZ nights ++ lit " nights" in
    lit "Overnight (" ++ nightLabel ++ lit ")"
  else if includes titleLower (lit "nail trim") then lit "Nail Trim"
  else
    match match0 durationToken title with
    | Some durationMatch => durationMatch ++ lit "-min"
    | None =>
        if test meetAndGreet title then lit "Meet & Greet"
        else if Str.eqb (orEmpty (type event)) (lit "walk") then lit "Dog Walk"
        else lit "Visit"
    end.

Definition extractClientName (title : option jsstring) : jsstring :=
  match title with
  | None | Some [] => []
  | Some title =>
      let cleanTitle := trim (replaceAll parenthetical [] title) in
      match match0 beforeDash cleanTitle with
      | Some dashMatch =>
          let name := trim dashMatch in
          let name := trim (replace trailingDuration [] name) in
          let name := trim (replace trailingMarker [] name) in
          name
      | None => cleanTitle
      end
  end.

Definition formatDate (date : Z) : jsstring :=
  let month := padStart0 2 (ofZ (getMonth date + 1)) in
  let day := padStart0 2 (ofZ (getDate date)) in
  let year := ofZ (getFullYear date) in
  month ++ lit "/" ++ day ++ lit "/" ++ year.

Definition formatTime (date : Z) : jsstring :=
  let hours := getHours date in
  let minutes := getMinutes date in
  let ampm := if hours >=? 12 then lit "PM" else lit "AM" in
  let hours := hours mod 12 in
  let hours := if hours =? 0 then 12 else hours in
  let minuteStr :=
    if minutes <? 10 then lit "0" ++ ofZ minutes else ofZ minutes in
  ofZ hours ++ lit ":" ++ minuteStr ++ lit " " ++ ampm.

Definition compareEvents (a b : Event) (sortField : jsstring) : Z :=
  if Str.eqb sortField (lit "client") then
    let clientA := toLowerCase (extractClientName (title a)) in
    let clientB := toLowerCase (extractClientName (title b)) in
    localeCompare clientA clientB
  else if Str.eqb sortField (lit "service") then
    let serviceA := toLowerCase (formatServiceType a) in
    let serviceB := toLowerCase (formatServiceType b) in
    localeCompare serviceA serviceB
  else if Str.eqb sortField (lit "time") then
    let minutesA := getHours (start a) * 60 + getMinutes (start a) in
    let minutesB := getHours (start b) * 60 + getMinutes (start b) in
    minutesA - minutesB
  else (* case 'date': default: *)
    start a - start b.

(** The comparator closure of [sortEventsMultiLevel]. *)
Fixpoint compareLevels (levels : list SortLevel) (a b : Event) : Z :=
  match levels with
  | level :: levels' =>
      let comparison := compareEvents a b (sortBy level) in
      let comparison :=
        if Str.eqb (sortOrder level) (lit "desc") then - comparison
        else comparison in
      if negb (comparison =? 0) then comparison
      else compareLevels levels' a b
  | [] => start a - start b
  end.

Definition defaultLevel : SortLevel :=
  {| sortBy := lit "time"; sortOrder := lit "asc" |}.

Definition normalizeLevels (sortLevels : SortLevels) : list SortLevel :=
  let levels :=
    match sortLevels with
    | LevelArray l => l
    | SingleLevel l => [l]
    end in
  match levels with
  | [] => [defaultLevel]
  | _ => levels
  end.

Definition sortEventsMultiLevel (events : list Event) (sortLevels : SortLevels)
  : list Event :=
  let levels := normalizeLevels sortLevels in
  Arr.sort (compareLevels levels) events.

(** The comparator closure of the legacy [sortEvents]. *)
Definition compareLegacy (primarySort : jsstring) (secondarySort : option jsstring)
  (sortOrder : jsstring) (a b : Event) : Z :=
  let comparison := compareEvents a b primarySort in
  let comparison :=
    match secondarySort with
    | Some (c :: sec) =>
        if comparison =? 0 then compareEvents a b (c :: sec) else comparison
    | _ => comparison
    end in
  let comparison :=
    if (comparison =? 0)
       && negb (Str.eqb primarySort (lit "date"))
       && negb (Str.eqb (orEmpty secondarySort) (lit "date"))
    then compareEvents a b (lit "date")
    else comparison in
  if Str.eqb sortOrder (lit "desc") then - comparison else comparison.

Definition sortEvents (events : list Event) (primarySort : jsstring)
  (secondarySort : option jsstring) (sortOrder : jsstring) : list Event :=
  Arr.sort (compareLegacy primarySort secondarySort sortOrder) events.

Definition newline : jsstring := [10%N].
Definition bullet : jsstring := [8226%N].          (* U+2022 *)
Definition pin : jsstring := [55357%N; 56525%N].   (* U+1F4CD *)

(** [includeLocation && event.location ? f(event.location) : ''] *)
Definition locationPart (includeLocation : bool) (event : Event)
  (f : jsstring -> jsstring) : jsstring :=
  match location event with
  | Some (c :: l) => if includeLocation then f (c :: l) else []
  | _ => []
  end.

Definition generateSimpleList (events : list Event)
  (includeTime includeLocation : bool) : jsstring :=
  fold_left
    (fun output event =>
       let eventDate := start event in
       let date := formatDate eventDate in
       let client := extractClientName (title event) in
       let serviceType := formatServiceType event in
       let time :=
         if includeTime then lit " @ " ++ formatTime eventDate else [] in
       let location :=
         locationPart includeLocation event (fun l => lit " | " ++ l) in
       output ++ date ++ lit " | " ++ client ++ lit " | " ++ serviceType
              ++ time ++ location ++ newline)
    events [].

Definition getWeekStart (date : Z) : Z :=
  let d := date in
  let day := getDay d in
  let d := setDate d (getDate d - day) in
  let d := setHours0 d in
  d.

Definition getWeekLabel (date : Z) : jsstring :=
  let weekStart := getWeekStart date in
  lit "Week of " ++ formatDate weekStart.

Definition getMonthLabel (date : Z) : jsstring :=
  let month := padStart0 2 (ofZ (getMonth date + 1)) in
  let year := ofZ (getFullYear date) in
  month ++ lit "/" ++ year.

Definition escapeCSV (value : jsstring) : jsstring :=
  match value with
  | [] => []
  | _ =>
      if includesChar value 44%N || includesChar value quote
         || includesChar value 10%N
      then [quote] ++ replaceAll quotePattern [quote; quote] value ++ [quote]
      else value
  end.

(** The options of [generateCSV]; a date bound is [None] for [null]. *)
Record CSVOptions := {
  csvStartDate : option Z;
  csvEndDate : option Z;
  csvWorkEventsOnly : bool;
  csvSortBy : jsstring;
  csvSecondarySort : option jsstring;
  csvSortOrder : jsstring;
  csvIncludeLocation : bool
}.

(** The first filter of both generators: work events within the date range. *)
Definition inRange (workEventsOnly : bool) (startDate endDate : option Z)
  (event : Event) : bool :=
  if workEventsOnly && negb (isWorkEvent event) then false
  else
    let eventDate := start event in
    if match startDate with Some sd => eventDate <? sd | None => false end
    then false
    else if match endDate with Some ed => ed <? eventDate | None => false end
    then false
    else true.

(** One row of [generateCSV]; [None] when the event is skipped. *)
Definition csvRow (includeLocation : bool) (event : Event) : option jsstring :=
  let eventDate := start event in
  if negb (shouldIncludeEventOnDate event (Some eventDate)) then None
  else
    let date := formatDate eventDate in
    let time := formatTime eventDate in
    let client := escapeCSV (extractClientName (title event)) in
    let serviceType := escapeCSV (formatServiceType event) in
    let durationMinutes := (end_ event - start event + 30000) / (1000 * 60) in
    let durationHours := durationMinutes / 60 in
    let remainingMinutes := Z.rem durationMinutes 60 in
    let duration :=
      if 0 <? durationHours
      then ofZ durationHours ++ lit "h " ++ ofZ remainingMinutes ++ lit "m"
      else ofZ remainingMinutes ++ lit "m" in
    Some
      (date ++ lit "," ++ time ++ lit "," ++ client ++ lit "," ++ serviceType
       ++ lit "," ++ duration
       ++ (if includeLocation
           then lit "," ++ escapeCSV (orEmpty (location event))
           else [])
       ++ newline).

Definition generateCSV (events : list Event) (options : CSVOptions) : jsstring :=
  let filteredEvents :=
    filter (inRange (csvWorkEventsOnly options) (csvStartDate options)
              (csvEndDate options)) events in
  let filteredEvents :=
    sortEvents filteredEvents (csvSortBy options) (csvSecondarySort options)
      (csvSortOrder options) in
  let csv :=
    if csvIncludeLocation options
    then lit "Date,Time,Client/Pet,Service Type,Duration,Location" ++ newline
    else lit "Date,Time,Client/Pet,Service Type,Duration" ++ newline in
  fold_left
    (fun csv event =>
       match csvRow (csvIncludeLocation options) event with
       | Some row => csv ++ row
       | None => csv
       end)
    filteredEvents csv.

Definition getGroupKey (event : Event) (groupType : jsstring) : jsstring :=
  let eventDate := start event in
  if Str.eqb groupType (lit "client") then extractClientName (title event)
  else if Str.eqb groupType (lit "service") then formatServiceType event
  else if Str.eqb groupType (lit "date") then formatDate eventDate
  else if Str.eqb groupType (lit "week") then getWeekLabel eventDate
  else if Str.eqb groupType (lit "month") then getMonthLabel eventDate
  else lit "Unknown".

(** The first loop of [buildNestedGroups]: bucket the events by key. *)
Definition groupEvents (events : list Event) (currentLevel : jsstring)
  : jsmap (list Event) :=
  fold_left
    (fun grouped event =>
       let key := getGroupKey event currentLevel in
       let grouped := if mapHas key grouped then grouped else mapSet key [] grouped in
       mapSet key (orEmptyList (mapGet key grouped) ++ [event]) grouped)
    events [].

Fixpoint buildNestedGroups (events : list Event) (groupLevels : list jsstring)
  : Groups :=
  match groupLevels with
  | [] => EventArray events
  | currentLevel :: remainingLevels =>
      let grouped := groupEvents events currentLevel in
      GroupMap
        (map (fun entry =>
                (fst entry,
                 match remainingLevels with
                 | _ :: _ => buildNestedGroups (snd entry) remainingLevels
                 | [] => EventArray (snd entry)
                 end))
           grouped)
  end.

Fixpoint countEvents (data : Groups) : nat :=
  match data with
  | EventArray events => length events
  | GroupMap entries =>
      (fix values (count : nat) (l : list (jsstring * Groups)) : nat :=
         match l with
         | [] => count
         | (_, value) :: l' => values (count + countEvents value)%nat l'
         end) 0%nat entries
  end.

(** [Number(s)] on the decimal integer numerals, which are the numerals that
    [formatDate] and [getMonthLabel] write into group keys; [None] is [NaN]. *)
Definition isDigit (c : char) : bool := ((48 <=? c) && (c <=? 57))%N.

Fixpoint digitsValue (s : jsstring) (acc : Z) : option Z :=
  match s with
  | [] => Some acc
  | c :: s' =>
      if isDigit c then digitsValue s' (10 * acc + (Z.of_N c - 48)) else None
  end.

Definition toNumber (s : jsstring) : option Z :=
  match trim s with
  | [] => Some 0
  | c :: r =>
      match r with
      | _ :: _ =>
          if ceqb c 45%N then option_map Z.opp (digitsValue r 0)
          else if ceqb c 43%N then digitsValue r 0
          else digitsValue (c :: r) 0
      | [] => digitsValue [c] 0
      end
  end.

(** [new Date(year, month - 1, date)] on possibly-[NaN] arguments. *)
Definition newDateOfParts (year month date : option Z) : option Z :=
  match year, month, date with
  | Some y, Some mo, Some d => Some (newDate y (mo - 1) d)
  | _, _, _ => None
  end.

Definition parseGroupKeyToDate (key : jsstring) (groupType : option jsstring)
  : option Z :=
  let parts l := map toNumber (split 47%N l) in
  let mdy l := newDateOfParts (nth 2 (parts l) None) (nth 0 (parts l) None)
                 (nth 1 (parts l) None) in
  let isType t := Str.eqb (orEmpty groupType) (lit t) in
  if isType "date"%string then mdy key
  else if isType "week"%string then
    match match0 weekOf key with
    | Some whole => mdy (skipn 8 whole)
    | None => parseDate key
    end
  else if isType "month"%string then
    newDateOfParts (nth 1 (parts key) None) (nth 0 (parts key) None) (Some 1)
  else parseDate key.

(** [dateA - dateB], where [NaN] counts as [+0] for the sort. *)
Definition compareKeyDates (groupType : option jsstring) (a b : jsstring) : Z :=
  match parseGroupKeyToDate a groupType, parseGroupKeyToDate b groupType with
  | Some dateA, Some dateB => dateA - dateB
  | _, _ => 0
  end.

Definition sortGroupKeys (keys : list jsstring) (groupType : option jsstring)
  (sortBy sortOrder : jsstring) : list jsstring :=
  let isType t := Str.eqb (orEmpty groupType) (lit t) in
  let isDateBasedGroup := isType "date"%string || isType "week"%string || isType "month"%string in
  let sortedKeys :=
    if isDateBasedGroup && negb (Str.eqb sortBy (lit "alpha"))
    then Arr.sort (compareKeyDates groupType) keys
    else Arr.sort localeCompare keys in
  if Str.eqb sortOrder (lit "desc") then rev sortedKeys else sortedKeys.

Definition countLabel (count : nat) : jsstring :=
  if (count =? 1)%nat then lit "1 event"
  else ofZ (Z.of_nat count) ++ lit " events".

Section Render.

Variables (groupLevels : list jsstring) (includeTime includeLocation : bool)
          (groupSortBy groupSortOrder : jsstring)
          (eventSortLevels : list SortLevel).

(** One bullet line of a leaf array. *)
Definition renderEvent (indent : jsstring) (event : Event) : jsstring :=
  let client := extractClientName (title event) in
  let serviceType := formatServiceType event in
  let eventDate := start event in
  let date := formatDate eventDate in
  let time := if includeTime then lit " @ " ++ formatTime eventDate else [] in
  let location :=
    locationPart includeLocation event
      (fun l => newline ++ indent ++ lit "    " ++ pin ++ lit " " ++ l) in
  let has t := existsb (Str.eqb (lit t)) groupLevels in
  let showDate := negb (has "date"%string) && negb (has "week"%string)
                  && negb (has "month"%string) in
  let datePrefix := if showDate then date ++ lit " | " else [] in
  indent ++ lit "  " ++ bullet ++ lit " " ++ datePrefix ++ client ++ lit " | "
         ++ serviceType ++ time ++ location ++ newline.

(** The header line of one group. *)
Definition renderHeader (indent key : jsstring) (count : nat) : jsstring :=
  indent ++ key ++ lit " (" ++ countLabel count ++ lit ")" ++ newline.

(** The values of the map are rendered in place; the loop over the sorted
    keys then looks each one up. *)
Fixpoint renderNestedGroups (data : Groups) (depth : nat) : jsstring :=
  let indent := repeat_str (lit "  ") depth in
  match data with
  | EventArray events =>
      let sortedEvents :=
        sortEventsMultiLevel events (LevelArray eventSortLevels) in
      fold_left (fun output event => output ++ renderEvent indent event)
        sortedEvents []
  | GroupMap entries =>
      let currentGroupType := nth_error groupLevels depth in
      let sortedKeys :=
        sortGroupKeys (map fst entries) currentGroupType groupSortBy
          groupSortOrder in
      let rendered :=
        (fix values (l : list (jsstring * Groups)) : jsmap (nat * jsstring) :=
           match l with
           | [] => []
           | (key, value) :: l' =>
               (key, (countEvents value, renderNestedGroups value (S depth)))
                 :: values l'
           end) entries in
      fold_left
        (fun output key =>
           match mapGet key rendered with
           | Some (count, body) =>
               output ++ renderHeader indent key count ++ body ++ newline
           | None => output
           end)
        sortedKeys []
  end.

End Render.

Definition orDefault (s d : jsstring) : jsstring :=
  match s with [] => d | _ => s end.

Definition levelsOf (eventSort : SortLevels) : list SortLevel :=
  match eventSort with
  | LevelArray l => l
  | SingleLevel l => [l]
  end.

Definition generateDynamicGrouping (events : list Event)
  (groupLevels : list jsstring) (includeTime includeLocation : bool)
  (groupSort : SortLevel) (eventSort : SortLevels) : jsstring :=
  match groupLevels with
  | [] => generateSimpleList events includeTime includeLocation
  | _ =>
      let groupSortBy := orDefault (sortBy groupSort) (lit "date") in
      let groupSortOrder := orDefault (sortOrder groupSort) (lit "asc") in
      let eventSortLevels := levelsOf eventSort in
      let grouped := buildNestedGroups events groupLevels in
      renderNestedGroups groupLevels includeTime includeLocation groupSortBy
        groupSortOrder eventSortLevels grouped 0
  end.

(** The options of [generateTextList]. *)
Record TextOptions := {
  startDate : option Z;
  endDate : option Z;
  includeTime : bool;
  includeLocation : bool;
  groupBy : jsstring;
  groupSort : SortLevel;
  eventSort : SortLevels;
  workEventsOnly : bool
}.

(** The second filter of [generateTextList] ("filter out overnight events
    not on their start date"). *)
Definition overnightFilter (events : list Event) : list Event :=
  filter (fun event =>
            let eventDate := start event in
            shouldIncludeEventOnDate event (Some eventDate))
    events.

Definition generateTextList (events : list Event) (options : TextOptions)
  : jsstring :=
  let filteredEvents :=
    filter (inRange (workEventsOnly options) (startDate options)
              (endDate options)) events in
  let filteredEvents := overnightFilter filteredEvents in
  let filteredEvents := sortEventsMultiLevel filteredEvents (eventSort options) in
  match filteredEvents with
  | [] => lit "No events found in the selected date range."
  | first :: _ =>
      let sortedByDate :=
        Arr.sort (fun a b => start a - start b) filteredEvents in
      let firstEventDate := formatDate (start (hd first sortedByDate)) in
      let lastEventDate := formatDate (start (last sortedByDate first)) in
      let filterLabel :=
        if workEventsOnly options then lit "Work Events" else lit "All Events" in
      let n := length filteredEvents in
      let output :=
        filterLabel ++ lit " Summary" ++ newline
        ++ firstEventDate ++ lit " - " ++ lastEventDate ++ newline
        ++ lit "Total: " ++ ofZ (Z.of_nat n) ++ lit " event"
        ++ (if (n =? 1)%nat then [] else lit "s") ++ newline
        ++ repeat_str (lit "=") 50 ++ newline ++ newline in
      let groupLevels :=
        filter (fun level =>
                  negb (Str.eqb level []) && negb (Str.eqb level (lit "none")))
          (split dash (groupBy options)) in
      match groupLevels with
      | _ :: _ =>
          trim (output
                ++ generateDynamicGrouping filteredEvents groupLevels
                     (includeTime options) (includeLocation options)
                     (groupSort options) (eventSort options))
      | [] =>
          trim (output
                ++ generateSimpleList filteredEvents (includeTime options)
                     (includeLocation options))
      end
  end.

End WithProcessor.

(** *** The title as a JavaScript value

    [extractClientName] tests [!title] and then calls [title.replace]
    without a [typeof] guard. *)

(** A value that a caller may pass as [title]. *)
Inductive Value :=
| Undefined
| Null
| Boolean (b : bool)
| Numeric (n : Z)
| NotANumber
| Text (s : jsstring)
| Object.                 (* an object or array, which has no [replace] *)

(** [!v] *)
Definition falsy (v : Value) : bool :=
  match v with
  | Undefined | Null | NotANumber | Boolean false | Numeric 0 | Text [] => true
  | _ => false
  end.

(** "title.replace is not a function" *)
Inductive TypeError := NotAFunction (property : jsstring).

(** [extractClientName(title)] for a title of any type; [inl] is the
    exception thrown. *)
Definition extractClientNameOf (title : Value) : TypeError + jsstring :=
  if falsy title then inr []
  else
    match title with
    | Text s => inr (extractClientName (Some s))
    | _ => inl (NotAFunction (lit "replace"))
    end.

End Exporter.

(** ** A reference platform and processor

    Concrete instances on which the definitions can be evaluated. *)

Module Reference.

Definition asciiLower (s : jsstring) : jsstring :=
  map (fun c => if ((65 <=? c) && (c <=? 90))%N then (c + 32)%N else c) s.

(** Comparison by code units: the ordering of a locale-free collation. *)
Fixpoint codeUnitCompare (a b : jsstring) : Z :=
  match a, b with
  | [], [] => 0
  | [], _ :: _ => -1
  | _ :: _, [] => 1
  | x :: a', y :: b' =>
      if (x <? y)%N then -1
      else if (y <? x)%N then 1
      else codeUnitCompare a' b'
  end.

Definition platform : Platform := {|
  LocalTZA := fun _ _ => 0%Z;
  toLowerCase := asciiLower;
  localeCompare := codeUnitCompare;
  parseDate := fun _ => None
|}.

(** Eastern time around 2025: UTC-4 from 2025-03-09T07:00Z to
    2025-11-02T06:00Z, UTC-5 otherwise.  A local time value is read with the
    offset in force before a transition. *)
Definition easternOffset (t : Z) (isUTC : bool) : Z :=
  let u := if isUTC then t else (t + 14400000)%Z in
  if ((1741503600000 <=? u) && (u <? 1762063200000))%Z then (-14400000)%Z
  else (-18000000)%Z.

Definition eastern : Platform := {|
  LocalTZA := easternOffset;
  toLowerCase := asciiLower;
  localeCompare := codeUnitCompare;
  parseDate := fun _ => None
|}.

(** [/\bovernight\b/i] *)
Definition overnightWord : pattern :=
  Pattern (seqs [WordB; W "overnight"; WordB]) true.

(** Modelled from the spec: [EventProcessor.isOvernightEvent], whose source
    is not among the files; section 4.2 classifies an event as an
    overnight/housesit span by title pattern or by explicit [type]. *)
Definition isOvernightEventSpec (event : Event) : bool :=
  Str.eqb (orEmpty (type event)) (lit "overnight")
  || test EventProcessor.houseSitSuffix (orEmpty (title event))
  || test overnightWord (orEmpty (title event)).

Definition processor : Processor := {|
  isWorkEvent := fun event => EventProcessor.isWorkEvent (EventProcessor.OfEvent event);
  isOvernightEvent := isOvernightEventSpec;
  meetAndGreet := EventProcessor.meetAndGreet
|}.

(** The processor double of [tests/event-list-export.test.js]:
    [isOvernightEvent] is constantly false, [meetAndGreet] is [/meet/i]. *)
Definition mockProcessor : Processor := {|
  isWorkEvent := fun _ => true;
  isOvernightEvent := fun _ => false;
  meetAndGreet := Pattern (W "meet") true
|}.

Definition event (t : string) (s e : Z) : Event :=
  {| title := Some (lit t); start := s; end_ := e; location := None; type := None |}.

End Reference.

(** ** Direct definitions of the text operations

    The operations that the sources write as regular expressions, written
    here as plain recursive functions on strings, after the words of the
    specification.  Part II proves that the regular expressions of the code
    compute them. *)

Module Direct.

Definition openParen : char := 40%N.
Definition closeParen : char := 41%N.

Definition hasClose (s : jsstring) : bool := existsb (ceqb closeParen) s.

(** "Strip parenthetical annotations": an opening parenthesis that is
    closed later starts an annotation, which extends to the first closing
    parenthesis. *)
Fixpoint stripFrom (inside : bool) (s : jsstring) : jsstring :=
  match s with
  | [] => []
  | c :: s' =>
      if inside then
        if ceqb c closeParen then stripFrom false s' else stripFrom true s'
      else if ceqb c openParen && hasClose s' then stripFrom true s'
      else c :: stripFrom false s'
  end.

Definition stripParentheticals (s : jsstring) : jsstring := stripFrom false s.

(** The characters of [s] before the first that fails [p]. *)
Fixpoint takeWhile (p : char -> bool) (s : jsstring) : jsstring :=
  match s with
  | c :: s' => if p c then c :: takeWhile p s' else []
  | [] => []
  end.

(** [w] is a prefix of [s], up to the case of ASCII letters. *)
Fixpoint startsWithNoCase (w s : jsstring) : bool :=
  match w, s with
  | [], _ => true
  | c :: w', x :: s' =>
      ceqb (canonicalize c) (canonicalize x) && startsWithNoCase w' s'
  | _ :: _, [] => false
  end.

(** [s] is one of the [tokens] followed only by white space. *)
Definition tokenThenSpace (tokens : list jsstring) (s : jsstring) : bool :=
  existsb
    (fun w => startsWithNoCase w s && forallb isWhiteSpace (skipn (length w) s))
    tokens.

(** "Strip a trailing token": cut [s] where a token starts at a word
    boundary and only white space follows it. *)
Fixpoint stripTrailing (tokens : list jsstring) (prev : option char)
  (s : jsstring) : jsstring :=
  if atWordBoundary prev s && tokenThenSpace tokens s then []
  else
    match s with
    | c :: s' => c :: stripTrailing tokens (Some c) s'
    | [] => []
    end.

Definition durationTokens : list jsstring :=
  [lit "15"; lit "20"; lit "30"; lit "45"; lit "60"].

(** "A title containing a token": one of the [tokens] occurs in [s] as a
    word of its own, with a word boundary on either side. *)
Definition containsToken (tokens : list jsstring) (s : jsstring) : Prop :=
  exists before token after,
    s = before ++ token ++ after /\ In token tokens /\
    atWordBoundary (last (map Some before) None) (token ++ after) = true /\
    atWordBoundary (last (map Some token) None) after = true.

Definition markerTokens : list jsstring :=
  [lit "MG"; lit "M&G"; lit "HS"; lit "Housesit"].

End Direct.

(** ** Reading a CSV field (RFC 4180)

    A field is either enclosed in double quotes, inside which a double
    quote is written twice, or it is plain and runs up to the next comma or
    line break.  [parseField] returns the value of the field at the front of
    its input and the input after the field. *)

Module Csv.

Definition quote : char := 34%N.
Definition isSeparator (c : char) : bool := ceqb c 44%N || ceqb c 10%N.

(** The input after an opening quote. *)
Fixpoint quotedField (s : jsstring) : option (jsstring * jsstring) :=
  match s with
  | [] => None
  | c :: s' =>
      if ceqb c quote then
        match s' with
        | q :: s'' =>
            if ceqb q quote
            then match quotedField s'' with
                 | Some (field, rest) => Some (quote :: field, rest)
                 | None => None
                 end
            else Some ([], s')
        | [] => Some ([], [])
        end
      else match quotedField s' with
           | Some (field, rest) => Some (c :: field, rest)
           | None => None
           end
  end.

Fixpoint plainField (s : jsstring) : jsstring * jsstring :=
  match s with
  | [] => ([], [])
  | c :: s' =>
      if isSeparator c then ([], s)
      else let (field, rest) := plainField s' in (c :: field, rest)
  end.

Definition parseField (s : jsstring) : option (jsstring * jsstring) :=
  match s with
  | c :: s' => if ceqb c quote then quotedField s' else Some (plainField s)
  | [] => Some ([], [])
  end.

(** Where a field may end: at the end of the input or before a separator. *)
Definition fieldEnd (rest : jsstring) : Prop :=
  match rest with
  | [] => True
  | c :: _ => isSeparator c = true
  end.

End Csv.

(** ** The claims' own words

    Definitions that follow the wording of a claim where it differs from
    the code, for comparison with the code. *)

Module Claimed.

(** The end-of-overnight marker as the specification writes it:
    [end\s*(overnight|hs|housesit)], case-insensitive, without the word
    boundaries of the pattern in the code. *)
Definition endOvernight : pattern :=
  Pattern
    (seqs [W "end"; Star isWhiteSpace;
           alts [W "overnight"; W "hs"; W "housesit"]])
    true.

(** The client name as the specification describes it: the substring before
    the first dash of the cleaned title (all of it when there is no dash),
    without its trailing duration token and marker, trimmed. *)
Definition extractClientName (title : jsstring) : jsstring :=
  let cleaned := trim (Direct.stripParentheticals title) in
  let name := trim (Direct.takeWhile Exporter.notDash cleaned) in
  let name := trim (Direct.stripTrailing Direct.durationTokens None name) in
  trim (Direct.stripTrailing Direct.markerTokens None name).

End Claimed.

(* ===================================================================== *)
(** * Part II: properties                                                 *)
(* ===================================================================== *)

(** ** Strings *)

Module StrFacts.

Lemma ceqb_eq (a b : char) : ceqb a b = true <-> a = b.
Proof. apply N.eqb_eq. Qed.

Lemma eqb_eq (a b : jsstring) : Str.eqb a b = true <-> a = b.
Proof.
  revert b; induction a as [|x a IH]; intros [|y b]; simpl; split;
    try congruence; try reflexivity.
  - intros E. apply andb_true_iff in E as [E1 E2].
    apply ceqb_eq in E1. apply IH in E2. congruence.
  - intros E. injection E as -> ->. apply andb_true_iff. split.
    + now apply ceqb_eq.
    + now apply IH.
Qed.

Lemma eqb_refl (a : jsstring) : Str.eqb a a = true.
Proof. now apply eqb_eq. Qed.

Lemma trimStart_app (a b : jsstring) :
  trimStart (a ++ b) =
  match trimStart a with
  | [] => trimStart b
  | t => t ++ b
  end.
Proof.
  induction a as [|c a IH]; simpl.
  - reflexivity.
  - destruct (isWhiteSpace c); [exact IH | reflexivity].
Qed.

(** [trimEnd] by recursion from the front. *)
Lemma trimEnd_cons (c : char) (r : jsstring) :
  trimEnd (c :: r) =
  match trimEnd r with
  | [] => if isWhiteSpace c then [] else [c]
  | t => c :: t
  end.
Proof.
  unfold trimEnd. simpl rev. rewrite trimStart_app.
  destruct (trimStart (rev r)) as [|x t] eqn:E.
  - simpl. destruct (isWhiteSpace c); reflexivity.
  - change (rev (x :: t)) with (rev t ++ [x]).
    rewrite rev_app_distr. simpl.
    destruct (rev t ++ [x]) eqn:E'; [|reflexivity].
    destruct (rev t); discriminate.
Qed.

Lemma trimEnd_nil : trimEnd [] = [].
Proof. reflexivity. Qed.

Lemma trimStart_all_ws (w : jsstring) :
  forallb isWhiteSpace w = true -> trimStart w = [].
Proof.
  induction w as [|c w IH]; simpl; [reflexivity|].
  intros E. apply andb_true_iff in E as [-> E]. auto.
Qed.

Lemma trimStart_ws_app (w s : jsstring) :
  forallb isWhiteSpace w = true -> trimStart (w ++ s) = trimStart s.
Proof. intros E. rewrite trimStart_app, trimStart_all_ws; auto. Qed.

Lemma trimEnd_all_ws (w : jsstring) :
  forallb isWhiteSpace w = true -> trimEnd w = [].
Proof.
  induction w as [|c w IH]; [reflexivity|]. simpl.
  intros E. apply andb_true_iff in E as [E1 E2].
  rewrite trimEnd_cons, IH, E1; auto.
Qed.

Lemma trimEnd_app_ws (s w : jsstring) :
  forallb isWhiteSpace w = true -> trimEnd (s ++ w) = trimEnd s.
Proof.
  intros E. induction s as [|c s IH]; simpl.
  - rewrite trimEnd_all_ws; auto.
  - rewrite !trimEnd_cons, IH. reflexivity.
Qed.

Lemma trimStart_split (s : jsstring) :
  exists w, forallb isWhiteSpace w = true /\ s = w ++ trimStart s.
Proof.
  induction s as [|c s [w [E1 E2]]]; simpl.
  - exists []. auto.
  - destruct (isWhiteSpace c) eqn:E.
    + exists (c :: w). simpl. rewrite E, E1. split; [reflexivity | congruence].
    + exists []. auto.
Qed.

Lemma trimEnd_split (s : jsstring) :
  exists w, forallb isWhiteSpace w = true /\ s = trimEnd s ++ w.
Proof.
  induction s as [|c s [w [E1 E2]]].
  - exists []. auto.
  - rewrite trimEnd_cons. destruct (trimEnd s) as [|x t] eqn:E.
    + destruct (isWhiteSpace c) eqn:Ec.
      * exists (c :: w). simpl. rewrite Ec, E1. simpl in E2. split; [reflexivity | congruence].
      * exists w. split; [assumption|]. simpl. simpl in E2. congruence.
    + exists w. split; [assumption|]. simpl. f_equal. exact E2.
Qed.

Lemma trimStart_idem (s : jsstring) : trimStart (trimStart s) = trimStart s.
Proof.
  induction s as [|c s IH]; simpl; [reflexivity|].
  destruct (isWhiteSpace c) eqn:E; [exact IH|]. simpl. now rewrite E.
Qed.

Lemma trimEnd_idem (s : jsstring) : trimEnd (trimEnd s) = trimEnd s.
Proof.
  induction s as [|c s IH]; [reflexivity|].
  rewrite trimEnd_cons. destruct (trimEnd s) as [|x t] eqn:E.
  - destruct (isWhiteSpace c) eqn:Ec; [reflexivity|].
    rewrite trimEnd_cons, trimEnd_nil, Ec. reflexivity.
  - rewrite trimEnd_cons, IH. reflexivity.
Qed.

Lemma trimStart_trimEnd (s : jsstring) :
  trimStart (trimEnd s) = trimEnd (trimStart s).
Proof.
  induction s as [|c s IH]; [reflexivity|].
  simpl trimStart at 2. rewrite trimEnd_cons.
  destruct (isWhiteSpace c) eqn:Ec.
  - rewrite <- IH. destruct (trimEnd s) as [|x t]; [reflexivity|].
    simpl. now rewrite Ec.
  - rewrite trimEnd_cons.
    destruct (trimEnd s) as [|x t]; simpl; now rewrite Ec.
Qed.

Lemma trim_idem (s : jsstring) : trim (trim s) = trim s.
Proof.
  unfold trim.
  rewrite (trimStart_trimEnd (trimStart s)), trimStart_idem, trimEnd_idem.
  reflexivity.
Qed.

Lemma trim_ws_app (w s : jsstring) :
  forallb isWhiteSpace w = true -> trim (w ++ s) = trim s.
Proof. intros E. unfold trim. now rewrite trimStart_ws_app. Qed.

Lemma trim_app_ws (s w : jsstring) :
  forallb isWhiteSpace w = true -> trim (s ++ w) = trim s.
Proof.
  intros E. unfold trim. rewrite <- !trimStart_trimEnd.
  now rewrite trimEnd_app_ws.
Qed.

(** A string is its trimmed core between two runs of white space. *)
Lemma trim_split (s : jsstring) :
  exists w1 w2,
    forallb isWhiteSpace w1 = true /\ forallb isWhiteSpace w2 = true /\
    s = w1 ++ trim s ++ w2.
Proof.
  destruct (trimStart_split s) as [w1 [E1 E2]].
  destruct (trimEnd_split (trimStart s)) as [w2 [E3 E4]].
  exists w1, w2. unfold trim. repeat split; try assumption.
  rewrite <- E4. exact E2.
Qed.

End StrFacts.

(** ** The matcher *)

Module RegexFacts.

Import Direct StrFacts.

Lemma last_cons (A : Type) (a d : A) (l : list A) :
  last (a :: l) d = last l a.
Proof.
  revert a d; induction l as [|b l IH]; intros a d; [reflexivity|].
  change (last (a :: b :: l) d) with (last (b :: l) d).
  rewrite (IH b d), (IH b a). reflexivity.
Qed.

(** What matching the literal [w] leaves: the last character read and the
    rest of the input. *)
Lemma m_Word (i : bool) (w : jsstring) (k : cont) :
  forall prev s,
    m i (Word w) k prev s =
    if (if i then startsWithNoCase w s else startsWith w s)
    then k (last (map Some (firstn (length w) s)) prev) (skipn (length w) s)
    else None.
Proof.
  induction w as [|c w IH]; intros prev s.
  - simpl. destruct i; reflexivity.
  - change (Word (c :: w)) with (Seq (Chr c) (Word w)).
    cbn [m]. destruct s as [|x s].
    + destruct i; reflexivity.
    + unfold chrMatch. rewrite IH.
      cbn [startsWithNoCase startsWith length firstn skipn map].
      destruct i.
      * destruct (ceqb (canonicalize c) (canonicalize x)); [|reflexivity].
        cbn [andb]. destruct (startsWithNoCase w s); [|reflexivity].
        now rewrite last_cons.
      * destruct (ceqb c x); [|reflexivity].
        cbn [andb]. destruct (startsWith w s); [|reflexivity].
        now rewrite last_cons.
Qed.

(** The first alternative that leads to success decides. *)
Lemma m_alts (i : bool) (l : list regex) (k : cont) prev s :
  m i (alts l) k prev s =
  fold_right
    (fun r acc => match m i r k prev s with Some x => Some x | None => acc end)
    None l.
Proof.
  induction l as [|r l IH]; [reflexivity|].
  change (alts (r :: l)) with (Alt r (alts l)). cbn [m fold_right].
  now rewrite IH.
Qed.

Lemma m_seqs_cons (i : bool) (r : regex) (l : list regex) (k : cont) prev s :
  m i (seqs (r :: l)) k prev s = m i r (m i (seqs l) k) prev s.
Proof. reflexivity. Qed.

Lemma m_seqs_nil (i : bool) (k : cont) prev s :
  m i (seqs []) k prev s = k prev s.
Proof. reflexivity. Qed.

(** *** The parenthetical pattern *)

(** The input after the first closing parenthesis. *)
Fixpoint afterClose (s : jsstring) : option jsstring :=
  match s with
  | [] => None
  | c :: s' => if ceqb c closeParen then Some s' else afterClose s'
  end.

Lemma starK_notParen prev s :
  starK Exporter.notParen (m false (seqs [Chr 41%N]) accept) prev s = afterClose s.
Proof.
  revert prev; induction s as [|x s IH]; intros prev.
  - reflexivity.
  - cbn [starK afterClose]. unfold Exporter.notParen.
    change closeParen with 41%N.
    destruct (ceqb x 41%N) eqn:E; cbn [negb].
    + unfold ceqb in E. apply N.eqb_eq in E. subst x. reflexivity.
    + rewrite IH. destruct (afterClose s); [reflexivity|].
      cbn [m seqs fold_right]. unfold chrMatch, ceqb in *.
      rewrite N.eqb_sym, E. reflexivity.
Qed.

Lemma matchHere_parenthetical prev s :
  matchHere Exporter.parenthetical prev s =
  match s with
  | c :: s' => if ceqb c openParen then afterClose s' else None
  | [] => None
  end.
Proof.
  unfold matchHere, Exporter.parenthetical. cbn [pat ignoreCase].
  rewrite m_seqs_cons. cbn [m]. destruct s as [|c s]; [reflexivity|].
  unfold chrMatch. change openParen with 40%N.
  rewrite (N.eqb_sym 40 c : ceqb 40%N c = ceqb c 40%N).
  destruct (ceqb c 40%N); [|reflexivity].
  rewrite m_seqs_cons. cbn [m]. apply starK_notParen.
Qed.

Lemma afterClose_hasClose s :
  hasClose s = match afterClose s with Some _ => true | None => false end.
Proof.
  induction s as [|c s IH]; [reflexivity|]. cbn [hasClose existsb afterClose].
  rewrite (N.eqb_sym closeParen c : ceqb closeParen c = ceqb c closeParen).
  destruct (ceqb c closeParen); [reflexivity|]. exact IH.
Qed.

(** The first closing parenthesis of [s] is at index [k]. *)
Fixpoint closeAt (k : nat) (s : jsstring) : Prop :=
  match s, k with
  | [], _ => False
  | c :: _, O => ceqb c closeParen = true
  | c :: s', S k' => ceqb c closeParen = false /\ closeAt k' s'
  end.

Lemma afterClose_closeAt s rest :
  afterClose s = Some rest ->
  exists k, (length s - length rest = S k)%nat /\ closeAt k s.
Proof.
  revert rest; induction s as [|c s IH]; intros rest; [discriminate|].
  cbn [afterClose]. destruct (ceqb c closeParen) eqn:E.
  - intros [= <-]. exists 0%nat. split; [cbn [length]; lia | exact E].
  - intros A. destruct (IH _ A) as [k [L C]]. exists (S k). split.
    + cbn [length]. lia.
    + cbn. auto.
Qed.

Lemma replaceAll_strip_step s :
  (forall prev,
      replaceAllFrom Exporter.parenthetical [] 0 prev s = stripFrom false s) /\
  (forall prev k,
      closeAt k s ->
      replaceAllFrom Exporter.parenthetical [] (S k) prev s = stripFrom true s).
Proof.
  induction s as [|c s [IH0 IH1]].
  - split; [reflexivity | intros prev k C; destruct k; cbn in C; contradiction].
  - split.
    + intros prev. cbn [replaceAllFrom]. rewrite matchHere_parenthetical.
      cbn [stripFrom]. rewrite afterClose_hasClose.
      destruct (ceqb c openParen); cbn [andb].
      * destruct (afterClose s) as [rest|] eqn:A.
        -- destruct (afterClose_closeAt s A) as [k [L C]].
           replace (length (c :: s) - length rest)%nat with (S (S k))
             by (cbn [length]; lia).
           cbn [app]. now apply IH1.
        -- now rewrite IH0.
      * now rewrite IH0.
    + intros prev k C. cbn [replaceAllFrom stripFrom].
      destruct k as [|k]; cbn in C.
      * rewrite C. apply IH0.
      * destruct C as [C1 C2]. rewrite C1. now apply IH1.
Qed.

(** [title.replace(/\([^)]*\)/g, '')] strips the parenthetical annotations. *)
Lemma replaceAll_parenthetical s :
  replaceAll Exporter.parenthetical [] s = stripParentheticals s.
Proof. apply replaceAll_strip_step. Qed.

End RegexFacts.

(** ** Stripping parenthetical annotations *)

Module StripFacts.

Import Direct StrFacts RegexFacts.

Lemma ws_not_close (w : jsstring) :
  forallb isWhiteSpace w = true -> hasClose w = false.
Proof.
  induction w as [|c w IH]; [reflexivity|]. cbn [forallb hasClose existsb].
  intros E. apply andb_true_iff in E as [E1 E2].
  rewrite (IH E2 : existsb _ w = false), orb_false_r.
  destruct (ceqb closeParen c) eqn:E; [|reflexivity].
  apply ceqb_eq in E. subst c. discriminate E1.
Qed.

Lemma hasClose_app (a b : jsstring) :
  hasClose (a ++ b) = hasClose a || hasClose b.
Proof. apply existsb_app. Qed.

Lemma stripFrom_app_ws (w : jsstring) :
  forallb isWhiteSpace w = true ->
  forall s inside,
    (inside = true -> hasClose s = true) ->
    stripFrom inside (s ++ w) = stripFrom inside s ++ w.
Proof.
  intros W. induction s as [|c s IH]; intros inside H.
  - destruct inside; [specialize (H eq_refl); discriminate|].
    cbn [app stripFrom]. clear H.
    induction w as [|x w IHw]; [reflexivity|].
    cbn [forallb] in W. apply andb_true_iff in W as [W1 W2].
    cbn [stripFrom]. destruct (ceqb x openParen) eqn:E.
    + apply ceqb_eq in E. subst x. discriminate W1.
    + cbn [andb]. now rewrite IHw.
  - cbn [app stripFrom]. destruct inside.
    + destruct (ceqb c closeParen) eqn:E.
      * apply IH. discriminate.
      * apply IH. intros _. specialize (H eq_refl).
        cbn [hasClose existsb] in H.
        rewrite (N.eqb_sym closeParen c : ceqb closeParen c = ceqb c closeParen), E in H.
        exact H.
    + rewrite hasClose_app, (ws_not_close w W), orb_false_r.
      destruct (ceqb c openParen && hasClose s) eqn:E.
      * apply IH. intros _. now apply andb_true_iff in E as [_ E].
      * cbn [app]. f_equal. apply IH. discriminate.
Qed.

Lemma stripFrom_ws_app (w s : jsstring) :
  forallb isWhiteSpace w = true ->
  stripFrom false (w ++ s) = w ++ stripFrom false s.
Proof.
  induction w as [|x w IH]; [reflexivity|]. cbn [forallb].
  intros W. apply andb_true_iff in W as [W1 W2].
  cbn [app stripFrom]. destruct (ceqb x openParen) eqn:E.
  - apply ceqb_eq in E. subst x. discriminate W1.
  - cbn [andb]. now rewrite IH.
Qed.

(** Stripping leaves no closing parenthesis where there was none. *)
Lemma hasClose_stripFrom s :
  hasClose s = false -> forall inside, hasClose (stripFrom inside s) = false.
Proof.
  induction s as [|c s IH]; intros H inside; [reflexivity|].
  cbn [hasClose existsb] in H. apply orb_false_iff in H as [H1 H2].
  cbn [stripFrom]. destruct inside.
  - destruct (ceqb c closeParen); now apply IH.
  - change (existsb (ceqb closeParen) s) with (hasClose s) in H2.
    rewrite H2, andb_false_r. cbn [hasClose existsb].
    rewrite H1. now apply IH.
Qed.

(** An opening parenthesis that is closed later. *)
Fixpoint hasAnnotation (s : jsstring) : bool :=
  match s with
  | [] => false
  | c :: s' => ceqb c openParen && hasClose s' || hasAnnotation s'
  end.

Lemma stripFrom_none s : hasAnnotation s = false -> stripFrom false s = s.
Proof.
  induction s as [|c s IH]; [reflexivity|]. cbn [hasAnnotation stripFrom].
  intros H. apply orb_false_iff in H as [-> H]. now rewrite IH.
Qed.

Lemma hasAnnotation_stripFrom s inside :
  hasAnnotation (stripFrom inside s) = false.
Proof.
  revert inside; induction s as [|c s IH]; intros inside; [reflexivity|].
  cbn [stripFrom]. destruct inside.
  - destruct (ceqb c closeParen); apply IH.
  - destruct (ceqb c openParen && hasClose s) eqn:E; [apply IH|].
    cbn [hasAnnotation]. rewrite IH, orb_false_r.
    apply andb_false_iff in E as [E|E].
    + now rewrite E.
    + rewrite hasClose_stripFrom by assumption. now rewrite andb_false_r.
Qed.

Lemma stripParentheticals_idem s :
  stripParentheticals (stripParentheticals s) = stripParentheticals s.
Proof. apply stripFrom_none, hasAnnotation_stripFrom. Qed.

(** Trimming before stripping does not change the trimmed result. *)
Lemma trim_strip_trim s :
  trim (stripParentheticals (trim s)) = trim (stripParentheticals s).
Proof.
  destruct (trim_split s) as [w1 [w2 [W1 [W2 E]]]].
  rewrite E at 2. unfold stripParentheticals.
  rewrite stripFrom_ws_app by assumption.
  rewrite stripFrom_app_ws by (assumption || discriminate).
  rewrite trim_ws_app by assumption. now rewrite trim_app_ws.
Qed.

End StripFacts.

(** ** The classifier *)

Module ClassifierFacts.

Import EventProcessor Direct StrFacts RegexFacts StripFacts.

(** The work rule set, tested in order. *)
Definition matchesWork (s : jsstring) : bool :=
  if test meetAndGreet s then true
  else if test minutesSuffix s then true
  else if test houseSitSuffix s then true
  else if test nailTrim s then true
  else false.

Lemma isDefinitelyPersonal_trim t :
  isDefinitelyPersonal (Some (trim t)) = isDefinitelyPersonal (Some t).
Proof.
  unfold isDefinitelyPersonal. cbn [orEmpty]. rewrite trim_idem.
  destruct t as [|c t]; [reflexivity|].
  destruct (trim (c :: t)) eqn:E; reflexivity.
Qed.

Lemma cleanTitle_strip t :
  cleanTitle (Some t) = trim (stripParentheticals t).
Proof.
  unfold cleanTitle. destruct t; [reflexivity|]. cbn [isBlank orEmpty].
  f_equal. apply replaceAll_parenthetical.
Qed.

(** A title outside the personal rule set is classified by the work rule
    set applied to its cleaned form. *)
Lemma isWorkEvent_not_personal t :
  isDefinitelyPersonal (Some t) = false ->
  isWorkEvent (OfTitle t) = matchesWork (trim (stripParentheticals t)).
Proof.
  intros P. unfold isWorkEvent. cbn [titleOf orEmpty].
  destruct t as [|c t]; [reflexivity|]. cbn [isBlank].
  rewrite isDefinitelyPersonal_trim, P, cleanTitle_strip, trim_strip_trim.
  reflexivity.
Qed.

(** The expectations of [tests/analytics-filtering.test.js]. *)
Example analytics_test_expectations :
  map (fun t => isWorkEvent (OfTitle (lit t)))
    ["Bella 30"; "Max & Cooper 60"; "Luna 45"; "Archie 30"; "Kona Chai Zero 45";
     "Buddy HS"; "Charlie Housesit"; "Daisy MG"; "Rocky M&G";
     "Spot Meet & Greet"; "Bella nail trim"]%string
  = repeat true 11 /\
  map (fun t => isWorkEvent (OfTitle (lit t)))
    ["Lunch"; "Doctor appointment"; "Grocery shopping"; "(No title)"; ""]%string
  = repeat false 5 /\
  isWorkEvent (OfTitle ([10024%N] ++ lit " off " ++ [10024%N])) = false /\
  isWorkEvent Nullish = false /\
  isWorkEvent (OfEvent (Reference.event "Bella 30" 0 1800000)) = true /\
  isWorkEvent (OfEvent (Reference.event "Lunch" 0 1800000)) = false.
Proof. vm_compute. repeat split; reflexivity. Qed.

(** The expectations of [tests/event-filtering.test.js]. *)
Example filtering_test_expectations :
  map (fun t => FilteringProcessor.isWorkEvent (Some (lit t)))
    ["Pixel 30 (forgot to cancel)"; "Roary 30 (last until 10/26 AM)";
     "Minnie+ 30"; "Archie Tarzan 60"; "Roary 30 - 1st";
     "Larry Reuben 30 & HS Start"; "Kona Chai Zero M&G"]%string
  = repeat true 7 /\
  map (fun t => FilteringProcessor.isWorkEvent (Some (lit t)))
    ["Lunch"; "Appointment with Eric"; "Yoga Therapy"; "House Clean";
     "Meeting with Mark @ Fusion"; "Cookie gaba"; "30 minute massage";
     "Watchtower Tattoo"]%string
  = repeat false 8 /\
  FilteringProcessor.isWorkEvent
    (Some ([10024%N] ++ lit " Off " ++ [10024%N])) = false /\
  FilteringProcessor.isWorkEvent
    (Some (lit "Momentum " ++ [34%N] ++ lit "Get Operational" ++ [34%N]
           ++ lit " @ Velocity")) = false.
Proof. vm_compute. repeat split; reflexivity. Qed.

(** C1. Personal precedence: a title that matches a personal pattern (the
    trimmed title, in [isDefinitelyPersonal]) is never a work event,
    whatever work pattern it matches as well; the title may be given as a
    string or through an event object.  The same holds of the processor
    double of [tests/event-filtering.test.js], which tests its personal
    patterns on the title as given.  In particular "30 minute massage" is
    not a work event for either. *)
Theorem personal_precedence (x : TitleOrEvent) (t : jsstring) (p : pattern) :
  titleOf x = Some t ->
  In p personalEventPatterns ->
  test p (trim t) = true ->
  isWorkEvent x = false /\
  isWorkEvent (OfTitle (lit "30 minute massage")) = false /\
  (forall t' p',
     In p' FilteringProcessor.personalEventPatterns ->
     test p' t' = true ->
     FilteringProcessor.isWorkEvent (Some t') = false) /\
  FilteringProcessor.isWorkEvent (Some (lit "30 minute massage")) = false.
Proof.
  intros T I M. split; [|split; [vm_compute; reflexivity|split]];
    [| |vm_compute; reflexivity].
  2:{ intros t' p' I' M'. unfold FilteringProcessor.isWorkEvent.
      destruct t' as [|c t']; [reflexivity|]. cbn [isBlank].
      assert (E : FilteringProcessor.isPersonalEvent (Some (c :: t')) = true).
      { unfold FilteringProcessor.isPersonalEvent. cbn [isBlank orEmpty].
        apply existsb_exists. exists p'. split; assumption. }
      now rewrite E. }
  unfold isWorkEvent. rewrite T.
  destruct t as [|c t]; [reflexivity|]. cbn [isBlank orEmpty].
  rewrite isDefinitelyPersonal_trim.
  assert (E : isDefinitelyPersonal (Some (c :: t)) = true).
  { unfold isDefinitelyPersonal. cbn [isBlank orEmpty].
    apply existsb_exists. exists p. split; assumption. }
  rewrite E. reflexivity.
Qed.

(** The title "Massage 30" ends in a duration token, so its cleaned form
    matches the work pattern [minutesSuffix]; it also matches the personal
    pattern [medicalPersonal], which decides. *)
Lemma personal_precedence_witness :
  test minutesSuffix (cleanTitle (Some (lit "Massage 30"))) = true /\
  (isWorkEvent (OfEvent (Reference.event "Massage 30" 0 1800000)) = false /\
   isWorkEvent (OfTitle (lit "30 minute massage")) = false /\
   (forall t' p',
      In p' FilteringProcessor.personalEventPatterns ->
      test p' t' = true ->
      FilteringProcessor.isWorkEvent (Some t') = false) /\
   FilteringProcessor.isWorkEvent (Some (lit "30 minute massage")) = false).
Proof.
  split; [vm_compute; reflexivity|].
  apply (@personal_precedence
           (OfEvent (Reference.event "Massage 30" 0 1800000))
           (lit "Massage 30") medicalPersonal).
  - reflexivity.
  - cbn [personalEventPatterns In]. auto.
  - vm_compute. reflexivity.
Defined.

(** C5, as stated, fails: the personal rule set is applied to the title
    with its annotations, so an annotation can veto a title whose stripped
    form is work. *)
Lemma parenthetical_invariance_counterexample :
  isWorkEvent (OfTitle (lit "Bella 30 (after lunch)")) = false /\
  replaceAll parenthetical [] (lit "Bella 30 (after lunch)") = lit "Bella 30 " /\
  isWorkEvent (OfTitle (replaceAll parenthetical [] (lit "Bella 30 (after lunch)"))) = true /\
  FilteringProcessor.isWorkEvent (Some (lit "Bella 30 (after massage)")) = false /\
  FilteringProcessor.isWorkEvent (Some (lit "Bella 30 ")) = true.
Proof. vm_compute. repeat split; reflexivity. Qed.

(** C5, amended. For a title that is outside the personal rule set both
    with and without its parenthetical annotations, removing every
    annotation does not change the classification; in particular
    "Pixel 30 (forgot to cancel)" and "Pixel 30" are classified alike. *)
Theorem parenthetical_invariance (t : jsstring) :
  isDefinitelyPersonal (Some t) = false ->
  isDefinitelyPersonal (Some (replaceAll parenthetical [] t)) = false ->
  isWorkEvent (OfTitle t) = isWorkEvent (OfTitle (replaceAll parenthetical [] t)) /\
  isWorkEvent (OfTitle (lit "Pixel 30 (forgot to cancel)")) =
  isWorkEvent (OfTitle (lit "Pixel 30")) /\
  FilteringProcessor.isWorkEvent (Some (lit "Pixel 30 (forgot to cancel)")) =
  FilteringProcessor.isWorkEvent (Some (lit "Pixel 30")).
Proof.
  intros P1 P2. split; [|vm_compute; split; reflexivity].
  rewrite !isWorkEvent_not_personal by assumption.
  change (replaceAll parenthetical [] t)
    with (replaceAll Exporter.parenthetical [] t).
  rewrite replaceAll_parenthetical, stripParentheticals_idem. reflexivity.
Qed.

Lemma parenthetical_invariance_witness :
  isWorkEvent (OfTitle (lit "Roary 30 (last until 10/26 AM)")) =
  isWorkEvent (OfTitle (replaceAll parenthetical [] (lit "Roary 30 (last until 10/26 AM)"))) /\
  isWorkEvent (OfTitle (lit "Pixel 30 (forgot to cancel)")) =
  isWorkEvent (OfTitle (lit "Pixel 30")) /\
  FilteringProcessor.isWorkEvent (Some (lit "Pixel 30 (forgot to cancel)")) =
  FilteringProcessor.isWorkEvent (Some (lit "Pixel 30")).
Proof.
  apply (@parenthetical_invariance (lit "Roary 30 (last until 10/26 AM)"));
    vm_compute; reflexivity.
Defined.

End ClassifierFacts.

(** ** The patterns of the exporter *)

Module PatternFacts.

Import Direct StrFacts RegexFacts Exporter.

(** *** Matches end inside the input *)

Definition isSuffix (rest s : jsstring) : Prop := exists pre, s = pre ++ rest.

Lemma isSuffix_refl s : isSuffix s s.
Proof. now exists []. Qed.

Lemma isSuffix_cons x rest s : isSuffix rest s -> isSuffix rest (x :: s).
Proof. intros [pre ->]. now exists (x :: pre). Qed.

Lemma isSuffix_length rest s : isSuffix rest s -> (length rest <= length s)%nat.
Proof. intros [pre ->]. rewrite length_app. lia. Qed.

Lemma isSuffix_firstn rest s :
  isSuffix rest s -> s = firstn (length s - length rest) s ++ rest.
Proof.
  intros [pre ->]. rewrite length_app.
  replace (length pre + length rest - length rest)%nat with (length pre) by lia.
  rewrite firstn_app, firstn_all, Nat.sub_diag. cbn. now rewrite app_nil_r.
Qed.

Definition suffixCont (k : cont) : Prop :=
  forall p r res, k p r = Some res -> isSuffix res r.

Lemma accept_suffix : suffixCont accept.
Proof. intros p r res [= <-]. apply isSuffix_refl. Qed.

Lemma starK_suffix p k : suffixCont k -> suffixCont (starK p k).
Proof.
  intros K prev s. revert prev. induction s as [|x s IH]; intros prev res.
  - cbn. apply K.
  - cbn [starK]. destruct (p x); [|apply K].
    destruct (starK p k (Some x) s) eqn:E.
    + intros [= <-]. apply isSuffix_cons. eapply IH, E.
    + apply K.
Qed.

Lemma m_suffix i r : forall k, suffixCont k -> suffixCont (m i r k).
Proof.
  induction r as [| |c|p|r1 IH1 r2 IH2|r1 IH1 r2 IH2|p| | |];
    intros k K prev s res; cbn [m].
  - discriminate.
  - apply K.
  - destruct s as [|x s]; [discriminate|].
    destruct (chrMatch i c x); [|discriminate].
    intros E. apply isSuffix_cons. eapply K, E.
  - destruct s as [|x s]; [discriminate|].
    destruct (p x); [|discriminate].
    intros E. apply isSuffix_cons. eapply K, E.
  - apply IH1, IH2, K.
  - destruct (m i r1 k prev s) eqn:E.
    + intros [= <-]. eapply IH1; eassumption.
    + apply IH2, K.
  - apply starK_suffix, K.
  - destruct prev; [discriminate|apply K].
  - destruct s; [apply K|discriminate].
  - destruct (atWordBoundary prev s); [apply K|discriminate].
Qed.

Lemma matchHere_suffix p prev s rest :
  matchHere p prev s = Some rest -> isSuffix rest s.
Proof. apply m_suffix, accept_suffix. Qed.

(** [exec] cuts the input in three. *)
Lemma execFrom_app p : forall s prev pre mid post,
  execFrom p prev s = Some (pre, mid, post) -> s = pre ++ mid ++ post.
Proof.
  induction s as [|x s IH]; intros prev pre mid post; cbn [execFrom].
  - destruct (matchHere p prev []) eqn:E; [|discriminate].
    intros [= <- <- <-]. apply matchHere_suffix in E.
    destruct E as [pre E]. symmetry in E.
    apply app_eq_nil in E as [_ ->]. reflexivity.
  - destruct (matchHere p prev (x :: s)) eqn:E.
    + intros [= <- <- <-]. apply matchHere_suffix in E.
      exact (isSuffix_firstn E).
    + destruct (execFrom p (Some x) s) as [[[pre' mid'] post']|] eqn:E';
        [|discriminate].
      intros [= <- <- <-]. cbn [app]. f_equal. eapply IH, E'.
Qed.

(** *** Greedy runs *)

Fixpoint dropWhile (p : char -> bool) (s : jsstring) : jsstring :=
  match s with
  | c :: s' => if p c then dropWhile p s' else s
  | [] => []
  end.

Lemma starK_accept p prev s : starK p accept prev s = Some (dropWhile p s).
Proof.
  revert prev; induction s as [|x s IH]; intros prev; [reflexivity|].
  cbn [starK dropWhile]. destruct (p x); [|reflexivity]. now rewrite IH.
Qed.

Lemma length_dropWhile_le p s : (length (dropWhile p s) <= length s)%nat.
Proof.
  induction s as [|x s IH]; [reflexivity|]. cbn [dropWhile].
  destruct (p x); cbn [length]; lia.
Qed.

Lemma takeWhile_dropWhile p s : s = takeWhile p s ++ dropWhile p s.
Proof.
  induction s as [|x s IH]; [reflexivity|]. cbn [takeWhile dropWhile].
  destruct (p x); [|reflexivity]. cbn [app]. now f_equal.
Qed.

Lemma firstn_takeWhile p s :
  firstn (length s - length (dropWhile p s)) s = takeWhile p s.
Proof.
  rewrite (takeWhile_dropWhile p s) at 1 3. rewrite length_app.
  replace (length (takeWhile p s) + length (dropWhile p s)
           - length (dropWhile p s))%nat
    with (length (takeWhile p s)) by lia.
  rewrite firstn_app, firstn_all, Nat.sub_diag. cbn. now rewrite app_nil_r.
Qed.

(** White space to the end of the input. *)
Lemma starK_ws_eol prev s :
  starK ws (m true (seqs [Eol]) accept) prev s =
  if forallb isWhiteSpace s then Some [] else None.
Proof.
  revert prev; induction s as [|x s IH]; intros prev; [reflexivity|].
  cbn [starK forallb]. unfold ws at 1. destruct (isWhiteSpace x); cbn [andb].
  - rewrite IH. destruct (forallb isWhiteSpace s); reflexivity.
  - reflexivity.
Qed.

(** *** [/^([^-–—]+)/] *)

Lemma execFrom_Bol_later p x s :
  (forall k prev' s', m (ignoreCase p) (pat p) k (Some prev') s' = None) ->
  execFrom p (Some x) s = None.
Proof.
  intros B. revert x; induction s as [|y s IH]; intros x; cbn [execFrom];
    unfold matchHere; rewrite B; [reflexivity|]. now rewrite IH.
Qed.

(** [cleanTitle.match(/^([^-–—]+)/)]: the longest dash-free prefix, when
    it is not empty. *)
Lemma match0_beforeDash s :
  match0 beforeDash s =
  match takeWhile notDash s with
  | [] => None
  | t => Some t
  end.
Proof.
  unfold match0, exec. destruct s as [|x s]; [reflexivity|].
  cbn [execFrom]. unfold matchHere at 1. cbn [beforeDash pat ignoreCase].
  rewrite m_seqs_cons. cbn [m]. rewrite m_seqs_cons. unfold Plus.
  cbn [m takeWhile]. destruct (notDash x) eqn:E.
  - change (m false (seqs []) accept) with accept. rewrite starK_accept.
    pose proof (length_dropWhile_le notDash s) as L.
    replace (length (x :: s) - length (dropWhile notDash s))%nat
      with (S (length s - length (dropWhile notDash s)))
      by (cbn [length]; lia).
    cbn [firstn]. now rewrite firstn_takeWhile.
  - rewrite execFrom_Bol_later; [reflexivity|].
    intros k prev' s'. reflexivity.
Qed.

(** *** Trailing tokens *)

Definition trailing (tokens : list jsstring) : pattern :=
  Pattern (seqs [WordB; alts (map Word tokens); Star ws; Eol]) true.

Lemma matchHere_trailing tokens prev s :
  matchHere (trailing tokens) prev s =
  if atWordBoundary prev s && tokenThenSpace tokens s then Some [] else None.
Proof.
  unfold matchHere, trailing. cbn [pat ignoreCase].
  rewrite m_seqs_cons. cbn [m]. destruct (atWordBoundary prev s); [|reflexivity].
  cbn [andb]. rewrite m_seqs_cons, m_alts. unfold tokenThenSpace.
  induction tokens as [|w tokens IH]; [reflexivity|].
  cbn [map fold_right existsb]. rewrite IH, m_Word, m_seqs_cons. cbn [m].
  rewrite starK_ws_eol.
  destruct (startsWithNoCase w s); cbn [andb orb]; [|reflexivity].
  destruct (forallb isWhiteSpace (skipn (length w) s)); reflexivity.
Qed.

(** [name.replace(/\b(t1|...|tn)\s*$/i, '')] cuts the trailing token. *)
Lemma replace_trailing tokens s :
  replace (trailing tokens) [] s = stripTrailing tokens None s.
Proof.
  unfold replace, exec. generalize (@None char) as prev.
  induction s as [|x s IH]; intros prev.
  - cbn [execFrom stripTrailing]. rewrite matchHere_trailing.
    destruct (atWordBoundary prev [] && tokenThenSpace tokens []); reflexivity.
  - cbn [execFrom stripTrailing]. rewrite matchHere_trailing.
    destruct (atWordBoundary prev (x :: s) && tokenThenSpace tokens (x :: s));
      [reflexivity|].
    specialize (IH (Some x)).
    destruct (execFrom (trailing tokens) (Some x) s) as [[[pre mid] post]|];
      cbn [app] in *; now f_equal.
Qed.

Lemma replace_trailingDuration s :
  replace trailingDuration [] s = stripTrailing durationTokens None s.
Proof. apply (replace_trailing durationTokens). Qed.

Lemma replace_trailingMarker s :
  replace trailingMarker [] s = stripTrailing markerTokens None s.
Proof. apply (replace_trailing markerTokens). Qed.

(** *** The duration token *)

(** The first of [tokens] that starts [s] and ends at a word boundary. *)
Fixpoint tokenAt (tokens : list jsstring) (s : jsstring) : option jsstring :=
  match tokens with
  | [] => None
  | w :: tokens' =>
      if startsWithNoCase w s
         && atWordBoundary (last (map Some (firstn (length w) s)) None)
              (skipn (length w) s)
      then Some w
      else tokenAt tokens' s
  end.

Definition bounded (tokens : list jsstring) : pattern :=
  Pattern (seqs [WordB; alts (map Word tokens); WordB]) true.

Lemma matchHere_bounded tokens prev s :
  Forall (fun w => w <> []) tokens ->
  matchHere (bounded tokens) prev s =
  if atWordBoundary prev s
  then option_map (fun w => skipn (length w) s) (tokenAt tokens s)
  else None.
Proof.
  intros NE. unfold matchHere, bounded. cbn [pat ignoreCase].
  rewrite m_seqs_cons. cbn [m]. destruct (atWordBoundary prev s); [|reflexivity].
  rewrite m_seqs_cons, m_alts.
  induction NE as [|w tokens Hw NE IH]; [reflexivity|].
  cbn [map fold_right tokenAt]. rewrite IH, m_Word, m_seqs_cons. cbn [m].
  destruct (startsWithNoCase w s) eqn:S; cbn [andb]; [|reflexivity].
  replace (last (map Some (firstn (length w) s)) prev)
    with (last (map Some (firstn (length w) s)) None).
  - destruct (atWordBoundary _ (skipn (length w) s)); reflexivity.
  - destruct w as [|c w]; [contradiction|]. destruct s as [|x s]; [discriminate|].
    cbn [length firstn map]. now rewrite !last_cons.
Qed.

Lemma tokenAt_In tokens s w : tokenAt tokens s = Some w -> In w tokens.
Proof.
  induction tokens as [|v tokens IH]; [discriminate|]. cbn [tokenAt].
  destruct (_ && _).
  - intros [= ->]. now left.
  - intros E. right. now apply IH.
Qed.

Lemma tokenAt_starts tokens s w :
  tokenAt tokens s = Some w -> startsWithNoCase w s = true.
Proof.
  induction tokens as [|v tokens IH]; [discriminate|]. cbn [tokenAt].
  destruct (startsWithNoCase v s) eqn:E; cbn [andb].
  - destruct (atWordBoundary _ _); [intros [= <-]; exact E | apply IH].
  - apply IH.
Qed.

(** A token without letters is matched literally. *)
Lemma startsWithNoCase_digits w s :
  forallb isDigit w = true -> startsWithNoCase w s = true ->
  firstn (length w) s = w.
Proof.
  revert s; induction w as [|c w IH]; intros s D S; [reflexivity|].
  destruct s as [|x s]; [discriminate|].
  cbn [forallb] in D. apply andb_true_iff in D as [D1 D2].
  cbn [startsWithNoCase] in S. apply andb_true_iff in S as [S1 S2].
  cbn [length firstn]. f_equal; [|now apply IH].
  apply ceqb_eq in S1. unfold isDigit in D1.
  apply andb_true_iff in D1 as [A B]. apply N.leb_le in A, B.
  unfold canonicalize in S1.
  destruct (N.leb_spec 97 c); destruct (N.leb_spec c 122);
    cbn [andb] in S1; try lia;
    destruct (N.leb_spec 97 x); destruct (N.leb_spec x 122);
    cbn [andb] in S1; lia.
Qed.

Lemma execFrom_bounded_digits tokens :
  Forall (fun w => w <> []) tokens ->
  (forall w, In w tokens -> forallb isDigit w = true) ->
  forall s prev pre mid post,
    execFrom (bounded tokens) prev s = Some (pre, mid, post) -> In mid tokens.
Proof.
  intros NE Dg.
  assert (Hit : forall s w, tokenAt tokens s = Some w ->
                firstn (length s - length (skipn (length w) s)) s = w).
  { intros s w T.
    pose proof (tokenAt_In _ _ T) as I. pose proof (tokenAt_starts _ _ T) as S.
    pose proof (startsWithNoCase_digits w s (Dg w I) S) as F.
    assert (L : (length w <= length s)%nat).
    { rewrite <- F at 1. rewrite length_firstn. lia. }
    rewrite length_skipn.
    replace (length s - (length s - length w))%nat with (length w) by lia.
    exact F. }
  induction s as [|x s IH]; intros prev pre mid post; cbn [execFrom];
    rewrite (matchHere_bounded _ _ NE).
  - destruct (atWordBoundary prev []); [|discriminate].
    destruct (tokenAt tokens []) as [w|] eqn:T; cbn [option_map];
      [|discriminate].
    intros [= <- <- <-].
    match goal with
    | |- In ?mid _ => replace mid with w by (symmetry; exact (Hit _ _ T))
    end.
    eapply tokenAt_In, T.
  - destruct (atWordBoundary prev (x :: s)).
    + destruct (tokenAt tokens (x :: s)) as [w|] eqn:T; cbn [option_map].
      * intros [= <- <- <-].
        match goal with
        | |- In ?mid _ => replace mid with w by (symmetry; exact (Hit _ _ T))
        end.
        eapply tokenAt_In, T.
      * destruct (execFrom (bounded tokens) (Some x) s)
          as [[[pre' mid'] post']|] eqn:E'; [|discriminate].
        intros [= <- <- <-]. eapply IH, E'.
    + destruct (execFrom (bounded tokens) (Some x) s)
        as [[[pre' mid'] post']|] eqn:E'; [|discriminate].
      intros [= <- <- <-]. eapply IH, E'.
Qed.

(** [title.match(/\b(15|20|30|45|60)\b/i)]: the match is one of the five
    tokens and occurs in the title. *)
Lemma match0_durationToken s tok :
  match0 durationToken s = Some tok ->
  In tok durationTokens /\ exists pre post, s = pre ++ tok ++ post.
Proof.
  unfold match0, exec.
  destruct (execFrom durationToken None s) as [[[pre mid] post]|] eqn:E;
    [|discriminate].
  intros [= ->]. split.
  - apply (@execFrom_bounded_digits durationTokens) in E; [exact E| |].
    + repeat constructor; discriminate.
    + intros w I. cbn in I.
      repeat (destruct I as [<-|I]; [reflexivity|]). contradiction.
  - exists pre, post. eapply execFrom_app, E.
Qed.

Lemma execFrom_found p : forall pre prev s,
  matchHere p (last (map Some pre) prev) s <> None ->
  execFrom p prev (pre ++ s) <> None.
Proof.
  induction pre as [|x pre IH]; intros prev s M.
  - cbn [app map last] in *. destruct s; cbn [execFrom];
      destruct (matchHere p prev _); congruence.
  - cbn [app execFrom].
    destruct (matchHere p prev (x :: pre ++ s)); [discriminate|].
    cbn [map] in M. rewrite last_cons in M. apply IH in M.
    destruct (execFrom p (Some x) (pre ++ s)) as [[[a b] c]|]; congruence.
Qed.

Lemma startsWithNoCase_app (w s : jsstring) : startsWithNoCase w (w ++ s) = true.
Proof.
  induction w as [|c w IH]; [reflexivity|]. cbn [app startsWithNoCase].
  rewrite IH. unfold ceqb. now rewrite N.eqb_refl.
Qed.

Lemma tokenAt_found tokens s w :
  In w tokens -> startsWithNoCase w s = true ->
  atWordBoundary (last (map Some (firstn (length w) s)) None)
    (skipn (length w) s) = true ->
  tokenAt tokens s <> None.
Proof.
  intros I S B. induction tokens as [|v tokens IH]; [contradiction|].
  cbn [tokenAt]. destruct I as [->|I].
  - rewrite S, B. discriminate.
  - destruct (_ && _); [discriminate | now apply IH].
Qed.

(** A title that contains a duration token has a match. *)
Lemma match0_durationToken_found s :
  containsToken durationTokens s -> match0 durationToken s <> None.
Proof.
  intros [before [token [after [-> [I [B1 B2]]]]]].
  unfold match0, exec.
  assert (E : execFrom durationToken None (before ++ token ++ after) <> None).
  { apply execFrom_found.
    change durationToken with (bounded durationTokens).
    rewrite matchHere_bounded by (repeat constructor; discriminate).
    rewrite B1.
    assert (T : tokenAt durationTokens (token ++ after) <> None).
    { apply tokenAt_found with (w := token); [assumption| |].
      - apply startsWithNoCase_app.
      - rewrite firstn_app, firstn_all, Nat.sub_diag, app_nil_r.
        rewrite skipn_app, skipn_all, Nat.sub_diag. exact B2. }
    destruct (tokenAt durationTokens (token ++ after)); [discriminate|].
    contradiction. }
  destruct (execFrom durationToken None (before ++ token ++ after))
    as [[[a b] c]|]; congruence.
Qed.

(** *** Doubling the quotes *)

(** Every double quote written twice. *)
Definition doubleQuotes (s : jsstring) : jsstring :=
  flat_map (fun c => if ceqb c quote then [quote; quote] else [c]) s.

Lemma replaceAll_quotes s :
  replaceAll quotePattern [quote; quote] s = doubleQuotes s.
Proof.
  unfold replaceAll. generalize (@None char) as prev.
  induction s as [|x s IH]; intros prev; [reflexivity|].
  cbn [replaceAllFrom doubleQuotes flat_map].
  unfold matchHere. cbn [quotePattern pat ignoreCase m].
  unfold chrMatch, accept.
  rewrite (N.eqb_sym quote x : ceqb quote x = ceqb x quote).
  destruct (ceqb x quote).
  - replace (length (x :: s) - length s)%nat with 1%nat by (cbn [length]; lia).
    cbn [app]. f_equal. f_equal. destruct s as [|y s]; [reflexivity|].
    cbn [replaceAllFrom]. apply IH.
  - cbn [app]. f_equal. apply IH.
Qed.

End PatternFacts.

(** ** Dates *)

Module DateFacts.

Local Open Scope Z_scope.

(** [YearFromDay] meets the ECMAScript definition of [YearFromTime]. *)
Lemma YearFromDay_spec (d : Z) :
  DayFromYear (YearFromDay d) <= d < DayFromYear (YearFromDay d + 1).
Proof.
  unfold YearFromDay.
  destruct (Z.leb_spec (DayFromYear (1970 + 400 * d / 146097 + 1)) d) as [A|A].
  - split; [exact A|]. unfold DayFromYear in *.
    Z.to_euclidean_division_equations. lia.
  - destruct (Z.leb_spec (DayFromYear (1970 + 400 * d / 146097)) d) as [B|B].
    + split; assumption.
    + replace (1970 + 400 * d / 146097 - 1 + 1) with (1970 + 400 * d / 146097)
        by lia.
      split; [|exact B]. unfold DayFromYear in *.
      Z.to_euclidean_division_equations. lia.
Qed.

Lemma YearFromDay_epoch (d : Z) : 0 <= d -> 1969 <= YearFromDay d.
Proof.
  intros D. unfold YearFromDay.
  assert (0 <= 400 * d / 146097) by (apply Z.div_pos; lia).
  destruct (_ <=? _); [lia|]. destruct (_ <=? _); lia.
Qed.

Lemma MonthFromTime_range (t : Z) : 0 <= MonthFromTime t <= 11.
Proof.
  unfold MonthFromTime.
  repeat (destruct (_ <? _); [lia|]). lia.
Qed.

Lemma MakeDay_fields (t : Z) :
  MakeDay (YearFromTime t) (MonthFromTime t) (DateFromTime t) = Day t.
Proof.
  pose proof (MonthFromTime_range t) as R.
  unfold MakeDay.
  replace (MonthFromTime t / 12) with 0 by (symmetry; apply Z.div_small; lia).
  rewrite Z.mod_small, Z.add_0_r by lia.
  unfold DateFromTime, DayWithinYear.
  change (if DaysInYear (YearFromTime t) =? 366 then 1 else 0)
    with (InLeapYear t).
  lia.
Qed.

Lemma Day_MakeDate (d : Z) : Day (MakeDate d 0) = d.
Proof.
  unfold Day, MakeDate. rewrite Z.add_0_r. apply Z.div_mul. discriminate.
Qed.

Section Local.

Context `{Platform}.

(** Rebuilding a date from its local year, month and day gives local
    midnight of that day. *)
Lemma newDate_fields (t : Z) :
  plainYear t ->
  newDate (getFullYear t) (getMonth t) (getDate t) = localMidnight t.
Proof.
  intros P. unfold newDate, localMidnight, localDay.
  replace ((0 <=? getFullYear t) && (getFullYear t <=? 99)) with false.
  - unfold getFullYear, getMonth, getDate. rewrite MakeDay_fields.
    unfold MakeDate. now rewrite Z.add_0_r.
  - symmetry. apply andb_false_iff. destruct P; [left|right]; lia.
Qed.

Lemma plainYear_epoch (t : Z) : 0 <= LocalTime t -> plainYear t.
Proof.
  intros E. right. unfold getFullYear, YearFromTime.
  assert (0 <= Day (LocalTime t)) by (apply Z.div_pos; [lia|reflexivity]).
  pose proof (YearFromDay_epoch H0). lia.
Qed.

Lemma localMidnight_inj (a b : Z) :
  steadyOffsets ->
  (localMidnight a = localMidnight b <-> localDay a = localDay b).
Proof.
  intros S. split; [|unfold localMidnight; now intros ->].
  unfold localMidnight, UTC. intros E.
  specialize (S (localDay a * msPerDay) (localDay b * msPerDay)).
  unfold msPerDay in *. lia.
Qed.

Lemma localMidnight_diff (a b : Z) :
  localMidnight b - localMidnight a =
  (localDay b - localDay a) * msPerDay - (midnightOffset b - midnightOffset a).
Proof. unfold localMidnight, midnightOffset, UTC. lia. Qed.

End Local.

(** Rounding up a whole number of days less a shift of under a day. *)
Lemma ceilDiv_shift (k d shift : Z) :
  - d < shift < d ->
  Exporter.ceilDiv (k * d - shift) d = if shift <? 0 then k + 1 else k.
Proof.
  intros D. unfold Exporter.ceilDiv.
  destruct (Z.ltb_spec shift 0); Z.to_euclidean_division_equations; nia.
Qed.

End DateFacts.

(** ** Arrays and maps *)

Module ArrFacts.

Import StrFacts.

Lemma insertBy_perm (A : Type) (cmp : A -> A -> Z) (x : A) (l : list A) :
  Permutation (insertBy cmp x l) (x :: l).
Proof.
  induction l as [|y l IH]; [reflexivity|]. cbn [insertBy].
  destruct (cmp x y <=? 0)%Z; [reflexivity|].
  rewrite IH. apply perm_swap.
Qed.

Lemma sort_perm (A : Type) (cmp : A -> A -> Z) (l : list A) :
  Permutation (Arr.sort cmp l) l.
Proof.
  induction l as [|x l IH]; [reflexivity|].
  unfold Arr.sort in *. cbn [fold_right]. rewrite insertBy_perm.
  now apply perm_skip.
Qed.

Lemma sort_In (A : Type) (cmp : A -> A -> Z) (l : list A) (x : A) :
  In x (Arr.sort cmp l) <-> In x l.
Proof.
  split; apply Permutation_in; [|symmetry]; apply sort_perm.
Qed.

Lemma mapGet_mapSet_same (V : Type) (k : jsstring) (v : V) (mp : jsmap V) :
  mapGet k (mapSet k v mp) = Some v.
Proof.
  induction mp as [|[k' v'] mp IH]; cbn [mapSet mapGet].
  - now rewrite eqb_refl.
  - destruct (Str.eqb k k') eqn:E; cbn [mapGet]; rewrite E; auto.
Qed.

Lemma mapGet_mapSet_other (V : Type) (k k' : jsstring) (v : V) (mp : jsmap V) :
  Str.eqb k' k = false -> mapGet k' (mapSet k v mp) = mapGet k' mp.
Proof.
  intros N. induction mp as [|[k0 v0] mp IH]; cbn [mapSet mapGet].
  - now rewrite N.
  - destruct (Str.eqb k k0) eqn:E; cbn [mapGet].
    + apply eqb_eq in E. subst k0. now rewrite N.
    + now rewrite IH.
Qed.

Lemma eqb_sym (a b : jsstring) : Str.eqb a b = Str.eqb b a.
Proof.
  destruct (Str.eqb a b) eqn:E.
  - apply eqb_eq in E. subst. symmetry. apply eqb_refl.
  - destruct (Str.eqb b a) eqn:E'; [|reflexivity].
    apply eqb_eq in E'. subst. now rewrite eqb_refl in E.
Qed.

Lemma mapGet_map (V W : Type) (f : V -> W) (k : jsstring) (mp : jsmap V) :
  mapGet k (map (fun entry => (fst entry, f (snd entry))) mp) =
  option_map f (mapGet k mp).
Proof.
  induction mp as [|[k' v] mp IH]; [reflexivity|]. cbn [map mapGet fst snd].
  destruct (Str.eqb k k'); [reflexivity | exact IH].
Qed.

Lemma mapGet_In_keys (V : Type) (k : jsstring) (mp : jsmap V) :
  In k (mapKeys mp) -> exists v, mapGet k mp = Some v.
Proof.
  induction mp as [|[k' v] mp IH]; [intros []|]. cbn [mapKeys map fst In mapGet].
  intros [<-|I].
  - rewrite eqb_refl. now exists v.
  - destruct (Str.eqb k k'); [now exists v | now apply IH].
Qed.

(** The total number of elements in the buckets of a map. *)
Definition total (A : Type) (mp : jsmap (list A)) : nat :=
  list_sum (map (fun entry => length (snd entry)) mp).

Lemma total_mapSet (A : Type) (k : jsstring) (v : list A) (mp : jsmap (list A)) :
  (total (mapSet k v mp) + length (orEmptyList (mapGet k mp)) =
   total mp + length v)%nat.
Proof.
  unfold total. induction mp as [|[k' v'] mp IH]; cbn [mapSet mapGet].
  - cbn. lia.
  - destruct (Str.eqb k k'); cbn [map list_sum snd orEmptyList fold_right].
    + lia.
    + revert IH. generalize (length (orEmptyList (mapGet k mp))).
      intros n IH. unfold list_sum in IH. lia.
Qed.

Lemma fold_left_ext_in (A B : Type) (f g : A -> B -> A) (l : list B) :
  (forall a x, In x l -> f a x = g a x) ->
  forall a, fold_left f l a = fold_left g l a.
Proof.
  induction l as [|x l IH]; intros E a; [reflexivity|]. cbn [fold_left].
  rewrite E by now left. apply IH. intros a' y I. apply E. now right.
Qed.

End ArrFacts.

(** ** Grouping *)

Module GroupingFacts.

Import StrFacts ArrFacts Exporter.

Section WithProcessor.

Context `{Platform} `{Processor}.

Lemma countEvents_GroupMap (entries : list (jsstring * Groups)) :
  countEvents (GroupMap entries) =
  list_sum (map (fun entry => countEvents (snd entry)) entries).
Proof.
  cbn [countEvents].
  enough (G : forall count,
             (fix values (count : nat) (l : list (jsstring * Groups)) : nat :=
                match l with
                | [] => count
                | (_, value) :: l' => values (count + countEvents value)%nat l'
                end) count entries =
             (count + list_sum (map (fun entry => countEvents (snd entry)) entries))%nat)
    by apply (G 0%nat).
  induction entries as [|[k v] entries IH]; intros count.
  - cbn. lia.
  - rewrite IH. cbn [map list_sum snd fold_right]. unfold list_sum. lia.
Qed.

(** The body of the bucketing loop. *)
Definition bucketStep (currentLevel : jsstring) (grouped : jsmap (list Event))
  (event : Event) : jsmap (list Event) :=
  let key := getGroupKey event currentLevel in
  let grouped := if mapHas key grouped then grouped else mapSet key [] grouped in
  mapSet key (orEmptyList (mapGet key grouped) ++ [event]) grouped.

Lemma groupEvents_fold events currentLevel :
  groupEvents events currentLevel = fold_left (bucketStep currentLevel) events [].
Proof. reflexivity. Qed.

Lemma bucketStep_total currentLevel grouped event :
  total (bucketStep currentLevel grouped event) = S (total grouped).
Proof.
  unfold bucketStep.
  set (key := getGroupKey event currentLevel).
  set (g := if mapHas key grouped then grouped else mapSet key [] grouped).
  assert (G : total g = total grouped).
  { subst g. unfold mapHas.
    pose proof (total_mapSet key (@nil Event) grouped) as T.
    destruct (mapGet key grouped); [reflexivity|]. cbn in T. lia. }
  pose proof (total_mapSet key (orEmptyList (mapGet key g) ++ [event]) g) as T.
  rewrite length_app in T. cbn [length] in T. lia.
Qed.

Lemma groupEvents_total events currentLevel :
  total (groupEvents events currentLevel) = length events.
Proof.
  rewrite groupEvents_fold.
  enough (G : forall acc,
             total (fold_left (bucketStep currentLevel) events acc) =
             (total acc + length events)%nat) by apply (G []).
  induction events as [|e events IH]; intros acc; cbn [fold_left length].
  - lia.
  - rewrite IH, bucketStep_total. lia.
Qed.

Lemma bucketStep_get currentLevel grouped event k :
  orEmptyList (mapGet k (bucketStep currentLevel grouped event)) =
  orEmptyList (mapGet k grouped)
  ++ (if Str.eqb k (getGroupKey event currentLevel) then [event] else []).
Proof.
  unfold bucketStep.
  set (key := getGroupKey event currentLevel).
  set (g := if mapHas key grouped then grouped else mapSet key [] grouped).
  assert (G : forall k', orEmptyList (mapGet k' g) = orEmptyList (mapGet k' grouped)).
  { intros k'. subst g. unfold mapHas.
    destruct (mapGet key grouped) eqn:E; [reflexivity|].
    destruct (Str.eqb k' key) eqn:E'.
    - apply eqb_eq in E'. subst k'. now rewrite mapGet_mapSet_same, E.
    - now rewrite mapGet_mapSet_other. }
  destruct (Str.eqb k key) eqn:E.
  - apply eqb_eq in E. subst k. rewrite mapGet_mapSet_same. cbn [orEmptyList].
    now rewrite G.
  - rewrite mapGet_mapSet_other by assumption. now rewrite G, app_nil_r.
Qed.

(** The bucket of a key holds the events with that key, in input order. *)
Lemma groupEvents_get events currentLevel k :
  orEmptyList (mapGet k (groupEvents events currentLevel)) =
  filter (fun e => Str.eqb k (getGroupKey e currentLevel)) events.
Proof.
  rewrite groupEvents_fold.
  enough (G : forall acc,
             orEmptyList (mapGet k (fold_left (bucketStep currentLevel) events acc)) =
             orEmptyList (mapGet k acc)
             ++ filter (fun e => Str.eqb k (getGroupKey e currentLevel)) events)
    by apply (G []).
  induction events as [|e events IH]; intros acc; cbn [fold_left filter].
  - now rewrite app_nil_r.
  - rewrite IH, bucketStep_get, <- app_assoc.
    destruct (Str.eqb k (getGroupKey e currentLevel)); reflexivity.
Qed.

Lemma buildNestedGroups_cons events currentLevel remainingLevels :
  buildNestedGroups events (currentLevel :: remainingLevels) =
  GroupMap
    (map (fun entry =>
            (fst entry, buildNestedGroups (snd entry) remainingLevels))
       (groupEvents events currentLevel)).
Proof.
  cbn [buildNestedGroups]. f_equal. apply map_ext. intros [k b].
  destruct remainingLevels; reflexivity.
Qed.

Lemma countEvents_build groupLevels : forall events,
  countEvents (buildNestedGroups events groupLevels) = length events.
Proof.
  induction groupLevels as [|currentLevel remainingLevels IH]; intros events.
  - reflexivity.
  - rewrite buildNestedGroups_cons, countEvents_GroupMap, map_map.
    rewrite <- (groupEvents_total events currentLevel). unfold total.
    f_equal. apply map_ext. intros [k b]. apply IH.
Qed.

(** The events of all the leaf arrays, left to right. *)
Fixpoint allEvents (data : Groups) : list Event :=
  match data with
  | EventArray events => events
  | GroupMap entries =>
      (fix values (l : list (jsstring * Groups)) : list Event :=
         match l with
         | [] => []
         | (_, value) :: l' => allEvents value ++ values l'
         end) entries
  end.

Lemma allEvents_GroupMap (entries : list (jsstring * Groups)) :
  allEvents (GroupMap entries) =
  concat (map (fun entry => allEvents (snd entry)) entries).
Proof.
  cbn [allEvents]. induction entries as [|[k v] entries IH]; [reflexivity|].
  cbn [map concat snd]. now rewrite IH.
Qed.

Lemma concat_mapSet (A : Type) (k : jsstring) (v : list A) (mp : jsmap (list A)) :
  Permutation (concat (map snd (mapSet k v mp)) ++ orEmptyList (mapGet k mp))
    (v ++ concat (map snd mp)).
Proof.
  induction mp as [|[k' v'] mp IH]; cbn [mapSet mapGet].
  - cbn. now rewrite !app_nil_r.
  - destruct (Str.eqb k k'); cbn [map concat snd orEmptyList].
    + rewrite <- app_assoc. apply Permutation_app_head, Permutation_app_comm.
    + rewrite <- app_assoc, IH.
      rewrite !app_assoc. apply Permutation_app_tail, Permutation_app_comm.
Qed.

Lemma bucketStep_perm currentLevel grouped event :
  Permutation (concat (map snd (bucketStep currentLevel grouped event)))
    (event :: concat (map snd grouped)).
Proof.
  unfold bucketStep.
  set (key := getGroupKey event currentLevel).
  set (g := if mapHas key grouped then grouped else mapSet key [] grouped).
  assert (G : Permutation (concat (map snd g)) (concat (map snd grouped))).
  { subst g. unfold mapHas.
    pose proof (concat_mapSet key (@nil Event) grouped) as P.
    destruct (mapGet key grouped); [reflexivity|].
    cbn [orEmptyList app] in P. now rewrite app_nil_r in P. }
  pose proof (concat_mapSet key (orEmptyList (mapGet key g) ++ [event]) g) as P.
  apply Permutation_app_inv_r with (l := orEmptyList (mapGet key g)).
  rewrite P, <- G.
  rewrite (Permutation_app_comm (event :: concat (map snd g))).
  rewrite <- app_assoc. reflexivity.
Qed.

Lemma groupEvents_perm events currentLevel :
  Permutation (concat (map snd (groupEvents events currentLevel))) events.
Proof.
  rewrite groupEvents_fold.
  enough (G : forall acc,
             Permutation
               (concat (map snd (fold_left (bucketStep currentLevel) events acc)))
               (concat (map snd acc) ++ events))
    by apply (G []).
  induction events as [|e events IH]; intros acc; cbn [fold_left].
  - now rewrite app_nil_r.
  - rewrite IH, bucketStep_perm. apply Permutation_middle.
Qed.

Lemma concat_perm (A B : Type) (f g : A -> list B) (l : list A) :
  (forall x, Permutation (f x) (g x)) ->
  Permutation (concat (map f l)) (concat (map g l)).
Proof.
  intros E. induction l as [|x l IH]; [reflexivity|]. cbn [map concat].
  now apply Permutation_app.
Qed.

Lemma allEvents_build groupLevels : forall events,
  Permutation (allEvents (buildNestedGroups events groupLevels)) events.
Proof.
  induction groupLevels as [|currentLevel remainingLevels IH]; intros events.
  - reflexivity.
  - rewrite buildNestedGroups_cons, allEvents_GroupMap, map_map.
    rewrite <- (groupEvents_perm events currentLevel) at 2.
    apply concat_perm. intros [k b]. apply IH.
Qed.

Lemma sortGroupKeys_In keys groupType sortBy sortOrder k :
  In k (sortGroupKeys keys groupType sortBy sortOrder) -> In k keys.
Proof.
  unfold sortGroupKeys.
  destruct (Str.eqb sortOrder (lit "desc")); [rewrite <- in_rev|];
    destruct (_ && _); apply sort_In.
Qed.

Section Render.

Variables (groupLevels : list jsstring) (includeTime includeLocation : bool)
          (groupSortBy groupSortOrder : jsstring)
          (eventSortLevels : list SortLevel).

Let render := renderNestedGroups groupLevels includeTime includeLocation
                groupSortBy groupSortOrder eventSortLevels.

(** The loop over the sorted keys prints, for each key, the header with
    [countEvents] of the value stored under the key, and then the value. *)
Lemma renderNestedGroups_GroupMap entries depth :
  render (GroupMap entries) depth =
  fold_left
    (fun output key =>
       match mapGet key entries with
       | Some value =>
           output
           ++ renderHeader (repeat_str (lit "  ") depth) key (countEvents value)
           ++ render value (S depth) ++ newline
       | None => output
       end)
    (sortGroupKeys (map fst entries) (nth_error groupLevels depth) groupSortBy
       groupSortOrder)
    [].
Proof.
  unfold render. cbn [renderNestedGroups].
  set (F := fun value : Groups =>
              (countEvents value,
               renderNestedGroups groupLevels includeTime includeLocation
                 groupSortBy groupSortOrder eventSortLevels value (S depth))).
  match goal with
  | |- fold_left (fun output key => match mapGet key ?r with _ => _ end) _ _ = _ =>
      assert (R : r = map (fun entry => (fst entry, F (snd entry))) entries)
  end.
  { induction entries as [|[k v] entries IH]; [reflexivity|].
    cbn [map fst snd]. f_equal. exact IH. }
  rewrite R. apply fold_left_ext_in. intros output key _.
  rewrite mapGet_map. destruct (mapGet key entries); reflexivity.
Qed.

End Render.

(** C2. Grouping neither duplicates nor drops events: for every event
    list and every list of grouping levels, [countEvents] of the tree built
    by [buildNestedGroups] is the length of the input, and the leaf arrays
    hold a permutation of the input.  For each key, in the order of
    [sortGroupKeys], [renderNestedGroups] prints the header line, the
    rendering of the subtree and an empty line; the header line is the
    indentation, the key and, in parentheses, "1 event" or the decimal
    number of events followed by " events", where the number is that of
    the events of the input that have the key, whatever the number of
    subgroups.  The subtree is again the tree built from those events with
    the remaining levels, so the same holds of every header below. *)
Theorem grouping_count_conservation (events : list Event)
  (groupLevels : list jsstring) :
  countEvents (buildNestedGroups events groupLevels) = length events /\
  Permutation (allEvents (buildNestedGroups events groupLevels)) events /\
  forall renderLevels includeTime includeLocation groupSortBy groupSortOrder
         eventSortLevels currentLevel remainingLevels depth,
    groupLevels = currentLevel :: remainingLevels ->
    let render := renderNestedGroups renderLevels includeTime includeLocation
                    groupSortBy groupSortOrder eventSortLevels in
    let bucket key :=
      filter (fun e => Str.eqb key (getGroupKey e currentLevel)) events in
    let subtree key := buildNestedGroups (bucket key) remainingLevels in
    render (buildNestedGroups events groupLevels) depth =
    fold_left
      (fun output key =>
         output
         ++ (repeat_str (lit "  ") depth ++ key ++ lit " ("
             ++ (if (length (bucket key) =? 1)%nat then lit "1 event"
                 else ofZ (Z.of_nat (length (bucket key))) ++ lit " events")
             ++ lit ")" ++ newline)
         ++ render (subtree key) (S depth) ++ newline)
      (sortGroupKeys (mapKeys (groupEvents events currentLevel))
         (nth_error renderLevels depth) groupSortBy groupSortOrder)
      []
    /\ forall key, countEvents (subtree key) = length (bucket key).
Proof.
  split; [apply countEvents_build|]. split; [apply allEvents_build|].
  intros renderLevels includeTime includeLocation groupSortBy groupSortOrder
    eventSortLevels currentLevel remainingLevels depth -> render bucket subtree.
  split; [|intros key; apply countEvents_build].
  unfold render. rewrite buildNestedGroups_cons, renderNestedGroups_GroupMap.
  rewrite map_map. cbn [fst].
  apply fold_left_ext_in. intros output key I.
  apply sortGroupKeys_In in I.
  rewrite (mapGet_map (fun b => buildNestedGroups b remainingLevels)).
  destruct (mapGet_In_keys _ _ I) as [b B].
  pose proof (groupEvents_get events currentLevel key) as G.
  rewrite B in *. cbn [orEmptyList option_map] in *.
  unfold subtree, bucket. rewrite <- G.
  unfold renderHeader, countLabel. now rewrite countEvents_build.
Qed.

End WithProcessor.

(** Three visits of one client in two service groups: the client header
    counts the three events, not the two subgroups. *)
Example header_counts_events :
  let e1 := Reference.event "Milo 30" 0 1800000 in
  let e2 := Reference.event "Milo 45" 3600000 6300000 in
  let e3 := Reference.event "Milo 30" 7200000 9000000 in
  let tree := @buildNestedGroups Reference.platform Reference.mockProcessor
                [e1; e2; e3] [lit "client"; lit "service"] in
  tree = GroupMap [(lit "Milo",
                    GroupMap [(lit "30-min", EventArray [e1; e3]);
                              (lit "45-min", EventArray [e2])])] /\
  firstn 16
    (@renderNestedGroups Reference.platform Reference.mockProcessor
       [lit "client"; lit "service"] false false (lit "date") (lit "asc")
       [defaultLevel] tree 0) = lit "Milo (3 events)" ++ newline.
Proof. vm_compute. split; reflexivity. Qed.

End GroupingFacts.

(** ** The exporter's text functions *)

Module ExporterFacts.

Import Direct StrFacts RegexFacts PatternFacts DateFacts ArrFacts GroupingFacts.
Import Exporter.

Local Open Scope Z_scope.

Section WithProcessor.

Context `{Platform} `{Processor}.

(** *** Overnight events *)

(** The midnight normalisation of the code: the date rebuilt from the local
    year, month and day of a time value. *)
Definition midnightOf (t : Z) : Z :=
  newDate (getFullYear t) (getMonth t) (getDate t).

Lemma midnightOf_local (t : Z) : plainYear t -> midnightOf t = localMidnight t.
Proof. intros P. unfold midnightOf. now rewrite newDate_fields. Qed.

(** On events and check dates that are valid the test compares the two
    midnight normalisations. *)
Lemma shouldIncludeEventOnDate_valid event checkDate :
  shouldIncludeEventOnDate event checkDate =
  if isEndOvernightMarker event then false
  else if negb (isOvernightEvent event) then true
  else
    match checkDate with
    | None => true
    | Some checkDate => midnightOf (start event) =? midnightOf checkDate
    end.
Proof.
  unfold shouldIncludeEventOnDate, Incoming.shouldIncludeEventOnDate.
  change (Incoming.isEndOvernightMarker title event)
    with (isEndOvernightMarker event).
  destruct (isEndOvernightMarker event); [reflexivity|].
  destruct (negb (isOvernightEvent event)); [reflexivity|].
  destruct checkDate as [checkDate|]; [|reflexivity].
  cbn [option_map]. cbv zeta. unfold Incoming.dayOf, Incoming.sameTime, midnightOf.
  reflexivity.
Qed.

Lemma shouldInclude_marker event checkDate :
  isEndOvernightMarker event = true ->
  shouldIncludeEventOnDate event checkDate = false.
Proof. intros M. rewrite shouldIncludeEventOnDate_valid. now rewrite M. Qed.

Lemma shouldInclude_own_start event :
  shouldIncludeEventOnDate event (Some (start event)) =
  negb (isEndOvernightMarker event).
Proof.
  rewrite shouldIncludeEventOnDate_valid.
  destruct (isEndOvernightMarker event); [reflexivity|].
  destruct (isOvernightEvent event); [|reflexivity].
  cbn [negb]. apply Z.eqb_refl.
Qed.

Lemma getGroupKey_date event :
  getGroupKey event (lit "date") = formatDate (start event).
Proof. reflexivity. Qed.

(** C3, amended (the marker pattern of the code has word boundaries, see
    [overnight_marker_counterexample]).  [shouldIncludeEventOnDate] is false
    for every event that [isEndOvernightMarker] recognises, whatever the
    check date.  For an overnight event that is not a marker and a check
    date, it is true exactly when the check date and the start of the event
    have the same midnight normalisation; for years that the [Date]
    constructor takes as they are and a zone whose offsets differ by less
    than a day, that is exactly when they fall on the same local calendar
    day.  In a report grouped by date the event is filed under the label of
    its start date and under no other. *)
Theorem overnight_single_appearance (event : Event) :
  (isEndOvernightMarker event = true ->
   forall checkDate, shouldIncludeEventOnDate event checkDate = false) /\
  (isEndOvernightMarker event = false ->
   isOvernightEvent event = true ->
   forall checkDate,
     (shouldIncludeEventOnDate event (Some checkDate) = true <->
      midnightOf checkDate = midnightOf (start event)) /\
     (steadyOffsets -> plainYear (start event) -> plainYear checkDate ->
      (shouldIncludeEventOnDate event (Some checkDate) = true <->
       localDay checkDate = localDay (start event)))) /\
  (forall events key bucket,
     mapGet key (groupEvents (overnightFilter events) (lit "date")) = Some bucket ->
     In event bucket ->
     key = formatDate (start event)) /\
  (forall events,
     In event events -> isEndOvernightMarker event = false ->
     In event
       (orEmptyList
          (mapGet (formatDate (start event))
             (groupEvents (overnightFilter events) (lit "date"))))).
Proof.
  split; [intros M checkDate; now apply shouldInclude_marker|].
  split; [|split].
  - intros M O checkDate.
    assert (E : shouldIncludeEventOnDate event (Some checkDate) = true <->
                midnightOf checkDate = midnightOf (start event)).
    { rewrite shouldIncludeEventOnDate_valid, M, O.
      cbn [negb]. rewrite Z.eqb_eq. split; congruence. }
    split; [exact E|]. intros S P1 P2. rewrite E.
    rewrite !midnightOf_local by assumption. now apply localMidnight_inj.
  - intros events key bucket G I.
    pose proof (groupEvents_get (overnightFilter events) (lit "date") key) as E.
    rewrite G in E. cbn [orEmptyList] in E. rewrite E in I.
    apply filter_In in I as [_ I]. apply eqb_eq in I.
    now rewrite I, getGroupKey_date.
  - intros events I M. rewrite groupEvents_get. apply filter_In. split.
    + unfold overnightFilter. apply filter_In. split; [assumption|].
      rewrite shouldInclude_own_start, M. reflexivity.
    + rewrite getGroupKey_date. apply eqb_refl.
Qed.

Lemma csvRow_None includeLocation event :
  csvRow includeLocation event = None <-> isEndOvernightMarker event = true.
Proof.
  unfold csvRow. rewrite shouldInclude_own_start, negb_involutive.
  destruct (isEndOvernightMarker event); split; congruence.
Qed.

Lemma fold_left_rows (includeLocation : bool) (events : list Event) :
  forall csv,
    fold_left
      (fun csv event =>
         match csvRow includeLocation event with
         | Some row => csv ++ row
         | None => csv
         end)
      events csv =
    fold_left
      (fun csv event => csv ++ orEmpty (csvRow includeLocation event))
      (filter (fun e => negb (isEndOvernightMarker e)) events) csv.
Proof.
  induction events as [|e events IH]; intros csv; [reflexivity|].
  cbn [fold_left filter]. rewrite IH.
  destruct (isEndOvernightMarker e) eqn:M; cbn [negb].
  - apply csvRow_None with (includeLocation := includeLocation) in M.
    now rewrite M.
  - cbn [fold_left]. destruct (csvRow includeLocation e); [reflexivity|].
    cbn [orEmpty]. now rewrite app_nil_r.
Qed.

(** On incoming events whose start is a valid date the filter of
    [generateTextList] is the filter on events: [toEvent] reads such an
    event as an [Event]. *)
Lemma overnightFilter_valid (E : Type) (titleOf : E -> option jsstring)
  (dateOf : E -> option Z) (overnightOf : E -> bool) (toEvent : E -> Event)
  (events : list E) :
  (forall e, titleOf e = title (toEvent e) /\
             dateOf e = Some (start (toEvent e)) /\
             overnightOf e = isOvernightEvent (toEvent e)) ->
  map toEvent (Incoming.overnightFilter titleOf dateOf overnightOf events) =
  overnightFilter (map toEvent events).
Proof.
  intros V. unfold Incoming.overnightFilter, overnightFilter.
  induction events as [|e events IH]; [reflexivity|].
  cbn [filter map]. cbv zeta in *.
  assert (S : Incoming.shouldIncludeEventOnDate titleOf dateOf overnightOf e
                (Some (dateOf e)) =
              shouldIncludeEventOnDate (toEvent e)
                (Some (start (toEvent e)))).
  { destruct (V e) as [T [D O]].
    unfold shouldIncludeEventOnDate, Incoming.shouldIncludeEventOnDate,
      Incoming.isEndOvernightMarker.
    cbn [option_map]. now rewrite T, D, O. }
  rewrite S.
  destruct (shouldIncludeEventOnDate (toEvent e) (Some (start (toEvent e))));
    cbn [map]; now rewrite IH.
Qed.

(** A [Date] object that is not an invalid date. *)
Definition validDate (d : option Z) : bool :=
  match d with
  | Some _ => true
  | None => false
  end.

(** C10, amended.  At the call sites of both generators the check date is
    [new Date(event.start)], the start of the event itself.  When that is a
    valid date the comparison of the start days succeeds, and the call is
    false exactly for the events whose lower-cased title matches the marker
    pattern of the code; when it is an invalid date the comparison fails,
    so that the call is false for an overnight event as well.  Hence the
    filter of [generateTextList] and the row skip of [generateCSV] remove
    the markers and the overnight events whose start is invalid, and keep
    every other event.  For events whose dates are valid they remove
    exactly the markers: the rows of [generateCSV] are those of the sorted
    events that are not markers.  The last part pins the pattern down on
    lower-cased titles: it demands a word boundary on both sides. *)
Theorem overnight_filter_call_site :
  (forall (E : Type) (titleOf : E -> option jsstring)
          (dateOf : E -> option Z) (overnightOf : E -> bool),
     let marker event :=
       test endOvernight (toLowerCase (orEmpty (titleOf event))) in
     let kept event :=
       negb (marker event)
       && (negb (overnightOf event) || validDate (dateOf event)) in
     (forall event,
        Incoming.shouldIncludeEventOnDate titleOf dateOf overnightOf event
          (Some (dateOf event)) = kept event) /\
     (forall events,
        Incoming.overnightFilter titleOf dateOf overnightOf events =
        filter kept events) /\
     (forall event,
        Incoming.rowSkipped titleOf dateOf overnightOf event =
        negb (kept event))) /\
  (forall event : Event,
     let marker := test endOvernight (toLowerCase (orEmpty (title event))) in
     shouldIncludeEventOnDate event (Some (start event)) = negb marker /\
     forall includeLocation,
       csvRow includeLocation event = None <-> marker = true) /\
  (forall events,
     overnightFilter events =
     filter (fun e => negb (test endOvernight
                              (toLowerCase (orEmpty (title e))))) events) /\
  (forall events options,
     generateCSV events options =
     fold_left
       (fun csv e => csv ++ orEmpty (csvRow (csvIncludeLocation options) e))
       (filter (fun e => negb (test endOvernight
                                 (toLowerCase (orEmpty (title e)))))
          (sortEvents
             (filter (inRange (csvWorkEventsOnly options)
                        (csvStartDate options) (csvEndDate options)) events)
             (csvSortBy options) (csvSecondarySort options)
             (csvSortOrder options)))
       (lit "Date,Time,Client/Pet,Service Type,Duration"
        ++ (if csvIncludeLocation options then lit ",Location" else [])
        ++ newline)) /\
  map (test endOvernight)
    [lit "end hs"; lit "bella end overnight"; lit "end  housesit";
     lit "endhs"; lit "weekend hs"; lit "end hst"; lit "bella hs"; []]
  = [true; true; true; true; false; false; false; false].
Proof.
  split; [|split; [|split; [|split]]].
  - intros E titleOf dateOf overnightOf marker kept.
    assert (K : forall event,
               Incoming.shouldIncludeEventOnDate titleOf dateOf overnightOf
                 event (Some (dateOf event)) = kept event).
    { intros event. unfold Incoming.shouldIncludeEventOnDate, kept.
      change (Incoming.isEndOvernightMarker titleOf event) with (marker event).
      destruct (marker event); [reflexivity|].
      destruct (overnightOf event); [|reflexivity].
      cbn [negb andb orb]. cbv zeta.
      destruct (dateOf event) as [t|]; [|reflexivity].
      cbn [Incoming.dayOf Incoming.sameTime validDate]. apply Z.eqb_refl. }
    split; [exact K|]. split.
    + intros events. unfold Incoming.overnightFilter. apply filter_ext.
      intros event. apply K.
    + intros event. unfold Incoming.rowSkipped. cbv zeta. now rewrite K.
  - intros event marker. split; [apply shouldInclude_own_start|].
    intros includeLocation. apply csvRow_None.
  - intros events. unfold overnightFilter. apply filter_ext.
    intros e. apply shouldInclude_own_start.
  - intros events options. unfold generateCSV. rewrite fold_left_rows.
    destruct (csvIncludeLocation options); reflexivity.
  - vm_compute. reflexivity.
Qed.

(** *** Invalid configuration *)

(** C6, amended.  An unrecognised grouping key gives the bucket label
    "Unknown".  An unrecognised sort field falls into the [default] of the
    switch, which shares the body of ['date']: the comparison is the
    difference of the start times, not zero. *)
Theorem invalid_configuration (event a b : Event) (groupType sortField : jsstring) :
  ~ In groupType [lit "client"; lit "service"; lit "date"; lit "week"; lit "month"] ->
  ~ In sortField [lit "client"; lit "service"; lit "time"] ->
  getGroupKey event groupType = lit "Unknown" /\
  compareEvents a b sortField = start a - start b /\
  compareEvents a b sortField = compareEvents a b (lit "date").
Proof.
  intros G S.
  assert (N : forall (x y : jsstring), x <> y -> Str.eqb x y = false).
  { intros x y D. destruct (Str.eqb x y) eqn:E; [|reflexivity].
    apply eqb_eq in E. contradiction. }
  cbn [In] in G, S. split; [|split].
  - unfold getGroupKey. rewrite !N by intuition congruence. reflexivity.
  - unfold compareEvents. rewrite !N by intuition congruence. reflexivity.
  - unfold compareEvents. rewrite !N by intuition congruence. reflexivity.
Qed.

(** *** The service label *)

Definition nightLabel (nights : Z) : jsstring :=
  if nights =? 1 then lit "1 night" else ofZ nights ++ lit " nights".

Lemma calculateOvernightNights_overnight event :
  isOvernightEvent event = true ->
  calculateOvernightNights event =
  Z.max 1 (ceilDiv (midnightOf (end_ event) - midnightOf (start event)) msPerDay).
Proof.
  intros O. unfold calculateOvernightNights, midnightOf. rewrite O.
  cbn [negb]. cbv zeta.
  replace (1000 * 60 * 60 * 24) with msPerDay by (vm_compute; reflexivity).
  reflexivity.
Qed.

(** X2. The night count in calendar days: the difference of the local
    days, and one more when the offset of the zone is smaller at the midnight
    of the end than at the midnight of the start. *)
Lemma calculateOvernightNights_days event :
  isOvernightEvent event = true ->
  plainYear (start event) -> plainYear (end_ event) ->
  let shift := midnightOffset (end_ event) - midnightOffset (start event) in
  - msPerDay < shift < msPerDay ->
  calculateOvernightNights event =
  Z.max 1 (localDay (end_ event) - localDay (start event)
           + if shift <? 0 then 1 else 0).
Proof.
  intros O P1 P2 shift S. rewrite calculateOvernightNights_overnight by assumption.
  rewrite !midnightOf_local by assumption.
  rewrite localMidnight_diff. fold shift. rewrite ceilDiv_shift by assumption.
  destruct (shift <? 0); f_equal; lia.
Qed.

Lemma formatServiceType_overnight event :
  isOvernightEvent event = true ->
  formatServiceType event =
  lit "Overnight (" ++ nightLabel (calculateOvernightNights event) ++ lit ")".
Proof.
  intros O. unfold formatServiceType. rewrite O. reflexivity.
Qed.

Lemma formatServiceType_other event :
  isOvernightEvent event = false ->
  formatServiceType event =
  if includes (toLowerCase (orEmpty (title event))) (lit "nail trim")
  then lit "Nail Trim"
  else
    match match0 durationToken (orEmpty (title event)) with
    | Some durationMatch => durationMatch ++ lit "-min"
    | None =>
        if test meetAndGreet (orEmpty (title event)) then lit "Meet & Greet"
        else if Str.eqb (orEmpty (type event)) (lit "walk") then lit "Dog Walk"
        else lit "Visit"
    end.
Proof.
  intros O. unfold formatServiceType. rewrite O. reflexivity.
Qed.

(** X1. [formatServiceType] is a cascade in which the first match wins.
    An overnight event gives "Overnight (N night[s])" where N is the larger
    of 1 and the number of days, rounded up, between the midnight-normalised
    start and end; for years that the [Date] constructor takes as they are
    these are the local midnights, and when the zone has the same offset at
    both, N is the larger of 1 and the difference of the local calendar
    days.  Otherwise a title whose lower case contains "nail trim" gives
    "Nail Trim"; otherwise a title with a duration token gives the token
    followed by "-min", the token being one of 15, 20, 30, 45, 60 and a part
    of the title, and every title that contains one of these as a word has
    such a match; otherwise a meet-and-greet match gives "Meet & Greet";
    otherwise the result is "Dog Walk" for the type 'walk' and "Visit" for
    any other type. *)
Theorem formatServiceType_cascade (event : Event) :
  let title := orEmpty (title event) in
  (isOvernightEvent event = true ->
   let nights :=
     Z.max 1 (ceilDiv (midnightOf (end_ event) - midnightOf (start event))
                msPerDay) in
   formatServiceType event = lit "Overnight (" ++ nightLabel nights ++ lit ")" /\
   (plainYear (start event) -> plainYear (end_ event) ->
    midnightOf (start event) = localMidnight (start event) /\
    midnightOf (end_ event) = localMidnight (end_ event) /\
    (midnightOffset (end_ event) = midnightOffset (start event) ->
     nights = Z.max 1 (localDay (end_ event) - localDay (start event))))) /\
  (isOvernightEvent event = false ->
   (includes (toLowerCase title) (lit "nail trim") = true ->
    formatServiceType event = lit "Nail Trim") /\
   (includes (toLowerCase title) (lit "nail trim") = false ->
    (forall token,
       match0 durationToken title = Some token ->
       formatServiceType event = token ++ lit "-min" /\
       In token durationTokens /\
       exists before after, title = before ++ token ++ after) /\
    (containsToken durationTokens title ->
     exists token,
       In token durationTokens /\
       formatServiceType event = token ++ lit "-min") /\
    (match0 durationToken title = None ->
     (test meetAndGreet title = true ->
      formatServiceType event = lit "Meet & Greet") /\
     (test meetAndGreet title = false ->
      formatServiceType event =
      if Str.eqb (orEmpty (type event)) (lit "walk")
      then lit "Dog Walk" else lit "Visit")))).
Proof.
  intros title. split.
  - intros O nights. split.
    + rewrite formatServiceType_overnight by assumption.
      now rewrite calculateOvernightNights_overnight.
    + intros P1 P2. split; [|split].
      * now rewrite midnightOf_local.
      * now rewrite midnightOf_local.
      * intros E. subst nights. rewrite !midnightOf_local by assumption.
        rewrite localMidnight_diff, E, Z.sub_diag.
        rewrite ceilDiv_shift by (unfold msPerDay; lia). reflexivity.
  - intros O. rewrite formatServiceType_other by assumption.
    subst title. split.
    + intros ->. reflexivity.
    + intros ->. split; [|split].
      * intros token M. rewrite M. split; [reflexivity|].
        now apply match0_durationToken.
      * intros T. apply match0_durationToken_found in T.
        destruct (match0 durationToken (orEmpty (title event))) as [token|] eqn:M;
          [|contradiction].
        exists token. split; [|reflexivity].
        now apply match0_durationToken in M.
      * intros ->. split; intros ->; reflexivity.
Qed.

(** *** The client name *)

(** C8, amended.  A missing or empty title gives the empty string.
    Otherwise the parenthetical notes are removed and the result trimmed;
    of this cleaned title the part before the first dash, en dash or em dash
    is taken (all of it when there is no dash), trimmed, relieved of a
    trailing duration token and then of a trailing marker, trimmed after
    each step.  When the part before the first dash is empty, the cleaned
    title itself is the result.  As to the type of the argument: every
    falsy value gives the empty string and every string gives the result
    above, but a truthy value that is not a string makes the call of
    [title.replace] throw, so the function does throw. *)
Theorem extractClientName_steps :
  extractClientName None = [] /\
  extractClientName (Some []) = [] /\
  (forall title,
     let cleaned := trim (stripParentheticals title) in
     extractClientName (Some title) =
     match takeWhile notDash cleaned with
     | [] => cleaned
     | _ :: _ => Claimed.extractClientName title
     end) /\
  (forall value,
     extractClientNameOf value =
     match value with
     | Text title => inr (extractClientName (Some title))
     | Undefined | Null | NotANumber | Boolean false | Numeric 0 => inr []
     | Boolean true | Numeric _ | Object => inl (NotAFunction (lit "replace"))
     end) /\
  (forall value,
     (exists e, extractClientNameOf value = inl e) <->
     falsy value = false /\ forall title, value <> Text title).
Proof.
  split; [reflexivity|]. split; [reflexivity|]. split; [|split].
  - intros title cleaned. destruct title as [|c title]; [reflexivity|].
    unfold extractClientName, Claimed.extractClientName.
    rewrite replaceAll_parenthetical. fold cleaned.
    rewrite match0_beforeDash.
    destruct (takeWhile notDash cleaned) as [|x name]; [reflexivity|].
    rewrite replace_trailingDuration, replace_trailingMarker. reflexivity.
  - intros [| |[|]|[|n|n]| |[|c title]|]; reflexivity.
  - intros value. split.
    + intros [e E].
      destruct value as [| |[|]|[|n|n]| |[|c title]|];
        cbn [extractClientNameOf falsy] in E; try discriminate E;
        (split; [reflexivity|intros t; discriminate]).
    + intros [F N].
      destruct value as [| |[|]|[|n|n]| |[|c title]|];
        cbn [falsy] in F; try discriminate F;
        try (eexists; reflexivity).
      now contradiction (N (c :: title)).
Qed.

End WithProcessor.

(** C3 as stated fails: the title "Weekend HS" matches
    [end\s*(overnight|hs|housesit)], yet the event is included, because the
    pattern of the code demands a word boundary before "end". *)
Lemma overnight_marker_counterexample :
  let event := Reference.event "Weekend HS" 0 86400000 in
  test Claimed.endOvernight (orEmpty (title event)) = true /\
  @shouldIncludeEventOnDate Reference.platform Reference.mockProcessor
    event None = true /\
  @shouldIncludeEventOnDate Reference.platform Reference.processor
    event (Some (start event)) = true.
Proof. vm_compute. repeat split; reflexivity. Qed.

Lemma overnight_single_appearance_witness :
  let event := Reference.event "Bella HS" 1763200800000 1763460000000 in
  @isEndOvernightMarker Reference.platform event = false /\
  @isOvernightEvent Reference.processor event = true /\
  (@shouldIncludeEventOnDate Reference.platform Reference.processor
     event (Some 1763240400000) = true <->
   @localDay Reference.platform 1763240400000 =
   @localDay Reference.platform (start event)).
Proof.
  intros event. split; [vm_compute; reflexivity|].
  split; [vm_compute; reflexivity|].
  apply (@overnight_single_appearance Reference.platform Reference.processor event).
  - vm_compute; reflexivity.
  - vm_compute; reflexivity.
  - intros s t. vm_compute. reflexivity.
  - right. vm_compute. reflexivity.
  - right. vm_compute. reflexivity.
Defined.

(** C6 as stated fails: an unrecognised sort field does not compare as
    zero; with the order 'desc' it reverses the chronological order that a
    level without effect would leave to the tie-break. *)
Lemma invalid_sort_field_counterexample :
  let a := Reference.event "Bella 30" 0 1800000 in
  let b := Reference.event "Milo 30" 3600000 5400000 in
  @compareEvents Reference.platform Reference.mockProcessor a b (lit "priority")
  = (-3600000)%Z /\
  @sortEventsMultiLevel Reference.platform Reference.mockProcessor [a; b]
    (LevelArray [{| sortBy := lit "priority"; sortOrder := lit "desc" |}])
  = [b; a].
Proof. vm_compute. split; reflexivity. Qed.

Lemma invalid_configuration_witness :
  let a := Reference.event "Bella 30" 0 1800000 in
  let b := Reference.event "Milo 30" 3600000 5400000 in
  @getGroupKey Reference.platform Reference.mockProcessor a (lit "year")
  = lit "Unknown" /\
  @compareEvents Reference.platform Reference.mockProcessor a b (lit "priority")
  = (start a - start b)%Z /\
  @compareEvents Reference.platform Reference.mockProcessor a b (lit "priority")
  = @compareEvents Reference.platform Reference.mockProcessor a b (lit "date").
Proof.
  intros a b.
  apply (@invalid_configuration Reference.platform Reference.mockProcessor
           a a b (lit "year") (lit "priority"));
    cbn [In]; intros D; repeat (destruct D as [D|D]; [discriminate D|]);
    exact D.
Defined.

Lemma formatServiceType_cascade_witness :
  let event := {| title := Some (lit "Bella HS"); start := 1763200800000;
                  end_ := 1763460000000; location := None;
                  type := Some (lit "overnight") |} in
  @formatServiceType Reference.platform Reference.processor event
  = lit "Overnight (3 nights)" /\
  @formatServiceType Reference.platform Reference.processor
    (Reference.event "Milo 45 - 1st" 0 2700000) = lit "45-min".
Proof.
  intros event. split.
  - apply (@formatServiceType_cascade Reference.platform Reference.processor event).
    vm_compute. reflexivity.
  - apply (@formatServiceType_cascade Reference.platform Reference.processor
             (Reference.event "Milo 45 - 1st" 0 2700000)) with (token := lit "45");
      vm_compute; reflexivity.
Defined.

(** A stay of two nights over the start of daylight saving time in the
    Eastern zone, from the evening of March 8th to the morning of March 10th
    2025: the midnights are 47 hours apart, and the count, rounded up, is
    two. *)
Lemma calculateOvernightNights_days_witness :
  let event := {| title := Some (lit "Bella HS"); start := 1741474800000;
                  end_ := 1741615200000; location := None;
                  type := Some (lit "overnight") |} in
  @formatDate Reference.eastern (start event) = lit "03/08/2025" /\
  @formatDate Reference.eastern (end_ event) = lit "03/10/2025" /\
  @calculateOvernightNights Reference.eastern Reference.processor event
  = Z.max 1 (2 + 0).
Proof.
  intros event. split; [vm_compute; reflexivity|].
  split; [vm_compute; reflexivity|].
  rewrite (@calculateOvernightNights_days Reference.eastern Reference.processor
             event).
  - vm_compute. reflexivity.
  - vm_compute. reflexivity.
  - right. vm_compute. reflexivity.
  - right. vm_compute. reflexivity.
  - vm_compute. split; reflexivity.
Defined.

(** C7. The night count over the end of daylight saving time.  In the
    Eastern zone a stay from the evening of Saturday, November 1st 2025 to
    the morning of Monday, November 3rd lies on calendar days that are two
    apart, but the local midnights are 49 hours apart, and the count,
    rounded up, is three: whatever processor classifies the event as
    overnight, the label is "Overnight (3 nights)". *)
Theorem overnight_nights_fall_back (processor : Processor) :
  let event := {| title := Some (lit "Bella HS"); start := 1762034400000;
                  end_ := 1762182000000; location := None;
                  type := Some (lit "overnight") |} in
  @isOvernightEvent processor event = true ->
  @formatDate Reference.eastern (start event) = lit "11/01/2025" /\
  @formatDate Reference.eastern (end_ event) = lit "11/03/2025" /\
  @localDay Reference.eastern (end_ event)
  - @localDay Reference.eastern (start event) = 2 /\
  @midnightOf Reference.eastern (end_ event)
  - @midnightOf Reference.eastern (start event) = 49 * 3600000 /\
  @calculateOvernightNights Reference.eastern processor event = 3 /\
  @formatServiceType Reference.eastern processor event
  = lit "Overnight (3 nights)".
Proof.
  intros event O.
  assert (N : @calculateOvernightNights Reference.eastern processor event = 3).
  { rewrite calculateOvernightNights_overnight by assumption.
    vm_compute. reflexivity. }
  repeat split; try (vm_compute; reflexivity).
  - exact N.
  - rewrite formatServiceType_overnight by assumption. rewrite N.
    vm_compute. reflexivity.
Qed.

Lemma overnight_nights_fall_back_witness :
  @formatServiceType Reference.eastern Reference.processor
    {| title := Some (lit "Bella HS"); start := 1762034400000;
       end_ := 1762182000000; location := None;
       type := Some (lit "overnight") |}
  = lit "Overnight (3 nights)".
Proof.
  apply (@overnight_nights_fall_back Reference.processor).
  vm_compute. reflexivity.
Defined.

(** C10 as stated fails for an event whose start does not parse: "Bella HS"
    is no marker and is an overnight event (by its title, as the house sit
    pattern has it), yet with an invalid start date the call is false, the
    filter of [generateTextList] drops the event and [generateCSV] skips
    its row. *)
Lemma overnight_filter_counterexample :
  let titleOf (event : jsstring * option Z) := Some (fst event) in
  let dateOf (event : jsstring * option Z) := snd event in
  let overnightOf (event : jsstring * option Z) :=
    test EventProcessor.houseSitSuffix (fst event) in
  let event := (lit "Bella HS", @None Z) in
  test endOvernight (Reference.asciiLower (lit "Bella HS")) = false /\
  overnightOf event = true /\
  @Incoming.shouldIncludeEventOnDate Reference.platform _ titleOf dateOf
    overnightOf event (Some (dateOf event)) = false /\
  @Incoming.overnightFilter Reference.platform _ titleOf dateOf overnightOf
    [event] = [] /\
  @Incoming.rowSkipped Reference.platform _ titleOf dateOf overnightOf event
  = true.
Proof. vm_compute. repeat split; reflexivity. Qed.

(** C8 as stated fails for a cleaned title that begins with a dash: the
    part before the first dash is empty, and the code returns the cleaned
    title whole, its duration token included.  And it fails for a title
    that is a number: [extractClientName(42)] throws. *)
Lemma extractClientName_counterexample :
  @extractClientName (Some (lit "- Bella 30")) = lit "- Bella 30" /\
  Claimed.extractClientName (lit "- Bella 30") = [] /\
  extractClientNameOf (Numeric 42) = inl (NotAFunction (lit "replace")).
Proof. vm_compute. repeat split; reflexivity. Qed.

End ExporterFacts.

(** ** Sorting *)

Module SortFacts.

Import StrFacts ArrFacts Exporter.

Local Open Scope Z_scope.

(** A consistent comparator: the sign flips with the arguments, and "not
    after" is transitive. *)
Record Consistent (A : Type) (cmp : A -> A -> Z) : Prop := {
  cmp_flip : forall a b, cmp a b <= 0 <-> 0 <= cmp b a;
  cmp_trans : forall a b c, cmp a b <= 0 -> cmp b c <= 0 -> cmp a c <= 0
}.

Section Comparators.

Variable A : Type.

Lemma consistent_total (cmp : A -> A -> Z) :
  Consistent cmp -> forall a b, cmp a b <= 0 \/ cmp b a <= 0.
Proof.
  intros C a b. destruct (Z_le_gt_dec (cmp a b) 0) as [L|G]; [now left|].
  right. apply (cmp_flip C). lia.
Qed.

Lemma consistent_key (f : A -> Z) : Consistent (fun a b => f a - f b).
Proof. split; intros; lia. Qed.

Lemma consistent_pull (B : Type) (g : A -> B) (cmp : B -> B -> Z) :
  Consistent cmp -> Consistent (fun a b => cmp (g a) (g b)).
Proof.
  intros C. split.
  - intros a b. apply (cmp_flip C).
  - intros a b c. apply (cmp_trans C).
Qed.

Lemma consistent_opp (cmp : A -> A -> Z) :
  Consistent cmp -> Consistent (fun a b => - cmp a b).
Proof.
  intros C. split.
  - intros a b. pose proof (cmp_flip C a b). pose proof (cmp_flip C b a). lia.
  - intros a b c X Y.
    pose proof (cmp_flip C a b). pose proof (cmp_flip C b a).
    pose proof (cmp_flip C b c). pose proof (cmp_flip C c b).
    pose proof (cmp_flip C a c). pose proof (cmp_flip C c a).
    pose proof (cmp_trans C c b a). lia.
Qed.

(** Comparing by [c1] and, where [c1] ties, by [c2]. *)
Definition lex (c1 c2 : A -> A -> Z) (a b : A) : Z :=
  if negb (c1 a b =? 0) then c1 a b else c2 a b.

Lemma consistent_lex (c1 c2 : A -> A -> Z) :
  Consistent c1 -> Consistent c2 -> Consistent (lex c1 c2).
Proof.
  intros C1 C2. split.
  - intros a b. unfold lex.
    pose proof (cmp_flip C1 a b). pose proof (cmp_flip C1 b a).
    pose proof (cmp_flip C2 a b).
    destruct (Z.eqb_spec (c1 a b) 0); destruct (Z.eqb_spec (c1 b a) 0);
      cbn [negb]; lia.
  - intros a b c. unfold lex.
    pose proof (cmp_flip C1 a b). pose proof (cmp_flip C1 b a).
    pose proof (cmp_flip C1 b c). pose proof (cmp_flip C1 c b).
    pose proof (cmp_flip C1 a c). pose proof (cmp_flip C1 c a).
    pose proof (cmp_trans C1 a b c). pose proof (cmp_trans C1 c a b).
    pose proof (cmp_trans C1 b c a). pose proof (cmp_trans C1 c b a).
    pose proof (cmp_trans C1 b a c). pose proof (cmp_trans C1 a c b).
    pose proof (cmp_trans C2 a b c).
    destruct (Z.eqb_spec (c1 a b) 0); destruct (Z.eqb_spec (c1 b c) 0);
      destruct (Z.eqb_spec (c1 a c) 0); cbn [negb]; lia.
Qed.

(** *** The stable sort *)

Variable cmp : A -> A -> Z.

Definition notAfter (a b : A) : Prop := cmp a b <= 0.

Lemma insertBy_HdRel (x y : A) (l : list A) :
  notAfter y x -> HdRel notAfter y l -> HdRel notAfter y (insertBy cmp x l).
Proof.
  intros Y R. destruct l as [|z l]; cbn [insertBy].
  - now constructor.
  - destruct (cmp x z <=? 0); constructor; [assumption|].
    now inversion R.
Qed.

Lemma insertBy_Sorted (x : A) (l : list A) :
  (forall a b, notAfter a b \/ notAfter b a) ->
  Sorted notAfter l -> Sorted notAfter (insertBy cmp x l).
Proof.
  intros T S. induction S as [|y l S IH R]; cbn [insertBy].
  - repeat constructor.
  - destruct (Z.leb_spec (cmp x y) 0) as [L|G].
    + constructor; [now constructor|]. now constructor.
    + constructor; [exact IH|]. apply insertBy_HdRel; [|exact R].
      destruct (T x y) as [X|X]; [unfold notAfter in X; lia | exact X].
Qed.

Lemma sort_Sorted (l : list A) :
  (forall a b, notAfter a b \/ notAfter b a) ->
  Sorted notAfter (Arr.sort cmp l).
Proof.
  intros T. induction l as [|x l IH]; [constructor|].
  unfold Arr.sort in *. cbn [fold_right]. now apply insertBy_Sorted.
Qed.

Lemma sort_of_Sorted (l : list A) : Sorted notAfter l -> Arr.sort cmp l = l.
Proof.
  intros S. induction S as [|x l S IH R]; [reflexivity|].
  unfold Arr.sort in *. cbn [fold_right]. rewrite IH.
  destruct R as [|y l R]; [reflexivity|]. cbn [insertBy].
  unfold notAfter in R. apply Z.leb_le in R. now rewrite R.
Qed.

Lemma sort_idempotent (l : list A) :
  (forall a b, notAfter a b \/ notAfter b a) ->
  Arr.sort cmp (Arr.sort cmp l) = Arr.sort cmp l.
Proof. intros T. apply sort_of_Sorted, sort_Sorted, T. Qed.

(** The elements that tie with [a]. *)
Definition ties (a : A) (l : list A) : list A :=
  filter (fun x => cmp a x =? 0) l.

Lemma insertBy_ties (a x : A) (l : list A) :
  Consistent cmp -> ties a (insertBy cmp x l) = ties a (x :: l).
Proof.
  intros C. induction l as [|y l IH]; [reflexivity|]. cbn [insertBy].
  destruct (Z.leb_spec (cmp x y) 0) as [L|G]; [reflexivity|].
  unfold ties in *. cbn [filter] in *. rewrite IH.
  destruct (Z.eqb_spec (cmp a x) 0) as [X|X];
    destruct (Z.eqb_spec (cmp a y) 0) as [Y|Y]; try reflexivity.
  pose proof (cmp_flip C a x). pose proof (cmp_flip C x a).
  pose proof (cmp_trans C x a y). lia.
Qed.

(** The sort is stable: elements that tie keep their order. *)
Lemma sort_stable (a : A) (l : list A) :
  Consistent cmp -> ties a (Arr.sort cmp l) = ties a l.
Proof.
  intros C. induction l as [|x l IH]; [reflexivity|].
  unfold Arr.sort in *. cbn [fold_right]. rewrite insertBy_ties by assumption.
  unfold ties in *. cbn [filter]. now rewrite IH.
Qed.

End Comparators.

(** *** The comparators of the exporter *)

Section WithProcessor.

Context `{Platform} `{Processor}.

Hypothesis collation : Consistent localeCompare.

Lemma compareEvents_consistent (sortField : jsstring) :
  Consistent (fun a b => compareEvents a b sortField).
Proof.
  unfold compareEvents.
  destruct (Str.eqb sortField (lit "client")).
  { apply (consistent_pull
             (fun e => toLowerCase (extractClientName (title e))) collation). }
  destruct (Str.eqb sortField (lit "service")).
  { apply (consistent_pull
             (fun e => toLowerCase (formatServiceType e)) collation). }
  destruct (Str.eqb sortField (lit "time")).
  { apply (consistent_key
             (fun e => getHours (start e) * 60 + getMinutes (start e))). }
  apply (consistent_key start).
Qed.

(** One level of the comparator, with its direction applied. *)
Definition compareLevel (level : SortLevel) (a b : Event) : Z :=
  let comparison := compareEvents a b (sortBy level) in
  if Str.eqb (sortOrder level) (lit "desc") then - comparison else comparison.

Lemma compareLevel_consistent (level : SortLevel) :
  Consistent (compareLevel level).
Proof.
  unfold compareLevel. destruct (Str.eqb (sortOrder level) (lit "desc")).
  - apply consistent_opp, compareEvents_consistent.
  - apply compareEvents_consistent.
Qed.

Lemma compareLevels_cons level levels a b :
  compareLevels (level :: levels) a b =
  lex (compareLevel level) (compareLevels levels) a b.
Proof. reflexivity. Qed.

Lemma compareLevels_consistent (levels : list SortLevel) :
  Consistent (compareLevels levels).
Proof.
  induction levels as [|level levels IH].
  - apply (consistent_key start).
  - split.
    + intros a b. rewrite !compareLevels_cons.
      apply (cmp_flip (consistent_lex (compareLevel_consistent level) IH)).
    + intros a b c. rewrite !compareLevels_cons.
      apply (cmp_trans (consistent_lex (compareLevel_consistent level) IH)).
Qed.

End WithProcessor.

(** The levels all tie: the comparator is the difference of the start
    times, whatever the collation. *)
Lemma compareLevels_tie `{Platform} `{Processor} (levels : list SortLevel)
  (a b : Event) :
  (forall level, In level levels -> compareEvents a b (sortBy level) = 0) ->
  compareLevels levels a b = start a - start b.
Proof.
  induction levels as [|level levels IH]; intros T; [reflexivity|].
  cbn [compareLevels]. rewrite (T level) by now left.
  destruct (Str.eqb (sortOrder level) (lit "desc")); cbn; apply IH;
    intros l I; apply T; now right.
Qed.

(** C4, amended.  For every sort specification, sorting the output of
    [sortEventsMultiLevel] again with the same specification returns it
    unchanged; no two adjacent events of the output are in the wrong order
    for the comparator; the output is a permutation of the input; when
    every level compares equal the comparator is the difference of the start
    times; the comparator is a total preorder (any two events are
    comparable, and "not after" is transitive); and the events that tie with
    a given event are delivered in the order of the input.  The comparator
    is not a total order: see [sort_ties_counterexample]. *)
Theorem sort_total_preorder `{Platform} `{Processor}
  (collation : Consistent localeCompare)
  (events : list Event) (sortLevels : SortLevels) :
  let compare := compareLevels (normalizeLevels sortLevels) in
  let sorted := sortEventsMultiLevel events sortLevels in
  sortEventsMultiLevel sorted sortLevels = sorted /\
  Sorted (fun a b => compare a b <= 0) sorted /\
  Permutation sorted events /\
  (forall a b,
     (forall level, In level (normalizeLevels sortLevels) ->
                    compareEvents a b (sortBy level) = 0) ->
     compare a b = start a - start b) /\
  (forall a b, compare a b <= 0 \/ compare b a <= 0) /\
  (forall a b c, compare a b <= 0 -> compare b c <= 0 -> compare a c <= 0) /\
  (forall a,
     filter (fun e => compare a e =? 0) sorted =
     filter (fun e => compare a e =? 0) events).
Proof.
  intros compare sorted.
  pose proof (compareLevels_consistent collation (normalizeLevels sortLevels)) as C.
  fold compare in C. pose proof (consistent_total C) as T.
  split; [|split; [|split; [|split; [|split; [|split]]]]];
    [| | | | | |intros a; apply (sort_stable a events C)].
  - apply (sort_idempotent (cmp := compare)), T.
  - apply (sort_Sorted (cmp := compare)), T.
  - apply sort_perm.
  - intros a b. apply compareLevels_tie.
  - exact T.
  - apply (cmp_trans C).
Qed.

(** *** The reference collation is consistent *)

Lemma codeUnitCompare_sign (a b : jsstring) :
  Reference.codeUnitCompare a b = 0 \/ Reference.codeUnitCompare a b = 1
  \/ Reference.codeUnitCompare a b = -1.
Proof.
  revert b; induction a as [|x a IH]; intros [|y b]; cbn; auto.
  destruct (x <? y)%N; auto. destruct (y <? x)%N; auto.
Qed.

Lemma codeUnitCompare_flip (a b : jsstring) :
  Reference.codeUnitCompare b a = - Reference.codeUnitCompare a b.
Proof.
  revert b; induction a as [|x a IH]; intros [|y b]; cbn; try reflexivity.
  destruct (N.ltb_spec x y); destruct (N.ltb_spec y x); try lia; auto.
Qed.

Lemma codeUnitCompare_trans (a b c : jsstring) :
  Reference.codeUnitCompare a b <= 0 -> Reference.codeUnitCompare b c <= 0 ->
  Reference.codeUnitCompare a c <= 0.
Proof.
  revert b c; induction a as [|x a IH]; intros [|y b] [|z c]; cbn;
    try lia.
  destruct (N.ltb_spec x y); destruct (N.ltb_spec y x);
    destruct (N.ltb_spec y z); destruct (N.ltb_spec z y);
    destruct (N.ltb_spec x z); destruct (N.ltb_spec z x);
    try lia; intros; try lia.
  eapply IH; eassumption.
Qed.

Lemma codeUnitCompare_consistent : Consistent Reference.codeUnitCompare.
Proof.
  split.
  - intros a b. rewrite (codeUnitCompare_flip a b). lia.
  - apply codeUnitCompare_trans.
Qed.

Lemma sort_total_preorder_witness :
  let a := Reference.event "Milo 45" 7200000 9900000 in
  let b := Reference.event "Bella 30" 3600000 5400000 in
  let c := Reference.event "Bella 30" 0 1800000 in
  let spec := LevelArray [{| sortBy := lit "client"; sortOrder := lit "desc" |}] in
  @sortEventsMultiLevel Reference.platform Reference.processor [b; a; c] spec
  = [a; c; b] /\
  @sortEventsMultiLevel Reference.platform Reference.processor
    (@sortEventsMultiLevel Reference.platform Reference.processor [b; a; c] spec)
    spec
  = @sortEventsMultiLevel Reference.platform Reference.processor [b; a; c] spec.
Proof.
  intros a b c spec. split; [vm_compute; reflexivity|].
  apply (@sort_total_preorder Reference.platform Reference.processor
           codeUnitCompare_consistent [b; a; c] spec).
Defined.

(** C4 as stated fails in its last clause: two different events with
    the same start time and the same keys compare as equal in both
    directions, so the comparator is not antisymmetric, and the order in
    which they are delivered is the order in which they were given. *)
Lemma sort_ties_counterexample :
  let a := Reference.event "Bella 30" 0 1800000 in
  let b := Reference.event "Milo 30" 0 1800000 in
  let spec := LevelArray [{| sortBy := lit "time"; sortOrder := lit "asc" |}] in
  a <> b /\
  @compareLevels Reference.platform Reference.mockProcessor
    (normalizeLevels spec) a b = 0 /\
  @compareLevels Reference.platform Reference.mockProcessor
    (normalizeLevels spec) b a = 0 /\
  @sortEventsMultiLevel Reference.platform Reference.mockProcessor [a; b] spec
  = [a; b] /\
  @sortEventsMultiLevel Reference.platform Reference.mockProcessor [b; a] spec
  = [b; a].
Proof.
  cbv zeta. split; [discriminate|]. vm_compute. repeat split; reflexivity.
Qed.

End SortFacts.

(** ** CSV output *)

Module CsvFacts.

Import StrFacts PatternFacts Exporter Csv.

(** A value needs quotes when it holds a comma, a double quote or a line
    feed. *)
Definition needsQuotes (value : jsstring) : bool :=
  includesChar value 44%N || includesChar value Exporter.quote
  || includesChar value 10%N.

Lemma escapeCSV_cases (value : jsstring) :
  escapeCSV value =
  if needsQuotes value
  then [Exporter.quote] ++ doubleQuotes value ++ [Exporter.quote]
  else value.
Proof.
  unfold escapeCSV, needsQuotes. destruct value as [|c value]; [reflexivity|].
  now rewrite replaceAll_quotes.
Qed.

Lemma needsQuotes_cons (c : char) (value : jsstring) :
  needsQuotes (c :: value) =
  (isSeparator c || ceqb c quote || needsQuotes value).
Proof.
  unfold needsQuotes, includesChar, isSeparator. cbn [existsb].
  change Exporter.quote with quote.
  rewrite (N.eqb_sym 44 c : ceqb 44%N c = ceqb c 44%N).
  rewrite (N.eqb_sym 10 c : ceqb 10%N c = ceqb c 10%N).
  rewrite (N.eqb_sym quote c : ceqb quote c = ceqb c quote).
  destruct (ceqb c 44%N), (ceqb c 10%N), (ceqb c quote),
    (existsb (ceqb 44%N) value), (existsb (ceqb quote) value),
    (existsb (ceqb 10%N) value); reflexivity.
Qed.

Lemma quotedField_doubled (value rest : jsstring) :
  fieldEnd rest ->
  quotedField (doubleQuotes value ++ quote :: rest) = Some (value, rest).
Proof.
  intros E. induction value as [|c value IH].
  - cbn [doubleQuotes flat_map app quotedField]. rewrite (N.eqb_refl quote : ceqb quote quote = true).
    destruct rest as [|x rest]; [reflexivity|]. cbn in E.
    destruct (ceqb x quote) eqn:Q; [|reflexivity].
    apply ceqb_eq in Q. subst x. discriminate E.
  - unfold doubleQuotes in *. cbn [flat_map].
    change Exporter.quote with quote in *.
    destruct (ceqb c quote) eqn:Q.
    + apply ceqb_eq in Q. subst c. cbn [app quotedField].
      rewrite (N.eqb_refl quote : ceqb quote quote = true). now rewrite IH.
    + cbn [app quotedField]. rewrite Q. now rewrite IH.
Qed.

Lemma plainField_plain (value rest : jsstring) :
  needsQuotes value = false -> fieldEnd rest ->
  plainField (value ++ rest) = (value, rest).
Proof.
  intros P E. induction value as [|c value IH].
  - destruct rest as [|x rest]; [reflexivity|]. cbn in E |- *. now rewrite E.
  - rewrite needsQuotes_cons in P.
    apply orb_false_iff in P as [P P3]. apply orb_false_iff in P as [P1 P2].
    cbn [app plainField]. rewrite P1, IH by assumption. reflexivity.
Qed.

(** Reading back an escaped value gives the value. *)
Lemma parseField_escapeCSV (value rest : jsstring) :
  fieldEnd rest -> parseField (escapeCSV value ++ rest) = Some (value, rest).
Proof.
  intros E. rewrite escapeCSV_cases. destruct (needsQuotes value) eqn:Q.
  - change Exporter.quote with quote. cbn [app parseField].
    rewrite (N.eqb_refl quote : ceqb quote quote = true), <- app_assoc. cbn [app].
    now apply quotedField_doubled.
  - destruct value as [|c value].
    + cbn [app]. destruct rest as [|x rest]; [reflexivity|].
      cbn in E. cbn [parseField].
      destruct (ceqb x quote) eqn:X.
      * apply ceqb_eq in X. subst x. discriminate E.
      * cbn [plainField]. now rewrite E.
    + pose proof Q as Q'. rewrite needsQuotes_cons in Q'.
      apply orb_false_iff in Q' as [Q' _]. apply orb_false_iff in Q' as [_ Q2].
      cbn [app parseField]. rewrite Q2.
      change (c :: value ++ rest) with ((c :: value) ++ rest).
      now rewrite plainField_plain.
Qed.

Section WithProcessor.

Context `{Platform} `{Processor}.

(** The duration column of a row. *)
Definition durationOf (event : Event) : jsstring :=
  let durationMinutes := ((end_ event - start event + 30000) / (1000 * 60))%Z in
  let durationHours := (durationMinutes / 60)%Z in
  let remainingMinutes := Z.rem durationMinutes 60 in
  if (0 <? durationHours)%Z
  then ofZ durationHours ++ lit "h " ++ ofZ remainingMinutes ++ lit "m"
  else ofZ remainingMinutes ++ lit "m".

(** C9. A value with a comma, a double quote or a line feed is written
    between double quotes with every double quote of the value doubled; any
    other value is written as it is; a reader of RFC 4180 fields gets the
    value back from what was written, whatever follows the field.  In the
    rows of [generateCSV] the client name, the service type and the location
    are written in this way, so the client name is read back from its
    column; the row of "Smith, Jr. 30" holds the quoted name. *)
Theorem csv_escaping (value : jsstring) :
  (needsQuotes value = true ->
   escapeCSV value = [quote] ++ doubleQuotes value ++ [quote]) /\
  (needsQuotes value = false -> escapeCSV value = value) /\
  (forall rest,
     fieldEnd rest -> parseField (escapeCSV value ++ rest) = Some (value, rest)) /\
  (forall (includeLocation : bool) (event : Event),
     isEndOvernightMarker event = false ->
     let client := extractClientName (title event) in
     let columns :=
       lit "," ++ escapeCSV (formatServiceType event) ++ lit "," ++ durationOf event
       ++ (if includeLocation
           then lit "," ++ escapeCSV (orEmpty (location event)) else [])
       ++ newline in
     csvRow includeLocation event =
     Some (formatDate (start event) ++ lit "," ++ formatTime (start event)
           ++ lit "," ++ escapeCSV client ++ columns) /\
     parseField (escapeCSV client ++ columns) = Some (client, columns)) /\
  escapeCSV (lit "Smith, Jr.") = [quote] ++ lit "Smith, Jr." ++ [quote].
Proof.
  split; [|split; [|split; [|split]]].
  - intros Q. now rewrite escapeCSV_cases, Q.
  - intros Q. now rewrite escapeCSV_cases, Q.
  - intros rest. apply parseField_escapeCSV.
  - intros includeLocation event M client columns. split.
    + unfold csvRow.
      rewrite ExporterFacts.shouldInclude_own_start, M. cbn [negb].
      subst columns client. unfold durationOf.
      repeat rewrite <- app_assoc. reflexivity.
    + apply parseField_escapeCSV. reflexivity.
  - vm_compute. reflexivity.
Qed.

End WithProcessor.

Lemma csv_escaping_witness :
  let event := Reference.event "Smith, Jr. 30" 0 1800000 in
  @csvRow Reference.platform Reference.processor false event =
  Some (lit "01/01/1970,12:00 AM," ++ [quote] ++ lit "Smith, Jr." ++ [quote]
        ++ lit ",30-min,30m" ++ newline) /\
  parseField ([quote] ++ lit "Smith, Jr." ++ [quote] ++ lit ",30-min,30m" ++ newline)
  = Some (lit "Smith, Jr.", lit ",30-min,30m" ++ newline).
Proof.
  intros event. split; [vm_compute; reflexivity|].
  apply (@csv_escaping Reference.platform Reference.processor
           (lit "Smith, Jr.")
         : _ /\ _ /\ (forall rest, fieldEnd rest -> _) /\ _).
  reflexivity.
Defined.

End CsvFacts.

(* ===================================================================== *)
(** * Part III: the helpers of the exporter, the template stores, bookings *)
(* ===================================================================== *)

Unset Implicit Arguments.


(** ** The caller of the exporter ([GPSAdminApp.generateExportPreview]) *)

Module App.

Import Str.

(** [l.join(sep)] *)
Definition join (sep : jsstring) (l : list jsstring) : jsstring :=
  match l with
  | [] => []
  | x :: r => x ++ concat (map (fun y => sep ++ y) r)
  end.

(** The [groupBy] option built from the grouping levels of the form:
    [groupLevels.length > 0 ? groupLevels.join('-') : 'none']. *)
Definition groupByOf (groupLevels : list jsstring) : jsstring :=
  match groupLevels with
  | [] => lit "none"
  | _ :: _ => join (lit "-") groupLevels
  end.

End App.

(** ** Reading a whole table

    The reader of RFC 4180 fields of [Csv], continued to records and to a
    table: the fields of a record are separated by commas, a record ends at
    a line feed (the line break that the exporter writes) or at the end of
    the input.  The fuel bounds the number of fields of a record and the
    number of records; the length of the input is always enough. *)

Module CsvTable.

Import Str Csv.

Fixpoint parseRecord (fuel : nat) (s : jsstring)
  : option (list jsstring * jsstring) :=
  match fuel with
  | O => None
  | S fuel' =>
      match parseField s with
      | Some (value, rest) =>
          match rest with
          | [] => Some ([value], [])
          | c :: rest' =>
              if ceqb c 44%N then
                match parseRecord fuel' rest' with
                | Some (values, after) => Some (value :: values, after)
                | None => None
                end
              else if ceqb c 10%N then Some ([value], rest')
              else None
          end
      | None => None
      end
  end.

Fixpoint parseRecords (fuel : nat) (s : jsstring)
  : option (list (list jsstring)) :=
  match fuel with
  | O => None
  | S fuel' =>
      match s with
      | [] => Some []
      | _ :: _ =>
          match parseRecord (S (length s)) s with
          | Some (values, rest) =>
              option_map (cons values) (parseRecords fuel' rest)
          | None => None
          end
      end
  end.

Definition parseTable (s : jsstring) : option (list (list jsstring)) :=
  parseRecords (S (length s)) s.

End CsvTable.

(** ** Utility functions ([Utils]) *)

Module Utils.

Import Str Regex.

Definition amp : char := 38%N.          (* & *)
Definition lt : char := 60%N.           (* < *)
Definition gt : char := 62%N.           (* > *)
Definition quot : char := 34%N.         (* the double quote *)
Definition apos : char := 39%N.         (* ' *)

(** A global pattern of one character, as in [/&/g]. *)
Definition one (c : char) : pattern := Pattern (Chr c) false.

(** [str] is [None] for anything that is not a string. *)
Definition escapeHtml (str : option jsstring) : jsstring :=
  match str with
  | None | Some [] => []
  | Some str =>
      replaceAll (one apos) (lit "&#039;")
        (replaceAll (one quot) (lit "&quot;")
           (replaceAll (one gt) (lit "&gt;")
              (replaceAll (one lt) (lit "&lt;")
                 (replaceAll (one amp) (lit "&amp;") str))))
  end.

End Utils.

(** ** Reading escaped text

    The reader that undoes [Utils.escapeHtml]: the five character
    references that it writes stand for their characters, everything else
    for itself.  [skip] counts the characters of a reference still to be
    passed over. *)

Module Html.

Import Str.

Definition references : list (jsstring * char) :=
  [(lit "&amp;", Utils.amp); (lit "&lt;", Utils.lt); (lit "&gt;", Utils.gt);
   (lit "&quot;", Utils.quot); (lit "&#039;", Utils.apos)].

(** The reference at the front of [s]: its character and its length. *)
Definition referenceAt (s : jsstring) : option (char * nat) :=
  match find (fun r => startsWith (fst r) s) references with
  | Some (name, c) => Some (c, length name)
  | None => None
  end.

Fixpoint unescapeFrom (skip : nat) (s : jsstring) : jsstring :=
  match skip, s with
  | S n, _ :: s' => unescapeFrom n s'
  | S _, [] => []
  | O, [] => []
  | O, c :: s' =>
      match referenceAt s with
      | Some (x, len) => x :: unescapeFrom (len - 1) s'
      | None => c :: unescapeFrom 0 s'
      end
  end.

Definition unescape (s : jsstring) : jsstring := unescapeFrom 0 s.

End Html.

(** ** Arrays by index *)

Module ArrIndex.

Fixpoint findIndex {A : Type} (p : A -> bool) (l : list A) : option nat :=
  match l with
  | [] => None
  | x :: r => if p x then Some 0%nat else option_map S (findIndex p r)
  end.

(** [l[index] = f(l[index])] for an index of the array *)
Fixpoint assignAt {A : Type} (index : nat) (f : A -> A) (l : list A) : list A :=
  match l, index with
  | [], _ => []
  | x :: r, O => f x :: r
  | x :: r, S n => x :: assignAt n f r
  end.

End ArrIndex.

(** ** The templates manager ([js/templates.js])

    The store of appointment templates.  The state is the array
    [this.templates] and what [saveTemplates] last wrote to [localStorage];
    the JSON text that is written is represented by the list of templates
    that it encodes, together with the version number.  An operation that
    throws returns its error and leaves the state as it was at the throw.
    The identifiers and time stamps that the code draws from the clock and
    the random number generator are arguments.  A template has the
    properties that the manager itself writes; durations and buffers are
    whole numbers of minutes, as the template form supplies them. *)

Module Templates.

Import Str ArrIndex.

Record Template := {
  id : jsstring;
  name : option jsstring;           (* [None]: undefined *)
  icon : jsstring;
  type : jsstring;
  duration : Z;
  defaultStartTime : option jsstring;
  defaultEndTime : option jsstring;
  includeTravel : bool;
  travelBuffer : Z;
  defaultNotes : jsstring;
  color : jsstring;
  isDefault : bool;
  createdAt : option jsstring;
  updatedAt : option jsstring
}.

(** The argument of [createTemplate] and [validateTemplate]: every property
    may be missing. *)
Record TemplateData := {
  dataName : option jsstring;
  dataIcon : option jsstring;
  dataType : option jsstring;
  dataDuration : option Z;
  dataDefaultStartTime : option jsstring;
  dataDefaultEndTime : option jsstring;
  dataIncludeTravel : option bool;
  dataTravelBuffer : option Z;
  dataDefaultNotes : option jsstring;
  dataColor : option jsstring
}.

Record Manager := {
  templates : list Template;
  (** the templates and the version in [localStorage], when written *)
  storage : option (list Template * Z)
}.

Definition TEMPLATES_VERSION : Z := 4.

Inductive Error :=
| TemplateNotFound (id : jsstring)
| CannotDeleteDefault.

Definition message (e : Error) : jsstring :=
  match e with
  | TemplateNotFound i => lit "Template not found: " ++ i
  | CannotDeleteDefault => lit "Cannot delete default template"
  end.

(** [s || d] for a string that may be missing *)
Definition orString (s : option jsstring) (d : jsstring) : jsstring :=
  match s with
  | Some (c :: r) => c :: r
  | _ => d
  end.

(** [s || null] *)
Definition orNull (s : option jsstring) : option jsstring :=
  match s with
  | Some (c :: r) => Some (c :: r)
  | _ => None
  end.

(** [n || d] for a number that may be missing *)
Definition orNumber (n : option Z) (d : Z) : Z :=
  match n with
  | Some 0%Z | None => d
  | Some z => z
  end.

Definition calendarIcon : jsstring := [55357%N; 56517%N].   (* U+1F4C5 *)

Definition saveTemplates (mgr : Manager) : Manager :=
  {| templates := templates mgr;
     storage := Some (templates mgr, TEMPLATES_VERSION) |}.

Definition getAllTemplates (mgr : Manager) : list Template := templates mgr.

Definition getTemplateById (mgr : Manager) (i : jsstring) : option Template :=
  find (fun t => Str.eqb (id t) i) (templates mgr).

Definition getTemplatesByType (mgr : Manager) (ty : jsstring)
  : list Template :=
  filter (fun t => Str.eqb (type t) ty) (templates mgr).

(** [newId] is the result of [generateId()], [now] of
    [new Date().toISOString()]. *)
Definition createTemplate (newId now : jsstring) (templateData : TemplateData)
  (mgr : Manager) : Template * Manager :=
  let template := {|
    id := newId;
    name := dataName templateData;
    icon := orString (dataIcon templateData) calendarIcon;
    type := orString (dataType templateData) (lit "other");
    duration := orNumber (dataDuration templateData) 30;
    defaultStartTime := orNull (dataDefaultStartTime templateData);
    defaultEndTime := orNull (dataDefaultEndTime templateData);
    includeTravel :=
      match dataIncludeTravel templateData with
      | Some false => false
      | _ => true
      end;
    travelBuffer := orNumber (dataTravelBuffer templateData) 15;
    defaultNotes := orString (dataDefaultNotes templateData) [];
    color := orString (dataColor templateData) (lit "#6366F1");
    isDefault := false;
    createdAt := Some now;
    updatedAt := None
  |} in
  let mgr := {| templates := templates mgr ++ [template];
                storage := storage mgr |} in
  (template, saveTemplates mgr).

Definition deleteTemplate (i : jsstring) (mgr : Manager)
  : Error + Manager :=
  match getTemplateById mgr i with
  | None => inl (TemplateNotFound i)
  | Some template =>
      if isDefault template then inl CannotDeleteDefault
      else
        let mgr := {|
          templates :=
            filter (fun t => negb (Str.eqb (id t) i)) (templates mgr);
          storage := storage mgr |} in
        inr (saveTemplates mgr)
  end.

(** The argument of [updateTemplate]: the properties that [updates] has.  Its
    [id] and [updatedAt], if any, are overwritten and need no field. *)
Record Updates := {
  setName : option (option jsstring);
  setIcon : option jsstring;
  setType : option jsstring;
  setDuration : option Z;
  setDefaultStartTime : option (option jsstring);
  setDefaultEndTime : option (option jsstring);
  setIncludeTravel : option bool;
  setTravelBuffer : option Z;
  setDefaultNotes : option jsstring;
  setColor : option jsstring;
  setIsDefault : option bool;
  setCreatedAt : option (option jsstring)
}.

(** [{...a, ...b}] for one property *)
Definition spread {A : Type} (a : A) (b : option A) : A :=
  match b with
  | Some v => v
  | None => a
  end.

Definition updateTemplate (now : jsstring) (i : jsstring) (updates : Updates)
  (mgr : Manager) : Error + option Template * Manager :=
  match findIndex (fun t => Str.eqb (id t) i) (templates mgr) with
  | None => inl (TemplateNotFound i)
  | Some index =>
      let merged (t : Template) := {|
        id := i;
        name := spread (name t) (setName updates);
        icon := spread (icon t) (setIcon updates);
        type := spread (type t) (setType updates);
        duration := spread (duration t) (setDuration updates);
        defaultStartTime :=
          spread (defaultStartTime t) (setDefaultStartTime updates);
        defaultEndTime := spread (defaultEndTime t) (setDefaultEndTime updates);
        includeTravel := spread (includeTravel t) (setIncludeTravel updates);
        travelBuffer := spread (travelBuffer t) (setTravelBuffer updates);
        defaultNotes := spread (defaultNotes t) (setDefaultNotes updates);
        color := spread (color t) (setColor updates);
        isDefault := spread (isDefault t) (setIsDefault updates);
        createdAt := spread (createdAt t) (setCreatedAt updates);
        updatedAt := Some now
      |} in
      let mgr := {| templates := assignAt index merged (templates mgr);
                    storage := storage mgr |} in
      let mgr := saveTemplates mgr in
      inr (nth_error (templates mgr) index, mgr)
  end.

(** [`${name} (Copy)`]: a missing name is written "undefined". *)
Definition copyName (n : option jsstring) : jsstring :=
  match n with
  | Some s => s
  | None => lit "undefined"
  end ++ lit " (Copy)".

Definition duplicateTemplate (newId now : jsstring) (i : jsstring)
  (mgr : Manager) : Error + Template * Manager :=
  match getTemplateById mgr i with
  | None => inl (TemplateNotFound i)
  | Some original =>
      let duplicate := {|
        id := newId;
        name := Some (copyName (name original));
        icon := icon original;
        type := type original;
        duration := duration original;
        defaultStartTime := defaultStartTime original;
        defaultEndTime := defaultEndTime original;
        includeTravel := includeTravel original;
        travelBuffer := travelBuffer original;
        defaultNotes := defaultNotes original;
        color := color original;
        isDefault := false;
        createdAt := Some now;
        updatedAt := updatedAt original
      |} in
      let mgr := {| templates := templates mgr ++ [duplicate];
                    storage := storage mgr |} in
      inr (duplicate, saveTemplates mgr)
  end.

(** The messages of [validateTemplate], in the order in which it pushes
    them. *)
Definition validateTemplate (templateData : TemplateData)
  : bool * list jsstring :=
  let errors := [] in
  let errors :=
    match dataName templateData with
    | Some (c :: r) =>
        match trim (c :: r) with
        | [] => errors ++ [lit "Template name is required"]
        | _ :: _ => errors
        end
    | _ => errors ++ [lit "Template name is required"]
    end in
  let errors :=
    match dataDuration templateData with
    | Some 0%Z | None => errors ++ [lit "Duration must be greater than 0"]
    | Some d =>
        if (d <=? 0)%Z then errors ++ [lit "Duration must be greater than 0"]
        else errors
    end in
  let errors :=
    match dataTravelBuffer templateData with
    | Some 0%Z | None => errors
    | Some b =>
        if (b <? 0)%Z then errors ++ [lit "Travel buffer cannot be negative"]
        else errors
    end in
  (match errors with [] => true | _ :: _ => false end, errors).

End Templates.

(** ** The export presets ([ExportTemplatesManager])

    The store of export presets and its metadata (the default preset and the
    one used last).  The state is the array [this.templates] and the two
    entries of [localStorage]; the JSON text of an entry is represented by
    the value that it encodes.  The export options of a preset are kept as
    they are given. *)

Module ExportTemplates.

Import Str ArrIndex.

Section WithOptions.

Variable Options : Type.

Record Template := {
  id : jsstring;
  name : jsstring;
  includeDateRange : bool;
  options : Options;
  createdAt : jsstring;
  updatedAt : jsstring;
  lastUsedAt : jsstring
}.

(** A missing entry and [null] are both [None]. *)
Record Metadata := {
  defaultTemplateId : option jsstring;
  lastUsedTemplateId : option jsstring
}.

Record Payload := {
  payloadId : option jsstring;
  payloadName : jsstring;
  payloadIncludeDateRange : bool;
  payloadOptions : Options
}.

(** A template with the [isDefault] that [decorateTemplate] adds. *)
Record Decorated := {
  template : Template;
  isDefault : bool
}.

Record Manager := {
  templates : list Template;
  storedTemplates : option (list Template);   (* STORAGE_KEY *)
  storedMetadata : option Metadata            (* META_KEY *)
}.

(** a string that is present and not empty *)
Definition truthy (s : option jsstring) : bool :=
  match s with
  | Some (_ :: _) => true
  | _ => false
  end.

(** [m === i] for an entry of the metadata *)
Definition isId (m : option jsstring) (i : jsstring) : bool :=
  match m with
  | Some d => Str.eqb d i
  | None => false
  end.

Definition saveTemplates (mgr : Manager) : Manager :=
  {| templates := templates mgr;
     storedTemplates := Some (templates mgr);
     storedMetadata := storedMetadata mgr |}.

Definition getMetadata (mgr : Manager) : Metadata :=
  match storedMetadata mgr with
  | Some meta => meta
  | None => {| defaultTemplateId := None; lastUsedTemplateId := None |}
  end.

Definition setMetadata (meta : Metadata) (mgr : Manager) : Manager :=
  {| templates := templates mgr;
     storedTemplates := storedTemplates mgr;
     storedMetadata := Some meta |}.

Definition decorateTemplate (tpl : Template) (meta : Metadata) : Decorated :=
  {| template := tpl;
     isDefault := isId (defaultTemplateId meta) (id tpl) |}.

Definition list (mgr : Manager) : list Decorated :=
  let meta := getMetadata mgr in
  map (fun tpl => decorateTemplate tpl meta) (templates mgr).

Definition getTemplateById (mgr : Manager) (i : jsstring) : option Decorated :=
  match find (fun t => Str.eqb (id t) i) (templates mgr) with
  | None => None
  | Some tpl => Some (decorateTemplate tpl (getMetadata mgr))
  end.

Definition getDefaultTemplateId (mgr : Manager) : option jsstring :=
  let meta := getMetadata mgr in
  if truthy (defaultTemplateId meta) then defaultTemplateId meta else None.

Definition getPreferred (mgr : Manager) : option Decorated :=
  let templates := list mgr in
  match templates with
  | [] => None
  | first :: _ =>
      let meta := getMetadata mgr in
      let defaultTemplate :=
        if truthy (defaultTemplateId meta)
        then find (fun t => isId (defaultTemplateId meta) (id (template t)))
                  templates
        else None in
      match defaultTemplate with
      | Some t => Some t
      | None =>
          let lastUsed :=
            if truthy (lastUsedTemplateId meta)
            then find (fun t => isId (lastUsedTemplateId meta)
                                     (id (template t))) templates
            else None in
          match lastUsed with
          | Some t => Some t
          | None => Some first
          end
      end
  end.

(** [now] is the result of [new Date().toISOString()]. *)
Definition markLastUsed (now : jsstring) (i : jsstring) (mgr : Manager)
  : Manager :=
  let meta := getMetadata mgr in
  let meta := {| defaultTemplateId := defaultTemplateId meta;
                 lastUsedTemplateId := Some i |} in
  let mgr := setMetadata meta mgr in
  match findIndex (fun t => Str.eqb (id t) i) (templates mgr) with
  | Some index =>
      let used (t : Template) := {|
        id := id t; name := name t; includeDateRange := includeDateRange t;
        options := options t; createdAt := createdAt t;
        updatedAt := now; lastUsedAt := now |} in
      saveTemplates {| templates := assignAt index used (templates mgr);
                       storedTemplates := storedTemplates mgr;
                       storedMetadata := storedMetadata mgr |}
  | None => mgr
  end.

(** [newId] is the result of [crypto.randomUUID()] or of its fallback. *)
Definition buildTemplate (newId : jsstring) (payload : Payload)
  (timestamp : jsstring) : Template :=
  {| id := newId;
     name := payloadName payload;
     includeDateRange := payloadIncludeDateRange payload;
     options := payloadOptions payload;
     createdAt := timestamp;
     updatedAt := timestamp;
     lastUsedAt := timestamp |}.

Definition push (saved : Template) (mgr : Manager) : Manager :=
  {| templates := templates mgr ++ [saved];
     storedTemplates := storedTemplates mgr;
     storedMetadata := storedMetadata mgr |}.

(** [now] is the time that [save] reads, [later] the one that its call of
    [markLastUsed] reads.  [None] stands for the [TypeError] of reading
    [saved.id] when [saved] is undefined. *)
Definition save (newId now later : jsstring) (payload : Payload)
  (mgr : Manager) : option (Decorated * Manager) :=
  let meta := getMetadata mgr in
  let built := buildTemplate newId payload now in
  let result : option Template * Manager :=
    if truthy (payloadId payload) then
      match findIndex (fun t => isId (payloadId payload) (id t))
                      (templates mgr) with
      | Some index =>
          let merged (t : Template) := {|
            id := id t;
            name := payloadName payload;
            includeDateRange := payloadIncludeDateRange payload;
            options := payloadOptions payload;
            createdAt := createdAt t;
            updatedAt := now;
            lastUsedAt := lastUsedAt t |} in
          let mgr := {| templates := assignAt index merged (templates mgr);
                        storedTemplates := storedTemplates mgr;
                        storedMetadata := storedMetadata mgr |} in
          (nth_error (templates mgr) index, mgr)
      | None => (Some built, push built mgr)
      end
    else (Some built, push built mgr) in
  match result with
  | (Some saved, mgr) =>
      let mgr := saveTemplates mgr in
      let mgr := markLastUsed later (id saved) mgr in
      Some (decorateTemplate saved meta, mgr)
  | (None, _) => None
  end.

Definition delete (i : jsstring) (mgr : Manager) : Manager :=
  let mgr := {| templates :=
                  filter (fun t => negb (Str.eqb (id t) i)) (templates mgr);
                storedTemplates := storedTemplates mgr;
                storedMetadata := storedMetadata mgr |} in
  let mgr := saveTemplates mgr in
  let meta := getMetadata mgr in
  let meta :=
    if isId (defaultTemplateId meta) i
    then {| defaultTemplateId := None;
            lastUsedTemplateId := lastUsedTemplateId meta |}
    else meta in
  let meta :=
    if isId (lastUsedTemplateId meta) i
    then {| defaultTemplateId := defaultTemplateId meta;
            lastUsedTemplateId := None |}
    else meta in
  setMetadata meta mgr.

(** [i] may be missing: [id || null]. *)
Definition setDefault (i : option jsstring) (mgr : Manager) : Manager :=
  let meta := getMetadata mgr in
  let meta := {| defaultTemplateId := if truthy i then i else None;
                 lastUsedTemplateId := lastUsedTemplateId meta |} in
  setMetadata meta mgr.

End WithOptions.

Arguments Build_Template {Options}.
Arguments id {Options}.
Arguments name {Options}.
Arguments includeDateRange {Options}.
Arguments options {Options}.
Arguments createdAt {Options}.
Arguments updatedAt {Options}.
Arguments lastUsedAt {Options}.
Arguments Build_Payload {Options}.
Arguments payloadId {Options}.
Arguments payloadName {Options}.
Arguments payloadIncludeDateRange {Options}.
Arguments payloadOptions {Options}.
Arguments Build_Decorated {Options}.
Arguments template {Options}.
Arguments isDefault {Options}.
Arguments Build_Manager {Options}.
Arguments templates {Options}.
Arguments storedTemplates {Options}.
Arguments storedMetadata {Options}.
Arguments saveTemplates {Options}.
Arguments getMetadata {Options}.
Arguments setMetadata {Options}.
Arguments decorateTemplate {Options}.
Arguments list {Options}.
Arguments getTemplateById {Options}.
Arguments getDefaultTemplateId {Options}.
Arguments getPreferred {Options}.
Arguments markLastUsed {Options}.
Arguments buildTemplate {Options}.
Arguments push {Options}.
Arguments save {Options}.
Arguments delete {Options}.
Arguments setDefault {Options}.

End ExportTemplates.

(** ** Multi-day bookings ([TemplatesManager.generateMultiDayEvents])

    A time value that is [NaN] (an invalid date) is [None]; durations and
    the parts of a time of day are whole numbers.  The identifiers that
    [generateId] draws are given by [ids], in the order of the calls. *)

Module MultiDay.

Import Str DateTime Arr.

Local Open Scope Z_scope.

Definition msPerSecond : Z := 1000.
Definition SecFromTime (t : Z) : Z := (t / msPerSecond) mod 60.
Definition msFromTime (t : Z) : Z := t mod msPerSecond.
Definition MakeTime (hour min sec ms : Z) : Z :=
  hour * msPerHour + min * msPerMinute + sec * msPerSecond + ms.

(** A visit slot: [{ templateId, time, duration }]. *)
Record Visit := {
  templateId : option jsstring;
  time : jsstring;
  duration : option Z            (* [None]: missing or [NaN] *)
}.

(** [{ templateId, arrivalTime, departureTime }] *)
Record OvernightConfig := {
  overnightTemplateId : option jsstring;
  arrivalTime : jsstring;
  departureTime : jsstring
}.

(** [{ enabled, visits, skipFirstDay, skipLastDay }] *)
Record DropinConfig := {
  enabled : bool;
  dropinVisits : option (list Visit);
  skipFirstDay : bool;
  skipLastDay : bool
}.

Record Config := {
  clientName : jsstring;
  location : jsstring;
  startDate : jsstring;
  endDate : jsstring;
  bookingType : jsstring;
  visits : list Visit;
  weekendVisits : option (list Visit);
  overnightConfig : option OvernightConfig;
  dropinConfig : option DropinConfig
}.

(** An event object of the result. *)
Record BookedEvent := {
  id : jsstring;
  title : jsstring;
  start : option Z;
  end_ : option Z;
  eventLocation : jsstring;
  type : jsstring;
  eventTemplateId : option jsstring;
  isLocal : bool;
  ignored : bool;
  isWorkEvent : bool
}.

Section WithPlatform.

Context `{Platform}.

(** [d.setHours(hours, minutes, 0, 0)] *)
Definition setHours (t hours minutes : option Z) : option Z :=
  match t, hours, minutes with
  | Some t, Some h, Some m =>
      Some (UTC (MakeDate (Day (LocalTime t)) (MakeTime h m 0 0)))
  | _, _, _ => None
  end.

(** [d.setMinutes(d.getMinutes() + duration)] *)
Definition addMinutes (t : option Z) (duration : Z) : option Z :=
  match t with
  | Some t =>
      let lt := LocalTime t in
      Some (UTC (MakeDate (Day lt)
                   (MakeTime (HourFromTime lt) (getMinutes t + duration)
                             (SecFromTime lt) (msFromTime lt))))
  | None => None
  end.

(** [time.split(':').map(Number)], destructured as [[hours, minutes]] *)
Definition timeParts (time : jsstring) : option Z * option Z :=
  let parts := map Exporter.toNumber (split 58%N time) in
  (nth 0 parts None, nth 1 parts None).

(** [visit.templateId ? this.getTemplateById(visit.templateId) : null] *)
Definition templateOf (mgr : Templates.Manager) (i : option jsstring)
  : option Templates.Template :=
  match i with
  | Some (c :: r) => Templates.getTemplateById mgr (c :: r)
  | _ => None
  end.

(** [visit.duration || (template ? template.duration : 30)] *)
Definition durationOf (mgr : Templates.Manager) (visit : Visit) : Z :=
  match duration visit with
  | Some 0 | None =>
      match templateOf mgr (templateId visit) with
      | Some template => Templates.duration template
      | None => 30
      end
  | Some d => d
  end.

(** The event that the loop body pushes for one visit on [currentDate]. *)
Definition visitEvent (mgr : Templates.Manager) (config : Config)
  (currentDate : Z) (visit : Visit) (newId : jsstring) : BookedEvent :=
  let template := templateOf mgr (templateId visit) in
  let duration := durationOf mgr visit in
  let '(hours, minutes) := timeParts (time visit) in
  let eventStart := setHours (Some currentDate) hours minutes in
  let eventEnd := addMinutes eventStart duration in
  let suffix := ofZ duration in
  {| id := newId;
     title := clientName config ++ lit " " ++ suffix;
     start := eventStart;
     end_ := eventEnd;
     eventLocation := location config;
     type := match template with
             | Some t => Templates.orString (Some (Templates.type t))
                                            (lit "dropin")
             | None => lit "dropin"
             end;
     eventTemplateId := Templates.orNull (templateId visit);
     isLocal := true;
     ignored := false;
     isWorkEvent := true |}.

(** [Math.ceil((end - start) / (1000 * 60 * 60 * 24)) + 1] *)
Definition dayCountOf (start end_ : option Z) : option Z :=
  match start, end_ with
  | Some s, Some e => Some (Exporter.ceilDiv (e - s) msPerDay + 1)
  | _, _ => None
  end.

(** The values of [dayOffset] in [for (dayOffset = 0; dayOffset < dayCount;
    dayOffset++)]. *)
Definition dayOffsets (dayCount : option Z) : list Z :=
  match dayCount with
  | Some n => map Z.of_nat (seq 0 (Z.to_nat n))
  | None => []
  end.

(** [currentDate]: [new Date(start)] after
    [setDate(start.getDate() + dayOffset)].  The loops run only when
    [dayCount] is a number, that is for a valid [start]. *)
Definition currentDateOf (start : option Z) (dayOffset : Z) : option Z :=
  match start with
  | Some s => Some (setDate s (getDate s + dayOffset))
  | None => None
  end.

Definition nonEmpty (l : option (list Visit)) : bool :=
  match l with
  | Some (_ :: _) => true
  | _ => false
  end.

(** The events of the result before identifiers are drawn, in the order in
    which they are pushed. *)
Definition pushed (mgr : Templates.Manager) (config : Config)
  : list (jsstring -> BookedEvent) :=
  let start := parseDate (startDate config) in
  let end_ := parseDate (endDate config) in
  let dayCount := dayCountOf start end_ in
  if Str.eqb (bookingType config) (lit "daily-visits") then
    flat_map
      (fun dayOffset =>
         match currentDateOf start dayOffset with
         | Some currentDate =>
             let isWeekend :=
               (getDay currentDate =? 0) || (getDay currentDate =? 6) in
             let currentVisits :=
               if isWeekend && nonEmpty (weekendVisits config)
               then orEmptyList (weekendVisits config)
               else visits config in
             map (visitEvent mgr config currentDate) currentVisits
         | None => []
         end)
      (dayOffsets dayCount)
  else if Str.eqb (bookingType config) (lit "overnight-stay") then
    match overnightConfig config with
    | Some overnightConfig =>
        let '(arrHours, arrMinutes) :=
          timeParts (arrivalTime overnightConfig) in
        let '(depHours, depMinutes) :=
          timeParts (departureTime overnightConfig) in
        let overnightStart := setHours start arrHours arrMinutes in
        let overnightEnd := setHours end_ depHours depMinutes in
        [fun newId =>
           {| id := newId;
              title := clientName config ++ lit " HS";
              start := overnightStart;
              end_ := overnightEnd;
              eventLocation := location config;
              type := lit "overnight";
              eventTemplateId :=
                Templates.orNull (overnightTemplateId overnightConfig);
              isLocal := true;
              ignored := false;
              isWorkEvent := true |}]
    | None => []
    end
    ++
    match dropinConfig config with
    | Some dropinConfig =>
        if enabled dropinConfig && nonEmpty (dropinVisits dropinConfig) then
          flat_map
            (fun dayOffset =>
               if (dayOffset =? 0) && skipFirstDay dropinConfig then []
               else if match dayCount with
                       | Some n => dayOffset =? n - 1
                       | None => false
                       end && skipLastDay dropinConfig then []
               else
                 match currentDateOf start dayOffset with
                 | Some currentDate =>
                     map (visitEvent mgr config currentDate)
                         (orEmptyList (dropinVisits dropinConfig))
                 | None => []
                 end)
            (dayOffsets dayCount)
        else []
    | None => []
    end
  else [].

(** The identifiers in the order of the pushes. *)
Fixpoint identified (ids : nat -> jsstring) (n : nat)
  (l : list (jsstring -> BookedEvent)) : list BookedEvent :=
  match l with
  | [] => []
  | event :: l' => event (ids n) :: identified ids (S n) l'
  end.

(** [a.start - b.start], where [NaN] counts as [+0] for the sort *)
Definition compareStarts (a b : BookedEvent) : Z :=
  match start a, start b with
  | Some x, Some y => x - y
  | _, _ => 0
  end.

Definition generateMultiDayEvents (ids : nat -> jsstring)
  (mgr : Templates.Manager) (config : Config) : list BookedEvent :=
  let events := identified ids 0 (pushed mgr config) in
  sort compareStarts events.

End WithPlatform.

End MultiDay.
Module NumeralFacts.

Import Str StrFacts Arr Exporter.
Local Open Scope Z_scope.

Lemma digit_not_ws (c : char) : isDigit c = true -> isWhiteSpace c = false.
Proof.
  unfold isDigit. intros D. apply andb_true_iff in D as [A B].
  apply N.leb_le in A, B.
  assert (E : In c [48; 49; 50; 51; 52; 53; 54; 55; 56; 57]%N).
  { cbn [In]. lia. }
  cbn [In] in E.
  repeat (destruct E as [<-|E]; [reflexivity|]). contradiction.
Qed.

Lemma trim_solid (s : jsstring) :
  forallb (fun c => negb (isWhiteSpace c)) s = true -> trim s = s.
Proof.
  intros S. unfold trim.
  assert (E : trimStart s = s).
  { destruct s as [|c s]; [reflexivity|]. cbn [forallb] in S.
    apply andb_true_iff in S as [S _]. cbn [trimStart].
    now destruct (isWhiteSpace c). }
  rewrite E. clear E. induction s as [|c s IH]; [reflexivity|].
  cbn [forallb] in S. apply andb_true_iff in S as [Sc S].
  rewrite trimEnd_cons, IH by assumption.
  destruct s; [|reflexivity]. now destruct (isWhiteSpace c).
Qed.

Lemma digitsValue_app (l1 l2 : jsstring) :
  forall a,
    digitsValue (l1 ++ l2) a =
    match digitsValue l1 a with
    | Some v => digitsValue l2 v
    | None => None
    end.
Proof.
  induction l1 as [|c l1 IH]; intros a; [reflexivity|].
  cbn [app digitsValue]. destruct (isDigit c); [apply IH|reflexivity].
Qed.

Lemma digitsFuel_app (f : nat) :
  forall n acc, digitsFuel f n acc = digitsFuel f n [] ++ acc.
Proof.
  induction f as [|f IH]; intros n acc; [reflexivity|].
  cbn [digitsFuel]. destruct (n <? 10)%N; [reflexivity|].
  rewrite IH, (IH _ [_]), <- app_assoc. reflexivity.
Qed.

Lemma isDigit_mod (n : N) : isDigit (48 + n mod 10)%N = true.
Proof.
  unfold isDigit.
  assert (B : (n mod 10 < 10)%N) by (apply N.mod_upper_bound; lia).
  revert B. generalize (n mod 10)%N. intros r B.
  apply andb_true_iff. split; apply N.leb_le; lia.
Qed.

Lemma digitsFuel_digits (f : nat) :
  forall n, forallb isDigit (digitsFuel f n []) = true.
Proof.
  induction f as [|f IH]; intros n; [reflexivity|].
  cbn [digitsFuel]. destruct (n <? 10)%N.
  - cbn [forallb]. now rewrite isDigit_mod.
  - rewrite digitsFuel_app, forallb_app, IH. cbn [forallb].
    now rewrite isDigit_mod.
Qed.

Lemma digitsFuel_value (f : nat) :
  forall n a,
    (n < 2 ^ N.of_nat f)%N ->
    digitsValue (digitsFuel f n []) a =
    Some (a * 10 ^ Z.of_nat (length (digitsFuel f n [])) + Z.of_N n).
Proof.
  induction f as [|f IH]; intros n a B.
  - cbn in B. assert (n = 0%N) by lia. subst n. cbn. f_equal. lia.
  - cbn [digitsFuel]. destruct (N.ltb_spec n 10) as [L|L].
    + cbn [digitsValue length]. rewrite isDigit_mod. f_equal.
      rewrite N.mod_small by assumption. lia.
    + rewrite digitsFuel_app, digitsValue_app, IH.
      * cbn [digitsValue]. rewrite isDigit_mod. f_equal.
        rewrite length_app. cbn [length].
        rewrite Nat2Z.inj_add, Z.pow_add_r by lia.
        change (10 ^ Z.of_nat 1) with 10.
        pose proof (N.div_mod n 10 ltac:(lia)) as D.
        rewrite N2Z.inj_add, N2Z.inj_mod. 
        assert (Z.of_N n = 10 * Z.of_N (n / 10) + Z.of_N n mod 10).
        { rewrite N2Z.inj_div. change (Z.of_N 10) with 10.
          apply Z.div_mod. lia. } 
        change (Z.of_N 48) with 48. change (Z.of_N 10) with 10. lia.
      * rewrite Nat2N.inj_succ, N.pow_succ_r' in B.
        apply N.Div0.div_lt_upper_bound. lia.
Qed.

Lemma digits_value (n : N) : digitsValue (digits n) 0 = Some (Z.of_N n).
Proof.
  unfold digits. rewrite digitsFuel_value; [f_equal; lia|].
  rewrite Nat2N.inj_succ, N2Nat.id.
  destruct n as [|p]; [reflexivity|]. apply N.log2_spec. lia.
Qed.

Lemma digits_digits (n : N) : forallb isDigit (digits n) = true.
Proof. apply digitsFuel_digits. Qed.

Lemma digits_cons (n : N) : exists c r, digits n = c :: r.
Proof.
  unfold digits. cbn [digitsFuel]. destruct (n <? 10)%N; [eauto|].
  rewrite digitsFuel_app. destruct (digitsFuel _ _ []); cbn; eauto.
Qed.

(** [Number] of a non-empty run of decimal digits. *)
Lemma toNumber_digits (l : jsstring) :
  l <> [] -> forallb isDigit l = true -> toNumber l = digitsValue l 0.
Proof.
  intros N D. unfold toNumber. rewrite trim_solid.
  - destruct l as [|c r]; [contradiction|]. destruct r; [reflexivity|].
    cbn [forallb] in D. apply andb_true_iff in D as [D _].
    unfold isDigit in D. apply andb_true_iff in D as [A B].
    apply N.leb_le in A, B. unfold ceqb.
    destruct (N.eqb_spec c 45); [lia|]. destruct (N.eqb_spec c 43); [lia|].
    reflexivity.
  - rewrite forallb_forall in *. intros c I. now rewrite digit_not_ws by auto.
Qed.

(** [Number(String(z))] is [z]. *)
Lemma toNumber_ofZ (z : Z) : toNumber (ofZ z) = Some z.
Proof.
  unfold ofZ. destruct (Z.ltb_spec z 0) as [L|L].
  - unfold toNumber. rewrite trim_solid.
    + destruct (digits_cons (Z.to_N (- z))) as [c [r E]].
      rewrite E. cbn [ceqb N.eqb Pos.eqb]. rewrite <- E.
      change (ceqb 45%N 45%N) with true. cbn iota.
      rewrite digits_value. cbn [option_map]. f_equal. lia.
    + cbn [forallb]. apply andb_true_iff. split; [reflexivity|].
      pose proof (digits_digits (Z.to_N (- z))) as D.
      rewrite forallb_forall in *. intros c I. now rewrite digit_not_ws by auto.
  - rewrite toNumber_digits.
    + rewrite digits_value. f_equal. lia.
    + destruct (digits_cons (Z.to_N z)) as [c [r ->]]. discriminate.
    + apply digits_digits.
Qed.

Lemma digitsValue_zeros (k : nat) (l : jsstring) :
  digitsValue (repeat 48%N k ++ l) 0 = digitsValue l 0.
Proof. induction k as [|k IH]; [reflexivity|exact IH]. Qed.

(** [Number] reads a zero-padded natural number back. *)
Lemma toNumber_padStart0 (n : nat) (z : Z) :
  0 <= z -> toNumber (padStart0 n (ofZ z)) = Some z.
Proof.
  intros P. unfold padStart0, ofZ.
  destruct (Z.ltb_spec z 0) as [L|_]; [lia|].
  rewrite toNumber_digits.
  - rewrite digitsValue_zeros, digits_value. f_equal. lia.
  - destruct (digits_cons (Z.to_N z)) as [c [r ->]].
    now destruct (repeat _ _).
  - rewrite forallb_app, digits_digits, andb_true_r.
    apply forallb_forall. intros c I. apply repeat_spec in I. now subst c.
Qed.

End NumeralFacts.

Module LabelFacts.

Import Str StrFacts Regex RegexFacts PatternFacts DateTime DateFacts Arr ArrFacts.
Import Exporter NumeralFacts SortFacts.
Local Open Scope Z_scope.

Definition slash : char := 47%N.

(** *** Splitting at a separator *)

Lemma split_whole (c : char) (s : jsstring) :
  includesChar s c = false -> split c s = [s].
Proof.
  unfold includesChar. induction s as [|x s IH]; [reflexivity|].
  cbn [existsb split]. intros E. apply orb_false_iff in E as [E1 E2].
  unfold ceqb in *. rewrite N.eqb_sym, E1, IH by assumption. reflexivity.
Qed.

Lemma split_app (c : char) (a rest : jsstring) :
  includesChar a c = false -> split c (a ++ c :: rest) = a :: split c rest.
Proof.
  unfold includesChar. induction a as [|x a IH]; cbn [existsb split app].
  - intros _. unfold ceqb. now rewrite N.eqb_refl.
  - intros E. apply orb_false_iff in E as [E1 E2].
    unfold ceqb in *. rewrite N.eqb_sym, E1, IH by assumption. reflexivity.
Qed.

Lemma digits_no (c : char) (l : jsstring) :
  isDigit c = false -> forallb isDigit l = true -> includesChar l c = false.
Proof.
  intros C D. unfold includesChar.
  destruct (existsb (ceqb c) l) eqn:E; [|reflexivity].
  apply existsb_exists in E as [x [I E]]. apply ceqb_eq in E. subst x.
  rewrite forallb_forall in D. now rewrite D in C.
Qed.

Lemma padStart0_digits (n : nat) (z : Z) :
  0 <= z -> forallb isDigit (padStart0 n (ofZ z)) = true.
Proof.
  intros P. unfold padStart0, ofZ. destruct (Z.ltb_spec z 0); [lia|].
  rewrite forallb_app, digits_digits, andb_true_r.
  apply forallb_forall. intros c I. apply repeat_spec in I. now subst c.
Qed.

Lemma ofZ_no_slash (z : Z) : includesChar (ofZ z) slash = false.
Proof.
  unfold ofZ. destruct (z <? 0).
  - unfold includesChar. cbn [existsb]. change (ceqb slash 45%N) with false.
    cbn [orb]. apply (@digits_no slash); [reflexivity|apply digits_digits].
  - apply digits_no; [reflexivity|apply digits_digits].
Qed.

(** *** Calendar fields *)

Lemma DayWithinYear_nonneg (t : Z) : 0 <= DayWithinYear t.
Proof.
  unfold DayWithinYear, YearFromTime.
  pose proof (YearFromDay_spec (Day t)). lia.
Qed.

Lemma DateFromTime_pos (t : Z) : 1 <= DateFromTime t.
Proof.
  pose proof (DayWithinYear_nonneg t) as N.
  unfold DateFromTime, MonthFromTime.
  assert (L : InLeapYear t = 0 \/ InLeapYear t = 1).
  { unfold InLeapYear. destruct (_ =? _); auto. }
  repeat match goal with
         | |- context [?a <? ?b] => destruct (Z.ltb_spec a b)
         end; cbn [monthStart]; lia.
Qed.

(** [MakeDay] is linear in the day of the month. *)
Lemma MakeDay_date (year month date date' : Z) :
  MakeDay year month date' = MakeDay year month date + (date' - date).
Proof. unfold MakeDay. lia. Qed.

Section Local.

Context `{Platform}.

Lemma getMonth_range (t : Z) : 0 <= getMonth t <= 11.
Proof. apply MonthFromTime_range. Qed.

Lemma getDate_pos (t : Z) : 1 <= getDate t.
Proof. apply DateFromTime_pos. Qed.

(** The three parts of a date label, read as numbers. *)
Lemma formatDate_parts (t : Z) :
  map toNumber (split slash (formatDate t)) =
  [Some (getMonth t + 1); Some (getDate t); Some (getFullYear t)].
Proof.
  pose proof (getMonth_range t). pose proof (getDate_pos t).
  unfold formatDate. cbv zeta. change (lit "/") with [slash].
  cbn [app].
  rewrite split_app, split_app, split_whole.
  - cbn [map]. rewrite !toNumber_padStart0, toNumber_ofZ by lia. reflexivity.
  - apply ofZ_no_slash.
  - apply digits_no; [reflexivity|]. apply padStart0_digits. lia.
  - apply digits_no; [reflexivity|]. apply padStart0_digits. lia.
Qed.

Lemma getMonthLabel_parts (t : Z) :
  map toNumber (split slash (getMonthLabel t)) =
  [Some (getMonth t + 1); Some (getFullYear t)].
Proof.
  pose proof (getMonth_range t).
  unfold getMonthLabel. cbv zeta. change (lit "/") with [slash].
  cbn [app]. rewrite split_app, split_whole.
  - cbn [map]. rewrite !toNumber_padStart0, toNumber_ofZ by lia. reflexivity.
  - apply ofZ_no_slash.
  - apply digits_no; [reflexivity|]. apply padStart0_digits. lia.
Qed.

Lemma parse_formatDate (t : Z) :
  parseGroupKeyToDate (formatDate t) (Some (lit "date")) =
  Some (newDate (getFullYear t) (getMonth t) (getDate t)).
Proof.
  unfold parseGroupKeyToDate. cbv zeta.
  change (Str.eqb (orEmpty (Some (lit "date"))) (lit "date")) with true.
  cbv iota. change 47%N with slash. rewrite formatDate_parts.
  cbn [nth newDateOfParts]. do 2 f_equal. lia.
Qed.

Lemma parse_getMonthLabel (t : Z) :
  parseGroupKeyToDate (getMonthLabel t) (Some (lit "month")) =
  Some (newDate (getFullYear t) (getMonth t) 1).
Proof.
  unfold parseGroupKeyToDate. cbv zeta.
  change (Str.eqb (orEmpty (Some (lit "month"))) (lit "date")) with false.
  change (Str.eqb (orEmpty (Some (lit "month"))) (lit "week")) with false.
  change (Str.eqb (orEmpty (Some (lit "month"))) (lit "month")) with true.
  cbv iota. change 47%N with slash. rewrite getMonthLabel_parts.
  cbn [nth newDateOfParts]. do 2 f_equal. lia.
Qed.

(** The first day of the month of a time value, as a day number. *)
Definition firstOfMonth (t : Z) : Z := localDay t - (getDate t - 1).

Lemma newDate_first (t : Z) :
  plainYear t ->
  newDate (getFullYear t) (getMonth t) 1 = UTC (firstOfMonth t * msPerDay).
Proof.
  intros P. unfold newDate.
  replace ((0 <=? getFullYear t) && (getFullYear t <=? 99)) with false.
  - rewrite (MakeDay_date _ _ (getDate t) 1).
    unfold getFullYear, getMonth, getDate. rewrite MakeDay_fields.
    unfold MakeDate, firstOfMonth, localDay, getDate. f_equal. lia.
  - symmetry. apply andb_false_iff. destruct P; [left|right]; lia.
Qed.

(** X3. The keys of date and month groups are read back as the days they
    label.  For a year that the [Date] constructor takes as it is (not in
    0..99), [parseGroupKeyToDate] of a label written by [formatDate] is
    local midnight of the day of the time value, so that two such labels
    are read as the same date exactly when they label the same midnight;
    and [parseGroupKeyToDate] of a label written by [getMonthLabel] is local
    midnight of the first day of the month, the day that lies as many days
    before the day of the time value as its day of the month exceeds 1. *)
Theorem parseGroupKeyToDate_labels (t : Z) :
  plainYear t ->
  (parseGroupKeyToDate (formatDate t) (Some (lit "date")) =
   Some (localMidnight t) /\
   (forall t', plainYear t' ->
      (parseGroupKeyToDate (formatDate t') (Some (lit "date")) =
       parseGroupKeyToDate (formatDate t) (Some (lit "date")) <->
       localMidnight t' = localMidnight t))) /\
  (parseGroupKeyToDate (getMonthLabel t) (Some (lit "month")) =
   Some (UTC (firstOfMonth t * msPerDay)) /\
   firstOfMonth t <= localDay t).
Proof.
  intros P. split; split.
  - now rewrite parse_formatDate, newDate_fields.
  - intros t' P'. rewrite !parse_formatDate, !newDate_fields by assumption.
    split; congruence.
  - now rewrite parse_getMonthLabel, newDate_first.
  - unfold firstOfMonth. pose proof (getDate_pos t). lia.
Qed.

End Local.

(** Wednesday, November 5th 2025, noon in the Eastern zone. *)
Lemma parseGroupKeyToDate_labels_witness :
  (@formatDate Reference.eastern 1762362000000 = lit "11/05/2025" /\
   @localMidnight Reference.eastern 1762362000000 = 1762318800000 /\
   @parseGroupKeyToDate Reference.eastern
     (@formatDate Reference.eastern 1762362000000) (Some (lit "date")) =
   Some (@localMidnight Reference.eastern 1762362000000)) /\
  (@getMonthLabel Reference.eastern 1762362000000 = lit "11/2025" /\
   @UTC Reference.eastern
     (@firstOfMonth Reference.eastern 1762362000000 * msPerDay) =
   1761969600000 /\
   @parseGroupKeyToDate Reference.eastern
     (@getMonthLabel Reference.eastern 1762362000000) (Some (lit "month")) =
   Some (@UTC Reference.eastern
           (@firstOfMonth Reference.eastern 1762362000000 * msPerDay))).
Proof.
  assert (P : @plainYear Reference.eastern 1762362000000)
    by (right; vm_compute; reflexivity).
  pose proof (@parseGroupKeyToDate_labels Reference.eastern 1762362000000 P)
    as [[D _] [M _]].
  split; (split; [vm_compute; reflexivity|]);
    (split; [vm_compute; reflexivity|]); assumption.
Defined.

End LabelFacts.

Module WeekFacts.

Import Str StrFacts Regex RegexFacts PatternFacts DateTime DateFacts Arr ArrFacts.
Import Exporter NumeralFacts LabelFacts.
Local Open Scope Z_scope.

Lemma dropWhile_all p (s : jsstring) : forallb p s = true -> dropWhile p s = [].
Proof.
  induction s as [|c s IH]; [reflexivity|]. cbn [forallb dropWhile].
  intros E. apply andb_true_iff in E as [-> E]. auto.
Qed.

(** [/Week of (.+)/] on a label that begins with the words: the whole label
    matches. *)
Lemma match0_weekOf (s : jsstring) :
  s <> [] -> forallb notLineTerminator s = true ->
  match0 weekOf (lit "Week of " ++ s) = Some (lit "Week of " ++ s).
Proof.
  intros N L. destruct s as [|c s]; [contradiction|].
  cbn [forallb] in L. apply andb_true_iff in L as [Lc L].
  unfold match0, exec. 
  assert (M : matchHere weekOf None (lit "Week of " ++ c :: s) = Some []).
  { unfold matchHere, weekOf. cbn [pat ignoreCase]. rewrite m_seqs_cons.
    unfold W. rewrite m_Word.
    change (startsWith (lit "Week of ") (lit "Week of " ++ c :: s)) with true.
    cbv iota.
    change (skipn (length (lit "Week of ")) (lit "Week of " ++ c :: s))
      with (c :: s).
    unfold Plus. cbn [seqs fold_right m]. rewrite Lc.
    change (starK notLineTerminator (fun prev s0 => accept prev s0) (Some c) s)
      with (starK notLineTerminator accept (Some c) s).
    now rewrite starK_accept, dropWhile_all. }
  destruct (lit "Week of " ++ c :: s) as [|x r] eqn:E; [discriminate E|].
  cbn [execFrom]. rewrite M. cbn [length]. rewrite Nat.sub_0_r.
  change (S (length r)) with (length (x :: r)). now rewrite firstn_all.
Qed.

Section Local.

Context `{Platform}.

(** A local time value that is on the same day when it is taken to UTC and
    back: true of every value in a zone with a fixed offset, and of the
    values that are not within a change of offset of midnight otherwise. *)
Definition sameDay (x : Z) : Prop := Day (LocalTime (UTC x)) = Day x.

Lemma getDay_range (t : Z) : 0 <= getDay t <= 6.
Proof.
  unfold getDay, WeekDay.
  pose proof (Z.mod_pos_bound (Day (LocalTime t) + 4) 7 ltac:(lia)). lia.
Qed.

Lemma setDate_local (t date : Z) :
  setDate t date =
  UTC (LocalTime t + (date - getDate t) * msPerDay).
Proof.
  unfold setDate, getDate. cbv zeta.
  rewrite (MakeDay_date _ _ (DateFromTime (LocalTime t)) date), MakeDay_fields.
  unfold MakeDate, Day, TimeWithinDay, msPerDay. f_equal.
  pose proof (Z.div_mod (LocalTime t) 86400000 ltac:(lia)). lia.
Qed.

(** X5. [getWeekStart] is local midnight of the Sunday on or before the
    date: of the day that lies as many days back as the day of the week
    says, provided that the same time of day on that Sunday is on that day
    when taken to UTC and back.  When the midnight itself comes back on
    its day, the result is a Sunday, and the local day of the result is
    that Sunday. *)
Theorem getWeekStart_sunday (t : Z) :
  sameDay (LocalTime t - getDay t * msPerDay) ->
  let sunday := localDay t - getDay t in
  getWeekStart t = UTC (sunday * msPerDay) /\
  0 <= localDay t - sunday <= 6 /\
  (sameDay (sunday * msPerDay) ->
   localDay (getWeekStart t) = sunday /\ getDay (getWeekStart t) = 0).
Proof.
  intros S sunday.
  assert (E : getWeekStart t = UTC (sunday * msPerDay)).
  { unfold getWeekStart. cbv zeta. rewrite setDate_local.
    replace (LocalTime t + (getDate t - getDay t - getDate t) * msPerDay)
      with (LocalTime t - getDay t * msPerDay) by lia.
    unfold setHours0. rewrite S. unfold MakeDate. rewrite Z.add_0_r.
    f_equal. f_equal. subst sunday. unfold localDay, Day, msPerDay.
    replace (LocalTime t - getDay t * 86400000)
      with (LocalTime t + (- getDay t) * 86400000) by lia.
    rewrite Z.div_add by lia. lia. }
  pose proof (getDay_range t) as R.
  split; [exact E|]. split; [subst sunday; lia|].
  intros M. rewrite E.
  assert (D : localDay (UTC (sunday * msPerDay)) = sunday).
  { unfold localDay. rewrite M. unfold Day. apply Z.div_mul. discriminate. }
  split; [exact D|].
  unfold getDay, WeekDay. fold (localDay (UTC (sunday * msPerDay))).
  rewrite D. subst sunday. unfold getDay, WeekDay. fold (localDay t).
  generalize (localDay t). intros d.
  Z.to_euclidean_division_equations. lia.
Qed.

Lemma formatDate_line (w : Z) :
  formatDate w <> [] /\ forallb notLineTerminator (formatDate w) = true.
Proof.
  pose proof (getMonth_range w). pose proof (getDate_pos w).
  unfold formatDate. cbv zeta. split.
  - intros E. apply (f_equal (@length _)) in E.
    rewrite !length_app in E. cbn [lit length list_ascii_of_string map] in E.
    lia.
  - assert (D : forall l, forallb isDigit l = true ->
                          forallb notLineTerminator l = true).
    { intros l D. rewrite forallb_forall in *. intros c I.
      specialize (D c I). unfold isDigit in D.
      apply andb_true_iff in D as [A B]. apply N.leb_le in A, B.
      unfold notLineTerminator.
      destruct (N.eqb_spec c 10); [lia|]. destruct (N.eqb_spec c 13); [lia|].
      destruct (N.eqb_spec c 8232); [lia|].
      destruct (N.eqb_spec c 8233); [lia|]. reflexivity. }
    rewrite !forallb_app.
    change (forallb notLineTerminator (lit "/")) with true.
    rewrite !D by (apply padStart0_digits; lia). cbn [andb].
    unfold ofZ. destruct (_ <? 0); [cbn [forallb]|];
      rewrite D by apply digits_digits; reflexivity.
Qed.

Lemma parse_weekOf (w : Z) :
  parseGroupKeyToDate (lit "Week of " ++ formatDate w) (Some (lit "week")) =
  Some (newDate (getFullYear w) (getMonth w) (getDate w)).
Proof.
  destruct (formatDate_line w) as [N L].
  unfold parseGroupKeyToDate. cbv zeta.
  change (Str.eqb (orEmpty (Some (lit "week"))) (lit "date")) with false.
  change (Str.eqb (orEmpty (Some (lit "week"))) (lit "week")) with true.
  cbv iota. rewrite match0_weekOf by assumption.
  change (skipn 8 (lit "Week of " ++ formatDate w)) with (formatDate w).
  change 47%N with slash. rewrite formatDate_parts.
  cbn [nth newDateOfParts]. do 2 f_equal. lia.
Qed.

Lemma localMidnight_own (w sunday : Z) :
  w = UTC (sunday * msPerDay) -> sameDay (sunday * msPerDay) ->
  localMidnight w = w.
Proof.
  intros -> S. unfold localMidnight, localDay. rewrite S. unfold Day.
  rewrite Z.div_mul; [reflexivity|discriminate].
Qed.

Lemma parse_weekOf_plain (w : Z) :
  plainYear w ->
  parseGroupKeyToDate (lit "Week of " ++ formatDate w) (Some (lit "week")) =
  Some (localMidnight w).
Proof.
  intros P. rewrite parse_weekOf. f_equal. now apply newDate_fields.
Qed.

Lemma parse_getWeekLabel (t : Z) :
  parseGroupKeyToDate (getWeekLabel t) (Some (lit "week")) =
  Some (newDate (getFullYear (getWeekStart t)) (getMonth (getWeekStart t))
          (getDate (getWeekStart t))).
Proof. apply parse_weekOf. Qed.

Lemma parse_getWeekLabel_plain (t : Z) :
  plainYear (getWeekStart t) ->
  parseGroupKeyToDate (getWeekLabel t) (Some (lit "week")) =
  Some (localMidnight (getWeekStart t)).
Proof. apply parse_weekOf_plain. Qed.

(** X4. The key of a week group is read back as the start of its week:
    [parseGroupKeyToDate] of a label written by [getWeekLabel], when the
    start of the week is in a year not in 0..99, is local midnight of the
    day of the start of the week; it is the start of the week itself when
    that is the local midnight of its Sunday (see [getWeekStart_sunday])
    and the midnight comes back on its day. *)
Theorem parseGroupKeyToDate_getWeekLabel (t : Z) :
  plainYear (getWeekStart t) ->
  parseGroupKeyToDate (getWeekLabel t) (Some (lit "week")) =
  Some (localMidnight (getWeekStart t)) /\
  (forall sunday,
     getWeekStart t = UTC (sunday * msPerDay) ->
     sameDay (sunday * msPerDay) ->
     parseGroupKeyToDate (getWeekLabel t) (Some (lit "week")) =
     Some (getWeekStart t)).
Proof.
  intros P. split; [now apply parse_getWeekLabel_plain|].
  intros sunday W S. rewrite parse_getWeekLabel_plain by assumption.
  revert W. generalize (getWeekStart t). intros w W. f_equal.
  now apply localMidnight_own with (sunday := sunday).
Qed.

End Local.

(** Wednesday, November 5th 2025 in the Eastern zone: the week starts on
    Sunday, November 2nd, the day on which daylight saving time ends. *)
Lemma getWeekStart_sunday_witness :
  @getWeekLabel Reference.eastern 1762362000000 = lit "Week of 11/02/2025" /\
  @getWeekStart Reference.eastern 1762362000000 = 1762056000000 /\
  @getWeekStart Reference.eastern 1762362000000 =
  @UTC Reference.eastern
    ((@localDay Reference.eastern 1762362000000
      - @getDay Reference.eastern 1762362000000) * msPerDay).
Proof.
  split; [vm_compute; reflexivity|]. split; [vm_compute; reflexivity|].
  assert (S : @sameDay Reference.eastern
                (@LocalTime Reference.eastern 1762362000000
                 - @getDay Reference.eastern 1762362000000 * msPerDay))
    by (vm_compute; reflexivity).
  exact (proj1 (@getWeekStart_sunday Reference.eastern 1762362000000 S)).
Defined.

Lemma parseGroupKeyToDate_getWeekLabel_witness :
  @parseGroupKeyToDate Reference.eastern
    (@getWeekLabel Reference.eastern 1762362000000) (Some (lit "week")) =
  Some (@localMidnight Reference.eastern
          (@getWeekStart Reference.eastern 1762362000000)).
Proof.
  assert (P : @plainYear Reference.eastern
                (@getWeekStart Reference.eastern 1762362000000))
    by (right; vm_compute; reflexivity).
  exact (proj1 (@parseGroupKeyToDate_getWeekLabel Reference.eastern
                  1762362000000 P)).
Defined.

End WeekFacts.

Module KeyOrderFacts.

Import Str StrFacts DateTime DateFacts Arr ArrFacts.
Import Exporter NumeralFacts LabelFacts WeekFacts SortFacts.
Local Open Scope Z_scope.

Section Sorting.

Context {A B : Type}.

Lemma insertBy_map (f : A -> B) (cmp : B -> B -> Z) (x : A) (l : list A) :
  insertBy cmp (f x) (map f l) =
  map f (insertBy (fun a b => cmp (f a) (f b)) x l).
Proof.
  induction l as [|y l IH]; [reflexivity|]. cbn [map insertBy].
  destruct (cmp (f x) (f y) <=? 0); [reflexivity|]. cbn [map]. now rewrite IH.
Qed.

(** Sorting labels is sorting what they label. *)
Lemma sort_map (f : A -> B) (cmp : B -> B -> Z) (l : list A) :
  Arr.sort cmp (map f l) = map f (Arr.sort (fun a b => cmp (f a) (f b)) l).
Proof.
  induction l as [|x l IH]; [reflexivity|]. unfold Arr.sort in *.
  cbn [map fold_right]. now rewrite IH, insertBy_map.
Qed.

Lemma insertBy_ext_in (cmp cmp' : A -> A -> Z) (x : A) (l : list A) :
  (forall b, In b l -> cmp x b = cmp' x b) ->
  insertBy cmp x l = insertBy cmp' x l.
Proof.
  induction l as [|y l IH]; [reflexivity|]. intros E. cbn [insertBy].
  rewrite (E y) by (left; reflexivity). rewrite IH; [reflexivity|].
  intros b I. apply E. now right.
Qed.

Lemma sort_ext_in (cmp cmp' : A -> A -> Z) (l : list A) :
  (forall a b, In a l -> In b l -> cmp a b = cmp' a b) ->
  Arr.sort cmp l = Arr.sort cmp' l.
Proof.
  induction l as [|x l IH]; [reflexivity|]. intros E.
  unfold Arr.sort in *. cbn [fold_right]. rewrite IH.
  - apply insertBy_ext_in. intros b I.
    apply E; [left; reflexivity|right].
    now apply (sort_In cmp' l b).
  - intros a b Ia Ib. apply E; now right.
Qed.

(** Comparing by a numeric key. *)
Definition byKey (key : A -> Z) (a b : A) : Z := key a - key b.

Lemma sort_byKey (key : A -> Z) (l : list A) :
  Sorted (fun a b => key a <= key b) (Arr.sort (byKey key) l) /\
  Permutation (Arr.sort (byKey key) l) l.
Proof.
  split; [|apply sort_perm].
  assert (S : Sorted (notAfter (byKey key)) (Arr.sort (byKey key) l)).
  { apply sort_Sorted. intros a b. unfold notAfter, byKey. lia. }
  induction S as [|x s S IH R]; constructor; [exact IH|].
  destruct R as [|y s R]; constructor. unfold notAfter, byKey in R. lia.
Qed.

End Sorting.

Section Local.

Context `{Platform}.

(** Keys that [parseGroupKeyToDate] reads are sorted by what it reads. *)
Lemma sortGroupKeys_labels (label : Z -> jsstring) (key : Z -> Z)
  (groupType sortBy sortOrder : jsstring) (days : list Z) :
  In groupType [lit "date"; lit "week"; lit "month"] ->
  Str.eqb sortBy (lit "alpha") = false ->
  (forall t, In t days ->
             parseGroupKeyToDate (label t) (Some groupType) = Some (key t)) ->
  sortGroupKeys (map label days) (Some groupType) sortBy sortOrder =
  map label
    (if Str.eqb sortOrder (lit "desc")
     then rev (Arr.sort (byKey key) days)
     else Arr.sort (byKey key) days).
Proof.
  intros G S P. unfold sortGroupKeys. cbv zeta. rewrite S. cbn [negb].
  replace (Str.eqb (orEmpty (Some groupType)) (lit "date")
           || Str.eqb (orEmpty (Some groupType)) (lit "week")
           || Str.eqb (orEmpty (Some groupType)) (lit "month")) with true.
  - cbn [andb]. rewrite sort_map.
    rewrite (sort_ext_in _ (byKey key)).
    + destruct (Str.eqb sortOrder (lit "desc")); [now rewrite map_rev|reflexivity].
    + intros a b Ia Ib. unfold compareKeyDates, byKey.
      now rewrite (P a Ia), (P b Ib).
  - cbn [In] in G. destruct G as [<-|[<-|[<-|[]]]]; reflexivity.
Qed.

(** X6. [sortGroupKeys] puts the keys of date, week and month groups in
    the order of the days they label, whatever [sortBy] other than 'alpha'
    is asked for, and in the reverse of that order for 'desc': date labels
    by the local midnight of their day (for years not in 0..99), week labels
    by the rebuilt date of the start of the week, month labels by the first
    day of the month.  The order by a key is ascending in the key and a
    permutation. *)
Theorem sortGroupKeys_chronological (days : list Z)
  (sortBy sortOrder : jsstring) :
  Str.eqb sortBy (lit "alpha") = false ->
  let order (l : list Z) :=
    if Str.eqb sortOrder (lit "desc") then rev l else l in
  let weekDay t :=
    newDate (getFullYear (getWeekStart t)) (getMonth (getWeekStart t))
      (getDate (getWeekStart t)) in
  let monthDay t := newDate (getFullYear t) (getMonth t) 1 in
  (Forall plainYear days ->
   sortGroupKeys (map formatDate days) (Some (lit "date")) sortBy sortOrder =
   map formatDate (order (Arr.sort (byKey localMidnight) days))) /\
  sortGroupKeys (map getWeekLabel days) (Some (lit "week")) sortBy sortOrder =
  map getWeekLabel (order (Arr.sort (byKey weekDay) days)) /\
  sortGroupKeys (map getMonthLabel days) (Some (lit "month")) sortBy sortOrder =
  map getMonthLabel (order (Arr.sort (byKey monthDay) days)) /\
  (forall key : Z -> Z,
     Sorted (fun a b => key a <= key b) (Arr.sort (byKey key) days) /\
     Permutation (Arr.sort (byKey key) days) days).
Proof.
  intros S order weekDay monthDay. split; [|split; [|split]].
  - intros P.
    apply (sortGroupKeys_labels formatDate localMidnight (lit "date"));
      [cbn [In]; auto|exact S|].
    intros t I. rewrite Forall_forall in P.
    rewrite parse_formatDate, newDate_fields; [reflexivity|now apply P].
  - apply (sortGroupKeys_labels getWeekLabel weekDay (lit "week"));
      [cbn [In]; auto|exact S|].
    intros t _. exact (parse_getWeekLabel t).
  - apply (sortGroupKeys_labels getMonthLabel monthDay (lit "month"));
      [cbn [In]; auto|exact S|].
    intros t _. exact (parse_getMonthLabel t).
  - intros key. apply sort_byKey.
Qed.

End Local.

(** Three days given out of order, with the group sort 'count' and the
    order 'desc': the date keys come latest first. *)
Lemma sortGroupKeys_chronological_witness :
  @sortGroupKeys Reference.platform
    (map (@formatDate Reference.platform)
       [1763650800000; 1764774000000; 1761836400000])
    (Some (lit "date")) (lit "count") (lit "desc") =
  [lit "12/03/2025"; lit "11/20/2025"; lit "10/30/2025"].
Proof.
  destruct (@sortGroupKeys_chronological Reference.platform
              [1763650800000; 1764774000000; 1761836400000]
              (lit "count") (lit "desc") eq_refl) as [D _].
  rewrite D.
  - vm_compute. reflexivity.
  - repeat constructor; right; vm_compute; reflexivity.
Defined.

End KeyOrderFacts.

(** ** The time of day *)

Module TimeFacts.

Import Str StrFacts DateTime Exporter.
Local Open Scope Z_scope.

(** The label of [formatTime] as a function of the hour and the minute. *)
Definition clock (hm : Z * Z) : jsstring :=
  let hours := fst hm in
  let minutes := snd hm in
  let ampm := if hours >=? 12 then lit "PM" else lit "AM" in
  let hours := hours mod 12 in
  let hours := if hours =? 0 then 12 else hours in
  let minuteStr :=
    if minutes <? 10 then lit "0" ++ ofZ minutes else ofZ minutes in
  ofZ hours ++ lit ":" ++ minuteStr ++ lit " " ++ ampm.

Definition upto (n : nat) : list Z := map Z.of_nat (seq 0 n).

(** The 1440 times of day. *)
Definition times : list (Z * Z) :=
  flat_map (fun h => map (fun m => (h, m)) (upto 60)) (upto 24).

Fixpoint endsWith (s suffix : jsstring) : bool :=
  Str.eqb s suffix ||
  match s with
  | _ :: s' => endsWith s' suffix
  | [] => false
  end.

Lemma In_upto (n : nat) (z : Z) : 0 <= z < Z.of_nat n -> In z (upto n).
Proof.
  intros R. unfold upto. apply in_map_iff. exists (Z.to_nat z).
  split; [lia|]. apply in_seq. lia.
Qed.

Lemma In_times (h m : Z) : 0 <= h < 24 -> 0 <= m < 60 -> In (h, m) times.
Proof.
  intros Rh Rm. unfold times. apply in_flat_map. exists h.
  split; [now apply (In_upto 24)|].
  apply in_map_iff. exists m. split; [reflexivity|now apply (In_upto 60)].
Qed.

(** Reading a label back: the hour before the colon, two digits of
    minutes, and the half of the day. *)
Definition readClock (s : jsstring) : option (Z * Z) :=
  match split 58%N s with
  | [h; [m1; m2; _; half; _]] =>
      match digitsValue h 0, digitsValue [m1; m2] 0 with
      | Some hours, Some minutes =>
          Some (hours mod 12 + (if ceqb half 80%N then 12 else 0), minutes)
      | _, _ => None
      end
  | _ => None
  end.

Definition sameTime (p q : option (Z * Z)) : bool :=
  match p, q with
  | Some (h, m), Some (h', m') => (h =? h') && (m =? m')
  | _, _ => false
  end.

Lemma readClock_clock :
  forallb (fun p => sameTime (readClock (clock p)) (Some p)) times = true.
Proof. vm_compute. reflexivity. Qed.

Lemma clock_ampm :
  forallb
    (fun p =>
       Bool.eqb (endsWith (clock p) (lit " AM")) (fst p <? 12)
       && Bool.eqb (endsWith (clock p) (lit " PM")) (12 <=? fst p))
    times = true.
Proof. vm_compute. reflexivity. Qed.

Section Local.

Context `{Platform}.

Lemma getHours_range (t : Z) : 0 <= getHours t < 24.
Proof. unfold getHours, HourFromTime. apply Z.mod_pos_bound. lia. Qed.

Lemma getMinutes_range (t : Z) : 0 <= getMinutes t < 60.
Proof. unfold getMinutes, MinFromTime. apply Z.mod_pos_bound. lia. Qed.

Lemma formatTime_clock (t : Z) :
  formatTime t = clock (getHours t, getMinutes t).
Proof. reflexivity. Qed.

(** X7. [formatTime] writes a twelve-hour clock that loses nothing of the
    hour and the minute: two time values have the same label exactly when
    their local hour and minute agree; the label ends in " AM" exactly
    before noon and in " PM" exactly from noon on. *)
Theorem formatTime_faithful (t t' : Z) :
  (formatTime t = formatTime t' <->
   getHours t = getHours t' /\ getMinutes t = getMinutes t') /\
  endsWith (formatTime t) (lit " AM") = (getHours t <? 12) /\
  endsWith (formatTime t) (lit " PM") = (12 <=? getHours t).
Proof.
  rewrite !formatTime_clock.
  pose proof (In_times _ _ (getHours_range t) (getMinutes_range t)) as I.
  pose proof (In_times _ _ (getHours_range t') (getMinutes_range t')) as I'.
  revert I I'.
  generalize (getHours t) (getMinutes t) (getHours t') (getMinutes t').
  intros h m h' m' I I'. pose proof readClock_clock as D.
  rewrite forallb_forall in D. split.
  - split; [|intros [-> ->]; reflexivity].
    intros E. pose proof (D _ I) as R. pose proof (D _ I') as R'.
    rewrite E in R. destruct (readClock (clock (h', m'))) as [[x y]|];
      [|discriminate R].
    cbn [sameTime] in R, R'.
    apply andb_true_iff in R as [A B]. apply andb_true_iff in R' as [A' B'].
    apply Z.eqb_eq in A. apply Z.eqb_eq in B.
    apply Z.eqb_eq in A'. apply Z.eqb_eq in B'. split; lia.
  - pose proof clock_ampm as C. rewrite forallb_forall in C.
    specialize (C _ I). apply andb_true_iff in C as [A B].
    apply Bool.eqb_prop in A. apply Bool.eqb_prop in B. auto.
Qed.

End Local.

End TimeFacts.

(** ** The legacy sort *)

Module LegacySortFacts.

Import Str StrFacts Arr ArrFacts Exporter SortFacts.
Local Open Scope Z_scope.

Section WithProcessor.

Context `{Platform} `{Processor}.

Hypothesis collation : Consistent localeCompare.

(** The comparator of [sortEvents] before the direction is applied: the
    primary field, then the secondary field when one is given, then the
    start time unless one of the two fields is 'date'. *)
Definition legacyLevels (primarySort : jsstring)
  (secondarySort : option jsstring) (a b : Event) : Z :=
  let byField field a b := compareEvents a b field in
  let fields :=
    match secondarySort with
    | Some (c :: sec) => lex (byField primarySort) (byField (c :: sec))
    | _ => byField primarySort
    end in
  if negb (Str.eqb primarySort (lit "date"))
     && negb (Str.eqb (orEmpty secondarySort) (lit "date"))
  then lex fields (byField (lit "date")) a b
  else fields a b.

Lemma compareLegacy_levels primarySort secondarySort sortOrder a b :
  compareLegacy primarySort secondarySort sortOrder a b =
  if Str.eqb sortOrder (lit "desc")
  then - legacyLevels primarySort secondarySort a b
  else legacyLevels primarySort secondarySort a b.
Proof.
  unfold compareLegacy, legacyLevels, lex. cbv zeta.
  destruct (Str.eqb sortOrder (lit "desc")); [f_equal|];
    (destruct secondarySort as [[|c sec]|]; cbn [orEmpty];
     change (Str.eqb [] (lit "date")) with false;
     destruct (Str.eqb primarySort (lit "date"));
     try destruct (Str.eqb (c :: sec) (lit "date"));
     repeat match goal with
            | |- context [?x =? 0] => destruct (Z.eqb_spec x 0)
            end; cbn [negb andb] in *; try reflexivity; try lia).
Qed.

Lemma legacyLevels_consistent primarySort secondarySort :
  Consistent (legacyLevels primarySort secondarySort).
Proof.
  unfold legacyLevels. cbv zeta.
  assert (F : forall field, Consistent (fun a b => compareEvents a b field))
    by (intros field; apply (compareEvents_consistent collation)).
  assert (G : Consistent
                match secondarySort with
                | Some (c :: sec) =>
                    lex (fun a b => compareEvents a b primarySort)
                        (fun a b => compareEvents a b (c :: sec))
                | _ => fun a b => compareEvents a b primarySort
                end).
  { destruct secondarySort as [[|c sec]|]; try apply F.
    apply consistent_lex; apply F. }
  destruct (negb (Str.eqb primarySort (lit "date"))
            && negb (Str.eqb (orEmpty secondarySort) (lit "date"))).
  - apply (consistent_lex G (F (lit "date"))).
  - destruct G as [G1 G2]. split; [exact G1|exact G2].
Qed.

Lemma compareLegacy_consistent primarySort secondarySort sortOrder :
  Consistent (compareLegacy primarySort secondarySort sortOrder).
Proof.
  pose proof (legacyLevels_consistent primarySort secondarySort) as C.
  destruct (Str.eqb sortOrder (lit "desc")) eqn:D.
  - pose proof (consistent_opp C) as [O1 O2]. split.
    + intros a b. rewrite !compareLegacy_levels, D. apply O1.
    + intros a b c. rewrite !compareLegacy_levels, D. apply O2.
  - destruct C as [C1 C2]. split.
    + intros a b. rewrite !compareLegacy_levels, D. apply C1.
    + intros a b c. rewrite !compareLegacy_levels, D. apply C2.
Qed.

(** X8. The legacy [sortEvents] orders by the primary field, then by the
    secondary field when one is given, then by start time unless one of
    the two fields is 'date'; 'desc' reverses the whole comparison, the
    fallback included.  Its output is a permutation of the input in which
    no two adjacent events are in the wrong order for the comparator;
    sorting it again changes nothing; and events that tie keep the order
    of the input. *)
Theorem sortEvents_ordered (events : list Event) (primarySort : jsstring)
  (secondarySort : option jsstring) (sortOrder : jsstring) :
  let compare := compareLegacy primarySort secondarySort sortOrder in
  let sorted := sortEvents events primarySort secondarySort sortOrder in
  (forall a b,
     compare a b =
     if Str.eqb sortOrder (lit "desc")
     then - legacyLevels primarySort secondarySort a b
     else legacyLevels primarySort secondarySort a b) /\
  Permutation sorted events /\
  Sorted (fun a b => compare a b <= 0) sorted /\
  sortEvents sorted primarySort secondarySort sortOrder = sorted /\
  (forall a,
     filter (fun e => compare a e =? 0) sorted =
     filter (fun e => compare a e =? 0) events).
Proof.
  intros compare sorted.
  pose proof (compareLegacy_consistent primarySort secondarySort sortOrder) as C.
  fold compare in C. pose proof (consistent_total C) as T.
  split; [|split; [|split; [|split]]].
  - intros a b. apply compareLegacy_levels.
  - apply sort_perm.
  - apply (sort_Sorted (cmp := compare)), T.
  - apply (sort_idempotent (cmp := compare)), T.
  - intros a. apply (sort_stable a events C).
Qed.

End WithProcessor.

(** With the reference collation: two visits of one client on one day and a
    visit of another client, by client, descending. *)
Lemma sortEvents_ordered_witness :
  let bella1 := Reference.event "Bella 30" 1763200800000 1763202600000 in
  let bella2 := Reference.event "Bella 45" 1763208000000 1763210700000 in
  let milo := Reference.event "Milo 30" 1763204400000 1763206200000 in
  @sortEvents Reference.platform Reference.mockProcessor
    [bella1; milo; bella2] (lit "client") None (lit "desc") =
  [milo; bella2; bella1] /\
  Permutation
    (@sortEvents Reference.platform Reference.mockProcessor
       [bella1; milo; bella2] (lit "client") None (lit "desc"))
    [bella1; milo; bella2].
Proof.
  intros bella1 bella2 milo. split; [vm_compute; reflexivity|].
  apply (@sortEvents_ordered Reference.platform Reference.mockProcessor
           codeUnitCompare_consistent [bella1; milo; bella2] (lit "client")
           None (lit "desc")).
Defined.

End LegacySortFacts.

(** ** The text report *)

Module TextListFacts.

Import Str StrFacts DateTime Arr ArrFacts Exporter ExporterFacts SortFacts.
Import KeyOrderFacts.
Local Open Scope Z_scope.

(** *** Trimming around a solid core *)

Lemma trimEnd_solid (a : jsstring) (x : char) (b : jsstring) :
  isWhiteSpace x = false -> trimEnd (a ++ x :: b) = a ++ x :: trimEnd b.
Proof.
  intros X. induction a as [|c a IH]; cbn [app].
  - rewrite trimEnd_cons, X. now destruct (trimEnd b).
  - rewrite trimEnd_cons, IH. now destruct a.
Qed.

Lemma trim_solid_core (c x : char) (a b : jsstring) :
  isWhiteSpace c = false -> isWhiteSpace x = false ->
  trim (c :: a ++ x :: b) = c :: a ++ x :: trimEnd b.
Proof.
  intros C X. unfold trim. cbn [trimStart]. rewrite C.
  change (c :: a ++ x :: b) with ((c :: a) ++ x :: b).
  now rewrite trimEnd_solid.
Qed.

(** *** The ends of a sorted list *)

Section Ends.

Context {A : Type}.

Variable key : A -> Z.

Lemma sorted_hd (d : A) (l : list A) :
  Sorted (fun a b => key a <= key b) l ->
  forall x, In x l -> key (hd d l) <= key x.
Proof.
  intros S x I. apply Sorted_StronglySorted in S.
  - destruct S as [|a l S F]; [destruct I|]. cbn [hd].
    destruct I as [<-|I]; [lia|]. rewrite Forall_forall in F. now apply F.
  - intros a b c. lia.
Qed.

Lemma sorted_last (d : A) (l : list A) :
  Sorted (fun a b => key a <= key b) l ->
  forall x, In x l -> key x <= key (last l d).
Proof.
  intros S. apply Sorted_StronglySorted in S; [|intros a b c; lia].
  revert d. induction S as [|a l S IH F]; intros d x I; [destruct I|].
  destruct l as [|b l].
  - destruct I as [<-|[]]. cbn. lia.
  - change (last (a :: b :: l) d) with (last (b :: l) d).
    destruct I as [<-|I].
    + rewrite Forall_forall in F.
      specialize (IH d b (or_introl eq_refl)).
      specialize (F b (or_introl eq_refl)). lia.
    + now apply IH.
Qed.

Lemma hd_In (d : A) (l : list A) : l <> [] -> In (hd d l) l.
Proof. destruct l; [contradiction|]. intros _. now left. Qed.

Lemma last_In (d : A) (l : list A) : l <> [] -> In (last l d) l.
Proof.
  induction l as [|a l IH]; [contradiction|]. intros _.
  destruct l as [|b l]; [now left|]. right. apply IH. discriminate.
Qed.

End Ends.

Section WithProcessor.

Context `{Platform} `{Processor}.

(** The events of a report: the work events (when asked for) within the
    date range that are not end-of-overnight markers. *)
Definition reported (options : TextOptions) (event : Event) : bool :=
  inRange (workEventsOnly options) (startDate options) (endDate options) event
  && negb (isEndOvernightMarker event).

Lemma overnightFilter_inRange (options : TextOptions) (events : list Event) :
  overnightFilter
    (filter (inRange (workEventsOnly options) (startDate options)
               (endDate options)) events) =
  filter (reported options) events.
Proof.
  unfold overnightFilter, reported.
  induction events as [|e events IH]; [reflexivity|]. cbn [filter].
  destruct (inRange _ _ _ e); cbn [filter andb]; [|exact IH].
  rewrite shouldInclude_own_start, IH. reflexivity.
Qed.

(** The grouping levels read from the [groupBy] option. *)
Definition groupLevelsOf (groupBy : jsstring) : list jsstring :=
  filter (fun level =>
            negb (Str.eqb level []) && negb (Str.eqb level (lit "none")))
    (split Exporter.dash groupBy).

(** The body of a report: grouped when there are grouping levels, a flat
    list otherwise. *)
Definition reportBody (options : TextOptions) (events : list Event)
  : jsstring :=
  match groupLevelsOf (groupBy options) with
  | (_ :: _) as groupLevels =>
      generateDynamicGrouping events groupLevels (includeTime options)
        (includeLocation options) (groupSort options) (eventSort options)
  | [] =>
      generateSimpleList events (includeTime options) (includeLocation options)
  end.

(** The summary lines of a report, up to the rule. *)
Definition summary (options : TextOptions) (first last : Event) (n : nat)
  : jsstring :=
  (if workEventsOnly options then lit "Work Events" else lit "All Events")
  ++ lit " Summary" ++ newline
  ++ formatDate (start first) ++ lit " - " ++ formatDate (start last)
  ++ newline
  ++ lit "Total: " ++ ofZ (Z.of_nat n) ++ lit " event"
  ++ (if (n =? 1)%nat then [] else lit "s") ++ newline
  ++ repeat_str (lit "=") 50.

Definition sentinel : jsstring :=
  lit "No events found in the selected date range.".

Lemma generateTextList_cases (events : list Event) (options : TextOptions) :
  let sorted :=
    sortEventsMultiLevel (filter (reported options) events)
      (eventSort options) in
  generateTextList events options =
  match sorted with
  | [] => sentinel
  | first :: _ =>
      let sortedByDate := Arr.sort (byKey start) sorted in
      trim (summary options (hd first sortedByDate) (last sortedByDate first)
              (length sorted)
            ++ newline ++ newline ++ reportBody options sorted)
  end.
Proof.
  intros sorted. unfold generateTextList. cbv zeta.
  rewrite overnightFilter_inRange. fold sorted.
  destruct sorted as [|first rest] eqn:E; [reflexivity|].
  unfold reportBody, summary, groupLevelsOf.
  change (fun a b : Event => start a - start b) with (byKey start).
  destruct (filter _ (split Exporter.dash (groupBy options)));
    repeat rewrite <- app_assoc; reflexivity.
Qed.

Lemma summary_solid (options : TextOptions) (first last : Event) (n : nat) :
  exists c a,
    isWhiteSpace c = false /\ (c = 87%N \/ c = 65%N) /\
    summary options first last n = c :: a ++ [61%N].
Proof.
  unfold summary.
  change (repeat_str (lit "=") 50) with (repeat_str (lit "=") 49 ++ [61%N]).
  destruct (workEventsOnly options).
  - exists 87%N. eexists. split; [reflexivity|]. split; [now left|].
    change (lit "Work Events") with (87%N :: lit "ork Events").
    cbn [app]. f_equal. repeat rewrite app_assoc. reflexivity.
  - exists 65%N. eexists. split; [reflexivity|]. split; [now right|].
    change (lit "All Events") with (65%N :: lit "ll Events").
    cbn [app]. f_equal. repeat rewrite app_assoc. reflexivity.
Qed.

(** X9. On events whose start and end are valid dates (the events of
    [Event]), [generateTextList] answers with the sentence "No events
    found in the selected date range." exactly when no event of the input
    is reported: when every event is outside the range, is not a work
    event while work events only are asked for, or is an end-of-overnight
    marker.  An event whose start is not a valid date is not covered: the
    range test lets it through, and the overnight filter then drops it
    when it is an overnight event, marker or not. *)
Theorem generateTextList_sentinel (events : list Event)
  (options : TextOptions) :
  generateTextList events options = sentinel <->
  filter (reported options) events = [].
Proof.
  rewrite generateTextList_cases. cbv zeta.
  set (kept := filter (reported options) events).
  pose proof (sort_perm (compareLevels (normalizeLevels (eventSort options)))
                kept) as P.
  fold (sortEventsMultiLevel kept (eventSort options)) in P.
  destruct (sortEventsMultiLevel kept (eventSort options)) as [|first rest].
  - apply Permutation_nil in P. now rewrite P.
  - split.
    + intros E.
      destruct (summary_solid options
                  (hd first (Arr.sort (byKey start) (first :: rest)))
                  (last (Arr.sort (byKey start) (first :: rest)) first)
                  (length (first :: rest))) as [c [a [W [C S]]]].
      rewrite S in E. cbn [app] in E. rewrite <- app_assoc in E.
      cbn [app] in E.
      rewrite trim_solid_core in E by (assumption || reflexivity).
      apply (f_equal (hd 0%N)) in E. cbn [hd] in E.
      change (hd 0%N sentinel) with 78%N in E.
      destruct C as [C|C]; rewrite C in E; discriminate E.
    + intros K. rewrite K in P. symmetry in P.
      apply Permutation_nil in P. discriminate P.
Qed.

(** X10. On events whose start and end are valid dates (the events of
    [Event]): when some event is reported, the report is the summary
    followed by the body with its trailing white space removed.  The summary names
    the kind of events, the dates of the earliest and of the latest start
    among the reported events (not the bounds that were asked for), and
    their number. *)
Theorem generateTextList_summary (events : list Event)
  (options : TextOptions) :
  let kept := filter (reported options) events in
  kept <> [] ->
  exists first last,
    In first kept /\ In last kept /\
    (forall e, In e kept -> start first <= start e <= start last) /\
    generateTextList events options =
    summary options first last (length kept)
    ++ trimEnd
         (newline ++ newline
          ++ reportBody options (sortEventsMultiLevel kept (eventSort options))).
Proof.
  intros kept K. rewrite generateTextList_cases. cbv zeta. fold kept.
  pose proof (sort_perm (compareLevels (normalizeLevels (eventSort options)))
                kept) as P.
  fold (sortEventsMultiLevel kept (eventSort options)) in P.
  set (sorted := sortEventsMultiLevel kept (eventSort options)) in *.
  destruct sorted as [|e0 rest] eqn:E.
  { apply Permutation_nil in P. contradiction. }
  rewrite <- E in *. clear E rest.
  destruct (sort_byKey start sorted) as [S Q].
  set (byDate := Arr.sort (byKey start) sorted) in *.
  assert (N : byDate <> []).
  { intros Z. rewrite Z in Q. apply Permutation_nil in Q.
    rewrite Q in P. apply Permutation_nil in P. contradiction. }
  assert (I : forall e, In e kept <-> In e byDate).
  { intros e. split; intros X.
    - apply (Permutation_in e (Permutation_sym Q)).
      now apply (Permutation_in e (Permutation_sym P)).
    - apply (Permutation_in e P). now apply (Permutation_in e Q). }
  exists (hd e0 byDate), (last byDate e0).
  split; [apply I, hd_In, N|]. split; [apply I, last_In, N|]. split.
  - intros e X. apply I in X. split.
    + now apply (sorted_hd start).
    + now apply (sorted_last start).
  - rewrite (Permutation_length P).
    destruct (summary_solid options (hd e0 byDate) (last byDate e0)
                (length kept)) as [c [a [W [_ M]]]].
    rewrite M. cbn [app]. rewrite <- !app_assoc. cbn [app].
    now rewrite trim_solid_core.
Qed.

End WithProcessor.

(** Two visits in November 2025 and a lunch, work events only, no
    grouping. *)
Lemma generateTextList_summary_witness :
  let bella := Reference.event "Bella 30" 1763200800000 1763202600000 in
  let lunch := Reference.event "Lunch" 1763208000000 1763211600000 in
  let milo := Reference.event "Milo 45" 1762336800000 1762339500000 in
  let options := {|
    startDate := None; endDate := None;
    includeTime := false; includeLocation := false;
    groupBy := lit "none";
    groupSort := {| sortBy := lit "date"; sortOrder := lit "asc" |};
    eventSort := LevelArray [];
    workEventsOnly := true |} in
  filter (@reported Reference.platform Reference.processor options)
    [bella; lunch; milo] = [bella; milo] /\
  exists first last,
    @generateTextList Reference.platform Reference.processor
      [bella; lunch; milo] options =
    @summary Reference.platform options first last 2
    ++ trimEnd
         (newline ++ newline
          ++ @reportBody Reference.platform Reference.processor options
               (@sortEventsMultiLevel Reference.platform Reference.processor
                  (filter
                     (@reported Reference.platform Reference.processor options)
                     [bella; lunch; milo])
                  (eventSort options))).
Proof.
  intros bella lunch milo options. split; [vm_compute; reflexivity|].
  destruct (@generateTextList_summary Reference.platform Reference.processor
              [bella; lunch; milo] options)
    as [first [last [_ [_ [_ E]]]]].
  - vm_compute. discriminate.
  - exists first, last. exact E.
Defined.

End TextListFacts.

(** ** The grouping levels from the form to the report *)

Module GroupByFacts.

Import Str StrFacts Arr Exporter LabelFacts TextListFacts App.

(** A grouping level as the form gives it: a name other than 'none' without
    a dash. *)
Definition levelName (level : jsstring) : Prop :=
  level <> [] /\ level <> lit "none" /\ includesChar level Exporter.dash = false.

Lemma split_join (levels : list jsstring) (level : jsstring) :
  Forall levelName (level :: levels) ->
  split Exporter.dash (join (lit "-") (level :: levels)) = level :: levels.
Proof.
  revert level. induction levels as [|next levels IH]; intros level F.
  - cbn [join map concat]. rewrite app_nil_r. apply split_whole.
    inversion F as [|? ? [_ [_ D]] _]. exact D.
  - inversion F as [|? ? [_ [_ D]] F']. subst.
    cbn [join map concat]. change (lit "-") with [Exporter.dash].
    cbn [app]. rewrite split_app by exact D. f_equal.
    now apply IH.
Qed.

Lemma filter_levels (levels : list jsstring) :
  Forall levelName levels ->
  filter (fun level =>
            negb (Str.eqb level []) && negb (Str.eqb level (lit "none")))
    levels = levels.
Proof.
  induction 1 as [|level levels [N [M _]] F IH]; [reflexivity|].
  cbn [filter].
  destruct (Str.eqb level []) eqn:A; [apply eqb_eq in A; contradiction|].
  destruct (Str.eqb level (lit "none")) eqn:B;
    [apply eqb_eq in B; contradiction|].
  cbn [negb andb]. now rewrite IH.
Qed.

(** X11. The grouping levels survive the passage through the [groupBy]
    string: what [generateTextList] reads from the string that the form
    builds from a list of level names (joined by dashes, or 'none' for the
    empty list) is that list; so the report is grouped by exactly those
    levels, and is the flat list when there is none. *)
Theorem groupBy_levels `{Platform} `{Processor} (levels : list jsstring) :
  Forall levelName levels ->
  groupLevelsOf (groupByOf levels) = levels /\
  forall (options : TextOptions) (events : list Event),
    groupBy options = groupByOf levels ->
    reportBody options events =
    match levels with
    | [] =>
        generateSimpleList events (includeTime options)
          (includeLocation options)
    | _ :: _ =>
        generateDynamicGrouping events levels (includeTime options)
          (includeLocation options) (groupSort options) (eventSort options)
    end.
Proof.
  intros F.
  assert (E : groupLevelsOf (groupByOf levels) = levels).
  { unfold groupLevelsOf, groupByOf. destruct levels as [|level levels].
    - reflexivity.
    - rewrite split_join by assumption. now apply filter_levels. }
  split; [exact E|]. intros options events G.
  unfold reportBody. rewrite G, E. now destruct levels.
Qed.

Lemma groupBy_levels_witness :
  groupLevelsOf (groupByOf [lit "client"; lit "service"; lit "date"]) =
  [lit "client"; lit "service"; lit "date"].
Proof.
  apply (@groupBy_levels Reference.platform Reference.processor
           [lit "client"; lit "service"; lit "date"]).
  repeat constructor; try discriminate.
Defined.

End GroupByFacts.

(** ** The CSV export as a table *)

Module CsvTableFacts.

Import Str StrFacts PatternFacts Arr ArrFacts Exporter ExporterFacts.
Import Csv CsvFacts CsvTable NumeralFacts LabelFacts App.
Local Open Scope Z_scope.

(** One record as [escapeCSV] and the row template write it. *)
Definition writeRecord (values : list jsstring) : jsstring :=
  join (lit ",") (map escapeCSV values) ++ newline.

Lemma writeRecord_cons (value next : jsstring) (values : list jsstring) :
  writeRecord (value :: next :: values) =
  escapeCSV value ++ 44%N :: writeRecord (next :: values).
Proof.
  unfold writeRecord. cbn [map join concat].
  rewrite <- !app_assoc. reflexivity.
Qed.

Lemma writeRecord_one (value : jsstring) :
  writeRecord [value] = escapeCSV value ++ newline.
Proof. unfold writeRecord. cbn [map join concat]. now rewrite app_nil_r. Qed.

Lemma parseRecord_write (values : list jsstring) :
  forall (value rest : jsstring) (fuel : nat),
    (length values < fuel)%nat ->
    parseRecord fuel (writeRecord (value :: values) ++ rest) =
    Some (value :: values, rest).
Proof.
  induction values as [|next values IH]; intros value rest fuel F;
    (destruct fuel as [|fuel]; [cbn in F; lia|]).
  - rewrite writeRecord_one, <- app_assoc. cbn [parseRecord].
    rewrite parseField_escapeCSV by reflexivity. reflexivity.
  - rewrite writeRecord_cons, <- app_assoc. cbn [parseRecord app].
    rewrite parseField_escapeCSV by reflexivity.
    change (ceqb 44%N 44%N) with true. cbv iota.
    rewrite IH by (cbn [length] in F; lia). reflexivity.
Qed.

Lemma writeRecord_length (value : jsstring) (values : list jsstring) :
  (length values < length (writeRecord (value :: values)))%nat.
Proof.
  revert value. induction values as [|next values IH]; intros value.
  - rewrite writeRecord_one, length_app. cbn. lia.
  - rewrite writeRecord_cons, length_app. cbn [length].
    specialize (IH next). lia.
Qed.

(** A non-empty record. *)
Definition filled (values : list jsstring) : Prop := values <> [].

Lemma parseRecords_write (rows : list (list jsstring)) :
  Forall filled rows ->
  forall fuel,
    (length rows < fuel)%nat ->
    parseRecords fuel (concat (map writeRecord rows)) = Some rows.
Proof.
  induction 1 as [|row rows R F IH]; intros fuel L;
    (destruct fuel as [|fuel]; [cbn in L; lia|]); [reflexivity|].
  destruct row as [|value values]; [now destruct R|].
  cbn [map concat parseRecords].
  pose proof (writeRecord_length value values) as W.
  destruct (writeRecord (value :: values) ++ concat (map writeRecord rows))
    as [|c s] eqn:E.
  { apply (f_equal (@length _)) in E. rewrite length_app in E.
    cbn [length] in E. lia. }
  rewrite <- E, parseRecord_write.
  - rewrite IH by (cbn [length] in L; lia). reflexivity.
  - rewrite length_app. lia.
Qed.

Lemma concat_writeRecord_length (rows : list (list jsstring)) :
  Forall filled rows ->
  (length rows <= length (concat (map writeRecord rows)))%nat.
Proof.
  induction 1 as [|row rows R F IH]; [reflexivity|].
  destruct row as [|value values]; [now destruct R|].
  cbn [map concat length]. rewrite length_app.
  pose proof (writeRecord_length value values). lia.
Qed.

Lemma parseTable_write (rows : list (list jsstring)) :
  Forall filled rows ->
  parseTable (concat (map writeRecord rows)) = Some rows.
Proof.
  intros F. unfold parseTable. apply parseRecords_write; [exact F|].
  pose proof (concat_writeRecord_length rows F). lia.
Qed.

(** *** Values that are written as they are *)

Lemma needsQuotes_app (a b : jsstring) :
  needsQuotes (a ++ b) = needsQuotes a || needsQuotes b.
Proof.
  unfold needsQuotes, includesChar. rewrite !existsb_app.
  destruct (existsb (ceqb 44%N) a), (existsb (ceqb Exporter.quote) a),
    (existsb (ceqb 10%N) a), (existsb (ceqb 44%N) b),
    (existsb (ceqb Exporter.quote) b); reflexivity.
Qed.

Lemma needsQuotes_digits (l : jsstring) :
  forallb isDigit l = true -> needsQuotes l = false.
Proof.
  intros D. unfold needsQuotes.
  rewrite !(digits_no _ l) by (reflexivity || assumption). reflexivity.
Qed.

Lemma needsQuotes_ofZ (z : Z) : needsQuotes (ofZ z) = false.
Proof.
  unfold ofZ. destruct (z <? 0).
  - change (45%N :: digits (Z.to_N (- z)))
      with ([45%N] ++ digits (Z.to_N (- z))).
    rewrite needsQuotes_app, (needsQuotes_digits (digits (Z.to_N (- z))))
      by apply digits_digits.
    reflexivity.
  - apply needsQuotes_digits, digits_digits.
Qed.

Lemma needsQuotes_padStart0 (n : nat) (z : Z) :
  needsQuotes (padStart0 n (ofZ z)) = false.
Proof.
  unfold padStart0. rewrite needsQuotes_app, needsQuotes_ofZ.
  rewrite needsQuotes_digits; [reflexivity|].
  apply forallb_forall. intros c I. apply repeat_spec in I. now subst c.
Qed.

Lemma escapeCSV_plain (value : jsstring) :
  needsQuotes value = false -> escapeCSV value = value.
Proof. intros P. now rewrite escapeCSV_cases, P. Qed.

Lemma needsQuotes_duration (event : Event) :
  needsQuotes (durationOf event) = false.
Proof.
  unfold durationOf. cbv zeta. destruct (0 <? _);
    rewrite !needsQuotes_app, !needsQuotes_ofZ; reflexivity.
Qed.

Section WithProcessor.

Context `{Platform} `{Processor}.

Lemma needsQuotes_formatDate (t : Z) : needsQuotes (formatDate t) = false.
Proof.
  unfold formatDate. cbv zeta.
  now rewrite !needsQuotes_app, !needsQuotes_padStart0, needsQuotes_ofZ.
Qed.

Lemma needsQuotes_formatTime (t : Z) : needsQuotes (formatTime t) = false.
Proof.
  unfold formatTime. cbv zeta.
  rewrite !needsQuotes_app, needsQuotes_ofZ.
  destruct (getMinutes t <? 10), (getHours t >=? 12);
    rewrite ?needsQuotes_app, !needsQuotes_ofZ; reflexivity.
Qed.

(** The titles of the columns. *)
Definition headerColumns (includeLocation : bool) : list jsstring :=
  [lit "Date"; lit "Time"; lit "Client/Pet"; lit "Service Type";
   lit "Duration"]
  ++ (if includeLocation then [lit "Location"] else []).

(** The columns of the row of an event. *)
Definition columns (includeLocation : bool) (event : Event)
  : list jsstring :=
  [formatDate (start event); formatTime (start event);
   extractClientName (title event); formatServiceType event;
   durationOf event]
  ++ (if includeLocation then [orEmpty (location event)] else []).

Lemma csvRow_columns (includeLocation : bool) (event : Event) :
  isEndOvernightMarker event = false ->
  orEmpty (csvRow includeLocation event) =
  writeRecord (columns includeLocation event).
Proof.
  intros M. unfold csvRow. rewrite shouldInclude_own_start, M.
  cbn [negb orEmpty]. cbv zeta. fold (durationOf event).
  unfold writeRecord, columns.
  destruct includeLocation; cbn [app map join concat];
    rewrite (escapeCSV_plain (formatDate (start event)))
      by apply needsQuotes_formatDate;
    rewrite (escapeCSV_plain (formatTime (start event)))
      by apply needsQuotes_formatTime;
    rewrite (escapeCSV_plain (durationOf event))
      by apply needsQuotes_duration;
    rewrite ?app_nil_r; repeat rewrite <- app_assoc; reflexivity.
Qed.

Lemma fold_left_concat (A : Type) (f : A -> jsstring) (l : list A) :
  forall init,
    fold_left (fun csv x => csv ++ f x) l init = init ++ concat (map f l).
Proof.
  induction l as [|x l IH]; intros init; cbn [fold_left map concat].
  - now rewrite app_nil_r.
  - now rewrite IH, app_assoc.
Qed.

(** X12. On events whose start and end are valid dates (the events of
    [Event]), the output of [generateCSV] is a table that a reader of RFC
    4180 reads back: its first record holds the column titles, and the
    records after it are the columns of the events within the range (and
    are work events, when only those are asked for) and are not
    end-of-overnight markers, in the order of the legacy sort: the date,
    the time, the client name, the service type, the duration and, when
    asked for, the location, each as the exporter computes it, whatever
    commas, quotes or line feeds the name, the service or the location
    hold. *)
Theorem generateCSV_table (events : list Event) (options : CSVOptions) :
  let rows :=
    filter (fun event => negb (isEndOvernightMarker event))
      (sortEvents
         (filter (inRange (csvWorkEventsOnly options) (csvStartDate options)
                    (csvEndDate options)) events)
         (csvSortBy options) (csvSecondarySort options)
         (csvSortOrder options)) in
  generateCSV events options =
  concat (map writeRecord
            (headerColumns (csvIncludeLocation options)
             :: map (columns (csvIncludeLocation options)) rows)) /\
  parseTable (generateCSV events options) =
  Some (headerColumns (csvIncludeLocation options)
        :: map (columns (csvIncludeLocation options)) rows).
Proof.
  intros rows.
  assert (E : generateCSV events options =
              concat (map writeRecord
                        (headerColumns (csvIncludeLocation options)
                         :: map (columns (csvIncludeLocation options)) rows))).
  { unfold generateCSV. cbv zeta. rewrite fold_left_rows. fold rows.
    rewrite fold_left_concat. cbn [map concat]. f_equal.
    - destruct (csvIncludeLocation options); reflexivity.
    - rewrite map_map. f_equal. apply map_ext_in. intros e I.
      apply csvRow_columns. subst rows. apply filter_In in I as [_ I].
      now destruct (isEndOvernightMarker e). }
  split; [exact E|]. rewrite E. apply parseTable_write.
  constructor.
  - unfold filled, headerColumns. discriminate.
  - apply Forall_forall. intros row I. apply in_map_iff in I as [e [<- _]].
    unfold filled, columns. discriminate.
Qed.

End WithProcessor.

End CsvTableFacts.

(** ** The buckets of one grouping level *)

Module BucketFacts.

Import Str StrFacts Arr ArrFacts Exporter GroupingFacts.

(** The keys of a list in the order of their first occurrence; [seen] holds
    the keys met before. *)
Fixpoint firsts (seen keys : list jsstring) : list jsstring :=
  match keys with
  | [] => []
  | k :: keys' =>
      if existsb (Str.eqb k) seen then firsts seen keys'
      else k :: firsts (seen ++ [k]) keys'
  end.

Section Maps.

Context {V : Type}.

Lemma mapHas_keys (k : jsstring) (mp : jsmap V) :
  mapHas k mp = existsb (Str.eqb k) (mapKeys mp).
Proof.
  unfold mapHas. induction mp as [|[k' v] mp IH]; [reflexivity|].
  cbn [mapGet mapKeys map fst existsb]. fold (mapKeys mp).
  destruct (Str.eqb k k'); [reflexivity|exact IH].
Qed.

Lemma mapKeys_mapSet (k : jsstring) (v : V) (mp : jsmap V) :
  mapKeys (mapSet k v mp) =
  if mapHas k mp then mapKeys mp else mapKeys mp ++ [k].
Proof.
  unfold mapHas. induction mp as [|[k' v'] mp IH]; [reflexivity|].
  cbn [mapSet mapGet]. destruct (Str.eqb k k') eqn:E.
  - apply eqb_eq in E. now subst k'.
  - cbn [mapKeys map fst]. fold (mapKeys (mapSet k v mp)). rewrite IH.
    fold (mapKeys mp). now destruct (mapGet k mp).
Qed.

Lemma mapHas_mapSet_same (k : jsstring) (v : V) (mp : jsmap V) :
  mapHas k (mapSet k v mp) = true.
Proof. unfold mapHas. now rewrite mapGet_mapSet_same. Qed.

End Maps.

Lemma existsb_eqb_In (k : jsstring) (l : list jsstring) :
  existsb (Str.eqb k) l = true <-> In k l.
Proof.
  rewrite existsb_exists. split.
  - intros [x [I E]]. apply eqb_eq in E. now subst x.
  - intros I. exists k. split; [exact I|apply eqb_refl].
Qed.

Lemma firsts_spec (keys : list jsstring) :
  forall seen,
    NoDup seen ->
    NoDup (seen ++ firsts seen keys) /\
    (forall k, In k (seen ++ firsts seen keys) <-> In k seen \/ In k keys).
Proof.
  induction keys as [|k keys IH]; intros seen N; cbn [firsts].
  - rewrite app_nil_r. split; [exact N|]. intros k. cbn [In]. tauto.
  - destruct (existsb (Str.eqb k) seen) eqn:E.
    + destruct (IH seen N) as [D M]. split; [exact D|].
      intros x. rewrite M. cbn [In]. apply existsb_eqb_In in E.
      split; [tauto|]. intros [I|[<-|I]]; auto.
    + assert (X : ~ In k seen).
      { intros I. apply existsb_eqb_In in I. congruence. }
      assert (N' : NoDup (seen ++ [k])).
      { apply NoDup_app; [exact N|repeat constructor; intros []|].
        intros x I [<-|[]]. contradiction. }
      destruct (IH (seen ++ [k]) N') as [D M].
      rewrite <- app_assoc in D, M. cbn [app] in D, M.
      split; [exact D|]. intros x. rewrite M, in_app_iff. cbn [In]. tauto.
Qed.

Section WithProcessor.

Context `{Platform} `{Processor}.

Lemma mapKeys_bucketStep currentLevel grouped event :
  mapKeys (bucketStep currentLevel grouped event) =
  if mapHas (getGroupKey event currentLevel) grouped
  then mapKeys grouped
  else mapKeys grouped ++ [getGroupKey event currentLevel].
Proof.
  unfold bucketStep. cbv zeta. rewrite mapKeys_mapSet.
  destruct (mapHas (getGroupKey event currentLevel) grouped) eqn:E.
  - now rewrite E.
  - rewrite mapHas_mapSet_same, mapKeys_mapSet, E. reflexivity.
Qed.

Lemma mapKeys_fold currentLevel events :
  forall grouped,
    mapKeys (fold_left (bucketStep currentLevel) events grouped) =
    mapKeys grouped
    ++ firsts (mapKeys grouped)
         (map (fun e => getGroupKey e currentLevel) events).
Proof.
  induction events as [|e events IH]; intros grouped;
    cbn [fold_left map firsts].
  - now rewrite app_nil_r.
  - rewrite IH, mapKeys_bucketStep, <- mapHas_keys.
    destruct (mapHas (getGroupKey e currentLevel) grouped); [reflexivity|].
    now rewrite <- app_assoc.
Qed.

(** X13. The buckets of one grouping level, as [buildNestedGroups] fills
    them: the keys are pairwise different and stand in the order in which
    they first occur among the events; the bucket of a key holds exactly
    the events with that key, in the order of the input, and is never
    empty; and every event is in the bucket of its key. *)
Theorem groupEvents_buckets (events : list Event) (currentLevel : jsstring) :
  let keyOf e := getGroupKey e currentLevel in
  let grouped := groupEvents events currentLevel in
  NoDup (mapKeys grouped) /\
  mapKeys grouped = firsts [] (map keyOf events) /\
  (forall key bucket,
     mapGet key grouped = Some bucket ->
     bucket = filter (fun e => Str.eqb key (keyOf e)) events /\
     bucket <> []) /\
  (forall e,
     In e events ->
     exists bucket, mapGet (keyOf e) grouped = Some bucket /\ In e bucket).
Proof.
  intros keyOf grouped.
  assert (K : mapKeys grouped = firsts [] (map keyOf events)).
  { subst grouped. rewrite groupEvents_fold, mapKeys_fold. reflexivity. }
  destruct (firsts_spec (map keyOf events) [] (NoDup_nil _)) as [D M].
  cbn [app] in D, M. rewrite <- K in D, M.
  assert (G : forall key,
             orEmptyList (mapGet key grouped) =
             filter (fun e => Str.eqb key (keyOf e)) events)
    by (intros key; apply groupEvents_get).
  split; [exact D|]. split; [exact K|]. split.
  - intros key bucket E. pose proof (G key) as F. rewrite E in F.
    cbn [orEmptyList] in F. split; [exact F|].
    assert (I : In key (mapKeys grouped)).
    { unfold mapKeys. apply in_map_iff. 
      clear - E. induction grouped as [|[k v] g IH]; [discriminate E|].
      cbn [mapGet] in E. destruct (Str.eqb key k) eqn:X.
      - apply eqb_eq in X. subst k. exists (key, v). split; [reflexivity|now left].
      - destruct (IH E) as [x [X1 X2]]. exists x. split; [exact X1|now right]. }
    apply M in I as [[]|I]. apply in_map_iff in I as [e [Ek Ie]].
    intros Z. rewrite F in Z.
    assert (Y : In e (filter (fun e => Str.eqb key (keyOf e)) events)).
    { apply filter_In. split; [exact Ie|]. rewrite Ek. apply eqb_refl. }
    rewrite Z in Y. destruct Y.
  - intros e I.
    assert (Y : In e (filter (fun x => Str.eqb (keyOf e) (keyOf x)) events)).
    { apply filter_In. split; [exact I|apply eqb_refl]. }
    rewrite <- G in Y. destruct (mapGet (keyOf e) grouped) as [bucket|].
    + exists bucket. split; [reflexivity|exact Y].
    + destruct Y.
Qed.

End WithProcessor.

End BucketFacts.

(** ** Cleaned titles and client names *)

Module NameFacts.

Import Str StrFacts Regex RegexFacts Direct StripFacts PatternFacts.
Import EventProcessor ClassifierFacts.

(** [a] is a contiguous part of [s]. *)
Definition part (a s : jsstring) : Prop := exists pre post, s = pre ++ a ++ post.

Lemma part_refl (s : jsstring) : part s s.
Proof. exists [], []. now rewrite app_nil_r. Qed.

Lemma part_trans (a b c : jsstring) : part a b -> part b c -> part a c.
Proof.
  intros [p1 [q1 ->]] [p2 [q2 ->]]. exists (p2 ++ p1), (q1 ++ q2).
  now rewrite <- !app_assoc.
Qed.

Lemma part_prefix (a b : jsstring) : part a (a ++ b).
Proof. now exists [], b. Qed.

Lemma part_trim (s : jsstring) : part (trim s) s.
Proof. destruct (trim_split s) as [w1 [w2 [_ [_ E]]]]. now exists w1, w2. Qed.

Lemma part_takeWhile p (s : jsstring) : part (takeWhile p s) s.
Proof. rewrite (takeWhile_dropWhile p s) at 2. apply part_prefix. Qed.

Lemma stripTrailing_prefix tokens (s : jsstring) :
  forall prev, exists rest, s = stripTrailing tokens prev s ++ rest.
Proof.
  induction s as [|c s IH]; intros prev; cbn [stripTrailing].
  - exists []. now destruct (_ && _).
  - destruct (_ && _); [now exists (c :: s)|].
    destruct (IH (Some c)) as [rest E]. exists rest. cbn [app]. now f_equal.
Qed.

Lemma part_stripTrailing tokens prev (s : jsstring) :
  part (stripTrailing tokens prev s) s.
Proof.
  destruct (stripTrailing_prefix tokens s prev) as [rest E].
  rewrite E at 2. apply part_prefix.
Qed.

Lemma hasAnnotation_app (a b : jsstring) :
  hasAnnotation (a ++ b) = false ->
  hasAnnotation a = false /\ hasAnnotation b = false.
Proof.
  induction a as [|c a IH]; [now split|]. cbn [app hasAnnotation].
  intros E. apply orb_false_iff in E as [E1 E2].
  destruct (IH E2) as [A B]. split; [|exact B]. rewrite A, orb_false_r.
  rewrite hasClose_app in E1. destruct (ceqb c openParen); [|reflexivity].
  cbn [andb] in *. now apply orb_false_iff in E1 as [-> _].
Qed.

Lemma hasAnnotation_part (a s : jsstring) :
  part a s -> hasAnnotation s = false -> hasAnnotation a = false.
Proof.
  intros [pre [post ->]] E. apply hasAnnotation_app in E as [_ E].
  now apply hasAnnotation_app in E as [E _].
Qed.

Lemma forallb_part p (a s : jsstring) :
  part a s -> forallb p s = true -> forallb p a = true.
Proof.
  intros [pre [post ->]] E. rewrite !forallb_app in E.
  apply andb_true_iff in E as [_ E]. now apply andb_true_iff in E as [E _].
Qed.

Lemma trim_trimmed (s : jsstring) : trim (trim s) = trim s.
Proof. apply trim_idem. Qed.

(** X14. [cleanTitle] takes out every parenthetical note and the white
    space at the ends, and nothing else: the result is a contiguous part
    of the title without its notes, holds no opening parenthesis that is
    closed later, has no white space at its ends, and is left as it is by
    cleaning it again; a title without a note is only trimmed. *)
Theorem cleanTitle_clean (t : jsstring) :
  cleanTitle (Some t) = trim (stripParentheticals t) /\
  hasAnnotation (cleanTitle (Some t)) = false /\
  trim (cleanTitle (Some t)) = cleanTitle (Some t) /\
  cleanTitle (Some (cleanTitle (Some t))) = cleanTitle (Some t) /\
  (hasAnnotation t = false -> cleanTitle (Some t) = trim t).
Proof.
  rewrite !cleanTitle_strip. split; [reflexivity|].
  assert (A : hasAnnotation (trim (stripParentheticals t)) = false).
  { apply (hasAnnotation_part _ (stripParentheticals t)); [apply part_trim|].
    apply hasAnnotation_stripFrom. }
  split; [exact A|]. split; [apply trim_idem|]. split.
  - unfold stripParentheticals at 1. rewrite stripFrom_none by exact A.
    apply trim_idem.
  - intros N. unfold stripParentheticals. now rewrite stripFrom_none.
Qed.

(** X15. [isWorkEvent] reads the title without the white space around
    it: a title and its trimmed form are classified alike, a title given
    through an event object like the title itself, and a missing, empty
    or blank title is not a work event. *)
Theorem isWorkEvent_trimmed (t : jsstring) (e : Event) :
  isWorkEvent (OfTitle (trim t)) = isWorkEvent (OfTitle t) /\
  (title e = Some t -> isWorkEvent (OfEvent e) = isWorkEvent (OfTitle t)) /\
  (title e = None -> isWorkEvent (OfEvent e) = false) /\
  isWorkEvent Nullish = false /\
  (trim t = [] -> isWorkEvent (OfTitle t) = false).
Proof.
  assert (B : trim t = [] -> isWorkEvent (OfTitle t) = false).
  { intros E. unfold isWorkEvent. cbn [titleOf orEmpty].
    destruct t as [|c t]; [reflexivity|]. cbn [isBlank]. rewrite E.
    reflexivity. }
  split; [|split; [|split; [|split]]].
  - destruct (trim t) as [|c r] eqn:E.
    + now rewrite B.
    + rewrite <- E. unfold isWorkEvent. cbn [titleOf orEmpty].
      rewrite trim_idem, E. cbn [isBlank]. rewrite <- E.
      destruct t as [|x t]; [discriminate E|]. reflexivity.
  - intros E. unfold isWorkEvent. cbn [titleOf]. now rewrite E.
  - intros E. unfold isWorkEvent. cbn [titleOf]. now rewrite E.
  - reflexivity.
  - exact B.
Qed.

Section WithProcessor.

Import Exporter.

Context `{Platform} `{Processor}.

Lemma extractClientName_cases (title : jsstring) :
  let cleaned := trim (stripParentheticals title) in
  extractClientName (Some title) =
  match takeWhile notDash cleaned with
  | [] => cleaned
  | name =>
      trim (stripTrailing markerTokens None
              (trim (stripTrailing durationTokens None (trim name))))
  end.
Proof.
  intros cleaned. destruct title as [|c title]; [reflexivity|].
  unfold extractClientName. rewrite replaceAll_parenthetical. fold cleaned.
  rewrite match0_beforeDash.
  destruct (takeWhile notDash cleaned) as [|x name]; [reflexivity|].
  now rewrite replace_trailingDuration, replace_trailingMarker.
Qed.

Lemma forallb_takeWhile p (s : jsstring) : forallb p (takeWhile p s) = true.
Proof.
  induction s as [|c s IH]; [reflexivity|]. cbn [takeWhile].
  destruct (p c) eqn:E; [|reflexivity]. cbn [forallb]. now rewrite E.
Qed.

(** X16. The client name that [extractClientName] returns is a contiguous
    part of the title without its parenthetical notes; it has no white
    space at its ends and no opening parenthesis that is closed later; and
    it holds no dash, en dash or em dash unless the cleaned title begins
    with one. *)
Theorem extractClientName_part (title : jsstring) :
  let name := extractClientName (Some title) in
  part name (stripParentheticals title) /\
  trim name = name /\
  hasAnnotation name = false /\
  (takeWhile notDash (trim (stripParentheticals title)) <> [] ->
   forallb notDash name = true).
Proof.
  intros name. subst name. rewrite extractClientName_cases. cbv zeta.
  set (cleaned := trim (stripParentheticals title)).
  assert (C : part cleaned (stripParentheticals title)) by apply part_trim.
  assert (P : part
                (trim (stripTrailing markerTokens None
                         (trim (stripTrailing durationTokens None
                                  (trim (takeWhile notDash cleaned))))))
                (takeWhile notDash cleaned)).
  { eapply part_trans; [apply part_trim|].
    eapply part_trans; [apply part_stripTrailing|].
    eapply part_trans; [apply part_trim|].
    eapply part_trans; [apply part_stripTrailing|]. apply part_trim. }
  assert (R : part
                match takeWhile notDash cleaned with
                | [] => cleaned
                | _ :: _ =>
                    trim (stripTrailing markerTokens None
                            (trim (stripTrailing durationTokens None
                                     (trim (takeWhile notDash cleaned)))))
                end (stripParentheticals title)).
  { destruct (takeWhile notDash cleaned) as [|x r] eqn:E; [exact C|].
    rewrite <- E in *.
    eapply part_trans; [exact P|].
    eapply part_trans; [apply part_takeWhile|exact C]. }
  destruct (takeWhile notDash cleaned) as [|x r] eqn:E.
  - split; [exact C|]. split; [apply trim_idem|]. split.
    + apply (hasAnnotation_part _ _ C), hasAnnotation_stripFrom.
    + intros N. now destruct N.
  - rewrite <- E in *. split; [exact R|]. split; [apply trim_idem|]. split.
    + apply (hasAnnotation_part _ _ R), hasAnnotation_stripFrom.
    + intros _. apply (forallb_part _ _ _ P), forallb_takeWhile.
Qed.

End WithProcessor.

End NameFacts.

(** ** Events that share a group *)

Module SameKeyFacts.

Import Str StrFacts DateTime DateFacts Arr ArrFacts Exporter.
Import NumeralFacts LabelFacts WeekFacts SortFacts.
Local Open Scope Z_scope.

Lemma fields_of_day (a b : Z) :
  Day a = Day b ->
  YearFromTime a = YearFromTime b /\ MonthFromTime a = MonthFromTime b /\
  DateFromTime a = DateFromTime b.
Proof.
  intros E.
  assert (Y : YearFromTime a = YearFromTime b)
    by (unfold YearFromTime; now rewrite E).
  assert (W : DayWithinYear a = DayWithinYear b)
    by (unfold DayWithinYear; now rewrite E, Y).
  assert (L : InLeapYear a = InLeapYear b)
    by (unfold InLeapYear; now rewrite Y).
  assert (M : MonthFromTime a = MonthFromTime b)
    by (unfold MonthFromTime; now rewrite W, L).
  split; [exact Y|]. split; [exact M|].
  unfold DateFromTime. now rewrite W, L, M.
Qed.

Section WithProcessor.

Context `{Platform} `{Processor}.

Lemma formatDate_same (t t' : Z) :
  formatDate t = formatDate t' <-> localDay t = localDay t'.
Proof.
  split.
  - intros E. pose proof (formatDate_parts t) as P.
    rewrite E, formatDate_parts in P. injection P as Pm Pd Py.
    unfold localDay. rewrite <- (MakeDay_fields (LocalTime t)).
    rewrite <- (MakeDay_fields (LocalTime t')).
    unfold getFullYear, getMonth, getDate in *.
    rewrite Py, Pd. f_equal. lia.
  - intros E. unfold localDay in E.
    destruct (fields_of_day _ _ E) as [Y [M D]].
    unfold formatDate, getFullYear, getMonth, getDate. now rewrite Y, M, D.
Qed.

Lemma getMonthLabel_same (t t' : Z) :
  getMonthLabel t = getMonthLabel t' <->
  getFullYear t = getFullYear t' /\ getMonth t = getMonth t'.
Proof.
  split.
  - intros E. pose proof (getMonthLabel_parts t) as P.
    rewrite E, getMonthLabel_parts in P. injection P as Pm Py.
    split; [congruence|lia].
  - intros [Y M]. unfold getMonthLabel. now rewrite Y, M.
Qed.

(** X17. Two events are in the same group of a date level exactly when
    their starts are on the same local calendar day; in the same group of
    a month level exactly when their starts are in the same month of the
    same local year; and in the same group of a week level exactly when
    the weeks of their starts begin on the same local day. *)
Theorem same_group (a b : Event) :
  (getGroupKey a (lit "date") = getGroupKey b (lit "date") <->
   localDay (start a) = localDay (start b)) /\
  (getGroupKey a (lit "month") = getGroupKey b (lit "month") <->
   getFullYear (start a) = getFullYear (start b) /\
   getMonth (start a) = getMonth (start b)) /\
  (getGroupKey a (lit "week") = getGroupKey b (lit "week") <->
   localDay (getWeekStart (start a)) = localDay (getWeekStart (start b))).
Proof.
  split; [|split].
  - change (getGroupKey a (lit "date")) with (formatDate (start a)).
    change (getGroupKey b (lit "date")) with (formatDate (start b)).
    apply formatDate_same.
  - change (getGroupKey a (lit "month")) with (getMonthLabel (start a)).
    change (getGroupKey b (lit "month")) with (getMonthLabel (start b)).
    apply getMonthLabel_same.
  - change (getGroupKey a (lit "week"))
      with (lit "Week of " ++ formatDate (getWeekStart (start a))).
    change (getGroupKey b (lit "week"))
      with (lit "Week of " ++ formatDate (getWeekStart (start b))).
    generalize (getWeekStart (start a)) (getWeekStart (start b)).
    intros w w'. rewrite <- formatDate_same. split; [|now intros ->].
    apply app_inv_head.
Qed.

Hypothesis collation : Consistent localeCompare.

(** X18. The keys of client and service groups, and of any group when
    'alpha' is asked for, are put in the order of [localeCompare], whatever
    else [sortBy] says ('date' and 'count' alike), and in the reverse of
    that order for 'desc'; the order is a permutation of the keys in which
    no two adjacent keys are out of order. *)
Theorem sortGroupKeys_alphabetical (keys : list jsstring)
  (groupType : option jsstring) (sortBy sortOrder : jsstring) :
  (~ In (orEmpty groupType) [lit "date"; lit "week"; lit "month"]
   \/ sortBy = lit "alpha") ->
  let sorted := Arr.sort localeCompare keys in
  sortGroupKeys keys groupType sortBy sortOrder =
  (if Str.eqb sortOrder (lit "desc") then rev sorted else sorted) /\
  Permutation sorted keys /\
  Sorted (fun a b => localeCompare a b <= 0) sorted.
Proof.
  intros G sorted. split; [|split].
  - unfold sortGroupKeys. cbv zeta.
    replace ((Str.eqb (orEmpty groupType) (lit "date")
              || Str.eqb (orEmpty groupType) (lit "week")
              || Str.eqb (orEmpty groupType) (lit "month"))
             && negb (Str.eqb sortBy (lit "alpha"))) with false;
      [reflexivity|].
    symmetry. destruct G as [G| ->].
    + cbn [In] in G.
      destruct (Str.eqb (orEmpty groupType) (lit "date")) eqn:A;
        [apply eqb_eq in A; rewrite A in G; tauto|].
      destruct (Str.eqb (orEmpty groupType) (lit "week")) eqn:B;
        [apply eqb_eq in B; rewrite B in G; tauto|].
      destruct (Str.eqb (orEmpty groupType) (lit "month")) eqn:C;
        [apply eqb_eq in C; rewrite C in G; tauto|].
      reflexivity.
    + rewrite eqb_refl. apply andb_false_r.
  - apply sort_perm.
  - apply (sort_Sorted (cmp := localeCompare)).
    apply (consistent_total collation).
Qed.

End WithProcessor.

Lemma sortGroupKeys_alphabetical_witness :
  @sortGroupKeys Reference.platform [lit "Milo"; lit "Bella"; lit "Luna"]
    (Some (lit "client")) (lit "count") (lit "desc") =
  [lit "Milo"; lit "Luna"; lit "Bella"].
Proof.
  destruct (@sortGroupKeys_alphabetical Reference.platform
              codeUnitCompare_consistent [lit "Milo"; lit "Bella"; lit "Luna"]
              (Some (lit "client")) (lit "count") (lit "desc")) as [E _].
  - left. cbn [In orEmpty]. intros [D|[D|[D|[]]]]; discriminate D.
  - rewrite E. vm_compute. reflexivity.
Defined.

End SameKeyFacts.

(** ** Escaping HTML *)

Module HtmlFacts.

Import Str StrFacts Regex RegexFacts Utils Html.

(** What a global one-character pattern does: each occurrence of the
    character is replaced. *)
Definition substitute (c : char) (repl : jsstring) (s : jsstring) : jsstring :=
  flat_map (fun x => if ceqb x c then repl else [x]) s.

Lemma replaceAll_one (c : char) (repl s : jsstring) :
  replaceAll (one c) repl s = substitute c repl s.
Proof.
  unfold replaceAll. generalize (@None char) as prev.
  induction s as [|x s IH]; intros prev; [reflexivity|].
  cbn [replaceAllFrom substitute flat_map].
  unfold matchHere. cbn [one pat ignoreCase m]. unfold chrMatch, accept.
  rewrite (N.eqb_sym c x : ceqb c x = ceqb x c).
  destruct (ceqb x c).
  - replace (length (x :: s) - length s)%nat with 1%nat
      by (cbn [length]; lia).
    f_equal. destruct s as [|y s]; [reflexivity|].
    cbn [replaceAllFrom]. apply IH.
  - cbn [app]. f_equal. apply IH.
Qed.

(** The character reference of a character, or the character itself. *)
Definition reference (x : char) : jsstring :=
  if ceqb x amp then lit "&amp;"
  else if ceqb x lt then lit "&lt;"
  else if ceqb x gt then lit "&gt;"
  else if ceqb x quot then lit "&quot;"
  else if ceqb x apos then lit "&#039;"
  else [x].

Lemma substitute_app c repl (a b : jsstring) :
  substitute c repl (a ++ b) = substitute c repl a ++ substitute c repl b.
Proof. apply flat_map_app. Qed.

Lemma reference_steps (x : char) :
  substitute apos (lit "&#039;")
    (substitute quot (lit "&quot;")
       (substitute gt (lit "&gt;")
          (substitute lt (lit "&lt;")
             (substitute amp (lit "&amp;") [x])))) = reference x.
Proof.
  unfold reference.
  destruct (ceqb x amp) eqn:A; [apply ceqb_eq in A; now subst x|].
  destruct (ceqb x lt) eqn:L; [apply ceqb_eq in L; now subst x|].
  destruct (ceqb x gt) eqn:G; [apply ceqb_eq in G; now subst x|].
  destruct (ceqb x quot) eqn:Q; [apply ceqb_eq in Q; now subst x|].
  destruct (ceqb x apos) eqn:P; [apply ceqb_eq in P; now subst x|].
  unfold substitute. cbn [flat_map app]. rewrite A. cbn [flat_map app].
  rewrite L. cbn [flat_map app]. rewrite G. cbn [flat_map app].
  rewrite Q. cbn [flat_map app]. now rewrite P.
Qed.

Lemma escapeHtml_references (s : jsstring) :
  escapeHtml (Some s) = flat_map reference s.
Proof.
  destruct s as [|c s]; [reflexivity|]. unfold escapeHtml.
  rewrite !replaceAll_one. generalize (c :: s). clear c s. intros s.
  induction s as [|x s IH]; [reflexivity|].
  change (x :: s) with ([x] ++ s). rewrite !substitute_app, IH.
  rewrite reference_steps. reflexivity.
Qed.

Definition markup (c : char) : bool :=
  ceqb c lt || ceqb c gt || ceqb c quot || ceqb c apos.

Lemma reference_plain (x : char) : forallb (fun c => negb (markup c)) (reference x) = true.
Proof.
  unfold reference.
  destruct (ceqb x amp); [reflexivity|].
  destruct (ceqb x lt) eqn:L; [reflexivity|].
  destruct (ceqb x gt) eqn:G; [reflexivity|].
  destruct (ceqb x quot) eqn:Q; [reflexivity|].
  destruct (ceqb x apos) eqn:P; [reflexivity|].
  cbn [forallb]. unfold markup. now rewrite L, G, Q, P.
Qed.

Lemma unescape_reference (x : char) (rest : jsstring) :
  unescape (reference x ++ rest) = x :: unescape rest.
Proof.
  unfold reference, unescape.
  destruct (ceqb x amp) eqn:A; [apply ceqb_eq in A; now subst x|].
  destruct (ceqb x lt) eqn:L; [apply ceqb_eq in L; now subst x|].
  destruct (ceqb x gt) eqn:G; [apply ceqb_eq in G; now subst x|].
  destruct (ceqb x quot) eqn:Q; [apply ceqb_eq in Q; now subst x|].
  destruct (ceqb x apos) eqn:P; [apply ceqb_eq in P; now subst x|].
  cbn [app unescapeFrom]. unfold referenceAt, references.
  change (lit "&amp;") with (amp :: lit "amp;").
  change (lit "&lt;") with (amp :: lit "lt;").
  change (lit "&gt;") with (amp :: lit "gt;").
  change (lit "&quot;") with (amp :: lit "quot;").
  change (lit "&#039;") with (amp :: lit "#039;").
  cbn [find fst startsWith].
  rewrite (N.eqb_sym amp x : ceqb amp x = ceqb x amp), A. reflexivity.
Qed.

(** X19. [Utils.escapeHtml] replaces each ampersand, angle bracket,
    double quote and apostrophe by its character reference and leaves
    every other character alone, the ampersands of the references that it
    writes included.  So its output holds no angle bracket and no quote;
    the output of a concatenation is the concatenation of the outputs; and
    a reader of the five references gets the text back. *)
Theorem escapeHtml_safe (s : jsstring) :
  escapeHtml (Some s) = flat_map reference s /\
  forallb (fun c => negb (markup c)) (escapeHtml (Some s)) = true /\
  (forall s', escapeHtml (Some (s ++ s')) =
              escapeHtml (Some s) ++ escapeHtml (Some s')) /\
  unescape (escapeHtml (Some s)) = s /\
  escapeHtml None = [].
Proof.
  split; [apply escapeHtml_references|]. split; [|split; [|split]].
  - rewrite escapeHtml_references. induction s as [|x s IH]; [reflexivity|].
    cbn [flat_map]. now rewrite forallb_app, reference_plain, IH.
  - intros s'. rewrite !escapeHtml_references. apply flat_map_app.
  - rewrite escapeHtml_references. induction s as [|x s IH]; [reflexivity|].
    cbn [flat_map]. now rewrite unescape_reference, IH.
  - reflexivity.
Qed.

End HtmlFacts.

(** ** What makes a work event *)

Module WorkFacts.

Import Str StrFacts Regex RegexFacts Direct StripFacts PatternFacts.
Import EventProcessor ClassifierFacts.

(** [exec] finds its match where the pattern matches. *)
Lemma execFrom_matchHere p : forall s prev pre mid post,
  execFrom p prev s = Some (pre, mid, post) ->
  s = pre ++ mid ++ post /\
  matchHere p (last (map Some pre) prev) (mid ++ post) = Some post.
Proof.
  induction s as [|x s IH]; intros prev pre mid post; cbn [execFrom].
  - destruct (matchHere p prev []) as [rest|] eqn:E; [|discriminate].
    intros [= <- <- <-]. pose proof (matchHere_suffix _ _ _ E) as [u U].
    symmetry in U. apply app_eq_nil in U as [_ ->]. now split.
  - destruct (matchHere p prev (x :: s)) as [rest|] eqn:E.
    + intros [= <- <- <-].
      pose proof (isSuffix_firstn (matchHere_suffix _ _ _ E)) as F.
      split; [exact F|]. cbn [map last].
      change (matchHere p prev
                (firstn (length (x :: s) - length rest) (x :: s) ++ rest)
              = Some rest).
      rewrite <- F. exact E.
    + destruct (execFrom p (Some x) s) as [[[pre' mid'] post']|] eqn:X;
        [|discriminate].
      intros [= <- <- <-]. destruct (IH _ _ _ _ X) as [S M].
      cbn [app map]. rewrite last_cons. split; [now f_equal|exact M].
Qed.

(** [w] occurs in [s], up to the case of ASCII letters. *)
Definition occurs (w s : jsstring) : Prop :=
  exists pre post, s = pre ++ post /\ startsWithNoCase w post = true.

(** A pattern all of whose matches begin with one of the [tokens]. *)
Definition beginsWith (p : pattern) (tokens : list jsstring) : Prop :=
  forall prev s rest,
    matchHere p prev s = Some rest ->
    exists w, In w tokens /\ startsWithNoCase w s = true.

Lemma test_occurs p tokens s :
  beginsWith p tokens -> test p s = true ->
  exists w, In w tokens /\ occurs w s.
Proof.
  intros B T. unfold test, exec in T.
  destruct (execFrom p None s) as [[[pre mid] post]|] eqn:E; [|discriminate].
  apply execFrom_matchHere in E as [S M].
  destruct (B _ _ _ M) as [w [I W]]. exists w. split; [exact I|].
  now exists pre, (mid ++ post).
Qed.

(** None of the alternatives that begin with the words [ws] matches when
    none of the words begins the input. *)
Ltac try_word w :=
  rewrite m_Word;
  match goal with
  | |- context [startsWithNoCase ?v ?s] =>
      destruct (startsWithNoCase v s) eqn:?;
        [intros _; exists v; split; [cbn [In]; tauto|assumption]|]
  end.

Lemma meetAndGreet_begins :
  beginsWith meetAndGreet [lit "MG"; lit "M&G"; lit "Meet"].
Proof.
  intros prev s rest. unfold matchHere, meetAndGreet. cbn [pat ignoreCase].
  rewrite m_seqs_cons. cbn [m]. destruct (atWordBoundary prev s); [|discriminate].
  rewrite m_seqs_cons, m_alts. cbn [fold_right]. unfold W.
  try_word (lit "MG"). try_word (lit "M&G").
  rewrite m_seqs_cons. try_word (lit "Meet"). discriminate.
Qed.

Lemma minutesSuffix_begins :
  beginsWith minutesSuffix durationTokens.
Proof.
  intros prev s rest. unfold matchHere, minutesSuffix. cbn [pat ignoreCase].
  rewrite m_seqs_cons. cbn [m]. destruct (atWordBoundary prev s); [|discriminate].
  rewrite m_seqs_cons, m_alts. cbn [fold_right]. unfold W, durationTokens.
  try_word (lit "15"). try_word (lit "20"). try_word (lit "30").
  try_word (lit "45"). try_word (lit "60"). discriminate.
Qed.

Lemma houseSitSuffix_begins :
  beginsWith houseSitSuffix [lit "HS"; lit "Housesit"].
Proof.
  intros prev s rest. unfold matchHere, houseSitSuffix. cbn [pat ignoreCase].
  rewrite m_seqs_cons. cbn [m]. destruct (atWordBoundary prev s); [|discriminate].
  rewrite m_seqs_cons, m_alts. cbn [fold_right]. unfold W.
  try_word (lit "HS"). try_word (lit "Housesit"). discriminate.
Qed.

Lemma nailTrim_begins : beginsWith nailTrim [lit "nail"].
Proof.
  intros prev s rest. unfold matchHere, nailTrim. cbn [pat ignoreCase].
  rewrite m_seqs_cons. cbn [m]. destruct (atWordBoundary prev s); [|discriminate].
  rewrite m_seqs_cons. unfold W. try_word (lit "nail"). discriminate.
Qed.

(** The words one of which every work title holds. *)
Definition workTokens : list jsstring :=
  [lit "MG"; lit "M&G"; lit "Meet"] ++ durationTokens
  ++ [lit "HS"; lit "Housesit"] ++ [lit "nail"].

(** The words that make a work title when they end it. *)
Definition closingTokens : list jsstring :=
  durationTokens ++ [lit "HS"; lit "Housesit"].

Lemma closing_matches (prev : option char) (token : jsstring) :
  In token closingTokens -> atWordBoundary prev token = true ->
  (if existsb (Str.eqb token) durationTokens
   then matchHere minutesSuffix prev token
   else matchHere houseSitSuffix prev token) = Some [].
Proof.
  intros I B. unfold closingTokens, durationTokens in I. cbn [app In] in I.
  repeat (destruct I as [<-|I];
          [unfold matchHere, minutesSuffix, houseSitSuffix;
           cbn [existsb Str.eqb pat ignoreCase];
           match goal with
           | |- (if ?c then _ else _) = _ =>
               let v := eval vm_compute in c in change c with v; cbv iota
           end;
           rewrite m_seqs_cons; cbn [m]; rewrite B; vm_compute; reflexivity|]).
  contradiction.
Qed.

Lemma matchesWork_closing (pre token : jsstring) :
  In token closingTokens ->
  atWordBoundary (last (map Some pre) None) token = true ->
  matchesWork (pre ++ token) = true.
Proof.
  intros I B. pose proof (closing_matches _ _ I B) as M.
  unfold matchesWork.
  destruct (test meetAndGreet (pre ++ token)); [reflexivity|].
  destruct (existsb (Str.eqb token) durationTokens).
  - assert (T : test minutesSuffix (pre ++ token) = true).
    { unfold test, exec.
      pose proof (execFrom_found minutesSuffix pre None token) as F.
      destruct (execFrom minutesSuffix None (pre ++ token)); [reflexivity|].
      exfalso. apply F; [now rewrite M|reflexivity]. }
    now rewrite T.
  - destruct (test minutesSuffix (pre ++ token)); [reflexivity|].
    assert (T : test houseSitSuffix (pre ++ token) = true).
    { unfold test, exec.
      pose proof (execFrom_found houseSitSuffix pre None token) as F.
      destruct (execFrom houseSitSuffix None (pre ++ token)); [reflexivity|].
      exfalso. apply F; [now rewrite M|reflexivity]. }
    now rewrite T.
Qed.

(** X20. What [isWorkEvent] asks of a title.  A work event has a cleaned
    title in which one of the words MG, M&G, Meet, 15, 20, 30, 45, 60, HS,
    Housesit, nail occurs (up to case): no title without one of them is a
    work event.  And a title outside the personal rule set whose cleaned
    form ends in a duration token or in HS or Housesit, standing as a word
    of its own, is a work event. *)
Theorem isWorkEvent_tokens (t : jsstring) :
  (isWorkEvent (OfTitle t) = true ->
   exists token,
     In token workTokens /\ occurs token (cleanTitle (Some (trim t)))) /\
  (forall pre token,
     isDefinitelyPersonal (Some t) = false ->
     cleanTitle (Some t) = pre ++ token ->
     In token closingTokens ->
     atWordBoundary (last (map Some pre) None) token = true ->
     isWorkEvent (OfTitle t) = true).
Proof.
  split.
  - unfold isWorkEvent. cbn [titleOf orEmpty].
    destruct (isBlank (Some t)); [discriminate|].
    destruct (isDefinitelyPersonal (Some (trim t))); [discriminate|].
    set (cleaned := cleanTitle (Some (trim t))).
    assert (R : forall p tokens,
               beginsWith p tokens -> incl tokens workTokens ->
               test p cleaned = true ->
               exists token, In token workTokens /\ occurs token cleaned).
    { intros p tokens B S T.
      destruct (test_occurs _ _ _ B T) as [w [I O]].
      exists w. split; [now apply S|exact O]. }
    destruct (test meetAndGreet cleaned) eqn:T1.
    { intros _. apply (R _ _ meetAndGreet_begins); [|exact T1].
      intros w I. unfold workTokens. apply in_or_app. now left. }
    destruct (test minutesSuffix cleaned) eqn:T2.
    { intros _. apply (R _ _ minutesSuffix_begins); [|exact T2].
      intros w I. unfold workTokens. apply in_or_app. right.
      apply in_or_app. now left. }
    destruct (test houseSitSuffix cleaned) eqn:T3.
    { intros _. apply (R _ _ houseSitSuffix_begins); [|exact T3].
      intros w I. unfold workTokens. apply in_or_app. right.
      apply in_or_app. right. apply in_or_app. now left. }
    destruct (test nailTrim cleaned) eqn:T4; [|discriminate].
    intros _. apply (R _ _ nailTrim_begins); [|exact T4].
    intros w I. unfold workTokens. apply in_or_app. right.
    apply in_or_app. right. apply in_or_app. now right.
  - intros pre token P C I B.
    rewrite isWorkEvent_not_personal by exact P.
    rewrite cleanTitle_strip in C. rewrite C.
    now apply matchesWork_closing.
Qed.

End WorkFacts.

(** ** Arrays of records that have an identifier *)

Module StoreFacts.

Import StrFacts ArrIndex.

Section Keyed.

Context {A : Type} {key : A -> jsstring}.

Definition hasKey (i : jsstring) (t : A) : bool := Str.eqb (key t) i.

Lemma find_absent (l : list A) (i : jsstring) :
  find (hasKey i) l = None <-> ~ In i (map key l).
Proof.
  induction l as [|t l IH]; cbn [find map In]; [tauto|].
  unfold hasKey at 1. destruct (Str.eqb (key t) i) eqn:E.
  - apply eqb_eq in E. split; [discriminate|]. intros N. exfalso. tauto.
  - assert (key t <> i) by (intros C; apply eqb_eq in C; congruence). tauto.
Qed.

Lemma find_hasKey (l : list A) (i : jsstring) (t : A) :
  find (hasKey i) l = Some t -> In t l /\ key t = i.
Proof.
  intros F. apply find_some in F. destruct F as [I E].
  split; [exact I|]. now apply eqb_eq.
Qed.

(** Looking up one identifier in a list from which another was removed. *)
Lemma find_filter_other (l : list A) (i j : jsstring) :
  j <> i ->
  find (hasKey j) (filter (fun t => negb (Str.eqb (key t) i)) l) =
  find (hasKey j) l.
Proof.
  intros N. induction l as [|t l IH]; [reflexivity|]. cbn [filter find].
  destruct (Str.eqb (key t) i) eqn:E; cbn [negb].
  - apply eqb_eq in E. unfold hasKey at 2.
    destruct (Str.eqb (key t) j) eqn:E'; [|exact IH].
    apply eqb_eq in E'. congruence.
  - cbn [find]. now rewrite IH.
Qed.

Lemma find_filter_same (l : list A) (i : jsstring) :
  find (hasKey i) (filter (fun t => negb (Str.eqb (key t) i)) l) = None.
Proof.
  apply find_absent. intros I. apply in_map_iff in I.
  destruct I as [t [E I]]. apply filter_In in I. destruct I as [_ I].
  rewrite E, eqb_refl in I. discriminate.
Qed.

Lemma filter_absent (l : list A) (i : jsstring) :
  ~ In i (map key l) -> filter (fun t => negb (Str.eqb (key t) i)) l = l.
Proof.
  induction l as [|t l IH]; [reflexivity|]. cbn [map In filter]. intros N.
  destruct (Str.eqb (key t) i) eqn:E.
  - apply eqb_eq in E. tauto.
  - cbn [negb]. rewrite IH; tauto.
Qed.

Lemma find_app_absent (l : list A) (i : jsstring) (t : A) :
  ~ In i (map key l) -> key t = i -> find (hasKey i) (l ++ [t]) = Some t.
Proof.
  intros N E. induction l as [|x l IH]; cbn [app find].
  - unfold hasKey. now rewrite E, eqb_refl.
  - cbn [map In] in N. unfold hasKey at 1.
    destruct (Str.eqb (key x) i) eqn:E'; [apply eqb_eq in E'; tauto|].
    apply IH. tauto.
Qed.

Lemma find_app_other (l : list A) (j : jsstring) (t : A) :
  key t <> j -> find (hasKey j) (l ++ [t]) = find (hasKey j) l.
Proof.
  intros N. induction l as [|x l IH]; cbn [app find].
  - unfold hasKey. destruct (Str.eqb (key t) j) eqn:E; [|reflexivity].
    apply eqb_eq in E. tauto.
  - now rewrite IH.
Qed.

Lemma NoDup_app_one (l : list jsstring) (i : jsstring) :
  NoDup l -> ~ In i l -> NoDup (l ++ [i]).
Proof.
  intros D N. apply NoDup_app; [exact D|repeat constructor; intros []|].
  intros x I [<-|[]]. tauto.
Qed.

(** With identifiers that are pairwise different, removing an identifier
    removes the one template that has it. *)
Lemma filter_unique (l : list A) (i : jsstring) (t : A) :
  NoDup (map key l) -> find (hasKey i) l = Some t ->
  exists before after,
    l = before ++ t :: after /\
    filter (fun t => negb (Str.eqb (key t) i)) l = before ++ after.
Proof.
  induction l as [|x l IH]; [discriminate|]. cbn [map find filter].
  intros D F. inversion D as [|? ? N D']; subst.
  unfold hasKey at 1 in F. destruct (Str.eqb (key x) i) eqn:E.
  - injection F as ->. apply eqb_eq in E. subst i. cbn [negb].
    exists [], l. split; [reflexivity|]. cbn [app]. now apply filter_absent.
  - cbn [negb]. destruct (IH D' F) as [b [a [L R]]].
    exists (x :: b), a. cbn [app]. now rewrite <- L, R.
Qed.

Lemma findIndex_absent (l : list A) (i : jsstring) :
  findIndex (hasKey i) l = None <-> ~ In i (map key l).
Proof.
  induction l as [|t l IH]; cbn [findIndex map In]; [tauto|].
  unfold hasKey at 1. destruct (Str.eqb (key t) i) eqn:E.
  - apply eqb_eq in E. split; [discriminate|]. tauto.
  - assert (key t <> i) by (intros C; apply eqb_eq in C; congruence).
    destruct (findIndex (hasKey i) l); cbn [option_map] in *.
    + split; [discriminate|]. intros M. exfalso. apply M. right.
      apply Decidable.not_not; [|intros C; now apply IH in C].
      apply ListDec.In_decidable. intros a b.
      destruct (Str.eqb a b) eqn:Q; [left; now apply eqb_eq|right].
      intros C. apply eqb_eq in C. congruence.
    + split; [|reflexivity]. intros _. destruct IH as [IH _].
      specialize (IH eq_refl). tauto.
Qed.

(** Replacing the first template that has an identifier by one with the
    same identifier. *)
Lemma assignAt_first (l : list A) (i : jsstring) (index : nat)
  (f : A -> A) :
  (forall t, key t = i -> key (f t) = i) ->
  findIndex (hasKey i) l = Some index ->
  map key (assignAt index f l) = map key l /\
  length (assignAt index f l) = length l /\
  (exists t, find (hasKey i) l = Some t /\
             nth_error (assignAt index f l) index = Some (f t) /\
             find (hasKey i) (assignAt index f l) = Some (f t)) /\
  (forall j, j <> i ->
             find (hasKey j) (assignAt index f l) = find (hasKey j) l).
Proof.
  intros U. revert index. induction l as [|x l IH]; intros index;
    [discriminate|].
  cbn [findIndex find]. unfold hasKey at 1 3.
  destruct (Str.eqb (key x) i) eqn:E.
  - intros [= <-]. cbn [assignAt map length nth_error find].
    apply eqb_eq in E. pose proof (U x E) as K.
    split; [now rewrite K, E|].
    split; [reflexivity|]. split.
    + exists x. split; [reflexivity|]. split; [reflexivity|].
      unfold hasKey. now rewrite K, eqb_refl.
    + intros j J. unfold hasKey. rewrite K, E.
      destruct (Str.eqb i j) eqn:Q; [|reflexivity].
      apply eqb_eq in Q. congruence.
  - destruct (findIndex (hasKey i) l) as [n|] eqn:F; [|discriminate].
    intros [= <-]. destruct (IH n eq_refl) as [P [B [[t [C [C' C'']]] D]]].
    cbn [assignAt map length nth_error find].
    split; [now rewrite P|]. split; [now rewrite B|]. split.
    + exists t. split; [exact C|]. split; [exact C'|].
      unfold hasKey at 1. now rewrite E.
    + intros j J. now rewrite D.
Qed.

Lemma findIndex_find (l : list A) (i : jsstring) (t : A) :
  find (hasKey i) l = Some t -> exists index, findIndex (hasKey i) l = Some index.
Proof.
  intros F. destruct (findIndex (hasKey i) l) as [n|] eqn:E; [now exists n|].
  apply findIndex_absent in E. apply find_absent in E. congruence.
Qed.

Lemma find_ext (p q : A -> bool) (l : list A) :
  (forall x, p x = q x) -> find p l = find q l.
Proof.
  intros E. induction l as [|x l IH]; [reflexivity|].
  cbn [find]. now rewrite E, IH.
Qed.

Lemma findIndex_ext (p q : A -> bool) (l : list A) :
  (forall x, p x = q x) -> findIndex p l = findIndex q l.
Proof.
  intros E. induction l as [|x l IH]; [reflexivity|].
  cbn [findIndex]. now rewrite E, IH.
Qed.

Lemma find_map {B : Type} (f : A -> B) (p : B -> bool) (l : list A) :
  find p (map f l) = option_map f (find (fun x => p (f x)) l).
Proof.
  induction l as [|x l IH]; [reflexivity|]. cbn [map find].
  destruct (p (f x)); [reflexivity|exact IH].
Qed.

End Keyed.

End StoreFacts.

(** ** The template store *)

Module TemplateFacts.

Import StrFacts ArrIndex StoreFacts Templates.

Local Open Scope Z_scope.

Definition ids (mgr : Manager) : list jsstring := map id (templates mgr).

#[local] Abbreviation hasId := (hasKey (key := id)).

Lemma getTemplateById_find (mgr : Manager) (i : jsstring) :
  getTemplateById mgr i = find (hasId i) (templates mgr).
Proof. reflexivity. Qed.

(** X21. What [deleteTemplate] answers and does.  It reports a missing
    template exactly when no template has the identifier, and refuses
    exactly when the first template with the identifier is a default one;
    otherwise the manager no longer knows the identifier, finds under every
    other identifier what it found before, and has written the remaining
    templates to storage. *)
Theorem deleteTemplate_outcome (i : jsstring) (mgr : Manager) :
  match deleteTemplate i mgr with
  | inl (TemplateNotFound j) => j = i /\ ~ In i (ids mgr)
  | inl CannotDeleteDefault =>
      exists t, getTemplateById mgr i = Some t /\ isDefault t = true
  | inr mgr' =>
      (exists t, getTemplateById mgr i = Some t /\ isDefault t = false) /\
      getTemplateById mgr' i = None /\
      ~ In i (ids mgr') /\
      (forall j, j <> i -> getTemplateById mgr' j = getTemplateById mgr j) /\
      storage mgr' = Some (templates mgr', TEMPLATES_VERSION)
  end.
Proof.
  unfold deleteTemplate.
  destruct (getTemplateById mgr i) as [t|] eqn:F.
  - destruct (isDefault t) eqn:D; [now exists t|].
    cbn [saveTemplates templates storage getTemplateById].
    split; [now exists t|]. split; [apply find_filter_same|].
    split; [apply find_absent, find_filter_same|].
    split; [|reflexivity].
    intros j N. unfold getTemplateById. now apply find_filter_other.
  - split; [reflexivity|]. now apply find_absent.
Qed.

(** X22. In a store whose identifiers are pairwise different, a successful
    [deleteTemplate] removes exactly one template, which has the identifier
    and is not a default one: every default template stays, the other
    templates keep their order, and the identifiers stay pairwise
    different. *)
Theorem deleteTemplate_keeps_defaults (i : jsstring) (mgr mgr' : Manager) :
  NoDup (ids mgr) ->
  deleteTemplate i mgr = inr mgr' ->
  exists before t after,
    templates mgr = before ++ t :: after /\
    templates mgr' = before ++ after /\
    id t = i /\ isDefault t = false /\
    filter isDefault (templates mgr') = filter isDefault (templates mgr) /\
    NoDup (ids mgr').
Proof.
  intros D. unfold deleteTemplate.
  destruct (getTemplateById mgr i) as [t|] eqn:F; [|discriminate].
  destruct (isDefault t) eqn:B; [discriminate|].
  intros E. injection E as <-. cbn [saveTemplates templates].
  destruct (filter_unique _ _ _ D F) as [b [a [L R]]].
  exists b, t, a. split; [exact L|]. split; [exact R|].
  split; [apply (find_hasKey _ _ _ F)|]. split; [exact B|].
  split.
  - rewrite R, L, !filter_app. cbn [filter]. now rewrite B.
  - unfold ids in *. cbn [saveTemplates templates]. rewrite R, map_app.
    rewrite L, map_app in D. cbn [map] in D.
    now apply NoDup_remove_1 in D.
Qed.

(** X23. [createTemplate] with an identifier that the store does not have
    yet: the manager finds the new template under it and what it found
    before under every other identifier; the template is not a default
    one, so deleting it succeeds and gives back the templates there were;
    identifiers that were pairwise different stay so. *)
Theorem createTemplate_fresh (newId now : jsstring)
  (templateData : TemplateData) (mgr : Manager) :
  ~ In newId (ids mgr) ->
  let template := fst (createTemplate newId now templateData mgr) in
  let mgr' := snd (createTemplate newId now templateData mgr) in
  templates mgr' = templates mgr ++ [template] /\
  getTemplateById mgr' newId = Some template /\
  (forall j, j <> newId -> getTemplateById mgr' j = getTemplateById mgr j) /\
  (NoDup (ids mgr) -> NoDup (ids mgr')) /\
  storage mgr' = Some (templates mgr', TEMPLATES_VERSION) /\
  exists mgr'', deleteTemplate newId mgr' = inr mgr'' /\
                templates mgr'' = templates mgr.
Proof.
  intros N template mgr'.
  assert (I : id template = newId) by reflexivity.
  assert (T : templates mgr' = templates mgr ++ [template]) by reflexivity.
  assert (F : getTemplateById mgr' newId = Some template).
  { unfold getTemplateById. rewrite T. now apply find_app_absent. }
  split; [exact T|]. split; [exact F|]. split; [|split; [|split]].
  - intros j J. rewrite !getTemplateById_find, T.
    apply find_app_other. now rewrite I.
  - intros D. unfold ids. rewrite T, map_app. cbn [map]. rewrite I.
    now apply NoDup_app_one.
  - reflexivity.
  - unfold deleteTemplate. rewrite F.
    change (isDefault template) with false. cbv iota.
    eexists. split; [reflexivity|]. cbn [saveTemplates templates].
    rewrite T, filter_app. cbn [filter]. rewrite I, eqb_refl. cbn [negb].
    rewrite app_nil_r. now apply filter_absent.
Qed.

(** X24. [duplicateTemplate] reports a missing template exactly when no
    template has the identifier.  Otherwise, with a new identifier that the
    store does not have yet, the copy is appended and found under that
    identifier; it differs from the original in the identifier, the name
    (with " (Copy)" appended), the time of creation, and in that it is
    never a default template, so that the copy of a default template can be
    deleted, which gives back the templates there were; the original is
    still found under its own identifier. *)
Theorem duplicateTemplate_copy (newId now i : jsstring) (mgr : Manager) :
  ~ In newId (ids mgr) ->
  match duplicateTemplate newId now i mgr with
  | inl e => e = TemplateNotFound i /\ ~ In i (ids mgr)
  | inr (duplicate, mgr') =>
      exists original,
        getTemplateById mgr i = Some original /\
        getTemplateById mgr' i = Some original /\
        templates mgr' = templates mgr ++ [duplicate] /\
        getTemplateById mgr' newId = Some duplicate /\
        id duplicate = newId /\
        name duplicate = Some (copyName (name original)) /\
        isDefault duplicate = false /\
        (type duplicate, duration duplicate, travelBuffer duplicate,
         includeTravel duplicate, defaultStartTime duplicate,
         defaultEndTime duplicate, icon duplicate, color duplicate,
         defaultNotes duplicate) =
        (type original, duration original, travelBuffer original,
         includeTravel original, defaultStartTime original,
         defaultEndTime original, icon original, color original,
         defaultNotes original) /\
        exists mgr'', deleteTemplate newId mgr' = inr mgr'' /\
                      templates mgr'' = templates mgr
  end.
Proof.
  intros N. unfold duplicateTemplate.
  destruct (getTemplateById mgr i) as [original|] eqn:F;
    [|split; [reflexivity|now apply find_absent]].
  set (duplicate := Build_Template newId _ _ _ _ _ _ _ _ _ _ _ _ _).
  cbn [saveTemplates templates storage].
  assert (I : id duplicate = newId) by reflexivity.
  assert (G : find (hasId newId) (templates mgr ++ [duplicate])
              = Some duplicate) by now apply find_app_absent.
  exists original. split; [reflexivity|]. split.
  { rewrite getTemplateById_find. cbn [saveTemplates templates].
    rewrite find_app_other; [exact F|].
    rewrite I. intros ->. apply N. unfold ids.
    destruct (find_hasKey _ _ _ F) as [M <-]. now apply in_map. }
  split; [reflexivity|]. split; [exact G|].
  do 4 (split; [reflexivity|]).
  unfold deleteTemplate. rewrite getTemplateById_find.
  cbn [saveTemplates templates]. rewrite G.
  change (isDefault duplicate) with false. cbv iota.
  eexists. split; [reflexivity|]. cbn [saveTemplates templates].
  rewrite filter_app. cbn [filter]. rewrite I, eqb_refl. cbn [negb].
  rewrite app_nil_r. now apply filter_absent.
Qed.

(** X25. [updateTemplate] reports a missing template exactly when no
    template has the identifier.  Otherwise it rewrites the first template
    with the identifier in place: the store keeps its identifiers, in
    their order, whatever identifier the updates carry; the result is
    the template that the manager now finds under the identifier, with
    the time of the update; and the manager finds under every other
    identifier what it found before. *)
Theorem updateTemplate_in_place (now i : jsstring) (updates : Updates)
  (mgr : Manager) :
  match updateTemplate now i updates mgr with
  | inl e => e = TemplateNotFound i /\ ~ In i (ids mgr)
  | inr (result, mgr') =>
      ids mgr' = ids mgr /\
      (exists template,
         result = Some template /\
         getTemplateById mgr' i = Some template /\
         id template = i /\ updatedAt template = Some now /\
         exists old,
           getTemplateById mgr i = Some old /\
           name template = spread (name old) (setName updates) /\
           duration template = spread (duration old) (setDuration updates) /\
           isDefault template =
             spread (isDefault old) (setIsDefault updates)) /\
      (forall j, j <> i -> getTemplateById mgr' j = getTemplateById mgr j) /\
      storage mgr' = Some (templates mgr', TEMPLATES_VERSION)
  end.
Proof.
  unfold updateTemplate.
  change (fun t => Str.eqb (id t) i) with (hasId i).
  destruct (findIndex (hasId i) (templates mgr)) as [index|] eqn:F;
    [|split; [reflexivity|now apply findIndex_absent]].
  cbv zeta. cbn [saveTemplates templates storage].
  match goal with
  | |- context [assignAt index ?f _] => set (merged := f)
  end.
  destruct (assignAt_first (templates mgr) i index merged
              (fun t _ => eq_refl) F) as [A [_ [[old [C [C' C'']]] D]]].
  split; [exact A|]. split; [|split; [exact D|reflexivity]].
  exists (merged old). split; [exact C'|]. split; [exact C''|].
  split; [reflexivity|]. split; [reflexivity|].
  exists old. split; [exact C|]. repeat split.
Qed.

(** The data that [validateTemplate] accepts. *)
Definition acceptable (templateData : TemplateData) : Prop :=
  (exists n, dataName templateData = Some n /\ trim n <> []) /\
  (exists d, dataDuration templateData = Some d /\ 0 < d) /\
  (forall b, dataTravelBuffer templateData = Some b -> 0 <= b).

Lemma validateTemplate_valid (templateData : TemplateData) :
  fst (validateTemplate templateData) = true <-> acceptable templateData.
Proof.
  unfold validateTemplate, acceptable.
  destruct templateData as [n ? ? d ? ? ? b ? ?]. cbn [dataName dataDuration dataTravelBuffer].
  assert (TN : trim [] = []) by reflexivity.
  split.
  - intros V.
    destruct n as [[|c r]|]; cbn [app] in V;
      try (destruct d as [[| |]|], b as [[| |]|]; cbn in V; discriminate V).
    destruct (trim (c :: r)) as [|c' r'] eqn:T;
      [destruct d as [[| |]|], b as [[| |]|]; cbn in V; discriminate V|].
    split; [exists (c :: r); split; [reflexivity|]; now rewrite T|].
    destruct d as [[|d|d]|];
      try (destruct b as [[| |]|]; cbn in V; discriminate V).
    split; [exists (Z.pos d); split; [reflexivity|lia]|].
    intros b' [= ->]. destruct b' as [| |]; [lia|lia|]. cbn in V. discriminate V.
  - intros [[n' [[= ->] T]] [[d' [[= ->] D]] B]].
    destruct n' as [|c r]; [now rewrite TN in T|].
    destruct (trim (c :: r)) as [|c' r']; [congruence|].
    destruct d' as [|d'|d']; try lia. cbn [Z.leb Z.compare app].
    destruct b as [[|b'|b']|]; try reflexivity.
    specialize (B _ eq_refl). lia.
Qed.

(** X26. [validateTemplate] accepts the data exactly when the name is not
    blank, the duration is present and positive and the travel buffer, if
    present, is not negative; the list of messages is empty exactly then.
    A template created from accepted data has that name and duration and a
    positive travel buffer: a buffer of 0, although accepted, is stored
    as 15, like a missing one. *)
Theorem createTemplate_valid (newId now : jsstring)
  (templateData : TemplateData) (mgr : Manager) :
  fst (validateTemplate templateData) = true ->
  let template := fst (createTemplate newId now templateData mgr) in
  acceptable templateData /\
  snd (validateTemplate templateData) = [] /\
  (exists n, name template = Some n /\ trim n <> []) /\
  dataDuration templateData = Some (duration template) /\
  0 < duration template /\
  0 < travelBuffer template /\
  (dataTravelBuffer templateData = Some 0 \/
   dataTravelBuffer templateData = None -> travelBuffer template = 15).
Proof.
  intros V template.
  assert (A := proj1 (validateTemplate_valid templateData) V).
  split; [exact A|]. split.
  { unfold validateTemplate in *. cbn [fst snd] in *.
    match goal with
    | V : match ?e with [] => true | _ :: _ => false end = true |- ?e' = [] =>
        change e' with e; destruct e; [reflexivity|discriminate V]
    end. }
  destruct A as [[n [N T]] [[d [D P]] B]].
  subst template. cbn [createTemplate fst name duration travelBuffer].
  rewrite D. split; [now exists n|].
  assert (Q : orNumber (Some d) 30 = d) by (destruct d; [lia|reflexivity..]).
  rewrite Q. split; [reflexivity|]. split; [exact P|]. split.
  - destruct (dataTravelBuffer templateData) as [b|]; [|reflexivity].
    specialize (B _ eq_refl). destruct b; cbn [orNumber]; lia.
  - intros [-> | ->]; reflexivity.
Qed.

(** A store with a default and a custom template. *)
Definition sample : Manager :=
  let template (i n : string) (d : bool) := {|
    id := lit i; name := Some (lit n); icon := calendarIcon;
    type := lit "dropin"; duration := 30; defaultStartTime := None;
    defaultEndTime := None; includeTravel := false; travelBuffer := 15;
    defaultNotes := []; color := lit "#06B6D4"; isDefault := d;
    createdAt := None; updatedAt := None |} in
  {| templates := [template "tpl_1"%string "30-Minute Drop-in"%string true;
                   template "tpl_2"%string "Evening visit"%string false];
     storage := None |}.

Definition sampleData : TemplateData := {|
  dataName := Some (lit "Puppy visit"); dataIcon := None; dataType := None;
  dataDuration := Some 45; dataDefaultStartTime := None;
  dataDefaultEndTime := None; dataIncludeTravel := None;
  dataTravelBuffer := Some 0; dataDefaultNotes := None; dataColor := None |}.

Lemma deleteTemplate_keeps_defaults_witness :
  exists mgr',
    deleteTemplate (lit "tpl_2") sample = inr mgr' /\
    filter isDefault (templates mgr') = filter isDefault (templates sample).
Proof.
  assert (D : NoDup (ids sample)).
  { repeat constructor; cbn [In]; intros C;
      repeat destruct C as [C|C]; try discriminate C; exact C. }
  eexists. split; [reflexivity|].
  destruct (deleteTemplate_keeps_defaults (lit "tpl_2") sample _ D eq_refl)
    as [b [t [a [_ [_ [_ [_ [K _]]]]]]]].
  exact K.
Defined.

Lemma createTemplate_fresh_witness :
  getTemplateById
    (snd (createTemplate (lit "tpl_3") (lit "2025-11-05T10:00:00.000Z")
            sampleData sample)) (lit "tpl_3") =
  Some (fst (createTemplate (lit "tpl_3") (lit "2025-11-05T10:00:00.000Z")
               sampleData sample)).
Proof.
  assert (N : ~ In (lit "tpl_3") (ids sample)).
  { cbn [In ids sample templates map id]. intros C.
    repeat destruct C as [C|C]; try discriminate C; exact C. }
  exact (proj1 (proj2 (createTemplate_fresh (lit "tpl_3")
                         (lit "2025-11-05T10:00:00.000Z") sampleData sample N))).
Defined.

Lemma duplicateTemplate_copy_witness :
  match duplicateTemplate (lit "tpl_3") (lit "2025-11-05T10:00:00.000Z")
          (lit "tpl_1") sample with
  | inl _ => False
  | inr (duplicate, mgr') =>
      name duplicate = Some (lit "30-Minute Drop-in (Copy)") /\
      isDefault duplicate = false /\
      exists mgr'', deleteTemplate (lit "tpl_3") mgr' = inr mgr'' /\
                    templates mgr'' = templates sample
  end.
Proof.
  assert (N : ~ In (lit "tpl_3") (ids sample)).
  { cbn [In ids sample templates map id]. intros C.
    repeat destruct C as [C|C]; try discriminate C; exact C. }
  pose proof (duplicateTemplate_copy (lit "tpl_3")
                (lit "2025-11-05T10:00:00.000Z") (lit "tpl_1") sample N) as H.
  destruct (duplicateTemplate (lit "tpl_3") (lit "2025-11-05T10:00:00.000Z")
              (lit "tpl_1") sample) as [e|[duplicate mgr']] eqn:E;
    [discriminate E|].
  injection E as <- <-.
  destruct H as [original [_ [_ [_ [_ [_ [_ [_ [_ R]]]]]]]]].
  split; [reflexivity|]. split; [reflexivity|]. exact R.
Defined.

Lemma createTemplate_valid_witness :
  travelBuffer (fst (createTemplate (lit "tpl_3")
                       (lit "2025-11-05T10:00:00.000Z") sampleData sample))
  = 15.
Proof.
  assert (V : fst (validateTemplate sampleData) = true) by reflexivity.
  destruct (createTemplate_valid (lit "tpl_3")
              (lit "2025-11-05T10:00:00.000Z") sampleData sample V)
    as [_ [_ [_ [_ [_ [_ B]]]]]].
  apply B. left. reflexivity.
Defined.

End TemplateFacts.

(** ** The store of export presets *)

Module PresetFacts.

Import StrFacts ArrIndex StoreFacts ExportTemplates.

Section WithOptions.

Context {Options : Type}.

Definition ids (mgr : Manager Options) : Datatypes.list jsstring :=
  map id (templates mgr).

#[local] Abbreviation hasId := (hasKey (key := @id Options)).

(** The template that an entry of the metadata names, when it names one. *)
Definition look (m : option jsstring) (l : Datatypes.list (Template Options))
  : option (Template Options) :=
  if truthy m then find (fun t => isId m (id t)) l else None.

(** What stays of an entry of the metadata when [i] is deleted. *)
Definition forget (i : jsstring) (m : option jsstring) : option jsstring :=
  if isId m i then None else m.

(** A template after [markLastUsed]. *)
Definition used (now : jsstring) (t : Template Options) : Template Options :=
  {| id := id t; name := name t; includeDateRange := includeDateRange t;
     options := options t; createdAt := createdAt t;
     updatedAt := now; lastUsedAt := now |}.

Lemma find_isId (d : jsstring) (l : Datatypes.list (Template Options)) :
  find (fun t => isId (Some d) (id t)) l = find (hasId d) l.
Proof.
  apply find_ext. intros x. unfold hasKey. cbn [isId]. apply ArrFacts.eqb_sym.
Qed.

Lemma getTemplateById_decorated (mgr : Manager Options) (i : jsstring) :
  getTemplateById mgr i =
  option_map (fun t => decorateTemplate t (getMetadata mgr))
             (find (hasId i) (templates mgr)).
Proof.
  unfold getTemplateById. change (fun t => Str.eqb (id t) i) with (hasId i).
  now destruct (find (hasId i) (templates mgr)).
Qed.

Lemma look_find (m : option jsstring) (l : Datatypes.list (Template Options))
  (t : Template Options) :
  look m l = Some t -> m = Some (id t) /\ find (hasId (id t)) l = Some t.
Proof.
  unfold look. destruct m as [[|c d]|]; cbn [truthy]; try discriminate.
  rewrite find_isId. intros F. destruct (find_hasKey _ _ _ F) as [_ E].
  rewrite E. now split.
Qed.

(** The choice of [getPreferred]: the default, else the last used, else the
    first template. *)
Definition pick (meta : Metadata) (first : Template Options)
  (l : Datatypes.list (Template Options)) : Template Options :=
  match look (defaultTemplateId meta) l with
  | Some t => t
  | None =>
      match look (lastUsedTemplateId meta) l with
      | Some t => t
      | None => first
      end
  end.

Lemma getPreferred_pick (mgr : Manager Options) :
  getPreferred mgr =
  match templates mgr with
  | [] => None
  | first :: _ =>
      Some (decorateTemplate (pick (getMetadata mgr) first (templates mgr))
                             (getMetadata mgr))
  end.
Proof.
  unfold getPreferred, list, pick, look. cbv zeta.
  destruct (templates mgr) as [|first rest]; [reflexivity|].
  set (l := first :: rest). set (meta := getMetadata mgr).
  change (map (fun tpl => decorateTemplate tpl meta) l)
    with (decorateTemplate first meta
          :: map (fun tpl => decorateTemplate tpl meta) rest) at 1.
  cbv iota.
  change (decorateTemplate first meta
          :: map (fun tpl => decorateTemplate tpl meta) rest)
    with (map (fun tpl => decorateTemplate tpl meta) l).
  rewrite !find_map. cbn [template decorateTemplate].
  destruct (truthy (defaultTemplateId meta)).
  - destruct (find (fun x => isId (defaultTemplateId meta) (id x)) l);
      [reflexivity|]. cbn [option_map].
    destruct (truthy (lastUsedTemplateId meta)); [|reflexivity].
    now destruct (find (fun x => isId (lastUsedTemplateId meta) (id x)) l).
  - destruct (truthy (lastUsedTemplateId meta)); [|reflexivity].
    now destruct (find (fun x => isId (lastUsedTemplateId meta) (id x)) l).
Qed.

Lemma delete_state (i : jsstring) (mgr : Manager Options) :
  templates (delete i mgr) =
    filter (fun t => negb (Str.eqb (id t) i)) (templates mgr) /\
  getMetadata (delete i mgr) =
    {| defaultTemplateId := forget i (defaultTemplateId (getMetadata mgr));
       lastUsedTemplateId := forget i (lastUsedTemplateId (getMetadata mgr)) |} /\
  storedTemplates (delete i mgr) = Some (templates (delete i mgr)).
Proof.
  split; [reflexivity|]. split; [|reflexivity].
  unfold delete, forget, getMetadata, setMetadata, saveTemplates.
  cbn [storedMetadata templates storedTemplates].
  destruct (storedMetadata mgr) as [[d l]|];
    cbn [defaultTemplateId lastUsedTemplateId isId].
  - destruct (isId d i); cbn [defaultTemplateId lastUsedTemplateId];
      destruct (isId l i); reflexivity.
  - reflexivity.
Qed.

Lemma forget_not (i : jsstring) (m : option jsstring) : forget i m <> Some i.
Proof.
  unfold forget. destruct m as [d|]; cbn [isId]; [|discriminate].
  destruct (Str.eqb d i) eqn:E; [discriminate|].
  intros [= ->]. now rewrite eqb_refl in E.
Qed.

Lemma isId_forget (i j : jsstring) (m : option jsstring) :
  j <> i -> isId (forget i m) j = isId m j.
Proof.
  intros N. unfold forget. destruct m as [d|]; cbn [isId]; [|reflexivity].
  destruct (Str.eqb d i) eqn:E; [|reflexivity].
  apply eqb_eq in E. subst d. cbn [isId].
  destruct (Str.eqb i j) eqn:Q; [|reflexivity]. apply eqb_eq in Q. congruence.
Qed.

Lemma look_forget (i : jsstring) (m : option jsstring)
  (l : Datatypes.list (Template Options)) :
  look (forget i m) (filter (fun t => negb (Str.eqb (id t) i)) l) =
  match look m l with
  | Some t => if Str.eqb (id t) i then None else Some t
  | None => None
  end.
Proof.
  destruct (look m l) as [t|] eqn:L.
  - destruct (look_find _ _ _ L) as [-> F].
    unfold forget. cbn [isId]. destruct (Str.eqb (id t) i) eqn:E;
      [reflexivity|].
    unfold look in *. destruct (truthy (Some (id t))); [|discriminate].
    rewrite find_isId. rewrite find_filter_other; [exact F|].
    intros C. now rewrite C, eqb_refl in E.
  - unfold forget. destruct m as [d|]; [|reflexivity]. cbn [isId].
    destruct (Str.eqb d i) eqn:E; [reflexivity|].
    unfold look in *. destruct (truthy (Some d)); [|reflexivity].
    rewrite find_isId in *. rewrite find_filter_other; [exact L|].
    intros C. now rewrite C, eqb_refl in E.
Qed.

Lemma decorate_forget (i : jsstring) (t : Template Options)
  (d l l' : option jsstring) :
  id t <> i ->
  decorateTemplate t {| defaultTemplateId := forget i d;
                        lastUsedTemplateId := l |} =
  decorateTemplate t {| defaultTemplateId := d; lastUsedTemplateId := l' |}.
Proof.
  intros N. unfold decorateTemplate. cbn [defaultTemplateId].
  now rewrite isId_forget.
Qed.

Lemma pick_In (meta : Metadata) (first : Template Options)
  (l : Datatypes.list (Template Options)) :
  In first l -> In (pick meta first l) l.
Proof.
  intros I. unfold pick.
  destruct (look (defaultTemplateId meta) l) as [t|] eqn:D.
  { destruct (look_find _ _ _ D) as [_ F]. apply (find_hasKey _ _ _ F). }
  destruct (look (lastUsedTemplateId meta) l) as [t|] eqn:L; [|exact I].
  destruct (look_find _ _ _ L) as [_ F]. apply (find_hasKey _ _ _ F).
Qed.

(** Deleting another template leaves the choice as it is. *)
Lemma pick_forget (i : jsstring) (d u : option jsstring)
  (first : Template Options) (rest : Datatypes.list (Template Options)) :
  let meta := {| defaultTemplateId := d; lastUsedTemplateId := u |} in
  let meta' := {| defaultTemplateId := forget i d;
                  lastUsedTemplateId := forget i u |} in
  let chosen := pick meta first (first :: rest) in
  id chosen <> i ->
  exists first' rest',
    filter (fun t => negb (Str.eqb (id t) i)) (first :: rest)
      = first' :: rest' /\
    pick meta' first' (first' :: rest') = chosen.
Proof.
  intros meta meta' chosen N.
  set (l' := filter (fun t => negb (Str.eqb (id t) i)) (first :: rest)).
  assert (I : In chosen l').
  { apply filter_In. split; [apply pick_In; now left|].
    destruct (Str.eqb (id chosen) i) eqn:E; [|reflexivity].
    apply eqb_eq in E. tauto. }
  destruct l' as [|first' rest'] eqn:L'; [destruct I|].
  exists first', rest'. split; [reflexivity|].
  unfold pick. cbn [defaultTemplateId lastUsedTemplateId meta'].
  rewrite <- L'. unfold l'. rewrite !look_forget.
  subst chosen. unfold pick in *.
  cbn [defaultTemplateId lastUsedTemplateId meta] in *.
  destruct (look d (first :: rest)) as [t|].
  { destruct (Str.eqb (id t) i) eqn:E; [|reflexivity].
    apply eqb_eq in E. tauto. }
  destruct (look u (first :: rest)) as [t|].
  { destruct (Str.eqb (id t) i) eqn:E; [|reflexivity].
    apply eqb_eq in E. tauto. }
  unfold l' in L'. cbn [filter] in L'.
  destruct (Str.eqb (id first) i) eqn:E; [apply eqb_eq in E; tauto|].
  cbn [negb] in L'. now injection L'.
Qed.

(** X27. [delete] forgets a preset altogether: the manager no longer finds
    the identifier, neither the default nor the last used entry of the
    metadata names it, and [getPreferred] never answers with it.  The other
    presets are found as before, and a preferred preset other than the
    deleted one stays the preferred one. *)
Theorem delete_forgets (i : jsstring) (mgr : Manager Options) :
  let mgr' := delete i mgr in
  getTemplateById mgr' i = None /\
  defaultTemplateId (getMetadata mgr') <> Some i /\
  lastUsedTemplateId (getMetadata mgr') <> Some i /\
  (forall d, getPreferred mgr' = Some d -> id (template d) <> i) /\
  (forall j, j <> i -> getTemplateById mgr' j = getTemplateById mgr j) /\
  (forall d, getPreferred mgr = Some d -> id (template d) <> i ->
             getPreferred mgr' = Some d) /\
  storedTemplates mgr' = Some (templates mgr').
Proof.
  intros mgr'. destruct (delete_state i mgr) as [T [M S]].
  fold mgr' in T, M, S. clearbody mgr'.
  split; [now rewrite getTemplateById_decorated, T, find_filter_same|].
  split; [rewrite M; apply forget_not|].
  split; [rewrite M; apply forget_not|].
  split; [|split; [|split; [|exact S]]].
  - intros d. rewrite getPreferred_pick.
    destruct (templates mgr') as [|first rest] eqn:L; [discriminate|].
    intros [= <-]. cbn [decorateTemplate template].
    assert (I : In (pick (getMetadata mgr') first (first :: rest))
                   (filter (fun t => negb (Str.eqb (id t) i)) (templates mgr))).
    { rewrite <- T. apply pick_In. now left. }
    apply filter_In in I. destruct I as [_ I].
    intros C. now rewrite C, eqb_refl in I.
  - intros j J. rewrite !getTemplateById_decorated, T, M.
    rewrite find_filter_other by exact J.
    destruct (find (hasId j) (templates mgr)) as [t|] eqn:F; [|reflexivity].
    cbn [option_map]. f_equal. destruct (getMetadata mgr) as [d u].
    cbn [defaultTemplateId lastUsedTemplateId].
    apply decorate_forget. destruct (find_hasKey _ _ _ F) as [_ ->]. exact J.
  - intros d. rewrite !getPreferred_pick, T, M.
    destruct (templates mgr) as [|first rest]; [discriminate|].
    destruct (getMetadata mgr) as [dflt u].
    cbn [defaultTemplateId lastUsedTemplateId].
    intros [= <-]. cbn [decorateTemplate template]. intros N.
    destruct (pick_forget i dflt u first rest N) as [first' [rest' [-> P]]].
    rewrite P. f_equal. now apply decorate_forget.
Qed.

Lemma markLastUsed_found (later i : jsstring) (mgr : Manager Options)
  (t : Template Options) :
  find (hasId i) (templates mgr) = Some t ->
  let mgr' := markLastUsed later i mgr in
  ids mgr' = ids mgr /\
  find (hasId i) (templates mgr') = Some (used later t) /\
  (forall j, j <> i ->
             find (hasId j) (templates mgr') = find (hasId j) (templates mgr)) /\
  getMetadata mgr' =
    {| defaultTemplateId := defaultTemplateId (getMetadata mgr);
       lastUsedTemplateId := Some i |} /\
  storedTemplates mgr' = Some (templates mgr').
Proof.
  intros F. destruct (findIndex_find _ _ _ F) as [index E].
  unfold markLastUsed. cbv zeta. cbn [setMetadata templates].
  change (fun t => Str.eqb (id t) i) with (hasId i). rewrite E.
  cbn [saveTemplates templates storedTemplates storedMetadata getMetadata].
  destruct (assignAt_first (key := @id Options) (templates mgr) i index
              (used later)
              (fun t e => e) E) as [A [_ [[t' [F' [_ G]]] D]]].
  rewrite F in F'. injection F' as <-.
  split; [exact A|]. split; [exact G|]. split; [exact D|]. now split.
Qed.

(** The preferred preset when the one used last is in the store. *)
Lemma getPreferred_last (mgr : Manager Options) (i : jsstring)
  (t : Template Options) :
  i <> [] ->
  lastUsedTemplateId (getMetadata mgr) = Some i ->
  find (hasId i) (templates mgr) = Some t ->
  getPreferred mgr =
  Some match match getDefaultTemplateId mgr with
             | Some d => getTemplateById mgr d
             | None => None
             end with
       | Some d => d
       | None => decorateTemplate t (getMetadata mgr)
       end.
Proof.
  intros N U F. rewrite getPreferred_pick.
  destruct (templates mgr) as [|first rest] eqn:L; [discriminate|].
  rewrite <- L in *. f_equal. unfold pick, getDefaultTemplateId.
  rewrite U. cbv zeta.
  assert (K : look (Some i) (templates mgr) = Some t).
  { unfold look. destruct i as [|c r]; [congruence|]. cbn [truthy].
    now rewrite find_isId. }
  rewrite K. unfold look.
  destruct (defaultTemplateId (getMetadata mgr)) as [[|c r]|];
    cbn [truthy]; try reflexivity.
  rewrite find_isId, getTemplateById_decorated.
  now destruct (find (hasId (c :: r)) (templates mgr)).
Qed.

(** The end of [save]: the templates are written, the saved one is marked,
    and the answer is the template as it was before the mark. *)
Lemma save_finish (later : jsstring) (meta : Metadata)
  (saved : Template Options) (mgr : Manager Options) :
  id saved <> [] ->
  meta = getMetadata mgr ->
  find (hasId (id saved)) (templates mgr) = Some saved ->
  let mgr' := markLastUsed later (id saved) (saveTemplates mgr) in
  ids mgr' = ids mgr /\
  getTemplateById mgr' (id saved) =
    Some (decorateTemplate (used later saved) (getMetadata mgr')) /\
  getMetadata mgr' =
    {| defaultTemplateId := defaultTemplateId (getMetadata mgr);
       lastUsedTemplateId := Some (id saved) |} /\
  (forall j, j <> id saved ->
             find (hasId j) (templates mgr') = find (hasId j) (templates mgr)) /\
  getPreferred mgr' =
    Some match match getDefaultTemplateId mgr' with
               | Some d => getTemplateById mgr' d
               | None => None
               end with
         | Some d => d
         | None => decorateTemplate (used later saved) (getMetadata mgr')
         end /\
  storedTemplates mgr' = Some (templates mgr').
Proof.
  intros N M F mgr'.
  destruct (markLastUsed_found later (id saved) (saveTemplates mgr) saved F)
    as [A [G [D [U S]]]]. fold mgr' in A, G, D, U, S. clearbody mgr'.
  split; [exact A|]. split; [now rewrite getTemplateById_decorated, G|].
  split; [exact U|]. split; [exact D|]. split; [|exact S].
  apply (getPreferred_last mgr' (id saved) (used later saved));
    [exact N|now rewrite U|exact G].
Qed.

(** X28. [save] answers, and the preset that it saves becomes the one used
    last.  A payload whose identifier is in the store rewrites that preset
    in place; any other payload, one with an unknown identifier included,
    makes a new preset under a new identifier.  The manager then finds the
    preset under its identifier with the name and options of the payload
    and the time of the mark, while the answer carries the earlier time;
    the other presets are found as before; and [getPreferred] answers with
    the default preset if the store has it, and with the saved preset
    otherwise. *)
Theorem save_last_used (newId now later : jsstring) (payload : Payload Options)
  (mgr : Manager Options) :
  newId <> [] -> ~ In newId (ids mgr) ->
  exists saved mgr' stored,
    save newId now later payload mgr = Some (saved, mgr') /\
    (forall p, payloadId payload = Some p -> p <> [] -> In p (ids mgr) ->
               id (template saved) = p /\ ids mgr' = ids mgr) /\
    ((forall p, payloadId payload = Some p -> p = [] \/ ~ In p (ids mgr)) ->
     id (template saved) = newId /\ ids mgr' = ids mgr ++ [newId]) /\
    getTemplateById mgr' (id (template saved)) = Some stored /\
    template stored = used later (template saved) /\
    (name (template saved), includeDateRange (template saved),
     options (template saved), updatedAt (template saved)) =
    (payloadName payload, payloadIncludeDateRange payload,
     payloadOptions payload, now) /\
    getMetadata mgr' =
      {| defaultTemplateId := defaultTemplateId (getMetadata mgr);
         lastUsedTemplateId := Some (id (template saved)) |} /\
    (forall j, j <> id (template saved) ->
               getTemplateById mgr' j = getTemplateById mgr j) /\
    getPreferred mgr' =
      Some match match getDefaultTemplateId mgr' with
                 | Some d => getTemplateById mgr' d
                 | None => None
                 end with
           | Some d => d
           | None => stored
           end /\
    storedTemplates mgr' = Some (templates mgr').
Proof.
  intros N Fresh.
  set (built := buildTemplate newId payload now).
  (* a new preset *)
  assert (Create :
    (forall p, payloadId payload = Some p -> p = [] \/ ~ In p (ids mgr)) ->
    save newId now later payload mgr =
    Some (decorateTemplate built (getMetadata mgr),
          markLastUsed later newId (saveTemplates (push built mgr)))).
  { intros Q. unfold save. cbv zeta. fold built.
    destruct (payloadId payload) as [[|c r]|] eqn:P; cbn [truthy];
      try reflexivity.
    rewrite (findIndex_ext _ (hasId (c :: r)))
      by (intros x; cbn [isId]; apply ArrFacts.eqb_sym).
    destruct (Q _ eq_refl) as [Q'|Q']; [discriminate|].
    apply findIndex_absent in Q'. now rewrite Q'. }
  match goal with
  | |- ?G =>
      assert (Created :
        (forall p, payloadId payload = Some p -> p = [] \/ ~ In p (ids mgr))
        -> G)
  end.
  { intros Q.
    assert (F : find (hasId (id built)) (templates (push built mgr))
                = Some built) by now apply find_app_absent.
    destruct (save_finish later (getMetadata mgr) built (push built mgr)
                N eq_refl F) as [A [G [U [D [R S]]]]].
    change (id built) with newId in A, G, U, D, R, S.
    exists (decorateTemplate built (getMetadata mgr)).
    eexists. eexists. split; [exact (Create Q)|].
    cbn [template decorateTemplate]. split.
    { intros p P E I. destruct (Q p P); tauto. }
    split.
    { intros _. split; [reflexivity|]. rewrite A. apply map_app. }
    split; [exact G|]. split; [reflexivity|]. split; [reflexivity|].
    split; [exact U|]. split; [|split; [exact R|exact S]].
    intros j J. rewrite !getTemplateById_decorated, (D j J).
    cbn [push templates]. rewrite find_app_other by (intros C; now apply J).
    rewrite U. change (getMetadata (push built mgr)) with (getMetadata mgr).
    now destruct (getMetadata mgr). }
  destruct (payloadId payload) as [p|] eqn:P; [|apply Created; discriminate].
  destruct p as [|c r]; [apply Created; intros p [= <-]; now left|].
  destruct (findIndex (hasId (c :: r)) (templates mgr)) as [index|] eqn:E.
  2:{ apply Created. intros p [= <-]. right. now apply findIndex_absent. }
  (* an existing preset *)
  set (merged := fun t : Template Options =>
    {| id := id t; name := payloadName payload;
       includeDateRange := payloadIncludeDateRange payload;
       options := payloadOptions payload; createdAt := createdAt t;
       updatedAt := now; lastUsedAt := lastUsedAt t |}).
  destruct (assignAt_first (key := @id Options) (templates mgr) (c :: r) index
              merged (fun t e => e) E) as [A [_ [[old [F [H G]]] D]]].
  set (mgr1 := {| templates := assignAt index merged (templates mgr);
                  storedTemplates := storedTemplates mgr;
                  storedMetadata := storedMetadata mgr |}).
  assert (I : id (merged old) = c :: r) by apply (find_hasKey _ _ _ F).
  assert (Save : save newId now later payload mgr =
                 Some (decorateTemplate (merged old) (getMetadata mgr),
                       markLastUsed later (id (merged old))
                                    (saveTemplates mgr1))).
  { unfold save. cbv zeta. rewrite P. cbn [truthy].
    rewrite (findIndex_ext _ (hasId (c :: r)))
      by (intros x; cbn [isId]; apply ArrFacts.eqb_sym).
    rewrite E. cbn [templates]. fold merged. now rewrite H. }
  assert (F1 : find (hasId (id (merged old))) (templates mgr1)
               = Some (merged old)) by (rewrite I; exact G).
  assert (N1 : id (merged old) <> []) by (rewrite I; discriminate).
  destruct (save_finish later (getMetadata mgr) (merged old) mgr1
              N1 eq_refl F1) as [A1 [G1 [U1 [D1 [R1 S1]]]]].
  exists (decorateTemplate (merged old) (getMetadata mgr)).
  eexists. eexists. split; [exact Save|].
  cbn [template decorateTemplate]. split.
  { intros p [= <-] _ _. split; [exact I|]. rewrite A1. exact A. }
  split.
  { intros Q. exfalso. destruct (Q _ eq_refl) as [Q'|Q']; [discriminate|].
    apply findIndex_absent in Q'. congruence. }
  split; [exact G1|]. split; [reflexivity|]. split; [reflexivity|].
  split; [exact U1|]. split; [|split; [exact R1|exact S1]].
  intros j J. rewrite !getTemplateById_decorated, (D1 j J).
  cbn [mgr1 templates]. rewrite D by (rewrite <- I; exact J).
  rewrite U1. change (getMetadata mgr1) with (getMetadata mgr).
  now destruct (getMetadata mgr).
Qed.

End WithOptions.

(** A store with one preset, whose options are a group level. *)
Definition sample : Manager jsstring :=
  {| templates := [ {| id := lit "a"; name := lit "Monthly";
                       includeDateRange := true; options := lit "month";
                       createdAt := lit "2025-10-01T08:00:00.000Z";
                       updatedAt := lit "2025-10-01T08:00:00.000Z";
                       lastUsedAt := lit "2025-10-01T08:00:00.000Z" |} ];
     storedTemplates := None;
     storedMetadata := None |}.

Definition samplePayload : Payload jsstring :=
  {| payloadId := None; payloadName := lit "Weekly";
     payloadIncludeDateRange := false; payloadOptions := lit "week" |}.

Lemma save_last_used_witness :
  exists saved mgr',
    save (lit "b") (lit "2025-11-05T10:00:00.000Z")
         (lit "2025-11-05T10:00:00.001Z") samplePayload sample
    = Some (saved, mgr') /\
    id (template saved) = lit "b" /\
    option_map (fun d => id (template d)) (getPreferred mgr') = Some (lit "b").
Proof.
  assert (N : lit "b" <> []) by discriminate.
  assert (F : ~ In (lit "b") (ids sample)).
  { cbn [In ids sample templates map id]. intros [C|[]]. discriminate C. }
  destruct (save_last_used (lit "b") (lit "2025-11-05T10:00:00.000Z")
              (lit "2025-11-05T10:00:00.001Z") samplePayload sample N F)
    as [saved [mgr' [stored [S [_ [C [G [U [_ [M [_ [R _]]]]]]]]]]]].
  exists saved, mgr'. split; [exact S|].
  destruct C as [C _]; [intros p [=]|]. split; [exact C|].
  rewrite R. unfold getDefaultTemplateId. rewrite M.
  cbn [defaultTemplateId getMetadata sample storedMetadata truthy option_map].
  rewrite U. cbn [template used id]. now rewrite C.
Defined.

End PresetFacts.

(** ** The events of a multi-day booking *)

Module BookingFacts.

Import Str StrFacts Regex Direct StripFacts PatternFacts.
Import ClassifierFacts ArrFacts SortFacts NameFacts TextListFacts WorkFacts.
Import LabelFacts WeekFacts MultiDay.

Local Open Scope Z_scope.

(** Tokens none of whose characters matches a space. *)
Definition solid (tokens : list jsstring) : bool :=
  forallb (forallb (fun c => negb (ceqb (canonicalize c) 32%N))) tokens.

Lemma token_blocked (x : char) (tail : jsstring) (w : jsstring) :
  isWhiteSpace x = false ->
  forallb (fun c => negb (ceqb (canonicalize c) 32%N)) w = true ->
  forall a,
    startsWithNoCase w (a ++ 32%N :: x :: tail)
    && forallb isWhiteSpace (skipn (length w) (a ++ 32%N :: x :: tail))
    = false.
Proof.
  intros X. induction w as [|c w IH]; intros S a.
  - cbn [startsWithNoCase length skipn andb].
    rewrite forallb_app. cbn [forallb]. rewrite X. cbn [andb].
    now rewrite !andb_false_r.
  - cbn [forallb] in S. apply andb_true_iff in S as [C S].
    destruct a as [|y a]; cbn [app startsWithNoCase length skipn].
    + change (canonicalize 32%N) with 32%N.
      apply negb_true_iff in C. now rewrite C.
    + rewrite <- andb_assoc. rewrite (IH S a). apply andb_false_r.
Qed.

Lemma tokenThenSpace_blocked (tokens : list jsstring) (x : char)
  (a tail : jsstring) :
  solid tokens = true -> isWhiteSpace x = false ->
  tokenThenSpace tokens (a ++ 32%N :: x :: tail) = false.
Proof.
  intros S X. unfold tokenThenSpace, solid in *.
  induction tokens as [|w tokens IH]; [reflexivity|].
  cbn [forallb existsb] in *. apply andb_true_iff in S as [W S].
  now rewrite token_blocked, IH.
Qed.

(** Stripping a trailing token passes over a name that is followed by a
    space and a word. *)
Lemma stripTrailing_through (tokens : list jsstring) (x : char)
  (tail : jsstring) :
  solid tokens = true -> isWhiteSpace x = false ->
  forall a prev,
    stripTrailing tokens prev (a ++ 32%N :: x :: tail) =
    a ++ 32%N :: stripTrailing tokens (Some 32%N) (x :: tail).
Proof.
  intros S X. induction a as [|c a IH]; intros prev.
  - cbn [app]. pose proof (tokenThenSpace_blocked tokens x [] tail S X) as B.
    cbn [app] in B.
    change (stripTrailing tokens prev (32%N :: x :: tail))
      with (if atWordBoundary prev (32%N :: x :: tail)
               && tokenThenSpace tokens (32%N :: x :: tail)
            then []
            else 32%N :: stripTrailing tokens (Some 32%N) (x :: tail)).
    now rewrite B, andb_false_r.
  - cbn [app].
    pose proof (tokenThenSpace_blocked tokens x (c :: a) tail S X) as B.
    cbn [app] in B.
    change (stripTrailing tokens prev (c :: a ++ 32%N :: x :: tail))
      with (if atWordBoundary prev (c :: a ++ 32%N :: x :: tail)
               && tokenThenSpace tokens (c :: a ++ 32%N :: x :: tail)
            then []
            else c :: stripTrailing tokens (Some c) (a ++ 32%N :: x :: tail)).
    now rewrite B, andb_false_r, IH.
Qed.

Lemma hasAnnotation_tail (a b : jsstring) :
  hasAnnotation a = false -> hasClose b = false -> hasAnnotation b = false ->
  hasAnnotation (a ++ b) = false.
Proof.
  intros A C B. induction a as [|c a IH]; [exact B|].
  cbn [app hasAnnotation] in *. apply orb_false_iff in A as [A1 A2].
  rewrite (IH A2), orb_false_r, hasClose_app, C, orb_false_r. exact A1.
Qed.

Lemma takeWhile_all (p : char -> bool) (s : jsstring) :
  forallb p s = true -> takeWhile p s = s.
Proof.
  induction s as [|c s IH]; [reflexivity|]. cbn [forallb takeWhile].
  intros E. apply andb_true_iff in E as [-> E]. now rewrite IH.
Qed.

Lemma length_trimStart (s : jsstring) :
  (length (trimStart s) <= length s)%nat.
Proof.
  induction s as [|c s IH]; [reflexivity|]. cbn [trimStart].
  destruct (isWhiteSpace c); cbn [length]; lia.
Qed.

(** A trimmed string does not begin with white space. *)
Lemma trimmed_head (c : char) (s : jsstring) :
  trim (c :: s) = c :: s -> isWhiteSpace c = false.
Proof.
  intros T. destruct (isWhiteSpace c) eqn:W; [exfalso|reflexivity].
  destruct (trimEnd_split (trimStart (c :: s))) as [w [_ E]].
  fold (trim (c :: s)) in E. rewrite T in E.
  apply (f_equal (@length char)) in E. rewrite length_app in E.
  cbn [trimStart] in E. rewrite W in E.
  pose proof (length_trimStart s). cbn [length] in E. lia.
Qed.

(** A client name as the booking form supplies it: not empty, trimmed,
    without a dash and without a parenthetical note, and not ending in a
    marker of its own. *)
Definition plainName (n : jsstring) : Prop :=
  n <> [] /\ trim n = n /\ forallb Exporter.notDash n = true /\
  hasAnnotation n = false /\ stripTrailing markerTokens None n = n.

Lemma trim_title (c x : char) (a tail : jsstring) :
  isWhiteSpace c = false -> isWhiteSpace x = false ->
  trim (c :: a ++ 32%N :: x :: tail) = c :: a ++ 32%N :: x :: trimEnd tail.
Proof.
  intros C X.
  replace (a ++ 32%N :: x :: tail) with ((a ++ [32%N]) ++ x :: tail)
    by (now rewrite <- app_assoc).
  rewrite trim_solid_core by assumption. now rewrite <- app_assoc.
Qed.

(** Reading the client name back from [name token], for a token given by
    its first character and the rest. *)
Lemma extractClientName_token (c x : char) (a tail : jsstring) :
  plainName (c :: a) ->
  isWhiteSpace x = false ->
  trimEnd tail = tail ->
  forallb Exporter.notDash (32%N :: x :: tail) = true ->
  hasClose (32%N :: x :: tail) = false ->
  hasAnnotation (32%N :: x :: tail) = false ->
  stripTrailing durationTokens (Some 32%N) (x :: tail) = []
  \/ stripTrailing durationTokens (Some 32%N) (x :: tail) = x :: tail
     /\ stripTrailing markerTokens (Some 32%N) (x :: tail) = [] ->
  Exporter.extractClientName (Some ((c :: a) ++ 32%N :: x :: tail)) = c :: a.
Proof.
  intros [_ [T [D [A M]]]] X K2 K3 K4 K5 K6.
  pose proof (trimmed_head _ _ T) as C.
  assert (S1 : solid durationTokens = true) by reflexivity.
  assert (S2 : solid markerTokens = true) by reflexivity.
  assert (W : forallb isWhiteSpace [32%N] = true) by reflexivity.
  rewrite extractClientName_cases. cbv zeta. unfold stripParentheticals.
  rewrite stripFrom_none by now apply hasAnnotation_tail.
  assert (Tr : trim ((c :: a) ++ 32%N :: x :: tail)
               = (c :: a) ++ 32%N :: x :: tail).
  { cbn [app]. rewrite trim_title by assumption. now rewrite K2. }
  rewrite Tr. rewrite takeWhile_all by (rewrite forallb_app; now rewrite D, K3).
  change (match (c :: a) ++ 32%N :: x :: tail with
          | [] => (c :: a) ++ 32%N :: x :: tail
          | n :: l =>
              trim (stripTrailing markerTokens None
                      (trim (stripTrailing durationTokens None (trim (n :: l)))))
          end)
    with (trim (stripTrailing markerTokens None
                  (trim (stripTrailing durationTokens None
                           (trim ((c :: a) ++ 32%N :: x :: tail)))))).
  rewrite Tr, (stripTrailing_through durationTokens x tail S1 X).
  destruct K6 as [K|[K K']]; rewrite K.
  - rewrite (trim_app_ws (c :: a) [32%N] W), T, M. exact T.
  - rewrite Tr, (stripTrailing_through markerTokens x tail S2 X), K'.
    rewrite (trim_app_ws (c :: a) [32%N] W). exact T.
Qed.

(** The title that the generator writes for a plain name and a closing
    token is read back by the exporter and by the classifier. *)
Lemma title_read_back (n token : jsstring) :
  plainName n -> In token closingTokens ->
  let title := n ++ lit " " ++ token in
  Exporter.extractClientName (Some title) = n /\
  (EventProcessor.isDefinitelyPersonal (Some title) = false ->
   EventProcessor.isWorkEvent (EventProcessor.OfTitle title) = true).
Proof.
  intros P I title. split.
  - destruct n as [|c a]; [now destruct P|].
    subst title. unfold closingTokens, durationTokens in I.
    cbn [app In] in I.
    repeat (destruct I as [<-|I];
            [apply (extractClientName_token c _ a _ P);
             try reflexivity; (left; reflexivity) || (right; now split)|]).
    contradiction.
  - intros Q. rewrite (isWorkEvent_not_personal _ Q).
    destruct P as [NE [T [D [A M]]]].
    destruct n as [|c a]; [congruence|].
    pose proof (trimmed_head _ _ T) as C.
    assert (B : atWordBoundary (Some 32%N) token = true
                /\ trim (stripParentheticals title) = title).
    { subst title. unfold closingTokens, durationTokens in I.
      cbn [app In] in I. unfold stripParentheticals.
      repeat (destruct I as [<-|I];
              [split; [reflexivity|];
               rewrite stripFrom_none
                 by (apply hasAnnotation_tail; [exact A|reflexivity..]);
               cbn [app lit]; apply trim_title; [exact C|reflexivity]|]).
      contradiction. }
    destruct B as [B ->]. subst title.
    change (lit " " ++ token) with ([32%N] ++ token). rewrite app_assoc.
    apply matchesWork_closing; [exact I|].
    rewrite map_app. change (map Some [32%N]) with [Some 32%N].
    now rewrite last_last.
Qed.

Section WithPlatform.

Context `{Platform}.

Lemma visitEvent_fields (mgr : Templates.Manager) (config : Config)
  (currentDate : Z) (visit : Visit) (newId : jsstring) :
  let event := visitEvent mgr config currentDate visit newId in
  id event = newId /\
  title event = clientName config ++ lit " " ++ ofZ (durationOf mgr visit) /\
  (isWorkEvent event, ignored event, isLocal event) = (true, false, true) /\
  eventLocation event = location config /\
  start event =
    setHours (Some currentDate) (fst (timeParts (time visit)))
             (snd (timeParts (time visit))) /\
  end_ event = addMinutes (start event) (durationOf mgr visit).
Proof.
  unfold visitEvent. destruct (timeParts (time visit)) as [hours minutes].
  cbn [id title isWorkEvent ignored isLocal eventLocation start end_ fst snd].
  repeat split.
Qed.

Lemma identified_In (ids : nat -> jsstring)
  (l : list (jsstring -> BookedEvent)) (event : BookedEvent) :
  forall n, In event (identified ids n l) ->
            exists f k, In f l /\ event = f (ids k).
Proof.
  induction l as [|f l IH]; intros n; cbn [identified In]; [tauto|].
  intros [<-|I]; [exists f, n; now split; [left|]|].
  destruct (IH _ I) as [g [k [G E]]]. exists g, k. now split; [right|].
Qed.

Lemma identified_length (ids : nat -> jsstring)
  (l : list (jsstring -> BookedEvent)) :
  forall n, length (identified ids n l) = length l.
Proof.
  induction l as [|f l IH]; intros n; cbn [identified length];
    [reflexivity|]. now rewrite IH.
Qed.

Lemma identified_ids (ids : nat -> jsstring)
  (l : list (jsstring -> BookedEvent)) :
  (forall f i, In f l -> id (f i) = i) ->
  forall n, map id (identified ids n l) = map ids (seq n (length l)).
Proof.
  induction l as [|f l IH]; intros F n; [reflexivity|].
  cbn [identified map length seq]. rewrite (F f) by now left.
  f_equal. apply IH. intros g i G. apply F. now right.
Qed.

(** The visits of [config], whatever the day. *)
Definition allVisits (config : Config) : list Visit :=
  visits config ++ orEmptyList (weekendVisits config)
  ++ match dropinConfig config with
     | Some dropinConfig => orEmptyList (dropinVisits dropinConfig)
     | None => []
     end.

(** What is pushed: the overnight event or the event of a visit. *)
Lemma pushed_In (mgr : Templates.Manager) (config : Config)
  (f : jsstring -> BookedEvent) :
  In f (pushed mgr config) ->
  (forall i, id (f i) = i) /\
  ((forall i, title (f i) = clientName config ++ lit " HS"
              /\ type (f i) = lit "overnight"
              /\ (isWorkEvent (f i), ignored (f i), isLocal (f i))
                 = (true, false, true)
              /\ eventLocation (f i) = location config)
   \/ exists currentDate visit,
        In visit (allVisits config) /\
        f = visitEvent mgr config currentDate visit).
Proof.
  unfold pushed, allVisits. cbv zeta.
  destruct (Str.eqb (bookingType config) (lit "daily-visits")).
  { intros I. apply in_flat_map in I. destruct I as [k [_ I]].
    destruct (currentDateOf _ k) as [currentDate|]; [|destruct I].
    apply in_map_iff in I. destruct I as [visit [<- I]].
    split; [intros i; apply visitEvent_fields|]. right.
    exists currentDate, visit. split; [|reflexivity].
    destruct (_ && nonEmpty (weekendVisits config));
      apply in_or_app; [right; apply in_or_app|]; now left. }
  destruct (Str.eqb (bookingType config) (lit "overnight-stay"));
    [|intros []].
  intros I. apply in_app_or in I. destruct I as [I|I].
  - destruct (overnightConfig config) as [oc|]; [|destruct I].
    destruct (timeParts (arrivalTime oc)), (timeParts (departureTime oc)).
    destruct I as [<-|[]]. split; [reflexivity|]. left. intros i.
    repeat split.
  - destruct (dropinConfig config) as [dc|]; [|destruct I].
    destruct (enabled dc && nonEmpty (dropinVisits dc)); [|destruct I].
    apply in_flat_map in I. destruct I as [k [_ I]].
    destruct ((k =? 0) && skipFirstDay dc); [destruct I|].
    destruct (_ && skipLastDay dc); [destruct I|].
    destruct (currentDateOf _ k) as [currentDate|]; [|destruct I].
    apply in_map_iff in I. destruct I as [visit [<- I]].
    split; [intros i; apply visitEvent_fields|]. right.
    exists currentDate, visit. split; [|reflexivity].
    apply in_or_app. right. apply in_or_app. now right.
Qed.

(** X29. Every event that [generateMultiDayEvents] makes is marked as a
    work event and carries the location of the booking; its title is the
    client name, a space and either HS, for the overnight stay, or the
    duration of a visit of the booking.  For a plain client name and a
    duration of 15, 20, 30, 45 or 60 minutes (or HS) the exporter reads the
    client name back from the title, and [EventProcessor.isWorkEvent] takes
    the title for a work event unless it matches a personal pattern. *)
Theorem booked_titles (ids : nat -> jsstring) (mgr : Templates.Manager)
  (config : Config) (event : BookedEvent) :
  In event (generateMultiDayEvents ids mgr config) ->
  (isWorkEvent event, ignored event, isLocal event) = (true, false, true) /\
  eventLocation event = location config /\
  exists suffix,
    title event = clientName config ++ lit " " ++ suffix /\
    (suffix = lit "HS" /\ type event = lit "overnight"
     \/ exists visit, In visit (allVisits config) /\
                      suffix = ofZ (durationOf mgr visit)) /\
    (plainName (clientName config) -> In suffix closingTokens ->
     Exporter.extractClientName (Some (title event)) = clientName config /\
     (EventProcessor.isDefinitelyPersonal (Some (title event)) = false ->
      EventProcessor.isWorkEvent (EventProcessor.OfTitle (title event))
      = true)).
Proof.
  unfold generateMultiDayEvents. cbv zeta. intros I.
  apply sort_In in I. apply identified_In in I.
  destruct I as [f [k [I ->]]].
  destruct (pushed_In mgr config f I) as [_ [O|[currentDate [visit [V ->]]]]].
  - destruct (O (ids k)) as [T [Ty [W L]]].
    split; [exact W|]. split; [exact L|]. exists (lit "HS").
    split; [exact T|]. split; [now left|].
    intros P C. rewrite T. now apply title_read_back.
  - destruct (visitEvent_fields mgr config currentDate visit (ids k))
      as [_ [T [W [L _]]]].
    split; [exact W|]. split; [exact L|].
    exists (ofZ (durationOf mgr visit)).
    split; [exact T|]. split; [right; now exists visit|].
    intros P C. rewrite T. now apply title_read_back.
Qed.

(** The visits of the day of [currentDate]. *)
Definition visitsOn (config : Config) (currentDate : Z) : list Visit :=
  if ((getDay currentDate =? 0) || (getDay currentDate =? 6))
     && nonEmpty (weekendVisits config)
  then orEmptyList (weekendVisits config)
  else visits config.

(** [currentDate] for [dayOffset]: the time of day of [start], so many
    days on. *)
Definition dayOf (s dayOffset : Z) : Z :=
  UTC (LocalTime s + dayOffset * msPerDay).

Lemma time_fields (lt d : Z) :
  MakeDate (Day lt)
    (MakeTime (HourFromTime lt) (MinFromTime lt + d) (SecFromTime lt)
              (msFromTime lt))
  = lt + d * msPerMinute.
Proof.
  unfold MakeDate, Day, MakeTime, HourFromTime, MinFromTime, SecFromTime,
    msFromTime, msPerDay, msPerHour, msPerMinute, msPerSecond.
  pose proof (Z.div_mod lt 1000 ltac:(lia)) as E1.
  pose proof (Z.div_mod (lt / 1000) 60 ltac:(lia)) as E2.
  pose proof (Z.div_mod (lt / 60000) 60 ltac:(lia)) as E3.
  pose proof (Z.div_mod (lt / 3600000) 24 ltac:(lia)) as E4.
  rewrite (Z.div_div lt 1000 60) in E2 by lia.
  rewrite (Z.div_div lt 60000 60) in E3 by lia.
  rewrite (Z.div_div lt 3600000 24) in E4 by lia.
  change (1000 * 60) with 60000 in E2. change (60000 * 60) with 3600000 in E3.
  change (3600000 * 24) with 86400000 in E4. lia.
Qed.

Lemma pushed_daily (mgr : Templates.Manager) (config : Config) (s e : Z) :
  bookingType config = lit "daily-visits" ->
  parseDate (startDate config) = Some s ->
  parseDate (endDate config) = Some e ->
  pushed mgr config =
  flat_map (fun k => map (visitEvent mgr config (dayOf s (Z.of_nat k)))
                         (visitsOn config (dayOf s (Z.of_nat k))))
           (seq 0 (Z.to_nat (Exporter.ceilDiv (e - s) msPerDay + 1))).
Proof.
  intros B S E. unfold pushed. cbv zeta. rewrite B, S, E.
  change (Str.eqb (lit "daily-visits") (lit "daily-visits")) with true.
  cbv iota. cbn [dayCountOf dayOffsets currentDateOf].
  rewrite flat_map_concat_map, map_map, <- flat_map_concat_map.
  apply flat_map_ext. intros k. rewrite setDate_local.
  replace (getDate s + Z.of_nat k - getDate s) with (Z.of_nat k) by lia.
  reflexivity.
Qed.

Lemma compareStarts_total (a b : BookedEvent) :
  compareStarts a b <= 0 \/ compareStarts b a <= 0.
Proof.
  unfold compareStarts. destruct (start a), (start b); lia.
Qed.

(** X30. The schedule of a booking of daily visits whose dates are valid.
    With [n] days, one more than the days from start to end rounded up, the
    result holds for each day offset below [n] one event for each visit of
    that day (the weekend visits on Saturday and Sunday, if there are any),
    each under one of the identifiers drawn, and no two adjacent events are
    out of order by start.  The event of a visit at [h:m] on day offset [k]
    starts at that local time on the [k]-th day after the local day of the
    start date and ends [duration] minutes later in local time, provided
    that the local times involved are read back as they are. *)
Theorem daily_visits_schedule (ids : nat -> jsstring)
  (mgr : Templates.Manager) (config : Config) (s e : Z) :
  bookingType config = lit "daily-visits" ->
  parseDate (startDate config) = Some s ->
  parseDate (endDate config) = Some e ->
  let n := Exporter.ceilDiv (e - s) msPerDay + 1 in
  let result := generateMultiDayEvents ids mgr config in
  length result =
    list_sum (map (fun k => length (visitsOn config (dayOf s (Z.of_nat k))))
                  (seq 0 (Z.to_nat n))) /\
  (weekendVisits config = None ->
   length result = (Z.to_nat n * length (visits config))%nat) /\
  Sorted (fun a b => compareStarts a b <= 0) result /\
  Permutation (map id result) (map ids (seq 0 (length result))) /\
  forall event, In event result ->
    exists k visit,
      0 <= k < n /\ In visit (visitsOn config (dayOf s k)) /\
      title event = clientName config ++ lit " " ++ ofZ (durationOf mgr visit)
      /\
      forall h m,
        timeParts (time visit) = (Some h, Some m) ->
        sameDay (LocalTime s + k * msPerDay) ->
        let local := (localDay s + k) * msPerDay + MakeTime h m 0 0 in
        start event = Some (UTC local) /\
        (LocalTime (UTC local) = local ->
         end_ event
         = Some (UTC (local + durationOf mgr visit * msPerMinute))).
Proof.
  intros B S E n result.
  pose proof (pushed_daily mgr config s e B S E) as P. fold n in P.
  assert (L : length result = length (pushed mgr config)).
  { unfold result, generateMultiDayEvents. cbv zeta.
    rewrite (Permutation_length (sort_perm _ _)). apply identified_length. }
  assert (Len : length result =
    list_sum (map (fun k => length (visitsOn config (dayOf s (Z.of_nat k))))
                  (seq 0 (Z.to_nat n)))).
  { rewrite L, P, length_flat_map. f_equal. apply map_ext.
    intros k. apply length_map. }
  split; [exact Len|]. split; [|split; [|split]].
  - intros W. rewrite L, P.
    rewrite (flat_map_constant_length (c := length (visits config))).
    + now rewrite length_seq.
    + intros k _. rewrite length_map. unfold visitsOn. rewrite W.
      cbn [nonEmpty]. now rewrite andb_false_r.
  - apply sort_Sorted. apply compareStarts_total.
  - unfold result at 1, generateMultiDayEvents. cbv zeta.
    rewrite (Permutation_map id (sort_perm _ _)).
    rewrite identified_ids, L; [reflexivity|].
    intros f i F. apply (pushed_In mgr config f F).
  - intros event I. unfold result, generateMultiDayEvents in I.
    cbv zeta in I. apply sort_In in I. apply identified_In in I.
    destruct I as [f [j [I ->]]]. rewrite P in I.
    apply in_flat_map in I. destruct I as [k [K I]].
    apply in_map_iff in I. destruct I as [visit [<- V]].
    apply in_seq in K. exists (Z.of_nat k), visit.
    split; [lia|]. split; [exact V|].
    destruct (visitEvent_fields mgr config (dayOf s (Z.of_nat k)) visit
                (ids j)) as [_ [T [_ [_ [St En]]]]].
    split; [exact T|]. intros h m TP SD local.
    assert (St' : start (visitEvent mgr config (dayOf s (Z.of_nat k)) visit
                           (ids j)) = Some (UTC local)).
    { rewrite St, TP. cbn [fst snd setHours]. f_equal. f_equal.
      unfold dayOf. rewrite SD. unfold local, localDay, MakeDate. f_equal.
      unfold Day, msPerDay. rewrite Z.div_add by lia. reflexivity. }
    split; [exact St'|]. intros Back. rewrite En, St'. cbn [addMinutes].
    unfold getMinutes. rewrite Back. now rewrite time_fields.
Qed.

End WithPlatform.

(** Eastern time with the two dates of the example below, which
    [new Date] reads as midnight UTC. *)
Definition exampleZone : Platform := {|
  LocalTZA := Reference.easternOffset;
  toLowerCase := Reference.asciiLower;
  localeCompare := Reference.codeUnitCompare;
  parseDate := fun text =>
    if Str.eqb text (lit "2025-11-03") then Some 1762128000000
    else if Str.eqb text (lit "2025-11-05") then Some 1762300800000
    else None
|}.

(** Two visits a day for Bella from 3 to 5 November 2025. *)
Definition exampleConfig : Config := {|
  clientName := lit "Bella";
  location := lit "12 Oak St";
  startDate := lit "2025-11-03";
  endDate := lit "2025-11-05";
  bookingType := lit "daily-visits";
  visits := [ {| templateId := None; time := lit "09:00";
                 duration := Some 30 |};
              {| templateId := Some (lit "tpl_2"); time := lit "17:30";
                 duration := Some 45 |} ];
  weekendVisits := None;
  overnightConfig := None;
  dropinConfig := None
|}.

Definition exampleIds (n : nat) : jsstring :=
  lit "tpl_" ++ ofZ (Z.of_nat n).

Definition exampleEvents : list BookedEvent :=
  Eval vm_compute in
    @generateMultiDayEvents exampleZone exampleIds TemplateFacts.sample
      exampleConfig.

Lemma exampleEvents_generated :
  @generateMultiDayEvents exampleZone exampleIds TemplateFacts.sample
    exampleConfig = exampleEvents.
Proof. vm_compute. reflexivity. Qed.

Lemma booked_titles_witness :
  exists event,
    In event (@generateMultiDayEvents exampleZone exampleIds
                TemplateFacts.sample exampleConfig) /\
    Exporter.extractClientName (Some (title event)) = lit "Bella".
Proof.
  pose proof exampleEvents_generated as E. unfold exampleEvents in E.
  match type of E with _ = ?e :: _ => exists e end.
  assert (I : In {| id := lit "tpl_0"; title := lit "Bella 30";
                    start := Some 1762092000000;
                    end_ := Some 1762093800000;
                    eventLocation := lit "12 Oak St"; type := lit "dropin";
                    eventTemplateId := None; isLocal := true;
                    ignored := false; isWorkEvent := true |}
                (@generateMultiDayEvents exampleZone exampleIds
                   TemplateFacts.sample exampleConfig))
    by (rewrite E; left; reflexivity).
  split; [exact I|].
  destruct (@booked_titles exampleZone exampleIds TemplateFacts.sample
              exampleConfig _ I) as [_ [_ [suffix [T [_ R]]]]].
  assert (S : suffix = lit "30").
  { vm_compute in T. injection T as T. symmetry. exact T. }
  subst suffix.
  assert (P : plainName (lit "Bella")).
  { split; [discriminate|]. repeat split; reflexivity. }
  apply (R P). unfold closingTokens, durationTokens.
  cbn [app In]. tauto.
Defined.

Lemma daily_visits_schedule_witness :
  length (@generateMultiDayEvents exampleZone exampleIds
            TemplateFacts.sample exampleConfig) = 6%nat.
Proof.
  destruct (@daily_visits_schedule exampleZone exampleIds
              TemplateFacts.sample exampleConfig
              1762128000000 1762300800000 eq_refl eq_refl eq_refl)
    as [_ [W _]].
  rewrite (W eq_refl). vm_compute. reflexivity.
Defined.

End BookingFacts.

Set Implicit Arguments.

(** ** The scenarios of the specification *)

Module Scenarios.

Import Exporter.

Definition november : TextOptions := {|
  startDate := Some 1761955200000%Z;     (* 2025-11-01 *)
  endDate := Some 1764460800000%Z;       (* 2025-11-30 *)
  includeTime := false;
  includeLocation := false;
  groupBy := lit "date";
  groupSort := {| sortBy := lit "date"; sortOrder := lit "asc" |};
  eventSort := LevelArray [defaultLevel];
  workEventsOnly := true
|}.

Definition rule : jsstring := repeat_str (lit "=") 50.

(** "Bella 30" at 10:00 and "Lunch" at 12:00 on 2025-11-15, work events
    only: one entry, for Bella. *)
Example work_events_only :
  @generateTextList Reference.platform Reference.processor
    [Reference.event "Bella 30" 1763200800000 1763202600000;
     Reference.event "Lunch" 1763208000000 1763211600000]
    november
  = lit "Work Events Summary" ++ newline
    ++ lit "11/15/2025 - 11/15/2025" ++ newline
    ++ lit "Total: 1 event" ++ newline
    ++ rule ++ newline ++ newline
    ++ lit "11/15/2025 (1 event)" ++ newline
    ++ lit "    " ++ bullet ++ lit " Bella | 30-min".
Proof. vm_compute. reflexivity. Qed.

(** "Milo 30" and "Milo 45" grouped by client, then service: one group
    "Milo (2 events)" with the subgroups "30-min" and "45-min" of one event
    each. *)
Example client_then_service :
  @generateTextList Reference.platform Reference.processor
    [Reference.event "Milo 30" 1763200800000 1763202600000;
     Reference.event "Milo 45" 1763208000000 1763210700000]
    {| startDate := startDate november; endDate := endDate november;
       includeTime := false; includeLocation := false;
       groupBy := lit "client-service"; groupSort := groupSort november;
       eventSort := eventSort november; workEventsOnly := true |}
  = lit "Work Events Summary" ++ newline
    ++ lit "11/15/2025 - 11/15/2025" ++ newline
    ++ lit "Total: 2 events" ++ newline
    ++ rule ++ newline ++ newline
    ++ lit "Milo (2 events)" ++ newline
    ++ lit "  30-min (1 event)" ++ newline
    ++ lit "      " ++ bullet ++ lit " 11/15/2025 | Milo | 30-min" ++ newline
    ++ newline
    ++ lit "  45-min (1 event)" ++ newline
    ++ lit "      " ++ bullet ++ lit " 11/15/2025 | Milo | 45-min".
Proof. vm_compute. reflexivity. Qed.

(** Nothing left after the filters: the sentinel message. *)
Example no_events_found :
  @generateTextList Reference.platform Reference.processor
    [Reference.event "Lunch" 1763208000000 1763211600000] november
  = lit "No events found in the selected date range.".
Proof. vm_compute. reflexivity. Qed.

End Scenarios.
